(* ===== verification/_CoqProject ===== *)
-Q . S2P
Prelude.v
Base64.v
Sha256.v
Tokens.v
Heap.v
GoSort.v
GoStrings.v
GoTime.v
RelayTypes.v
StoreSpec.v
StoreHistory.v
Memory.v
MemoryInv.v
MemoryProps.v
Waiters.v
RedisStore.v
RedisInv.v
RedisProps.v
RedisReplicas.v
Json.v
Crypto.v
Envelope.v
EnvelopeProps.v
GoNet.v
Link.v
LinkProps.v
GoFloat.v
GoOs.v
GoStrconv.v
Flags.v
RateLimit.v
Config.v
Server.v
Handlers.v
HandlersInv.v
System.v
SystemProps.v
Secrets.v
Manager.v
ManagerProps.v
GoText.v
JsonDoc.v
JsonDocProps.v
RelayMain.v
Records.v
AuditLog.v
AgentConfig.v
Client.v
Redact.v
Agent.v
Human.v
AgentProps.v
Run.v
Mcp.v
Commands.v
Wire.v
Exchange.v
FileAtomic.v
Keychain.v
KeychainProps.v
Dotenv.v
AgeVault.v
VaultLock.v
Cli.v
BackendSpec.v
DotenvProps.v
AgeVaultProps.v
Gcp.v
Aws.v
Azure.v
Doppler.v
Infisical.v
OnePassword.v
Bitwarden.v
HcVault.v
AgentSetup.v
SetupCommands.v
VendorProps.v
VendorStores.v
VendorRuns.v
