(* ===== verification/Prelude.v ===== *)
(** * A verification of burndrop

    burndrop hands a secret from one party to another through a relay that
    never sees it: a human opens a drop link and encrypts a secret for an
    agent, or an agent encrypts a secret into a reveal link for a human.  The
    relay keeps the ciphertext in a slot that can be read once.  This library
    models the Go code under src/ and proves what makes it correct.

    ** The program and its files here

    - Slots on the relay (src/internal/relay/types.go, store.go, memory.go).
      [RelayTypes] has kinds, states, slots, the store interface as a class
      [Store], histories of operations and a generic forward simulation.
      [StoreSpec] is the abstract store: one map of slots, every operation a
      function of one slot.  [StoreHistory] proves properties of all runs of
      the abstract store.  [Memory] is the store of the relay with its timer
      heap ([Heap]: container/heap), lazy expiry, sweeping and the two
      critical sections of a long poll.  [MemoryInv] is its invariant and the
      refinement: every operation answers as the abstract store does on
      [abs m].  [MemoryProps] carries the properties over.  [Waiters] is the
      step relation of a store with long polls in every interleaving.
    - The relay's server (src/internal/relay/ratelimit.go, config.go, auth.go,
      server.go, handlers.go).  [RateLimit], [Config], [Server] (request and
      response records, a state monad whose handlers end in a response, the
      middleware, body decoding) and [Handlers] (every handler and the table
      of routes).  A handler that uses the store more than once is cut into
      [phase]s, since other requests run in between.  [HandlersInv] relates
      each handler to the events of the store behind it; [System] is the
      transition system of requests, phases and sweeps with its invariant;
      [SystemProps] states what clients can conclude from the answers.
      [RelayMain] is how the relay starts (config.go's LoadConfig,
      src/cmd/burndrop-relay/main.go, the page of src/web/embed.go).
    - Cryptography (src/internal/crypto).  [Base64] and [Tokens] compute,
      with [Sha256]; [Crypto] has padding, sealing, authenticated encryption
      and password keys over a class [Primitives] of what
      golang.org/x/crypto provides, with its documented laws in
      [PrimitivesOk]; [Envelope] has the JSON envelopes, [EnvelopeProps] their
      properties.
    - Links (src/internal/link).  [Link] builds and parses, over [GoNet]
      (net/url, net/netip); [LinkProps] has the round trips.
    - The relay for several replicas (src/internal/relay/redis_store.go).
      [RedisStore] has the database, every script as a function on it, the
      store on top, a sweep call by call and several replicas at one database;
      [RedisInv] its invariant and one simulation per operation, [RedisProps]
      the two loops of a sweep that nothing falls into and one replica compared
      with the memory store, [RedisReplicas] the replicas: calls of requests and
      sweeps in every interleaving, calls and answers that get lost, keys that
      Redis drops by itself.
    - Secrets on the agent's machine (src/internal/storage).  [Secrets] has
      names, metadata, retention, the [Backend] class with its contract
      [BackendOk] and the memory backend; [Records] the JSON of one record;
      [Manager] the local index and the manager, [ManagerProps] its properties
      over any backend; [FileAtomic] the atomic file write, on a disk that keeps
      what was synced when the machine stops and may lose the rest.  [Secrets]
      also has the choice of a backend.  [BackendSpec] is the contract of a backend that keeps a
      document ([VaultOk]: a map from names to records) and of one that keeps a
      record per key of a store; both give [BackendOk].
    - Backends.  [Keychain] and [KeychainProps] (keychain.go, over a class for
      the system's credential store); [Dotenv] (the notation, the
      file and its operations) and [DotenvProps] (dotenv.go, with [GoOs] for
      path/filepath); [AgeVault] and [AgeVaultProps] (agevault.go, over a class
      for age), [VaultLock] (its lock file between processes).
    - Backends of vendors.  [Cli] has storage/cli.go: a program that may run
      commands, hold temporary files and pause is a value of [prog], interpreted
      over a machine by the class [Runner], by [ExecRunner] in particular.
      [Gcp], [Aws], [Azure], [Doppler], [Infisical], [OnePassword], [Bitwarden]
      drive the vendors' tools (the files of the same names), [HcVault]
      (vault.go) speaks HTTP to a server.  [Cli] also has a relation
      between two programs and the rules for temporary files; [VendorProps] what
      holds of all the tools; [HcVault] and [VendorStores] put Vault, Google's
      Secret Manager and Doppler under the contract of [BackendSpec];
      [VendorRuns] has concrete machines and servers.
    - Running commands with secrets (src/internal/agent/run.go): [GoOs] has
      os/exec over the class [Programs], [Run] the function and its properties.
    - The HTTP client (src/internal/client): [Client].
    - The agent (src/internal/agent).  [Agent] has the flows of agent.go in a
      state monad over the client, the manager and the redactor, and the
      messages; [AgentConfig] config.go; [Redact] the redactor; [AuditLog] the
      log; [AgentProps] what the flows guarantee.  [Mcp] has the server and the
      tools of src/internal/mcpserver.
    - The commands (src/cmd/burndrop).  [Flags] has command lines, [Human] the
      commands of the human (cmd_human.go), [Commands] those of the agent
      (cmd_agent.go) and the dispatch of app.go.  [AgentSetup] has where files
      are (src/internal/agent/paths.go), how the configuration is read and
      written, how a backend is opened, and [load] of app.go; [SetupCommands]
      has cmd_init.go, cmd_reveal_password.go and the verify-page command.
    - End to end.  [Exchange]: what the human submits is what the agent stores,
      what the agent sends is what the human is shown; concrete runs; [Wire]: the
      same over the client and the relay's handlers.
    - Go's libraries as the program uses them: [GoStrings] and [GoText]
      (strings, unicode/utf8, encoding), [Json] and [JsonDoc] with
      [JsonDocProps] (encoding/json: text, and documents by codecs), [GoTime]
      (time), [GoFloat] (float64 as IEEE arithmetic, durations), [GoStrconv]
      (strconv), [Flags] (flag), [GoSort], [GoNet] (net, net/url), [GoOs]
      (path/filepath, os/exec).

    ** How state and operations correspond

    A method that changes its receiver is a function to a new receiver and a
    result; [result E A] is the pair of a value and an error of the source.
    A [time.Time] is nanoseconds since the zero time, a [Duration] an int64
    that wraps around ([wrap64]).  A store reads its clock through a [Clock],
    the readings of one call in order; readings are arbitrary.  A mutex makes
    a method one step; [Wait] holds its lock twice and is two steps
    ([Wait_begin], [Wait_end]).  Channels of waiters are numbers.  A server
    handler is one step up to its first use of the store and one step for each
    use after it; the decisions of the rate limiters are taken with the first.

    ** What is proved

    - The memory store refines the abstract store in every history, keeps its
      counters and heap consistent, sweeps everything that is due, hands a
      slot out at most once, and hands out only what was uploaded with the
      slot's token and commitment before it expired; slots follow the life
      cycle of their kind; tombstones hold no ciphertext; capacity is kept.
    - Long polls: no wake-up is lost, no waiter is leaked.
    - The relay: over every run, the answers that serve a secret are at most
      as many as the answers that created its slot, and what is served is what
      an acknowledged request stored, to a caller with the announced token;
      authentication is exact; without it the agent's endpoints change
      nothing; the counter of long polls is exact.
    - Client addresses cannot be forged through a trusted proxy; limiters stay
      bounded; configurations that validate clamp times to live in bounds.
    - Round trips of envelopes, secrets, sealed and encrypted envelopes, links,
      tokens and .env values; strictness of link parsing; injectivity of the
      additional data of reveals; authenticity of what decrypts.
    - Several replicas at one Redis answer as the abstract store does to the
      same calls with times in whole milliseconds, whatever is lost and however
      sweeps run in between, as long as Redis drops no slot that is still live;
      [redis_ttl_leaks] shows what such a drop costs.  One replica without drops
      gives the answers and the figures of the memory store.  No secret is handed
      out twice, whatever is lost or dropped.
    - The agent stores what a request asked for and nothing else, sends only what
      may be sent, and its records survive a restart; a wait ends; what one
      party submits is what the other gets; a revocation reports what the relay
      answered, and that is the state the slot is then in.
    - The manager returns what was put and nothing expired, purges and lists
      completely, deletes.  The .env backend behaves as a map from names to
      records in every history of values that it can read again (metadata of
      UTF-8 text, a marker line within the scanner's buffer), and so does the age
      vault while it is at most 64 MiB; values come back from the keychain (of
      at most 1000 parts), the .env file and the reopened vault; updates of the vault
      by several processes are applied one after the other as long as nobody
      dies or dawdles inside the lock.  A file is replaced whole or not at all,
      though the machine stop at any moment.  The redactor leaves no registered
      form of a value, unless a replacement puts one there ([apart] says when it
      cannot); what a command printed under the agent is shown without the
      values that were put into its environment, and no tool of the MCP server
      gives one away, in an error, in a command's output or in the details of an
      audit entry; a secret is sent only with the human's consent where the
      client can ask.  The audit log reads back what was acknowledged since the
      last rotation, for texts that are UTF-8, and stays bounded.
    - Commands: flags may stand anywhere among the arguments and parse the same;
      no secret is sent from a terminal before the human said so; a key that the
      relay generates is one that it accepts; a setup that loads is consistent in
      its configuration, backend, index and keys; an init that
      succeeds leaves a configuration that loads and the typed key; what is typed
      as a reveal password is what the configuration leads to.
    - The backends over command-line tools run the same commands whatever the
      value of a secret is, so that no value shows in a list of processes; the
      temporary files they write values to are gone when they return.  Vault,
      Google's Secret Manager and Doppler give back what was put under a name,
      after anything a client does to other names; in Secret Manager, to names
      with another identifier.

    The theorems are conditional only where the code is: on [PrimitivesOk] for
    cryptography, on [BackendOk] for the manager's backend (and that it is
    [healthy] and [accepts] the value), on [KeyringOk] and [AgeOk] for the system's
    credential store and age, on [Gcloud], [DopplerCli] and [VaultKV] for what
    the vendors document of their tools and servers, on [Programs] for the
    commands of the machine, on the tables of
    Unicode letter case beyond ASCII ([Unicode], [UnicodeUpper]), on the
    TOML library reading back what it wrote ([TomlOk]), on the token
    bucket of golang.org/x/time/rate ([Buckets]).  Each such class has a
    concrete instance, used by the witnesses.

    ** Fuel

    Loops that are not structural run on fuel that is always enough, proved
    where a theorem depends on it: the sweep takes a timer off the heap per
    round and has as many rounds as timers ([sweep_loop_spec]); the JSON reader
    takes a byte per nested call and has one more than there are bytes; sifting
    in the heap is bounded by its length; a batch of the Redis sweep removes its
    members from the sorted set, whose size is the fuel ([sweepSet_due]); a
    round of the client's wait takes time, so the nanoseconds left are fuel enough.

    ** What is not modelled

    The doctor command and the one that starts the MCP server; directories on
    Windows; listening, signals and logging of the relay, request identifiers;
    help texts, what goes to standard error, the width of columns and the
    indentation of JSON on a terminal; the texts that describe the MCP tools to
    a model, and the texts of errors, which are a class ([ErrorText]) where the
    audit log and the tools show them; cancellation of requests; the JSON text
    of the index; how go-redis encodes calls; how the vendors' tools work
    inside; the web page, the browser extension and the SDKs, which are not
    written in Go.  Zeroing of buffers has no effect in
    the model. *)
From stdpp Require Export prelude gmap strings list fin_maps.
From Stdlib Require Export ZArith Lia ZifyNat.
From Stdlib Require Import Strings.Byte.
From Stdlib Require Strings.String.

#[global] Open Scope Z_scope.

(** [lia] also decides quotients and remainders by constants. *)
Ltac Zify.zify_post_hook ::= Z.to_euclidean_division_equations.

(** * Bytes and Go strings *)

(** A Go [[]byte] is a list of bytes; a Go [string] is a [string].  The
    conversions [bs] ([[]byte(s)]) and [sb] ([string(b)]) are inverse to each
    other, so a string of the source stands for its exact byte sequence. *)
Abbreviation byte := Byte.byte.
Abbreviation bytes := (list Byte.byte).

Definition b2z (b : byte) : Z := Z.of_N (Byte.to_N b).

Definition z2b (z : Z) : byte :=
  default Byte.x00 (Byte.of_N (Z.to_N (z mod 256))).

Definition bs (s : string) : bytes := String.list_byte_of_string s.
Definition sb (b : bytes) : string := String.string_of_list_byte b.

#[export] Instance byte_eq_dec : EqDecision byte := Byte.byte_eq_dec.
#[export] Instance byte_countable : Countable byte := inj_countable Byte.to_N Byte.of_N Byte.of_to_N.

(** Go's [len] of a string or slice, as a Go [int]. *)
Definition zlen {A} (l : list A) : Z := Z.of_nat (length l).
Definition slen (s : string) : Z := zlen (bs s).

Create HintDb burndrop discriminated.
Create Rewrite HintDb burndrop_rw.

Lemma b2z_range b : 0 <= b2z b < 256.
Proof. unfold b2z. pose proof (Byte.to_N_bounded b). lia. Qed.

Lemma b2z_z2b z : b2z (z2b z) = z mod 256.
Proof.
  unfold b2z, z2b.
  pose proof (Z.mod_pos_bound z 256 ltac:(lia)) as Hr.
  destruct (Byte.of_N (Z.to_N (z mod 256))) as [b|] eqn:E; simpl.
  - apply Byte.to_of_N in E. rewrite E. lia.
  - apply Byte.of_N_None_iff in E. lia.
Qed.

Lemma z2b_b2z b : z2b (b2z b) = b.
Proof.
  unfold z2b, b2z. rewrite Z.mod_small.
  - by rewrite N2Z.id, Byte.of_to_N.
  - apply (b2z_range b).
Qed.

Lemma b2z_inj b1 b2 : b2z b1 = b2z b2 → b1 = b2.
Proof. intros H. by rewrite <- (z2b_b2z b1), H, z2b_b2z. Qed.

Lemma z2b_small z : 0 <= z < 256 → b2z (z2b z) = z.
Proof. intros. rewrite b2z_z2b. by apply Z.mod_small. Qed.

Lemma bs_sb b : bs (sb b) = b.
Proof. apply String.list_byte_of_string_of_list_byte. Qed.

Lemma sb_bs s : sb (bs s) = s.
Proof. apply String.string_of_list_byte_of_string. Qed.

Lemma bs_inj s1 s2 : bs s1 = bs s2 → s1 = s2.
Proof. intros H. by rewrite <- (sb_bs s1), H, sb_bs. Qed.

Lemma sb_inj b1 b2 : sb b1 = sb b2 → b1 = b2.
Proof. intros H. by rewrite <- (bs_sb b1), H, bs_sb. Qed.

Lemma bs_app s1 s2 : bs (s1 +:+ s2) = bs s1 ++ bs s2.
Proof.
  unfold bs, String.list_byte_of_string.
  induction s1 as [|c s1 IH]; simpl; [done|]. by f_equal.
Qed.

Lemma zlen_app {A} (l k : list A) : zlen (l ++ k) = zlen l + zlen k.
Proof. unfold zlen. rewrite length_app. lia. Qed.

Lemma zlen_nonneg {A} (l : list A) : 0 <= zlen l.
Proof. unfold zlen. lia. Qed.

Lemma zlen_nil {A} : zlen (@nil A) = 0.
Proof. reflexivity. Qed.

Lemma zlen_cons {A} (x : A) l : zlen (x :: l) = 1 + zlen l.
Proof. unfold zlen. simpl. lia. Qed.

#[export] Hint Rewrite @zlen_app @zlen_nil @zlen_cons bs_sb sb_bs bs_app z2b_b2z : burndrop_rw.
#[export] Hint Resolve b2z_range zlen_nonneg : burndrop.

(** * Machine integers *)

(** Go's [int64] (and [int] on the supported 64-bit targets) wraps around. *)
Definition wrap64 (z : Z) : Z := (z + 2 ^ 63) mod 2 ^ 64 - 2 ^ 63.

Lemma wrap64_range z : - 2 ^ 63 <= wrap64 z < 2 ^ 63.
Proof. unfold wrap64. pose proof (Z.mod_pos_bound (z + 2 ^ 63) (2 ^ 64)). lia. Qed.

Lemma wrap64_id z : - 2 ^ 63 <= z < 2 ^ 63 → wrap64 z = z.
Proof. intros. unfold wrap64. rewrite Z.mod_small; lia. Qed.

(** * Results *)

(** Go's [(T, error)] convention.  [result E] is a monad; its notation is
    stdpp's [x ← e; k]. *)
Inductive result (E A : Type) : Type :=
  | Ok (a : A)
  | Err (e : E).
Arguments Ok {E A} _.
Arguments Err {E A} _.

#[export] Instance result_ret E : MRet (result E) := λ A a, Ok a.
#[export] Instance result_bind E : MBind (result E) := λ A B f m,
  match m with Ok a => f a | Err e => Err e end.

Definition is_ok {E A} (r : result E A) : bool :=
  match r with Ok _ => true | Err _ => false end.

(** [if cond { return err }] *)
Definition guard_err {E} (ok : bool) (e : E) : result E unit :=
  if ok then Ok tt else Err e.

Lemma guard_err_ok {E} b (e : E) u : guard_err b e = Ok u ↔ b = true.
Proof. destruct b, u; simpl; split; congruence. Qed.

Lemma result_bind_ok {E A B} (m : result E A) (f : A → result E B) b :
  (m ≫= f) = Ok b ↔ ∃ a, m = Ok a ∧ f a = Ok b.
Proof. destruct m as [a|e]; simpl; split; [eauto|naive_solver|done|naive_solver]. Qed.

(** A state monad with errors, as the components instantiate it: what a
    sequence that succeeded did. *)
Lemma state_bind_ok {S E A B} (m : S → S * result E A) (f : A → S → S * result E B) s s' b :
  match m s with (s1, Ok a) => f a s1 | (s1, Err e) => (s1, Err e) end = (s', Ok b) →
  ∃ s1 a, m s = (s1, Ok a) ∧ f a s1 = (s', Ok b).
Proof. destruct (m s) as [s1 [a|e]]; [eauto|done]. Qed.

(** * Sums over finite maps *)

Section map_sum.
Context {K : Type} `{Countable K} {A : Type} (f : A → Z).

Definition map_sum (m : gmap K A) : Z :=
  map_fold (λ _ x acc, f x + acc) 0 m.

Lemma map_sum_empty : map_sum ∅ = 0.
Proof. apply map_fold_empty. Qed.

Lemma map_sum_insert_new m i x :
  m !! i = None → map_sum (<[i:=x]> m) = f x + map_sum m.
Proof.
  intros Hi. unfold map_sum.
  rewrite map_fold_insert_L; [done| |done]. intros. lia.
Qed.

Lemma map_sum_delete m i x :
  m !! i = Some x → map_sum (delete i m) = map_sum m - f x.
Proof.
  intros Hi.
  assert (m = <[i:=x]> (delete i m)) as Hm by (by rewrite insert_delete_eq, insert_id).
  rewrite Hm at 2. rewrite map_sum_insert_new; [lia|apply lookup_delete_eq].
Qed.

Lemma map_sum_update m i x y :
  m !! i = Some x → map_sum (<[i:=y]> m) = map_sum m - f x + f y.
Proof.
  intros Hi. rewrite <- insert_delete_eq, map_sum_insert_new by apply lookup_delete_eq.
  rewrite (map_sum_delete _ _ _ Hi). lia.
Qed.

Lemma map_sum_nonneg m : (∀ x, 0 <= f x) → 0 <= map_sum m.
Proof.
  intros Hf. induction m as [|i x m Hi IH] using map_ind.
  - by rewrite map_sum_empty.
  - rewrite map_sum_insert_new by done. specialize (Hf x). lia.
Qed.

Lemma map_sum_ge m i x : (∀ x, 0 <= f x) → m !! i = Some x → f x <= map_sum m.
Proof.
  intros Hf Hi. pose proof (map_sum_delete _ _ _ Hi).
  pose proof (map_sum_nonneg (delete i m) Hf). lia.
Qed.
Lemma map_sum_zero m : (∀ i x, m !! i = Some x → f x = 0) → map_sum m = 0.
Proof.
  intros Hz. induction m as [|i x m Hi IH] using map_ind; [apply map_sum_empty|].
  rewrite map_sum_insert_new, (Hz i x), IH; [done| |by rewrite lookup_insert_eq|done].
  intros j y Hj. apply (Hz j y). rewrite lookup_insert_ne; [done|]. congruence.
Qed.
End map_sum.

(** * Tactics *)

(** Case on every [match]/[if] of a hypothesis or of the goal, simplifying
    the impossible branches away. *)
Ltac split_match H :=
  repeat match type of H with
  | context [match ?x with _ => _ end] =>
      let E := fresh "E" in destruct x eqn:E; simplify_eq/=
  end.

Ltac split_goal :=
  repeat match goal with
  | |- context [match ?x with _ => _ end] =>
      let E := fresh "E" in destruct x eqn:E; simplify_eq/=
  end.

(** Decide a closed proposition. *)
Ltac decided := match goal with |- ?P => refine (bool_decide_eq_true_1 P _); vm_compute; reflexivity end.

(** Turn boolean tests of the source into propositions. *)
Ltac breflect :=
  repeat match goal with
  | H : andb _ _ = true |- _ => apply andb_prop in H; destruct H
  | H : andb _ _ = false |- _ => apply andb_false_iff in H
  | H : orb _ _ = true |- _ => apply orb_true_iff in H
  | H : orb _ _ = false |- _ => apply orb_false_iff in H; destruct H
  | H : negb _ = true |- _ => apply negb_true_iff in H
  | H : negb _ = false |- _ => apply negb_false_iff in H
  | H : Z.ltb _ _ = true |- _ => apply Z.ltb_lt in H
  | H : Z.ltb _ _ = false |- _ => apply Z.ltb_ge in H
  | H : Z.leb _ _ = true |- _ => apply Z.leb_le in H
  | H : Z.leb _ _ = false |- _ => apply Z.leb_gt in H
  | H : Z.eqb _ _ = true |- _ => apply Z.eqb_eq in H
  | H : Z.eqb _ _ = false |- _ => apply Z.eqb_neq in H
  | H : bool_decide _ = true |- _ => apply bool_decide_eq_true in H
  | H : bool_decide _ = false |- _ => apply bool_decide_eq_false in H
  end.
