(* ===== verification/Base64.v ===== *)
(** The encoding of every binary field: [crypto.Encoding], that is Go's
    [base64.RawURLEncoding.Strict()] (internal/crypto/crypto.go).  The
    executable model follows encoding/base64: URL-safe alphabet, no padding
    characters, strict trailing bits, carriage returns and line feeds skipped
    while decoding. *)
From S2P Require Import Prelude.

(** * Alphabet *)

Definition alphabet : bytes :=
  bs "ABCDEFGHIJKLMNOPQRSTUVWXYZabcdefghijklmnopqrstuvwxyz0123456789-_".

(** The character of a 6-bit value. *)
Definition enc_char (v : Z) : byte := nth (Z.to_nat v) alphabet Byte.x00.

Fixpoint index_of (b : byte) (l : bytes) (i : Z) : option Z :=
  match l with
  | [] => None
  | x :: l' => if decide (b = x) then Some i else index_of b l' (i + 1)
  end.

(** The decode map: [None] stands for 0xff, an invalid character. *)
Definition dec_char (b : byte) : option Z := index_of b alphabet 0.

(** Decoding skips these two characters wherever they are. *)
Definition is_newline (b : byte) : bool :=
  bool_decide (b = Byte.x0a) || bool_decide (b = Byte.x0d).

(** * Encoding and decoding *)

(** Three input bytes make four characters; a rest of one or two bytes makes
    two or three characters and no padding. *)
Fixpoint sextets (l : bytes) : list Z :=
  match l with
  | a :: b :: c :: r =>
      let v := b2z a * 65536 + b2z b * 256 + b2z c in
      v / 262144 mod 64 :: v / 4096 mod 64 :: v / 64 mod 64 :: v mod 64 :: sextets r
  | [a; b] =>
      let v := b2z a * 65536 + b2z b * 256 in
      [v / 262144 mod 64; v / 4096 mod 64; v / 64 mod 64]
  | [a] =>
      let v := b2z a * 65536 in
      [v / 262144 mod 64; v / 4096 mod 64]
  | [] => []
  end.

Definition encode (l : bytes) : bytes := enc_char <$> sextets l.

(** [decodeQuantum] on the 6-bit values: four values make three bytes; a last
    quantum of three or two values is accepted only when its unused low bits
    are zero (strict mode), one of a single value never is. *)
Fixpoint quanta (vs : list Z) : option bytes :=
  match vs with
  | a :: b :: c :: d :: r =>
      let v := a * 262144 + b * 4096 + c * 64 + d in
      rest ← quanta r;
      Some (z2b (v / 65536) :: z2b (v / 256) :: z2b v :: rest)
  | [a; b; c] =>
      let v := a * 262144 + b * 4096 + c * 64 in
      if v mod 256 =? 0 then Some [z2b (v / 65536); z2b (v / 256)] else None
  | [a; b] =>
      let v := a * 262144 + b * 4096 in
      if v mod 65536 =? 0 then Some [z2b (v / 65536)] else None
  | [_] => None
  | [] => Some []
  end.

Definition decode (s : bytes) : option bytes :=
  vs ← mapM dec_char (filter (λ b, is_newline b = false) s);
  quanta vs.

(** [Encoding.EncodeToString] and [Encoding.DecodeString] on Go strings. *)
Definition EncodeToString (b : bytes) : string := sb (encode b).
Definition DecodeString (s : string) : option bytes := decode (bs s).

(** * Induction by groups of three bytes *)

Lemma bytes_ind3 (P : bytes → Prop) :
  P [] → (∀ a, P [a]) → (∀ a b, P [a; b]) →
  (∀ a b c r, P r → P (a :: b :: c :: r)) → ∀ l, P l.
Proof.
  intros H0 H1 H2 H3 l.
  induction l as [[|a [|b [|c r]]] IH] using (well_founded_induction (well_founded_ltof _ (@length byte))); auto.
  apply H3, IH. unfold ltof. simpl. lia.
Qed.

(** * The alphabet is a bijection with the 6-bit values *)

Lemma dec_enc_char_all :
  forallb (λ i, bool_decide (dec_char (enc_char i) = Some i) && negb (is_newline (enc_char i)))
    (seqZ 0 64) = true.
Proof. vm_compute. reflexivity. Qed.

Lemma dec_enc_char v : 0 <= v < 64 → dec_char (enc_char v) = Some v ∧ is_newline (enc_char v) = false.
Proof.
  intros Hv. pose proof dec_enc_char_all as H. rewrite forallb_forall in H.
  specialize (H v). rewrite <- list_elem_of_In, elem_of_seqZ in H.
  specialize (H ltac:(lia)). breflect. auto.
Qed.

Lemma index_of_bound b l i v :
  index_of b l i = Some v → i <= v < i + zlen l ∧ nth (Z.to_nat (v - i)) l Byte.x00 = b.
Proof.
  revert i. induction l as [|x l IH]; intros i; simpl; [done|].
  rewrite zlen_cons. pose proof (zlen_nonneg l). case_decide as E; intros Hv.
  - simplify_eq. split; [lia|]. by rewrite Z.sub_diag.
  - apply IH in Hv as [Hb Hn]. split; [lia|].
    replace (Z.to_nat (v - i)) with (S (Z.to_nat (v - (i + 1)))) by lia. done.
Qed.

Lemma dec_char_inv b v : dec_char b = Some v → 0 <= v < 64 ∧ enc_char v = b.
Proof.
  intros H. apply index_of_bound in H as [Hr Hn].
  assert (zlen alphabet = 64) by reflexivity. split; [lia|].
  unfold enc_char. by rewrite Z.sub_0_r in Hn.
Qed.

(** * Sextets and quanta are inverse *)

Ltac byte_arith :=
  repeat match goal with
  | b : byte |- _ =>
      lazymatch goal with
      | _ : 0 <= b2z b < 256 |- _ => fail
      | _ => pose proof (b2z_range b)
      end
  end.

Lemma z2b_eq z b : z mod 256 = b2z b → z2b z = b.
Proof. intros H. apply b2z_inj. by rewrite b2z_z2b. Qed.

Lemma sextets_range l : Forall (λ v, 0 <= v < 64) (sextets l).
Proof.
  induction l as [|a|a b|a b c r IH] using bytes_ind3; cbn [sextets];
    repeat (apply Forall_cons; split; [apply Z.mod_pos_bound; lia|]); auto using Forall_nil.
Qed.

Lemma quanta_sextets l : quanta (sextets l) = Some l.
Proof.
  induction l as [|a|a b|a b c r IH] using bytes_ind3; simpl; byte_arith; [done|..].
  - case_match eqn:E; breflect; [|lia]. do 2 f_equal; apply z2b_eq; lia.
  - case_match eqn:E; breflect; [|lia]. do 2 f_equal; [|f_equal]; apply z2b_eq; lia.
  - rewrite IH. simpl. do 2 f_equal; [|f_equal; [|f_equal]]; apply z2b_eq; lia.
Qed.

Lemma sextets_quanta vs l :
  Forall (λ v, 0 <= v < 64) vs → quanta vs = Some l → sextets l = vs.
Proof.
  revert l. induction vs as [vs IH] using (well_founded_induction (well_founded_ltof _ (@length Z))).
  intros l Hr Hq. destruct vs as [|a [|b [|c [|d r]]]]; simpl in Hq; simplify_eq/=; [done|..].
  - decompose_Forall_hyps. split_match Hq; breflect. simpl. rewrite !b2z_z2b.
    f_equal; [|f_equal]; lia.
  - decompose_Forall_hyps. split_match Hq; breflect. simpl. rewrite !b2z_z2b.
    f_equal; [|f_equal; [|f_equal]]; lia.
  - decompose_Forall_hyps. destruct (quanta r) as [rest|] eqn:Er; simplify_eq/=.
    rewrite !b2z_z2b. rewrite (IH r) with (l := rest); [|unfold ltof; simpl; lia|done|done].
    f_equal; [|f_equal; [|f_equal; [|f_equal]]]; lia.
Qed.

Lemma mapM_dec_enc vs :
  Forall (λ v, 0 <= v < 64) vs →
  mapM dec_char (filter (λ b, is_newline b = false) (enc_char <$> vs)) = Some vs.
Proof.
  induction 1 as [|v vs Hv _ IH]; [done|].
  apply dec_enc_char in Hv as [Hd Hn]. cbn [fmap list_fmap].
  rewrite filter_cons_True by done. simpl. by rewrite Hd, IH.
Qed.

Lemma mapM_dec_inv s vs :
  mapM dec_char s = Some vs → Forall (λ v, 0 <= v < 64) vs ∧ enc_char <$> vs = s.
Proof.
  rewrite mapM_Some. induction 1 as [|b v s vs Hb _ [IH1 IH2]]; [done|].
  apply dec_char_inv in Hb as [Hv He]. split; [by constructor|]. rewrite fmap_cons. congruence.
Qed.

(** * Round trips *)

Lemma decode_encode l : decode (encode l) = Some l.
Proof.
  unfold decode, encode. rewrite mapM_dec_enc by apply sextets_range. apply quanta_sextets.
Qed.

(** What decodes is, up to skipped newlines, the one canonical encoding. *)
Lemma encode_decode s l :
  decode s = Some l → encode l = filter (λ b, is_newline b = false) s.
Proof.
  unfold decode, encode. intros H.
  destruct (mapM dec_char _) as [vs|] eqn:E; simpl in H; [|done].
  apply mapM_dec_inv in E as [Hr <-]. by rewrite (sextets_quanta vs).
Qed.

Lemma encode_inj l1 l2 : encode l1 = encode l2 → l1 = l2.
Proof. intros H. pose proof (decode_encode l1) as E. rewrite H, decode_encode in E. congruence. Qed.

(** * Lengths *)

Lemma sextets_length l : zlen (sextets l) = (4 * zlen l + 2) / 3.
Proof.
  induction l as [|a|a b|a b c r IH] using bytes_ind3; try reflexivity.
  cbn [sextets]. rewrite !zlen_cons, IH. lia.
Qed.

Lemma encode_length l : zlen (encode l) = (4 * zlen l + 2) / 3.
Proof. rewrite <- sextets_length. unfold zlen, encode. by rewrite length_fmap. Qed.

Lemma filter_newline_length (s : bytes) : zlen (filter (λ b, is_newline b = false) s) <= zlen s.
Proof. unfold zlen. pose proof (length_filter (λ b, is_newline b = false) s). lia. Qed.

Lemma decode_length s l : decode s = Some l → 4 * zlen l <= 3 * zlen s.
Proof.
  intros H. apply encode_decode in H. pose proof (filter_newline_length s).
  rewrite <- H, encode_length in H0. lia.
Qed.

Lemma filter_newline_full (s : bytes) :
  zlen (filter (λ b, is_newline b = false) s) = zlen s → filter (λ b, is_newline b = false) s = s.
Proof.
  induction s as [|b s IH]; [done|]. rewrite filter_cons. case_decide.
  - rewrite !zlen_cons. intros. f_equal. apply IH. lia.
  - rewrite zlen_cons. pose proof (filter_newline_length s). lia.
Qed.

(** An encoding of the full length has no room for skipped characters. *)
Lemma decode_full s l :
  decode s = Some l → zlen s = (4 * zlen l + 2) / 3 → s = encode l.
Proof.
  intros H Hl. apply encode_decode in H. rewrite H. symmetry.
  apply filter_newline_full. by rewrite <- H, encode_length.
Qed.
