(* ===== verification/Sha256.v ===== *)
(** SHA-256 (FIPS 180-4), executable.  The relay stores token hashes, and
    commitments and fingerprints are prefixes of this hash, so the development
    computes it instead of leaving it opaque; internal/crypto calls Go's
    crypto/sha256.  Words are 32-bit integers in [Z]. *)
From S2P Require Import Prelude.

Definition w32 (x : Z) : Z := x mod 2 ^ 32.
Definition rotr (x n : Z) : Z := Z.lor (Z.shiftr x n) (w32 (Z.shiftl x (32 - n))).
Definition not32 (x : Z) : Z := Z.lxor x 4294967295.

Definition sigma0 (x : Z) : Z := Z.lxor (Z.lxor (rotr x 7) (rotr x 18)) (Z.shiftr x 3).
Definition sigma1 (x : Z) : Z := Z.lxor (Z.lxor (rotr x 17) (rotr x 19)) (Z.shiftr x 10).
Definition Sigma0 (x : Z) : Z := Z.lxor (Z.lxor (rotr x 2) (rotr x 13)) (rotr x 22).
Definition Sigma1 (x : Z) : Z := Z.lxor (Z.lxor (rotr x 6) (rotr x 11)) (rotr x 25).
Definition ch (x y z : Z) : Z := Z.lxor (Z.land x y) (Z.land (not32 x) z).
Definition maj (x y z : Z) : Z := Z.lxor (Z.lxor (Z.land x y) (Z.land x z)) (Z.land y z).

Definition round_constants : list Z :=
  [1116352408; 1899447441; 3049323471; 3921009573; 961987163; 1508970993; 2453635748; 2870763221;
   3624381080; 310598401; 607225278; 1426881987; 1925078388; 2162078206; 2614888103; 3248222580;
   3835390401; 4022224774; 264347078; 604807628; 770255983; 1249150122; 1555081692; 1996064986;
   2554220882; 2821834349; 2952996808; 3210313671; 3336571891; 3584528711; 113926993; 338241895;
   666307205; 773529912; 1294757372; 1396182291; 1695183700; 1986661051; 2177026350; 2456956037;
   2730485921; 2820302411; 3259730800; 3345764771; 3516065817; 3600352804; 4094571909; 275423344;
   430227734; 506948616; 659060556; 883997877; 958139571; 1322822218; 1537002063; 1747873779;
   1955562222; 2024104815; 2227730452; 2361852424; 2428436474; 2756734187; 3204031479; 3329325298].

Definition initial_hash : list Z :=
  [1779033703; 3144134277; 1013904242; 2773480762; 1359893119; 2600822924; 528734635; 1541459225].

(** Big-endian words of a block. *)
Fixpoint words (l : bytes) : list Z :=
  match l with
  | a :: b :: c :: d :: r =>
      b2z a * 16777216 + b2z b * 65536 + b2z c * 256 + b2z d :: words r
  | _ => []
  end.

(** The message schedule, kept as the last sixteen words, most recent first. *)
Definition next_word (w : list Z) : Z :=
  w32 (sigma1 (nth 1 w 0) + nth 6 w 0 + sigma0 (nth 14 w 0) + nth 15 w 0).

Fixpoint schedule (n : nat) (w : list Z) : list Z :=
  match n with
  | O => []
  | S n => let x := next_word w in x :: schedule n (x :: take 15 w)
  end.

Definition message_schedule (block : bytes) : list Z :=
  let w := words block in w ++ schedule 48 (reverse w).

Definition round (st : list Z) (kw : Z * Z) : list Z :=
  match st with
  | [a; b; c; d; e; f; g; h] =>
      let t1 := h + Sigma1 e + ch e f g + kw.1 + kw.2 in
      let t2 := Sigma0 a + maj a b c in
      [w32 (t1 + t2); a; b; c; w32 (d + t1); e; f; g]
  | _ => st
  end.

Definition compress (hs : list Z) (block : bytes) : list Z :=
  zip_with (λ x y, w32 (x + y)) hs
    (foldl round hs (zip round_constants (message_schedule block))).

Fixpoint compress_blocks (n : nat) (hs : list Z) (m : bytes) : list Z :=
  match n with
  | O => hs
  | S n => compress_blocks n (compress hs (take 64 m)) (drop 64 m)
  end.

(** A bit, zeros up to 56 bytes modulo 64, and the bit length in 8 bytes. *)
Definition be64 (z : Z) : bytes := (λ i, z2b (Z.shiftr z i)) <$> [56; 48; 40; 32; 24; 16; 8; 0].
Definition pad_message (m : bytes) : bytes :=
  m ++ Byte.x80 :: replicate (Z.to_nat ((55 - zlen m) mod 64)) Byte.x00 ++ be64 (8 * zlen m).

Definition be32 (z : Z) : bytes := (λ i, z2b (Z.shiftr z i)) <$> [24; 16; 8; 0].

Definition sha256 (m : bytes) : bytes :=
  let p := pad_message m in
  mjoin (be32 <$> compress_blocks (length p / 64) initial_hash p).

(** [hex.EncodeToString]. *)
Definition hex_digit (v : Z) : byte := nth (Z.to_nat v) (bs "0123456789abcdef") Byte.x00.

Fixpoint hex_encode (l : bytes) : bytes :=
  match l with
  | [] => []
  | b :: l => hex_digit (b2z b / 16) :: hex_digit (b2z b mod 16) :: hex_encode l
  end.

(** A FIPS 180-4 example. *)
Example sha256_empty :
  sb (hex_encode (sha256 [])) =
  "e3b0c44298fc1c149afbf4c8996fb92427ae41e4649b934ca495991b7852b855"%string.
Proof. vm_compute. reflexivity. Qed.

Example sha256_two_blocks :
  sb (hex_encode (sha256 (bs "abcdbcdecdefdefgefghfghighijhijkijkljklmklmnlmnomnopnopq"))) =
  "248d6a61d20638b8e5c026930c3e6039a33ce45964ff2167f6ecedd419db06c1"%string.
Proof. vm_compute. reflexivity. Qed.

(** A digest has 32 bytes. *)
Lemma round_length st kw : length (round st kw) = length st.
Proof. unfold round. by repeat (case_match; simpl). Qed.

Lemma rounds_length l st : length (foldl round st l) = length st.
Proof. revert st. induction l as [|x l IH]; intros st; [done|]. simpl. by rewrite IH, round_length. Qed.

Lemma compress_length hs b : length (compress hs b) = length hs.
Proof. unfold compress. rewrite length_zip_with, rounds_length. lia. Qed.

Lemma compress_blocks_length n hs m : length (compress_blocks n hs m) = length hs.
Proof. revert hs m. induction n as [|n IH]; intros; [done|]. simpl. by rewrite IH, compress_length. Qed.

Lemma be32_join_length l : length (mjoin (be32 <$> l)) = (4 * length l)%nat.
Proof.
  induction l as [|x l IH]; [done|].
  change (mjoin (be32 <$> x :: l)) with (be32 x ++ mjoin (be32 <$> l)).
  rewrite length_app, IH. simpl. lia.
Qed.

Lemma sha256_length m : length (sha256 m) = 32%nat.
Proof. unfold sha256. rewrite be32_join_length, compress_blocks_length. done. Qed.
