(* ===== verification/Tokens.v ===== *)
(** Tokens, hashes, commitments and fingerprints: internal/crypto/tokens.go
    and the two display functions of internal/crypto/crypto.go. *)
From S2P Require Import Prelude Base64 Sha256.

(** The sentinel errors of the crypto package. *)
Inductive crypto_error :=
  | ErrDecrypt | ErrPadding | ErrSize | ErrLength | ErrEnvelope | ErrPassword | ErrRandom.

#[export] Instance crypto_error_eq_dec : EqDecision crypto_error.
Proof. solve_decision. Defined.

Definition KeySize : Z := 32.
Definition TokenBytes : Z := 16.
Definition TokenLen : Z := 22.
Definition AgentKeyBytes : Z := 32.
Definition HashLen : Z := 43.
Definition sha256_Size : Z := 32.

(** A digest; [Hash{}] is the all-zero digest. *)
Abbreviation Hash := (list Byte.byte).
Definition zero_hash : Hash := replicate 32 Byte.x00.

(** [randomString]: [read n] is the outcome of [rand.Read] on [n] bytes. *)
Definition randomString (read : Z → option bytes) (n : Z) : result crypto_error string :=
  match read n with
  | Some b => Ok (EncodeToString b)
  | None => Err ErrRandom
  end.

Definition RandomToken (read : Z → option bytes) : result crypto_error string :=
  randomString read TokenBytes.

Definition RandomAgentKey (read : Z → option bytes) : result crypto_error string :=
  randomString read AgentKeyBytes.

Definition HashToken (token : string) : Hash := sha256 (bs token).

(** [subtle.ConstantTimeCompare]: the differences are accumulated, never
    branched on. *)
Definition ConstantTimeCompare (x y : bytes) : Z :=
  if zlen x =? zlen y then
    let v := foldl Z.lor 0 (zip_with (λ a b, Z.lxor (b2z a) (b2z b)) x y) in
    if v =? 0 then 1 else 0
  else 0.

Definition HashEqual (a b : Hash) : bool := ConstantTimeCompare a b =? 1.

(** [Hash.Encode]. *)
Definition hash_Encode (h : Hash) : string := EncodeToString h.

Definition ParseHash (s : string) : result crypto_error Hash :=
  match DecodeString s with
  | Some b => if zlen b =? sha256_Size then Ok b else Err ErrLength
  | None => Err ErrLength
  end.

Definition ValidToken (s : string) : bool :=
  if slen s =? TokenLen then
    match DecodeString s with Some b => zlen b =? TokenBytes | None => false end
  else false.

Definition ValidCommitment (s : string) : bool :=
  if slen s =? HashLen then
    match DecodeString s with Some b => zlen b =? sha256_Size | None => false end
  else false.

Definition Commitment (pub : bytes) : string := EncodeToString (sha256 pub).

(** Four groups of four hexadecimal digits of the first 64 bits. *)
Definition slice {A} (i j : nat) (l : list A) : list A := take (j - i) (drop i l).

Definition Fingerprint (pub : bytes) : string :=
  let s := hex_encode (take 8 (sha256 pub)) in
  sb (slice 0 4 s ++ bs "-" ++ slice 4 8 s ++ bs "-" ++ slice 8 12 s ++ bs "-" ++ slice 12 16 s).

(** The shared vectors of spec/vectors.json. *)
Example vector_token_hash :
  hash_Encode (HashToken "MTIzNDU2Nzg5MGFiY2RlZg") = "3CIkYkAFe6lbs08K_Hr7rDlKtdab5BDDzC9STxhs9xk"%string.
Proof. vm_compute. reflexivity. Qed.

Example vector_tokens_valid :
  ValidToken <$> ["AAAAAAAAAAAAAAAAAAAAAA"; "MTIzNDU2Nzg5MGFiY2RlZg"; "AAAAAAAAAAAAAAAAAAAAAB";
                  "AAAAAAAAAAAAAAAAAAAAA"; "AAAAAAAAAAAAAAAAAAAAAAA"; "AAAAAAAAAAAAAAAAAAAA+/"; ""]%string
  = [true; true; false; false; false; false; false].
Proof. vm_compute. reflexivity. Qed.

Definition vector_public_key : bytes :=
  default [] (DecodeString "IVcReinxpYk8GIi1euw2OrvEPpn8JaBl5mA5Ny6cvyU").

Example vector_fingerprint :
  (Fingerprint vector_public_key, Commitment vector_public_key) =
  ("7f4e-3996-5f9b-d725", "f045ll-b1yXPuPu0ju0TkiFmLlAKKtdX2Y-WWuxqDgc")%string.
Proof. vm_compute. reflexivity. Qed.

(** * Facts used by the other components *)

Lemma lor_fold_zero l v :
  foldl Z.lor v l = 0 ↔ v = 0 ∧ Forall (λ x, x = 0) l.
Proof.
  revert v. induction l as [|x l IH]; intros v; simpl.
  - split; [|by intros []]. intros ->. split; [done|constructor].
  - rewrite IH, Z.lor_eq_0_iff, Forall_cons. tauto.
Qed.

Lemma ConstantTimeCompare_eq x y : ConstantTimeCompare x y = 1 ↔ x = y.
Proof.
  unfold ConstantTimeCompare. split.
  - case_match eqn:El; [|done]. case_match eqn:Ev; [|done]. intros _. breflect.
    apply lor_fold_zero in Ev as [_ Hf]. unfold zlen in El.
    revert y El Hf. induction x as [|a x IH]; intros [|b y]; simpl; try lia; [done|].
    intros El Hf. apply Forall_cons in Hf as [Hx Hf]. apply Z.lxor_eq in Hx.
    apply b2z_inj in Hx as ->. f_equal. apply IH; [lia|done].
  - intros ->. rewrite Z.eqb_refl. case_match eqn:Ev; [done|]. breflect. exfalso. apply Ev.
    apply lor_fold_zero. split; [done|]. clear.
    induction y as [|a y IH]; simpl; [by apply Forall_nil_2|].
    apply Forall_cons; split; [apply Z.lxor_nilpotent|done].
Qed.

Lemma HashEqual_eq a b : HashEqual a b = true ↔ a = b.
Proof. unfold HashEqual. rewrite Z.eqb_eq. apply ConstantTimeCompare_eq. Qed.

Lemma HashEqual_refl a : HashEqual a a = true.
Proof. by apply HashEqual_eq. Qed.

Lemma HashEqual_neq a b : HashEqual a b = false ↔ a ≠ b.
Proof. rewrite <- HashEqual_eq. destruct (HashEqual a b); naive_solver. Qed.

#[export] Hint Resolve HashEqual_refl : burndrop.

Lemma HashEqual_dec a b : HashEqual a b = bool_decide (a = b).
Proof. apply eq_bool_prop_intro. rewrite !Is_true_true, HashEqual_eq, bool_decide_eq_true. done. Qed.

Lemma DecodeString_EncodeToString b : DecodeString (EncodeToString b) = Some b.
Proof. unfold DecodeString, EncodeToString. rewrite bs_sb. apply decode_encode. Qed.

Lemma EncodeToString_length b : slen (EncodeToString b) = (4 * zlen b + 2) / 3.
Proof. unfold slen, EncodeToString. rewrite bs_sb. apply encode_length. Qed.

Lemma EncodeToString_inj b1 b2 : EncodeToString b1 = EncodeToString b2 → b1 = b2.
Proof. intros H%sb_inj. by apply encode_inj. Qed.

(** A string of the exact length that decodes to [n] bytes is the canonical
    encoding of those bytes: the length test closes the newline loophole. *)
Lemma exact_length_canonical s b :
  DecodeString s = Some b → slen s = (4 * zlen b + 2) / 3 → s = EncodeToString b.
Proof.
  intros Hd Hl. apply bs_inj. unfold EncodeToString. rewrite bs_sb. by apply decode_full.
Qed.

Lemma fixed_length_valid (len n : Z) s :
  (4 * n + 2) / 3 = len →
  (if slen s =? len then match DecodeString s with Some b => zlen b =? n | None => false end else false) = true ↔
  ∃ b, zlen b = n ∧ s = EncodeToString b.
Proof.
  intros Hn. split.
  - case_match eqn:El; [|done]. destruct (DecodeString s) as [b|] eqn:Ed; [|done].
    intros Hb. breflect. exists b. split; [done|]. apply exact_length_canonical; [done|lia].
  - intros (b & Hb & ->). rewrite EncodeToString_length, Hb, Hn, Z.eqb_refl.
    rewrite DecodeString_EncodeToString. by apply Z.eqb_eq.
Qed.

Lemma sha256_zlen m : zlen (sha256 m) = 32.
Proof. unfold zlen. by rewrite sha256_length. Qed.

#[export] Hint Rewrite DecodeString_EncodeToString EncodeToString_length sha256_zlen : burndrop_rw.

(** * Properties *)

(** a string is accepted as a token or identifier exactly when it is the
    encoding of sixteen bytes, so a token has one spelling only. *)
Theorem ValidToken_iff s :
  ValidToken s = true ↔ ∃ b, zlen b = TokenBytes ∧ s = EncodeToString b.
Proof. by apply fixed_length_valid. Qed.

Lemma ValidCommitment_iff s :
  ValidCommitment s = true ↔ ∃ b, zlen b = sha256_Size ∧ s = EncodeToString b.
Proof. by apply fixed_length_valid. Qed.

Lemma Commitment_valid pub : ValidCommitment (Commitment pub) = true.
Proof. apply ValidCommitment_iff. exists (sha256 pub). split; [apply sha256_zlen|done]. Qed.

Lemma RandomToken_valid read s :
  (∀ n b, read n = Some b → zlen b = n) → RandomToken read = Ok s → ValidToken s = true.
Proof.
  intros Hlen. unfold RandomToken, randomString. case_match eqn:E; [|done]. intros [= <-].
  apply ValidToken_iff. eauto.
Qed.

(** Claim TOK2: parsing a hash inverts rendering it, and every rendered hash parses. *)
Theorem ParseHash_Encode h : zlen h = sha256_Size → ParseHash (hash_Encode h) = Ok h.
Proof.
  intros Hh. unfold ParseHash, hash_Encode. rewrite DecodeString_EncodeToString.
  by apply Z.eqb_eq in Hh as ->.
Qed.

Lemma ParseHash_length s h : ParseHash s = Ok h → zlen h = sha256_Size.
Proof. unfold ParseHash. intros H. split_match H. by breflect. Qed.
