(* ===== verification/Heap.v ===== *)
(** Go's container/heap, as the memory store uses it for its timers
    (internal/relay/memory.go: [expiryHeap]).  The algorithms are container/heap's
    [Push], [Pop], [up] and [down] on a slice ordered by a key; the results are
    that they keep the heap order and the multiset of entries, and that the
    entry popped is one of least key. *)
From S2P Require Import Prelude.
From Stdlib Require Import Permutation.

Definition parent (j : nat) : nat := ((j - 1) / 2)%nat.

(** Case on the positions a swap touches, and equate keys at equal parents. *)
Ltac heap_cases :=
  repeat case_decide; simplify_eq;
  repeat match goal with
  | H : parent ?k = _, G : context [parent ?k] |- _ =>
      lazymatch G with H => fail | _ => rewrite H in G end
  | H : ?k ≠ ?k → _ |- _ => clear H
  end; auto with lia; try lia.

Section heap.
Context {A : Type} (key : A → Z).

(** [Less(i, j)] compares the keys at two positions. *)
Definition Less (l : list A) (i j : nat) : bool :=
  match l !! i, l !! j with
  | Some x, Some y => key x <? key y
  | _, _ => false
  end.

Definition Swap (l : list A) (i j : nat) : list A :=
  match l !! i, l !! j with
  | Some x, Some y => <[i:=y]> (<[j:=x]> l)
  | _, _ => l
  end.

(** The loops of [up] and [down]; the index only moves towards the root,
    respectively the leaves, so the fuel given below is never exhausted. *)
Fixpoint up (fuel : nat) (l : list A) (j : nat) : list A :=
  match fuel with
  | O => l
  | S fuel =>
      let i := parent j in
      if (i =? j)%nat || negb (Less l j i) then l else up fuel (Swap l i j) i
  end.

(** The child that [down] compares with: the left one, [j1], unless the
    right one is there and less. *)
Definition min_child (l : list A) (i n : nat) : nat :=
  let j1 := (2 * i + 1)%nat in
  if (S j1 <? n)%nat && Less l (S j1) j1 then S j1 else j1.

Fixpoint down (fuel : nat) (l : list A) (i n : nat) : list A :=
  match fuel with
  | O => l
  | S fuel =>
      if (n <=? 2 * i + 1)%nat then l
      else
        let j := min_child l i n in
        if negb (Less l j i) then l else down fuel (Swap l i j) j n
  end.

Definition heap_Push (l : list A) (x : A) : list A :=
  let l' := l ++ [x] in up (length l') l' (length l' - 1).

Definition heap_Pop (l : list A) : option (A * list A) :=
  match length l with
  | O => None
  | S n =>
      let l' := down (length l) (Swap l 0 n) 0 n in
      x ← l' !! n; Some (x, take n l')
  end.

(** The key at an index, for reasoning about the order pointwise. *)
Definition kth (l : list A) (i : nat) : Z := from_option key 0 (l !! i).

Definition heap_ordered_below (n : nat) (l : list A) : Prop :=
  ∀ k, (0 < k < n)%nat → kth l (parent k) <= kth l k.

Definition heap_ordered (l : list A) : Prop := heap_ordered_below (length l) l.

Lemma parent_lt k : (0 < k)%nat → (parent k < k)%nat.
Proof. unfold parent. lia. Qed.

Lemma Swap_length l i j : length (Swap l i j) = length l.
Proof. unfold Swap. repeat case_match; rewrite ?length_insert; done. Qed.

Lemma kth_Swap l i j k :
  (i < length l)%nat → (j < length l)%nat →
  kth (Swap l i j) k = if decide (k = i) then kth l j else if decide (k = j) then kth l i else kth l k.
Proof.
  intros Hi Hj. unfold Swap, kth.
  apply lookup_lt_is_Some in Hi as Hx. destruct Hx as [x Hx].
  apply lookup_lt_is_Some in Hj as Hy. destruct Hy as [y Hy].
  rewrite Hx, Hy. repeat case_decide; subst.
  - by rewrite list_lookup_insert_eq by (by rewrite length_insert).
  - rewrite list_lookup_insert_ne, list_lookup_insert_eq by done. done.
  - by rewrite !list_lookup_insert_ne by done.
Qed.

Lemma Less_kth l i j :
  (i < length l)%nat → (j < length l)%nat → Less l i j = (kth l i <? kth l j).
Proof.
  intros Hi Hj. unfold Less, kth.
  apply lookup_lt_is_Some in Hi as [x ->]. apply lookup_lt_is_Some in Hj as [y ->]. done.
Qed.

Lemma Swap_perm l i j : Swap l i j ≡ₚ l.
Proof.
  unfold Swap. destruct (l !! i) as [x|] eqn:Hx; [|done]. destruct (l !! j) as [y|] eqn:Hy; [|done].
  destruct (decide (i = j)) as [->|Hij].
  { simplify_eq. by rewrite list_insert_insert_eq, list_insert_id. }
  apply lookup_lt_Some in Hx as Hi. apply lookup_lt_Some in Hy as Hj.
  apply Permutation_inj. split; [by rewrite !length_insert|].
  exists (λ k, if decide (k = i) then j else if decide (k = j) then i else k). split.
  - intros a b. repeat case_decide; congruence.
  - intros k. repeat case_decide; subst.
    + rewrite list_lookup_insert_eq by (by rewrite length_insert). done.
    + rewrite list_lookup_insert_ne, list_lookup_insert_eq by done. done.
    + by rewrite !list_lookup_insert_ne by done.
Qed.

(** ** Sift up *)

(** The order everywhere except between [j] and its parent, where the
    children of [j] are nevertheless above [j]'s parent. *)
Definition hole_up (l : list A) (j : nat) : Prop :=
  (∀ k, (0 < k < length l)%nat → k ≠ j → kth l (parent k) <= kth l k) ∧
  (∀ k, (0 < k < length l)%nat → (0 < j)%nat → parent k = j → kth l (parent j) <= kth l k).

Lemma up_length fuel l j : length (up fuel l j) = length l.
Proof.
  revert l j. induction fuel as [|fuel IH]; intros; simpl; [done|].
  case_match; [done|]. by rewrite IH, Swap_length.
Qed.

Lemma up_perm fuel l j : up fuel l j ≡ₚ l.
Proof.
  revert l j. induction fuel as [|fuel IH]; intros; simpl; [done|].
  case_match; [done|]. by rewrite IH, Swap_perm.
Qed.

Lemma hole_up_step l j :
  (0 < j < length l)%nat → kth l j < kth l (parent j) → hole_up l j →
  hole_up (Swap l (parent j) j) (parent j).
Proof.
  intros Hj Hlt [H1 H2]. pose proof (parent_lt j ltac:(lia)) as Hp.
  split; intros k Hk; rewrite Swap_length in Hk; pose proof (parent_lt k ltac:(lia)) as Hpk;
    pose proof (H1 k) as H1k; pose proof (H2 k) as H2k.
  - intros Hne. rewrite !kth_Swap by lia. heap_cases.
  - intros Hp0 Hpp. rewrite !kth_Swap by lia.
    pose proof (parent_lt (parent j) ltac:(lia)). pose proof (H1 (parent j) ltac:(lia) ltac:(lia)).
    heap_cases.
Qed.

Lemma up_ordered fuel l j :
  (j < length l)%nat → (j <= fuel)%nat → hole_up l j → heap_ordered (up fuel l j).
Proof.
  revert l j. induction fuel as [|fuel IH]; intros l j Hj Hf Hh; simpl.
  - intros k Hk. apply Hh; lia.
  - destruct (decide (j = 0%nat)) as [->|Hj0].
    { change (parent 0 =? 0)%nat with true. simpl. intros k Hk. apply Hh; lia. }
    pose proof (parent_lt j ltac:(lia)) as Hp.
    destruct (parent j =? j)%nat eqn:Epj; [apply Nat.eqb_eq in Epj; lia|]. simpl.
    rewrite Less_kth by lia. destruct (kth l j <? kth l (parent j)) eqn:E; breflect; simpl.
    + apply IH; [rewrite Swap_length; lia|lia|]. apply hole_up_step; auto with lia.
    + intros k Hk. destruct (decide (k = j)) as [->|]; [done|]. apply Hh; lia.
Qed.

(** ** Sift down *)

Definition hole_down (n : nat) (l : list A) (i : nat) : Prop :=
  (∀ k, (0 < k < n)%nat → parent k ≠ i → kth l (parent k) <= kth l k) ∧
  (∀ k, (0 < k < n)%nat → (0 < i)%nat → parent k = i → kth l (parent i) <= kth l k).

Lemma down_length fuel l i n : length (down fuel l i n) = length l.
Proof.
  revert l i. induction fuel as [|fuel IH]; intros; cbn [down]; [done|].
  do 2 (case_match; [done|]). by rewrite IH, Swap_length.
Qed.

Lemma down_perm fuel l i n : down fuel l i n ≡ₚ l.
Proof.
  revert l i. induction fuel as [|fuel IH]; intros; cbn [down]; [done|].
  do 2 (case_match; [done|]). by rewrite IH, Swap_perm.
Qed.

Lemma min_child_spec l i n :
  (n <= length l)%nat → (2 * i + 1 < n)%nat →
  (min_child l i n < n)%nat ∧ parent (min_child l i n) = i ∧ (i < min_child l i n)%nat ∧
  ∀ k, (0 < k < n)%nat → parent k = i → kth l (min_child l i n) <= kth l k.
Proof.
  intros Hn Hi. unfold min_child, parent.
  destruct (S (2 * i + 1) <? n)%nat eqn:E; cbn [andb].
  - apply Nat.ltb_lt in E. rewrite Less_kth by lia.
    destruct (kth l (S (2 * i + 1)) <? kth l (2 * i + 1)) eqn:E'; breflect;
      (split; [lia|split; [lia|split; [lia|]]]); intros k Hk Hpk;
      assert (k = 2 * i + 1 ∨ k = S (2 * i + 1))%nat as [-> | ->] by lia; lia.
  - apply Nat.ltb_ge in E. split; [lia|split; [lia|split; [lia|]]]. intros k Hk Hpk.
    assert (k = 2 * i + 1)%nat as -> by lia. lia.
Qed.

(** Positions from [n] on are not touched. *)
Lemma down_beyond fuel l i n k :
  (n <= length l)%nat → (i < n)%nat → (n <= k)%nat → down fuel l i n !! k = l !! k.
Proof.
  revert l i. induction fuel as [|fuel IH]; intros l i Hn Hi Hk; cbn [down]; [done|].
  case_match eqn:E; [done|]. apply Nat.leb_gt in E.
  destruct (min_child_spec l i n Hn E) as (Hj & _).
  case_match; [done|]. rewrite IH by (rewrite ?Swap_length; lia).
  unfold Swap. do 2 (case_match; [|done]).
  by rewrite !list_lookup_insert_ne by lia.
Qed.

Lemma hole_down_step n l i :
  (n <= length l)%nat → (2 * i + 1 < n)%nat →
  let j := min_child l i n in
  kth l j < kth l i → hole_down n l i → hole_down n (Swap l i j) j.
Proof.
  intros Hn Hi j Hlt [H1 H2]. destruct (min_child_spec l i n Hn Hi) as (Hj & Hpj & Hij & Hmin).
  fold j in Hj, Hpj, Hij, Hmin.
  split; intros k Hk; pose proof (parent_lt k ltac:(lia)) as Hpk;
    pose proof (H1 k Hk) as H1k; pose proof (H2 k Hk) as H2k; pose proof (Hmin k Hk) as Hm.
  - intros Hne. rewrite !kth_Swap by lia. heap_cases.
  - intros _ Hpkj. rewrite !kth_Swap by lia. rewrite Hpj.
    heap_cases.
Qed.

Lemma down_ordered fuel n l i :
  (n <= length l)%nat → (i < n)%nat → (n - i <= fuel)%nat → hole_down n l i →
  heap_ordered_below n (down fuel l i n).
Proof.
  revert l i. induction fuel as [|fuel IH]; intros l i Hn Hi Hf Hh; [lia|]. cbn [down].
  destruct (n <=? 2 * i + 1)%nat eqn:E.
  - apply Nat.leb_le in E. intros k Hk. apply Hh; [done|]. unfold parent. lia.
  - apply Nat.leb_gt in E.
    destruct (min_child_spec l i n Hn E) as (Hj & Hpj & Hij & Hmin).
    rewrite Less_kth by lia. destruct (kth l (min_child l i n) <? kth l i) eqn:Ek; breflect; simpl.
    + apply IH; [rewrite Swap_length; lia|lia|lia|]. by apply hole_down_step.
    + intros k Hk. destruct (decide (parent k = i)) as [Hpk|Hpk].
      * rewrite Hpk. specialize (Hmin k Hk Hpk). lia.
      * by apply Hh.
Qed.

(** ** Results *)

Lemma heap_ordered_nil : heap_ordered [].
Proof. intros k Hk. simpl in Hk. lia. Qed.

Lemma root_least n l k : heap_ordered_below n l → (k < n)%nat → kth l 0 <= kth l k.
Proof.
  intros Ho. induction k as [k IH] using lt_wf_ind. intros Hk.
  destruct (decide (k = 0%nat)) as [->|]; [lia|]. pose proof (parent_lt k ltac:(lia)).
  specialize (IH (parent k) ltac:(lia) ltac:(lia)). specialize (Ho k ltac:(lia)). lia.
Qed.

Lemma root_least_elem l x y : heap_ordered l → l !! 0%nat = Some x → y ∈ l → key x <= key y.
Proof.
  intros Ho Hx Hy. apply list_elem_of_lookup in Hy as [k Hk].
  pose proof (root_least _ _ k Ho (lookup_lt_Some _ _ _ Hk)) as H.
  unfold kth in H. by rewrite Hx, Hk in H.
Qed.

Lemma heap_Push_perm l x : heap_Push l x ≡ₚ x :: l.
Proof. unfold heap_Push. rewrite up_perm. by rewrite Permutation_app_comm. Qed.

Lemma heap_Push_ordered l x : heap_ordered l → heap_ordered (heap_Push l x).
Proof.
  intros Ho. unfold heap_Push. apply up_ordered; rewrite ?length_app; simpl; try lia.
  assert (∀ k, (k < length l)%nat → kth (l ++ [x]) k = kth l k) as Hk.
  { intros k Hk. unfold kth. by rewrite lookup_app_l. }
  split; intros k; rewrite length_app; simpl; intros Hk' Hne.
  - pose proof (parent_lt k ltac:(lia)). rewrite !Hk by lia. apply Ho. lia.
  - unfold parent. lia.
Qed.

(** The last position after the swap and the sift holds the old root. *)
Lemma popped_is_root l n x :
  length l = S n → down (length l) (Swap l 0 n) 0 n !! n = Some x → l !! 0%nat = Some x.
Proof.
  intros Hlen Hd. destruct (lookup_lt_is_Some_2 l 0%nat ltac:(lia)) as [a Ha].
  destruct (lookup_lt_is_Some_2 l n ltac:(lia)) as [w Hw].
  destruct (decide (n = 0%nat)) as [->|Hn].
  - rewrite Hlen in Hd. simpl in Hd. unfold Swap in Hd. rewrite Ha in Hd.
    rewrite list_lookup_insert_eq in Hd by (rewrite length_insert; lia). congruence.
  - rewrite down_beyond in Hd by (rewrite ?Swap_length; lia).
    unfold Swap in Hd. rewrite Ha, Hw in Hd.
    rewrite list_lookup_insert_ne, list_lookup_insert_eq in Hd by lia. congruence.
Qed.

Lemma Swap_ends_hole l n :
  length l = S n → heap_ordered l → hole_down n (Swap l 0 n) 0.
Proof.
  intros Hlen Ho. split; [|lia]. intros k Hk Hp. rewrite !kth_Swap by lia.
  pose proof (parent_lt k ltac:(lia)). specialize (Ho k ltac:(lia)). heap_cases.
Qed.

Lemma heap_Pop_spec l x l' :
  heap_ordered l → heap_Pop l = Some (x, l') →
  heap_ordered l' ∧ l ≡ₚ x :: l' ∧ l !! 0%nat = Some x ∧ ∀ y, y ∈ l → key x <= key y.
Proof.
  intros Ho Hp. unfold heap_Pop in Hp. destruct (length l) as [|n] eqn:Hlen; [done|].
  set (d := down _ _ _ _) in *.
  destruct (d !! n) as [z|] eqn:Ed; simpl in Hp; [|done]. injection Hp as -> <-.
  assert (length d = S n) as Hd by (unfold d; by rewrite down_length, Swap_length).
  assert (d = take n d ++ [x]) as Hsplit.
  { rewrite <- (take_ge d (S n)) at 1 by lia. by apply take_S_r. }
  assert (l !! 0%nat = Some x) as Hx.
  { apply (popped_is_root l n); [done|]. by rewrite Hlen. }
  split; [|split; [|split; [done|]]].
  - intros k Hk. rewrite length_take, Hd in Hk. pose proof (parent_lt k ltac:(lia)).
    assert (kth d (parent k) <= kth d k) as Hdo.
    { destruct (decide (n = 0%nat)); [lia|].
      apply (down_ordered (S n) n (Swap l 0 n) 0); [rewrite Swap_length; lia|lia|lia| |lia].
      by apply Swap_ends_hole. }
    unfold kth in *. by rewrite !lookup_take_lt by lia.
  - rewrite Permutation_cons_append, <- Hsplit. unfold d. by rewrite down_perm, Swap_perm.
  - intros y Hy. by eapply root_least_elem.
Qed.

Lemma heap_Pop_Some l : l ≠ [] → is_Some (heap_Pop l).
Proof.
  intros Hl. unfold heap_Pop. destruct (length l) as [|n] eqn:Hlen.
  { by apply length_zero_iff_nil in Hlen. }
  destruct (lookup_lt_is_Some_2 (down (S n) (Swap l 0 n) 0 n) n) as [x Hx].
  { rewrite down_length, Swap_length. lia. }
  rewrite Hx. simpl. by eexists.
Qed.
End heap.
