(* ===== verification/GoSort.v ===== *)
(** Go's [sort.SliceStable]; [sort.Slice] on distinct keys gives the same. *)
From S2P Require Import Prelude.
From Stdlib Require Import Sorting.Sorted.

Section sort.
Context {A : Type} (less : A → A → bool).

Fixpoint insert_before (x : A) (l : list A) : list A :=
  match l with
  | [] => [x]
  | y :: l' => if less y x then y :: insert_before x l' else x :: l
  end.

Definition sort_stable (l : list A) : list A := foldr insert_before [] l.

(** [y] may stand after [x]. *)
Definition in_order (x y : A) : Prop := less y x = false.

Lemma insert_before_perm x l : insert_before x l ≡ₚ x :: l.
Proof. induction l as [|y l IH]; simpl; [done|]. case_match; [|done]. rewrite IH. constructor. Qed.

Lemma sort_stable_perm l : sort_stable l ≡ₚ l.
Proof. induction l as [|x l IH]; simpl; [done|]. by rewrite insert_before_perm, IH. Qed.

Lemma elem_of_sort_stable x l : x ∈ sort_stable l ↔ x ∈ l.
Proof. by rewrite sort_stable_perm. Qed.

(** A comparison by keys: a strict weak order. *)
Context (less_irrefl : ∀ x, less x x = false).
Context (in_order_trans : ∀ x y z, in_order x y → in_order y z → in_order x z).
Context (less_asym : ∀ x y, less x y = true → less y x = false).

Lemma insert_before_sorted x l : StronglySorted in_order l → StronglySorted in_order (insert_before x l).
Proof using in_order_trans less_asym.
  induction 1 as [|y l Hs IH Hy]; simpl; [repeat constructor|]. destruct (less y x) eqn:E.
  - constructor; [done|]. rewrite insert_before_perm. constructor; [by apply less_asym|done].
  - constructor; [by constructor|]. constructor; [done|].
    eapply Forall_impl; [exact Hy|]. intros z Hz. by eapply in_order_trans.
Qed.

Lemma sort_stable_sorted l : StronglySorted in_order (sort_stable l).
Proof using in_order_trans less_asym.
  induction l as [|x l IH]; simpl; [constructor|]. by apply insert_before_sorted.
Qed.

(** Elements that compare alike keep their order. *)
Definition alike (x y : A) : bool := negb (less x y) && negb (less y x).

Lemma insert_before_stable k x l :
  (∀ y, less y x = true → alike k x = true → alike k y = true → False) →
  filter (λ y, alike k y = true) (insert_before x l) = filter (λ y, alike k y = true) (x :: l).
Proof.
  intros Hk. induction l as [|y l IH]; simpl; [done|]. destruct (less y x) eqn:E; [|done].
  rewrite filter_cons, IH, !filter_cons. destruct (decide (alike k y = true)), (decide (alike k x = true)); try done.
  exfalso. by apply (Hk y).
Qed.

Lemma sort_stable_stable k l :
  filter (λ y, alike k y = true) (sort_stable l) = filter (λ y, alike k y = true) l.
Proof using in_order_trans.
  induction l as [|x l IH]; simpl; [done|].
  rewrite insert_before_stable, !filter_cons, IH; [done|].
  intros y Hyx Hkx Hky. unfold alike, in_order in *.
  apply andb_prop in Hkx as [H1 H2], Hky as [H3 H4]. rewrite !negb_true_iff in *.
  assert (less y x = false) by (apply (in_order_trans x k y); done). congruence.
Qed.

(** The first of a sorted list is least. *)
Lemma sorted_head x l y : StronglySorted in_order (x :: l) → y ∈ x :: l → in_order x y.
Proof using less_irrefl.
  intros Hs%StronglySorted_inv [->|Hy]%elem_of_cons; [apply less_irrefl|]. destruct Hs as [_ Hf].
  by eapply Forall_forall in Hf.
Qed.
End sort.

(** * Strings by their bytes *)

Lemma ascii_compare_lt_trans a b c :
  Ascii.compare a b = Lt → Ascii.compare b c = Lt → Ascii.compare a c = Lt.
Proof. unfold Ascii.compare. rewrite !N.compare_lt_iff. apply N.lt_trans. Qed.

Lemma compare_lt_trans s1 s2 s3 :
  String.compare s1 s2 = Lt → String.compare s2 s3 = Lt → String.compare s1 s3 = Lt.
Proof.
  revert s2 s3. induction s1 as [|a s1 IH]; intros [|b s2] [|c s3]; simpl; try done.
  destruct (Ascii.compare a b) eqn:E1, (Ascii.compare b c) eqn:E2; try done; intros Ha Hb.
  - apply Ascii.compare_eq_iff in E1 as ->. rewrite E2. by eapply IH.
  - apply Ascii.compare_eq_iff in E1 as ->. by rewrite E2.
  - apply Ascii.compare_eq_iff in E2 as ->. by rewrite E1.
  - by rewrite (ascii_compare_lt_trans a b c).
Qed.

Lemma compare_refl s : String.compare s s = Eq.
Proof.
  induction s as [|a s IH]; simpl; [done|]. assert (Ascii.compare a a = Eq) as -> by apply N.compare_refl. done.
Qed.

Lemma ltb_irrefl s : String.ltb s s = false.
Proof. unfold String.ltb. by rewrite compare_refl. Qed.

Lemma ltb_asym s1 s2 : String.ltb s1 s2 = true → String.ltb s2 s1 = false.
Proof. unfold String.ltb. rewrite (String.compare_antisym s2 s1). by destruct (String.compare s1 s2). Qed.

Lemma ltb_weak s1 s2 s3 : String.ltb s2 s1 = false → String.ltb s3 s2 = false → String.ltb s3 s1 = false.
Proof.
  unfold String.ltb. destruct (String.compare s3 s1) eqn:E31; try done.
  destruct (String.compare s3 s2) eqn:E32; try done.
  - apply String.compare_eq_iff in E32 as ->. by rewrite E31.
  - assert (String.compare s2 s3 = Lt) as E23 by by rewrite String.compare_antisym, E32.
    by rewrite (compare_lt_trans s2 s3 s1).
Qed.

Lemma ltb_total s1 s2 : String.ltb s1 s2 = false → String.ltb s2 s1 = false → s1 = s2.
Proof.
  unfold String.ltb. rewrite (String.compare_antisym s2 s1).
  destruct (String.compare s1 s2) eqn:E; try done. intros _ _. by apply String.compare_eq_iff.
Qed.
