(* ===== verification/GoStrings.v ===== *)
(** The part of Go's [strings], [unicode/utf8] and [strconv] the program uses,
    on byte sequences: a Go string is its bytes, a rune is an integer. *)
From S2P Require Import Prelude.
From Stdlib Require Import Strings.Byte.

Declare Scope go_scope.
Delimit Scope go_scope with go.

(** Byte literals. *)
Notation "'B[' s ]" := (bs s%string) (at level 1, format "'B[' s ]") : go_scope.
Open Scope go_scope.

(** * UTF-8 *)

Abbreviation rune := Z.
Definition RuneError : rune := 65533.

Definition in_range (lo hi : Z) (b : byte) : bool := (lo <=? b2z b) && (b2z b <=? hi).
Definition is_cont (b : byte) : bool := in_range 128 191 b.

(** The well-formed sequences of two, three and four bytes. *)
Definition wf2 (a b : byte) : bool := in_range 194 223 a && is_cont b.
Definition wf3 (a b c : byte) : bool :=
  ((in_range 224 224 a && in_range 160 191 b) ||
   (in_range 225 236 a && is_cont b) ||
   (in_range 237 237 a && in_range 128 159 b) ||
   (in_range 238 239 a && is_cont b)) && is_cont c.
Definition wf4 (a b c d : byte) : bool :=
  ((in_range 240 240 a && in_range 144 191 b) ||
   (in_range 241 243 a && is_cont b) ||
   (in_range 244 244 a && in_range 128 143 b)) && is_cont c && is_cont d.

Definition rune2 (a b : byte) : rune := Z.shiftl (b2z a - 192) 6 + (b2z b - 128).
Definition rune3 (a b c : byte) : rune :=
  Z.shiftl (b2z a - 224) 12 + Z.shiftl (b2z b - 128) 6 + (b2z c - 128).
Definition rune4 (a b c d : byte) : rune :=
  Z.shiftl (b2z a - 240) 18 + Z.shiftl (b2z b - 128) 12 + Z.shiftl (b2z c - 128) 6 + (b2z d - 128).

(** A string as [range] goes through it: each character with its bytes, [None]
    for one byte that starts no well-formed sequence. *)
Fixpoint chars (s : bytes) : list (option rune * bytes) :=
  match s with
  | [] => []
  | a :: s1 =>
      if b2z a <? 128 then (Some (b2z a), [a]) :: chars s1
      else
        match s1 with
        | b :: s2 =>
            if wf2 a b then (Some (rune2 a b), [a; b]) :: chars s2
            else
              match s2 with
              | c :: s3 =>
                  if wf3 a b c then (Some (rune3 a b c), [a; b; c]) :: chars s3
                  else
                    match s3 with
                    | d :: s4 =>
                        if wf4 a b c d then (Some (rune4 a b c d), [a; b; c; d]) :: chars s4
                        else (None, [a]) :: chars s1
                    | [] => (None, [a]) :: chars s1
                    end
              | [] => (None, [a]) :: chars s1
              end
        | [] => (None, [a]) :: chars s1
        end
  end.

Definition ValidUtf8 (s : bytes) : bool := forallb (λ c, bool_decide (is_Some c.1)) (chars s).
Definition RuneCount (s : bytes) : Z := zlen (chars s).
Definition runes (s : bytes) : list rune := (λ c, default RuneError c.1) <$> chars s.

(** [string(r)] and the escapes of JSON: a rune's encoding; surrogates and
    values out of range are encoded as [RuneError]. *)
Definition encode_rune (r : rune) : bytes :=
  let r := if (r <? 0) || (1114111 <? r) || ((55296 <=? r) && (r <=? 57343)) then RuneError else r in
  if r <? 128 then [z2b r]
  else if r <? 2048 then [z2b (192 + Z.shiftr r 6); z2b (128 + Z.land r 63)]
  else if r <? 65536 then
    [z2b (224 + Z.shiftr r 12); z2b (128 + Z.land (Z.shiftr r 6) 63); z2b (128 + Z.land r 63)]
  else
    [z2b (240 + Z.shiftr r 18); z2b (128 + Z.land (Z.shiftr r 12) 63);
     z2b (128 + Z.land (Z.shiftr r 6) 63); z2b (128 + Z.land r 63)].

(** * Comparing, searching and cutting *)

Definition is_empty (s : bytes) : bool := bool_decide (s = []).
Definition beq (s t : bytes) : bool := bool_decide (s = t).

Fixpoint HasPrefix (s p : bytes) : bool :=
  match p, s with
  | [], _ => true
  | b :: p, c :: s => bool_decide (b = c) && HasPrefix s p
  | _ :: _, [] => false
  end.

Definition TrimPrefix (s p : bytes) : bytes := if HasPrefix s p then drop (length p) s else s.

Definition HasSuffix (s p : bytes) : bool := HasPrefix (reverse s) (reverse p).
Definition TrimSuffix (s p : bytes) : bytes :=
  if HasSuffix s p then take (length s - length p) s else s.

(** [IndexByte]: the position of the first occurrence. *)
Fixpoint IndexByte (s : bytes) (c : byte) : option nat :=
  match s with
  | [] => None
  | b :: s => if decide (b = c) then Some 0%nat else S <$> IndexByte s c
  end.

(** [LastIndex] of a one-byte string. *)
Definition LastIndexByte (s : bytes) (c : byte) : option nat :=
  (λ i, (length s - 1 - i)%nat) <$> IndexByte (reverse s) c.

Definition ContainsByte (s : bytes) (c : byte) : bool := bool_decide (is_Some (IndexByte s c)).

(** [Cut] around a one-byte separator. *)
Definition Cut (s : bytes) (c : byte) : bytes * bytes * bool :=
  match IndexByte s c with
  | Some i => (take i s, drop (S i) s, true)
  | None => (s, [], false)
  end.

(** [Split] on a one-byte separator. *)
Fixpoint Split (s : bytes) (c : byte) : list bytes :=
  match s with
  | [] => [[]]
  | b :: s =>
      if decide (b = c) then [] :: Split s c
      else match Split s c with
           | p :: ps => (b :: p) :: ps
           | [] => [[b]]
           end
  end.

(** [SplitN] with a positive [n]: at most [n] parts. *)
Fixpoint SplitN (n : nat) (s : bytes) (c : byte) : list bytes :=
  match n with
  | O => []
  | S O => [s]
  | S n' =>
      match Cut s c with
      | (p, rest, true) => p :: SplitN n' rest c
      | (_, _, false) => [s]
      end
  end.

(** [Join] with a one-byte separator. *)
Fixpoint JoinByte (ps : list bytes) (c : byte) : bytes :=
  match ps with
  | [] => []
  | [p] => p
  | p :: ps => p ++ c :: JoinByte ps c
  end.

(** * White space *)

(** The encodings of the characters with the Unicode property White_Space. *)
Definition spaces : list bytes :=
  [[x09]; [x0a]; [x0b]; [x0c]; [x0d]; [x20]; [xc2; x85]; [xc2; xa0]; [xe1; x9a; x80];
   [xe2; x80; x80]; [xe2; x80; x81]; [xe2; x80; x82]; [xe2; x80; x83]; [xe2; x80; x84]; [xe2; x80; x85];
   [xe2; x80; x86]; [xe2; x80; x87]; [xe2; x80; x88]; [xe2; x80; x89]; [xe2; x80; x8a];
   [xe2; x80; xa8]; [xe2; x80; xa9]; [xe2; x80; xaf]; [xe2; x81; x9f]; [xe3; x80; x80]].

(** Remove members of [ps] from the front; each removal takes a byte, so the
    length is fuel enough. *)
Fixpoint strip (fuel : nat) (ps : list bytes) (s : bytes) : bytes :=
  match fuel with
  | O => s
  | S fuel =>
      match list_find (λ p, HasPrefix s p = true) ps with
      | Some (_, p) => strip fuel ps (drop (length p) s)
      | None => s
      end
  end.

Definition TrimLeftSpace (s : bytes) : bytes := strip (length s) spaces s.
Definition TrimRightSpace (s : bytes) : bytes :=
  reverse (strip (length s) (reverse <$> spaces) (reverse s)).
Definition TrimSpace (s : bytes) : bytes := TrimRightSpace (TrimLeftSpace s).

(** * Letter case *)

Definition is_upper (b : byte) : bool := in_range 65 90 b.
Definition is_lower (b : byte) : bool := in_range 97 122 b.
Definition is_digit (b : byte) : bool := in_range 48 57 b.
Definition lower_byte (b : byte) : byte := if is_upper b then z2b (b2z b + 32) else b.
Definition upper_byte (b : byte) : byte := if is_lower b then z2b (b2z b - 32) else b.

(** [unicode.ToLower] beyond ASCII is a table of the Unicode standard; the
    model is stated for any such table. *)
Class Unicode := { lower_rune : rune → rune }.

Definition ToLower_rune `{Unicode} (r : rune) : rune :=
  if r <? 128 then (if (65 <=? r) && (r <=? 90) then r + 32 else r) else lower_rune r.

(** [strings.ToLower] *)
Definition ToLower `{Unicode} (s : bytes) : bytes := mjoin ((λ r, encode_rune (ToLower_rune r)) <$> runes s).

(** Simple case folding as far as ASCII goes: the Kelvin sign folds to k and
    the long s to s.  [EqualFold s t] for ASCII [t]. *)
Definition fold_char (c : option rune * bytes) : bytes :=
  match c with
  | (Some 8490, _) => [x6b]
  | (Some 383, _) => [x73]
  | (_, s) => lower_byte <$> s
  end.
Definition fold_case (s : bytes) : bytes := mjoin (fold_char <$> chars s).
Definition EqualFold (s t : bytes) : bool := bool_decide (fold_case s = fold_case t).

(** * Numbers *)

Definition digit_val (b : byte) : Z := b2z b - 48.

Fixpoint digits_val (acc : Z) (s : bytes) : Z :=
  match s with
  | [] => acc
  | b :: s => digits_val (10 * acc + digit_val b) s
  end.

(** Decimal notation of a natural number; as many digits as binary ones is
    enough. *)
Fixpoint dec_digits (fuel : nat) (n : Z) : bytes :=
  match fuel with
  | O => []
  | S fuel => (if n <? 10 then [] else dec_digits fuel (n / 10)) ++ [z2b (48 + n mod 10)]
  end.
Definition Itoa (n : Z) : bytes :=
  if n <? 0 then x2d :: dec_digits (S (Z.to_nat (Z.log2 (- n)))) (- n)
  else dec_digits (S (Z.to_nat (Z.log2 n))) n.

Definition hex_val (b : byte) : option Z :=
  if is_digit b then Some (b2z b - 48)
  else if in_range 97 102 b then Some (b2z b - 87)
  else if in_range 65 70 b then Some (b2z b - 55)
  else None.

Definition hex_lower (v : Z) : byte := nth (Z.to_nat v) B["0123456789abcdef"] x00.
Definition hex_upper (v : Z) : byte := nth (Z.to_nat v) B["0123456789ABCDEF"] x00.

Example itoa_examples : Itoa <$> [0; 7; 10; 65536; -42; 1234567890123] =
  [B["0"]; B["7"]; B["10"]; B["65536"]; B["-42"]; B["1234567890123"]].
Proof. vm_compute. reflexivity. Qed.

Example trim_example : TrimSpace (B["  a b "] ++ [xe2; x80; x83; x0a]) = B["a b"].
Proof. vm_compute. reflexivity. Qed.

Example split_examples : (Split B["a,b,,c"] x2c, SplitN 2 B["a:b:c"] x3a, Cut B["k=v=w"] x3d) =
  ([B["a"]; B["b"]; []; B["c"]], [B["a"]; B["b:c"]], (B["k"], B["v=w"], true)).
Proof. vm_compute. reflexivity. Qed.

(** * Strings taken apart

    Searching, cutting, splitting and joining strings. *)

Lemma IndexByte_None s c : c ∉ s → IndexByte s c = None.
Proof.
  induction s as [|b s IH]; simpl; [done|]. intros Hc. rewrite not_elem_of_cons in Hc. destruct Hc as [Hb Hs].
  destruct (decide (b = c)); [congruence|]. by rewrite IH.
Qed.

Lemma IndexByte_app s c t : c ∉ s → IndexByte (s ++ c :: t) c = Some (length s).
Proof.
  induction s as [|b s IH]; simpl; [by destruct (decide (c = c))|].
  intros Hc. rewrite not_elem_of_cons in Hc. destruct Hc as [Hb Hs].
  destruct (decide (b = c)); [congruence|]. by rewrite IH.
Qed.

Lemma Cut_None s c : c ∉ s → Cut s c = (s, [], false).
Proof. intros H. unfold Cut. by rewrite IndexByte_None. Qed.

Lemma take_app_cons {A} (s : list A) c t : take (length s) (s ++ c :: t) = s.
Proof. apply take_app_length. Qed.

Lemma drop_app_cons {A} (s : list A) c t : drop (S (length s)) (s ++ c :: t) = t.
Proof. by rewrite (drop_app_ge s) by lia; replace (S (length s) - length s)%nat with 1%nat by lia. Qed.

(** Joining and splitting are inverse when no part holds the separator. *)
Lemma Split_app p c s : c ∉ p → Split (p ++ c :: s) c = p :: Split s c.
Proof.
  induction p as [|b p IH]; simpl; [by destruct (decide (c = c))|].
  rewrite not_elem_of_cons. intros [Hb Hp]. destruct (decide (b = c)); [congruence|]. by rewrite IH.
Qed.

Lemma Split_none p c : c ∉ p → Split p c = [p].
Proof.
  induction p as [|b p IH]; simpl; [done|]. rewrite not_elem_of_cons. intros [Hb Hp].
  destruct (decide (b = c)); [congruence|]. by rewrite IH.
Qed.

Lemma Split_JoinByte ps c : ps ≠ [] → Forall (λ p, c ∉ p) ps → Split (JoinByte ps c) c = ps.
Proof.
  induction ps as [|p [|q ps] IH]; intros Hne Hf; [done|..]; apply Forall_cons in Hf as [Hp Hf].
  - by apply Split_none.
  - change (JoinByte (p :: q :: ps) c) with (p ++ c :: JoinByte (q :: ps) c).
    rewrite Split_app by done. by rewrite IH.
Qed.

Lemma HasPrefix_self p s : HasPrefix (p ++ s) p = true.
Proof. induction p as [|b p IH]; simpl; [by destruct s|]. by rewrite bool_decide_eq_true_2. Qed.

Lemma TrimPrefix_self p s : TrimPrefix (p ++ s) p = s.
Proof. unfold TrimPrefix. rewrite HasPrefix_self. apply drop_app_length. Qed.

Lemma JoinByte_cons_length p ps c : zlen (JoinByte (p :: ps) c) <= zlen p + 1 + zlen (JoinByte ps c).
Proof.
  destruct ps as [|q ps]; [cbn [JoinByte]; rewrite zlen_nil; lia|].
  change (JoinByte (p :: q :: ps) c) with (p ++ c :: JoinByte (q :: ps) c). rewrite zlen_app, zlen_cons. lia.
Qed.

(** * Trimming *)

(** Visible ASCII is no white space, from either side. *)
Lemma find_no_prefix ps b s :
  [] ∉ ps → Forall (λ p, head p ≠ Some b) ps → list_find (λ p, HasPrefix (b :: s) p = true) ps = None.
Proof.
  intros Hne Hs. apply list_find_None, Forall_forall. intros p Hp Hpre. rewrite Forall_forall in Hs.
  destruct p as [|x p]; [done|]. apply (Hs _ Hp). simpl in *. apply andb_true_iff in Hpre as [Hx%bool_decide_eq_true _]. congruence.
Qed.

Lemma visible_spaces b s : 32 < b2z b < 127 →
  list_find (λ p, HasPrefix (b :: s) p = true) spaces = None ∧
  list_find (λ p, HasPrefix (b :: s) p = true) (reverse <$> spaces) = None.
Proof.
  intros Hb. split; (apply find_no_prefix; [decided|]); destruct b; try (vm_compute in Hb; naive_solver); decided.
Qed.

Lemma strip_visible fuel b s : 32 < b2z b < 127 →
  strip fuel spaces (b :: s) = b :: s ∧ strip fuel (reverse <$> spaces) (b :: s) = b :: s.
Proof. intros Hb. destruct (visible_spaces b s Hb) as [H1 H2]. destruct fuel; [done|]. cbn [strip]. by rewrite H1, H2. Qed.

Lemma strip_suffix fuel ps s : ∃ t, s = t ++ strip fuel ps s.
Proof.
  revert s. induction fuel as [|fuel IH]; intros s; [by exists []|]. cbn [strip].
  destruct (list_find _ ps) as [[i p]|]; [|by exists []]. destruct (IH (drop (length p) s)) as [t Ht].
  exists (take (length p) s ++ t). rewrite <- app_assoc, <- Ht. by rewrite take_drop.
Qed.

(** A word is trimmed to itself. *)
Lemma TrimSpace_word s : Forall (λ b, 32 < b2z b < 127) s → TrimSpace s = s.
Proof.
  intros Hs. unfold TrimSpace. assert (TrimLeftSpace s = s) as ->.
  { unfold TrimLeftSpace. destruct s as [|b s]; [done|]. apply Forall_cons in Hs as [Hb _]. by apply strip_visible. }
  unfold TrimRightSpace. apply Forall_reverse in Hs. destruct (reverse s) as [|b t] eqn:E.
  - apply (f_equal reverse) in E. rewrite reverse_involutive in E. by subst.
  - apply Forall_cons in Hs as [Hb _]. rewrite (proj2 (strip_visible _ b t Hb)), <- E. apply reverse_involutive.
Qed.

(** What begins with a visible character keeps it, unless nothing is left. *)
Lemma TrimSpace_head b s p : 32 < b2z b < 127 → p ≠ [] → head p ≠ Some b → HasPrefix (TrimSpace (b :: s)) p = false.
Proof.
  intros Hb Hp Hh. unfold TrimSpace. assert (TrimLeftSpace (b :: s) = b :: s) as -> by by apply strip_visible.
  unfold TrimRightSpace. destruct (strip_suffix (length (b :: s)) (reverse <$> spaces) (reverse (b :: s))) as [t Ht].
  apply (f_equal reverse) in Ht. rewrite reverse_involutive, reverse_app in Ht.
  destruct (reverse (strip _ _ _)) as [|x u]; destruct p as [|y p]; try done. simpl in Ht. injection Ht as -> _.
  simpl in *. by rewrite bool_decide_eq_false_2 by congruence.
Qed.

(** * UTF-8

    Facts about UTF-8 text: how [chars] cuts a string up, and that encoding a
    rune and cutting are inverse. *)

(** The pieces [chars] produces. *)
Inductive char_ok : option rune * bytes → Prop :=
  | char1 a : b2z a < 128 → char_ok (Some (b2z a), [a])
  | char2 a b : wf2 a b = true → char_ok (Some (rune2 a b), [a; b])
  | char3 a b c : wf3 a b c = true → char_ok (Some (rune3 a b c), [a; b; c])
  | char4 a b c d : wf4 a b c d = true → char_ok (Some (rune4 a b c d), [a; b; c; d])
  | char_bad a : 128 <= b2z a → char_ok (None, [a]).

(** One step of [chars]: the first piece and the rest. *)
Lemma chars_step a s :
  ∃ c t, a :: s = c.2 ++ t ∧ char_ok c ∧ chars (a :: s) = c :: chars t.
Proof.
  simpl. destruct (Z.ltb_spec (b2z a) 128) as [Ha|Ha]; [by eexists (_, [a]), s; split_and!; [|constructor|]|].
  pose proof (char_bad a Ha) as Hbad.
  destruct s as [|b s2]; [by eexists (_, [a]), []|].
  destruct (wf2 a b) eqn:H2; [by eexists (_, [a; b]), s2; split_and!; [|constructor|]|].
  destruct s2 as [|c s3]; [by eexists (_, [a]), [b]|].
  destruct (wf3 a b c) eqn:H3; [by eexists (_, [a; b; c]), s3; split_and!; [|constructor|]|].
  destruct s3 as [|d s4]; [by eexists (_, [a]), [b; c]|].
  destruct (wf4 a b c d) eqn:H4; [by eexists (_, [a; b; c; d]), s4; split_and!; [|constructor|]|].
  by eexists (_, [a]), (b :: c :: d :: s4).
Qed.

Lemma char_ok_nonempty c : char_ok c → c.2 ≠ [].
Proof. by destruct 1. Qed.

(** Induction over the characters of a string. *)
Lemma chars_ind (P : bytes → Prop) :
  P [] →
  (∀ c s, char_ok c → chars (c.2 ++ s) = c :: chars s → P s → P (c.2 ++ s)) →
  ∀ s, P s.
Proof.
  intros H0 Hs s. remember (length s) as n eqn:Hn. revert s Hn.
  induction (lt_wf n) as [n _ IH]. intros [|a s] Hn; [done|].
  destruct (chars_step a s) as (c & t & Heq & Hc & Hch). rewrite Heq in *.
  apply Hs; [done|done|]. eapply IH; [|done]. subst n.
  rewrite length_app. apply char_ok_nonempty in Hc. destruct (c.2); [done|simpl; lia].
Qed.

Lemma chars_ok s : Forall char_ok (chars s).
Proof. induction s as [|c s Hc Heq IH] using chars_ind; [constructor|]. rewrite Heq. by constructor. Qed.

Lemma chars_join s : mjoin (snd <$> chars s) = s.
Proof. induction s as [|c s Hc Heq IH] using chars_ind; [done|]. rewrite Heq. csimpl. by rewrite IH. Qed.

Lemma chars_ascii a s : b2z a < 128 → chars (a :: s) = (Some (b2z a), [a]) :: chars s.
Proof. intros Ha. simpl. by destruct (Z.ltb_spec (b2z a) 128); [|lia]. Qed.

Lemma chars_ascii_all s : Forall (λ b, b2z b < 128) s → chars s = (λ b, (Some (b2z b), [b])) <$> s.
Proof. induction 1 as [|b s Hb Hs IH]; [done|]. rewrite chars_ascii by done. csimpl. by rewrite IH. Qed.

Lemma ValidUtf8_ascii s : Forall (λ b, b2z b < 128) s → ValidUtf8 s = true.
Proof. intros Hs. unfold ValidUtf8. rewrite chars_ascii_all by done. by rewrite forallb_forall; intros ? (? & <- & _)%in_map_iff. Qed.

(** The ranges of the bytes of well-formed sequences. *)
Lemma in_range_iff lo hi b : in_range lo hi b = true ↔ lo <= b2z b <= hi.
Proof. unfold in_range. rewrite andb_true_iff, !Z.leb_le. done. Qed.

Lemma in_range_false lo hi b : b2z b < lo ∨ hi < b2z b → in_range lo hi b = false.
Proof. intros H. apply not_true_is_false. rewrite in_range_iff. lia. Qed.

Lemma wf2_range a b : wf2 a b = true ↔ 194 <= b2z a <= 223 ∧ 128 <= b2z b <= 191.
Proof. unfold wf2, is_cont. by rewrite andb_true_iff, !in_range_iff. Qed.

Lemma wf3_range a b c :
  wf3 a b c = true → 224 <= b2z a <= 239 ∧ 128 <= b2z b <= 191 ∧ 128 <= b2z c <= 191 ∧
    (b2z a = 224 → 160 <= b2z b) ∧ (b2z a = 237 → b2z b <= 159).
Proof. unfold wf3, is_cont. rewrite !andb_true_iff, !orb_true_iff, !andb_true_iff, !in_range_iff. lia. Qed.

Lemma wf4_range a b c d :
  wf4 a b c d = true → 240 <= b2z a <= 244 ∧ 128 <= b2z b <= 191 ∧ 128 <= b2z c <= 191 ∧ 128 <= b2z d <= 191 ∧
    (b2z a = 240 → 144 <= b2z b) ∧ (b2z a = 244 → b2z b <= 143).
Proof. unfold wf4, is_cont. rewrite !andb_true_iff, !orb_true_iff, !andb_true_iff, !in_range_iff. lia. Qed.

Lemma wf2_false a b : 224 <= b2z a → wf2 a b = false.
Proof. intros Ha. apply not_true_is_false. rewrite wf2_range. lia. Qed.

Lemma wf3_false a b c : 240 <= b2z a → wf3 a b c = false.
Proof. intros Ha. apply not_true_is_false. intros H%wf3_range. lia. Qed.

(** Well-formed sequences start a character wherever they stand. *)
Lemma chars_app_ok c s : char_ok c → is_Some c.1 → chars (c.2 ++ s) = c :: chars s.
Proof.
  destruct 1 as [a Ha|a b H2|a b c H3|a b c d H4|a Ha]; intros Hs; simpl.
  - by destruct (Z.ltb_spec (b2z a) 128); [|lia].
  - apply wf2_range in H2 as Hr. destruct (Z.ltb_spec (b2z a) 128); [lia|]. by rewrite H2.
  - apply wf3_range in H3 as Hr. destruct (Z.ltb_spec (b2z a) 128); [lia|].
    by rewrite wf2_false, H3 by lia.
  - apply wf4_range in H4 as Hr. destruct (Z.ltb_spec (b2z a) 128); [lia|].
    by rewrite wf2_false, wf3_false, H4 by lia.
  - by destruct Hs.
Qed.

Lemma rune2_range a b : wf2 a b = true → rune2 a b = (b2z a - 192) * 64 + (b2z b - 128) ∧ 128 <= rune2 a b < 2048.
Proof. intros H%wf2_range. unfold rune2. rewrite Z.shiftl_mul_pow2 by lia. change (2 ^ 6) with 64. lia. Qed.

Lemma rune3_range a b c :
  wf3 a b c = true →
  rune3 a b c = (b2z a - 224) * 4096 + (b2z b - 128) * 64 + (b2z c - 128) ∧ 2048 <= rune3 a b c < 65536.
Proof.
  intros H%wf3_range. unfold rune3. rewrite !Z.shiftl_mul_pow2 by lia.
  change (2 ^ 6) with 64. change (2 ^ 12) with 4096. lia.
Qed.

Lemma rune4_range a b c d : wf4 a b c d = true → 65536 <= rune4 a b c d.
Proof.
  intros H%wf4_range. unfold rune4. rewrite !Z.shiftl_mul_pow2 by lia.
  change (2 ^ 6) with 64. change (2 ^ 12) with 4096. change (2 ^ 18) with 262144. lia.
Qed.
