(* ===== verification/GoTime.v ===== *)
(** Go's [time.Time] and [time.Duration] as the relay uses them.  A [Time] is
    the number of nanoseconds since the zero time (1 January of year 1, UTC),
    so [IsZero] is equality with 0; a [Duration] is an [int64] of nanoseconds
    whose arithmetic wraps around. *)
From S2P Require Import Prelude GoStrings.
From Stdlib Require Import Strings.Byte.

Abbreviation Time := Z.
Abbreviation Duration := Z.

Definition Nanosecond : Duration := 1.
Definition Millisecond : Duration := 1000000.
Definition Second : Duration := 1000000000.
Definition Minute : Duration := 60 * Second.
Definition Hour : Duration := 60 * Minute.

Definition zero_time : Time := 0.
Definition IsZero (t : Time) : bool := t =? zero_time.
Definition Before (t u : Time) : bool := t <? u.
Definition After (t u : Time) : bool := u <? t.
Definition Add (t : Time) (d : Duration) : Time := t + d.

(** [time.Duration(n) * time.Second] *)
Definition seconds (n : Z) : Duration := wrap64 (n * Second).

(** The Unix epoch, 62135596800 seconds after the zero time. *)
Definition unix_epoch : Time := 62135596800 * Second.
Definition UnixMilli (t : Time) : Z := (t - unix_epoch) / Millisecond.
Definition time_UnixMilli (ms : Z) : Time := unix_epoch + ms * Millisecond.

(** [Truncate(time.Second)]: rounding down to whole seconds since the zero time. *)
Definition Truncate (t : Time) (d : Duration) : Time := t - t mod d.

(** Whole milliseconds, the times a store with millisecond precision keeps. *)
Definition whole_ms (t : Time) : Prop := ∃ ms, t = time_UnixMilli ms.

Lemma UnixMilli_time_UnixMilli ms : UnixMilli (time_UnixMilli ms) = ms.
Proof. unfold UnixMilli, time_UnixMilli, Millisecond. rewrite Z.add_simpl_l. by apply Z.div_mul. Qed.

Lemma time_UnixMilli_UnixMilli t : whole_ms t → time_UnixMilli (UnixMilli t) = t.
Proof. intros [ms ->]. by rewrite UnixMilli_time_UnixMilli. Qed.

Lemma UnixMilli_mono t u : whole_ms t → whole_ms u → (UnixMilli t < UnixMilli u ↔ t < u).
Proof.
  intros [a ->] [b ->]. rewrite !UnixMilli_time_UnixMilli.
  unfold time_UnixMilli, Millisecond. lia.
Qed.

(** The successive readings of a store's [Now] during one call. *)
Abbreviation Clock := (nat → Time).

(** A clock does not run backwards. *)
Definition monotone (ck : Clock) : Prop := ∀ i j, (i <= j)%nat → ck i <= ck j.

Definition still (t : Time) : Clock := λ _, t.

Lemma still_monotone t : monotone (still t).
Proof. intros i j _. unfold still. lia. Qed.

#[export] Hint Resolve still_monotone : burndrop.

(** * RFC 3339

    [time.Parse] and [Format] with the layout [time.RFC3339], and the text form
    of a time in JSON.  A time is written in UTC. *)

(** * The calendar *)

Definition is_leap (y : Z) : bool := (y mod 4 =? 0) && (negb (y mod 100 =? 0) || (y mod 400 =? 0)).

Definition month_lengths (y : Z) : list Z :=
  [31; if is_leap y then 29 else 28; 31; 30; 31; 30; 31; 31; 30; 31; 30; 31].

Definition days_in (m y : Z) : Z := default 0 (month_lengths y !! Z.to_nat (m - 1)).

(** Days from 1 January of year 1 to 1 January of year [y]. *)
Definition days_before_year (y : Z) : Z := 365 * (y - 1) + (y - 1) / 4 - (y - 1) / 100 + (y - 1) / 400.

Definition days_before_month (m y : Z) : Z := foldr Z.add 0 (take (Z.to_nat (m - 1)) (month_lengths y)).

(** * Parsing *)

(** [getnum]: two digits, or one when [fixed] is false. *)
Definition getnum (fixed : bool) (s : bytes) : option (Z * bytes) :=
  match s with
  | a :: s1 =>
      if is_digit a then
        match s1 with
        | b :: s2 =>
            if is_digit b then Some (10 * digit_val a + digit_val b, s2)
            else if fixed then None else Some (digit_val a, s1)
        | [] => if fixed then None else Some (digit_val a, s1)
        end
      else None
  | [] => None
  end.

Definition get_year (s : bytes) : option (Z * bytes) :=
  match s with
  | a :: b :: c :: d :: s' =>
      if is_digit a && is_digit b && is_digit c && is_digit d then Some (digits_val 0 [a; b; c; d], s') else None
  | _ => None
  end.

Definition expect (c : byte) (s : bytes) : option bytes :=
  match s with b :: s' => if decide (b = c) then Some s' else None | [] => None end.

Fixpoint take_digits (s : bytes) : bytes * bytes :=
  match s with
  | b :: s' => if is_digit b then let '(ds, r) := take_digits s' in (b :: ds, r) else ([], s)
  | [] => ([], [])
  end.

(** A fraction of a second after a period or a comma; nanoseconds, further
    digits are dropped. *)
Definition get_fraction (s : bytes) : Z * bytes :=
  match s with
  | c :: (d :: _) as s' =>
      if bool_decide (c = x2e ∨ c = x2c) && is_digit d then
        let '(ds, r) := take_digits (tail s) in
        let ds := take 9 ds in
        (digits_val 0 ds * 10 ^ (9 - zlen ds), r)
      else (0, s)
  | _ => (0, s)
  end.

(** The zone, in seconds east of UTC. *)
Definition get_zone (s : bytes) : option (Z * bytes) :=
  match s with
  | c :: s' =>
      if decide (c = x5a) then Some (0, s')
      else
        sg ← (if decide (c = x2b) then Some 1 else if decide (c = x2d) then Some (-1) else None);
        match s' with
        | h1 :: h2 :: colon :: m1 :: m2 :: r =>
            if is_digit h1 && is_digit h2 && bool_decide (colon = x3a) && is_digit m1 && is_digit m2 then
              let h := digits_val 0 [h1; h2] in
              let m := digits_val 0 [m1; m2] in
              if (h <=? 24) && (m <=? 60) then Some (sg * (3600 * h + 60 * m), r) else None
            else None
        | _ => None
        end
  | [] => None
  end.

Definition Parse_RFC3339 (s : bytes) : option Time :=
  '(year, s) ← get_year s;
  s ← expect x2d s;
  '(month, s) ← getnum true s;
  s ← expect x2d s;
  '(day, s) ← getnum true s;
  s ← expect x54 s;
  '(hour, s) ← getnum false s;
  s ← expect x3a s;
  '(min, s) ← getnum true s;
  s ← expect x3a s;
  '(sec, s) ← getnum true s;
  let '(nsec, s) := get_fraction s in
  '(zone, s) ← get_zone s;
  if bool_decide (s = []) && (1 <=? month) && (month <=? 12) && (hour <? 24) && (min <? 60) && (sec <? 60) &&
     (1 <=? day) && (day <=? days_in month year)
  then
    let days := days_before_year year + days_before_month month year + (day - 1) in
    Some ((86400 * days + 3600 * hour + 60 * min + sec - zone) * Second + nsec)
  else None.

(** * Formatting *)

(** The year, month and day of the day number [d] (0 is 1 January of year 1). *)
Definition year_of (d : Z) : Z * Z :=
  let n400 := d / 146097 in
  let d := d - 146097 * n400 in
  let n100 := Z.min 3 (d / 36524) in
  let d := d - 36524 * n100 in
  let n4 := d / 1461 in
  let d := d - 1461 * n4 in
  let n1 := Z.min 3 (d / 365) in
  (400 * n400 + 100 * n100 + 4 * n4 + n1 + 1, d - 365 * n1).

Fixpoint month_of (ls : list Z) (m yday : Z) : Z * Z :=
  match ls with
  | l :: ls => if yday <? l then (m, yday + 1) else month_of ls (m + 1) (yday - l)
  | [] => (m, yday + 1)
  end.

Definition digit (n : Z) : byte := z2b (48 + n mod 10).

(** [appendInt] with the width that pads: two digits of a number below 100,
    four of a year. *)
Definition pad2 (n : Z) : bytes := [digit (n / 10); digit n].
Definition pad4u (n : Z) : bytes :=
  if n <? 10000 then [digit (n / 1000); digit (n / 100); digit (n / 10); digit n] else Itoa n.
Definition pad4 (n : Z) : bytes := if n <? 0 then x2d :: pad4u (- n) else pad4u n.

(** The year, month and day of a day number. *)
Definition civil (d : Z) : Z * Z * Z :=
  let '(year, yday) := year_of d in
  let '(month, day) := month_of (month_lengths year) 1 yday in
  (year, month, day).

(** A UTC date and time, [frac] standing between the seconds and the zone. *)
Definition format_with (frac : bytes) (t : Time) : bytes :=
  let secs := t / Second in
  let '(year, month, day) := civil (secs / 86400) in
  let s := secs mod 86400 in
  pad4 year ++ B["-"] ++ pad2 month ++ B["-"] ++ pad2 day ++ B["T"] ++
  pad2 (s / 3600) ++ B[":"] ++ pad2 (s / 60 mod 60) ++ B[":"] ++ pad2 (s mod 60) ++ frac ++ B["Z"].

(** [t.UTC().Format(time.RFC3339)] *)
Definition Format_RFC3339 (t : Time) : bytes := format_with [] t.

(** The nine digits of the nanoseconds, most significant first, up to the last
    that is not zero. *)
Fixpoint frac_digits (n : nat) (nsec : Z) : bytes :=
  match n with
  | O => []
  | S n =>
      if nsec =? 0 then []
      else digit (nsec / 10 ^ Z.of_nat n) :: frac_digits n (nsec mod 10 ^ Z.of_nat n)
  end.

Definition fraction (nsec : Z) : bytes := if nsec =? 0 then [] else x2e :: frac_digits 9 nsec.

(** [appendStrictRFC3339]: the format [time.RFC3339Nano], four digits of the
    year or an error. *)
Definition Format_strict (t : Time) : option bytes :=
  let year := (year_of (t / Second / 86400)).1 in
  if (0 <=? year) && (year <=? 9999) then Some (format_with (fraction (t mod Second)) t) else None.

(** * Examples *)

Example format_epoch : Format_RFC3339 unix_epoch = B["1970-01-01T00:00:00Z"].
Proof. vm_compute. reflexivity. Qed.

Example format_leap_day : Format_RFC3339 (unix_epoch + 1709251199 * Second) = B["2024-02-29T23:59:59Z"].
Proof. vm_compute. reflexivity. Qed.

Example format_year_end : Format_RFC3339 (unix_epoch + 978307199 * Second) = B["2000-12-31T23:59:59Z"].
Proof. vm_compute. reflexivity. Qed.

Example format_nano :
  Format_strict <$> [unix_epoch + 120 * Millisecond; unix_epoch - 1; 10000 * 366 * 86400 * Second] =
  [Some B["1970-01-01T00:00:00.12Z"]; Some B["1969-12-31T23:59:59.999999999Z"]; None].
Proof. vm_compute. reflexivity. Qed.

Example parse_examples :
  Parse_RFC3339 <$> [B["1970-01-01T00:00:00Z"]; B["2024-02-29T23:59:59+02:00"]; B["1970-01-01T0:00:00.5Z"];
    B["2023-02-29T00:00:00Z"]; B["1970-01-01 00:00:00Z"]; B["1970-01-01T00:00:00"]] =
  [Some unix_epoch; Some (unix_epoch + 1709243999 * Second); Some (unix_epoch + Second / 2); None; None; None].
Proof. vm_compute. reflexivity. Qed.

(** * Everything a date is written with is ASCII *)

Definition ascii (s : bytes) : Prop := Forall (λ b, b2z b < 128) s.

Lemma digit_ascii b : is_digit b = true → b2z b < 128.
Proof. unfold is_digit, in_range. intros H. breflect. lia. Qed.

Lemma getnum_ascii fixed s n r : getnum fixed s = Some (n, r) → ascii r → ascii s.
Proof.
  unfold getnum. intros H Hr. split_match H; repeat (apply Forall_cons; split; [by apply digit_ascii|]); try done.
Qed.

Lemma get_year_ascii s n r : get_year s = Some (n, r) → ascii r → ascii s.
Proof.
  unfold get_year. intros H Hr. split_match H. breflect.
  by repeat (apply Forall_cons; split; [by apply digit_ascii|]).
Qed.

Lemma expect_ascii c s r : b2z c < 128 → expect c s = Some r → ascii r → ascii s.
Proof. unfold expect. intros Hc H Hr. split_match H. by apply Forall_cons. Qed.

Lemma take_digits_ascii s ds r : take_digits s = (ds, r) → ascii r → ascii s.
Proof.
  revert ds. induction s as [|b s IH]; intros ds; simpl; [intros; constructor|].
  destruct (is_digit b) eqn:Hb; [|by intros [= _ <-]].
  destruct (take_digits s) as [ds' r'] eqn:E. intros [= _ ->] Hr.
  apply Forall_cons. split; [by apply digit_ascii|]. by eapply IH.
Qed.

Lemma get_fraction_ascii s n r : get_fraction s = (n, r) → ascii r → ascii s.
Proof.
  unfold get_fraction. intros H Hr. destruct s as [|c [|d s]]; [by simplify_eq..|].
  destruct (bool_decide _ && _) eqn:E; [|by simplify_eq].
  apply andb_prop in E as [Hc _]. apply bool_decide_eq_true in Hc.
  change (tail (c :: d :: s)) with (d :: s) in H.
  destruct (take_digits (d :: s)) as [ds r'] eqn:Et. injection H as _ <-.
  apply Forall_cons. split; [destruct Hc as [-> | ->]; reflexivity|].
  by eapply take_digits_ascii.
Qed.

Lemma get_zone_ascii s n r : get_zone s = Some (n, r) → ascii r → ascii s.
Proof.
  unfold get_zone. intros H Hr. destruct s as [|c s]; [done|]. case_decide as Hc.
  { simplify_eq. apply Forall_cons. done. }
  apply bind_Some in H as (sg & Hsg & H). apply Forall_cons. split.
  - destruct (decide (c = x2b)) as [->|]; [done|]. by destruct (decide (c = x2d)) as [->|].
  - split_match H. breflect. subst.
    repeat (apply Forall_cons; split; [first [by apply digit_ascii|done]|]). done.
Qed.

Lemma Parse_RFC3339_ascii s t : Parse_RFC3339 s = Some t → ascii s.
Proof.
  unfold Parse_RFC3339. intros H.
  repeat (apply bind_Some in H as ([? ?] & ? & H) || apply bind_Some in H as (? & ? & H) ||
    match type of H with context [let '(_, _) := get_fraction ?s in _] => destruct (get_fraction s) as [? ?] eqn:? end).
  split_match H. breflect. subst.
  eapply get_year_ascii; [done|]. eapply expect_ascii; [|done|]; [done|].
  eapply getnum_ascii; [done|]. eapply expect_ascii; [|done|]; [done|].
  eapply getnum_ascii; [done|]. eapply expect_ascii; [|done|]; [done|].
  eapply getnum_ascii; [done|]. eapply expect_ascii; [|done|]; [done|].
  eapply getnum_ascii; [done|]. eapply expect_ascii; [|done|]; [done|].
  eapply getnum_ascii; [done|]. eapply get_fraction_ascii; [done|]. eapply get_zone_ascii; [done|]. constructor.
Qed.

(** * Times round trip

    A time in the text form that JSON stores is read back exactly. *)

(** * The calendar *)

Definition year_length (y : Z) : Z := if is_leap y then 366 else 365.

(** The year of a day given by the 400-, 100- and 4-year cycles before it. *)
Lemma cycles_spec a b c e r :
  0 <= b <= 3 → 0 <= c <= 24 → 0 <= e <= 3 → 0 <= r → (r < 365 ∨ e = 3 ∧ r < 366) →
  (c = 24 → b < 3 → 365 * e + r < 1460) →
  days_before_year (400 * a + 100 * b + 4 * c + e + 1) + r = 146097 * a + 36524 * b + 1461 * c + (365 * e + r) ∧
  0 <= r < year_length (400 * a + 100 * b + 4 * c + e + 1).
Proof.
  intros Hb Hc He Hr Hr' Hc24.
  assert ((400 * a + 100 * b + 4 * c + e) / 4 = 100 * a + 25 * b + c) as H4 by lia.
  assert ((400 * a + 100 * b + 4 * c + e) / 100 = 4 * a + b) as H100 by lia.
  assert ((400 * a + 100 * b + 4 * c + e) / 400 = a) as H400 by lia.
  unfold days_before_year. replace (400 * a + 100 * b + 4 * c + e + 1 - 1) with (400 * a + 100 * b + 4 * c + e) by lia.
  split; [lia|]. split; [lia|]. unfold year_length, is_leap.
  destruct (Z.eqb_spec ((400 * a + 100 * b + 4 * c + e + 1) mod 4) 0) as [E4|E4]; cbn [andb]; [|lia].
  destruct (Z.eqb_spec ((400 * a + 100 * b + 4 * c + e + 1) mod 100) 0) as [E1|E1]; cbn [negb orb]; [|lia].
  destruct (Z.eqb_spec ((400 * a + 100 * b + 4 * c + e + 1) mod 400) 0) as [E2|E2]; [lia|].
  assert (e = 3) by lia. assert (c = 24) by lia. assert (b <> 3) by lia. lia.
Qed.

Lemma year_of_spec d y yday :
  year_of d = (y, yday) → days_before_year y + yday = d ∧ 0 <= yday < year_length y.
Proof.
  unfold year_of. set (a := d / 146097). set (d1 := d - 146097 * a).
  set (b := Z.min 3 (d1 / 36524)). set (d2 := d1 - 36524 * b).
  set (c := d2 / 1461). set (d3 := d2 - 1461 * c). set (e := Z.min 3 (d3 / 365)).
  intros [= <- <-]. assert (0 <= d1 < 146097) by (unfold d1, a; lia).
  assert (0 <= b <= 3 ∧ 0 <= d2 ∧ (d2 < 36524 ∨ b = 3 ∧ d2 < 36525)) as (Hb & Hd2 & Hd2') by (unfold d2, b; lia).
  assert (0 <= c <= 24 ∧ 0 <= d3 < 1461) as [Hc Hd3] by (unfold d3, c; lia).
  assert (c = 24 → b < 3 → d3 < 1460) as Hc24 by (unfold d3, c; lia).
  assert (0 <= e <= 3 ∧ 0 <= d3 - 365 * e ∧ (d3 - 365 * e < 365 ∨ e = 3 ∧ d3 - 365 * e < 366)) as (He & Hr & Hr')
    by (unfold e; lia).
  destruct (cycles_spec a b c e (d3 - 365 * e)) as [Hd Hy]; [done..|lia|].
  split; [|done]. rewrite Hd. unfold d3, d2, d1. lia.
Qed.

Definition sum_z (l : list Z) : Z := foldr Z.add 0 l.

Lemma month_of_spec ls m yday m' day :
  Forall (λ l, 0 < l) ls → 0 <= yday < sum_z ls → month_of ls m yday = (m', day) →
  ∃ k, m' = m + Z.of_nat k ∧ (k < length ls)%nat ∧ sum_z (take k ls) + (day - 1) = yday ∧
    1 <= day <= default 0 (ls !! k).
Proof.
  intros Hpos. revert m yday. induction Hpos as [|l ls Hl _ IH]; intros m yday Hy Hm; cbn [sum_z foldr] in Hy; [lia|].
  cbn [month_of] in Hm. destruct (Z.ltb_spec yday l) as [Hlt|Hge].
  - injection Hm as <- <-. exists 0%nat. simpl. lia.
  - apply IH in Hm as (k & -> & Hk & Hsum & Hday); [|unfold sum_z; lia].
    exists (S k). simpl. unfold sum_z in *. split_and!; try lia.
Qed.

Lemma month_lengths_pos y : Forall (λ l, 0 < l) (month_lengths y).
Proof. unfold month_lengths. destruct (is_leap y); repeat constructor. Qed.

Lemma month_lengths_sum y : sum_z (month_lengths y) = year_length y.
Proof. unfold month_lengths, year_length. by destruct (is_leap y). Qed.

(** Every day number is the date it is written as. *)
Lemma civil_spec d y m day :
  civil d = (y, m, day) →
  y = (year_of d).1 ∧ 1 <= m <= 12 ∧ 1 <= day <= days_in m y ∧
  days_before_year y + days_before_month m y + (day - 1) = d.
Proof.
  unfold civil. destruct (year_of d) as [y' yday] eqn:Ey. destruct (month_of _ _ _) as [m' day'] eqn:Em.
  intros [= -> -> ->]. apply year_of_spec in Ey as [Hd Hy].
  apply month_of_spec in Em as (k & -> & Hk & Hsum & Hday); [|apply month_lengths_pos|by rewrite month_lengths_sum].
  change (length (month_lengths y)) with 12%nat in Hk.
  unfold days_in, days_before_month. replace (Z.to_nat (1 + Z.of_nat k - 1)) with k by lia.
  split_and!; try done; try lia. unfold sum_z in Hsum. lia.
Qed.

(** * Digits *)

Lemma digit_spec n : is_digit (digit n) = true ∧ digit_val (digit n) = n mod 10.
Proof.
  unfold digit, is_digit, in_range, digit_val. rewrite z2b_small by lia.
  split; [|lia]. apply andb_true_intro. split; apply Z.leb_le; lia.
Qed.

Lemma is_digit_digit n : is_digit (digit n) = true.
Proof. apply digit_spec. Qed.

Lemma digit_val_digit n : digit_val (digit n) = n mod 10.
Proof. apply digit_spec. Qed.

Lemma getnum_pad2 fixed n r : 0 <= n < 100 → getnum fixed (pad2 n ++ r) = Some (n, r).
Proof.
  intros Hn. unfold pad2, getnum. cbn [app]. rewrite !is_digit_digit, !digit_val_digit. do 2 f_equal. lia.
Qed.

Lemma get_year_pad4 n r : 0 <= n < 10000 → get_year (pad4 n ++ r) = Some (n, r).
Proof.
  intros Hn. unfold pad4, pad4u. destruct (Z.ltb_spec n 0); [lia|]. destruct (Z.ltb_spec n 10000); [|lia].
  unfold get_year. cbn [app]. rewrite !is_digit_digit. cbn [andb digits_val]. rewrite !digit_val_digit.
  do 2 f_equal. lia.
Qed.

(** * The fraction of a second *)

Lemma digits_val_app a s t : digits_val a (s ++ t) = digits_val (digits_val a s) t.
Proof. revert a. induction s as [|b s IH]; intros a; [done|]. simpl. apply IH. Qed.

Lemma digits_val_shift a s : digits_val a s = a * 10 ^ zlen s + digits_val 0 s.
Proof.
  revert a. induction s as [|b s IH]; intros a; simpl; [rewrite zlen_nil; lia|].
  rewrite (IH (10 * a + _)), (IH (10 * 0 + _)), zlen_cons. rewrite Z.pow_add_r by (pose proof (zlen_nonneg s); lia). lia.
Qed.

Lemma frac_digits_spec n nsec :
  0 <= nsec < 10 ^ Z.of_nat n →
  Forall (λ b, is_digit b = true) (frac_digits n nsec) ∧ (length (frac_digits n nsec) <= n)%nat ∧
  digits_val 0 (frac_digits n nsec) * 10 ^ (Z.of_nat n - zlen (frac_digits n nsec)) = nsec.
Proof.
  revert nsec. induction n as [|n IH]; intros nsec Hn; cbn [frac_digits].
  { split; [constructor|]. split; [done|]. simpl in *. unfold zlen. simpl. lia. }
  destruct (Z.eqb_spec nsec 0) as [->|Hne].
  { split; [constructor|]. split; [simpl; lia|]. reflexivity. }
  set (p := 10 ^ Z.of_nat n) in *. assert (0 < p) by (apply Z.pow_pos_nonneg; lia).
  assert (10 ^ Z.of_nat (S n) = 10 * p) as Hp.
  { rewrite Nat2Z.inj_succ, Z.pow_succ_r by lia. done. }
  pose proof (Z.mod_pos_bound nsec p) as Hm. pose proof (Z.div_mod nsec p) as Hdm.
  assert (0 <= nsec / p < 10).
  { split; [apply Z.div_pos; lia|]. apply Z.div_lt_upper_bound; lia. }
  destruct (IH (nsec mod p)) as (Hd & Hl & Hv); [lia|].
  split; [constructor; [apply is_digit_digit|done]|]. split; [simpl; lia|].
  cbn [digits_val]. rewrite digits_val_shift, digit_val_digit, zlen_cons.
  rewrite (Z.mod_small (nsec / p)) by lia.
  replace (Z.of_nat (S n) - (1 + zlen (frac_digits n (nsec mod p)))) with (Z.of_nat n - zlen (frac_digits n (nsec mod p))) by lia.
  rewrite Z.mul_add_distr_r, Hv, <- Z.mul_assoc, <- Z.pow_add_r by (unfold zlen; lia).
  replace (zlen _ + (Z.of_nat n - zlen _)) with (Z.of_nat n) by lia. fold p. lia.
Qed.

Lemma take_digits_app ds c r :
  Forall (λ b, is_digit b = true) ds → is_digit c = false → take_digits (ds ++ c :: r) = (ds, c :: r).
Proof. induction 1 as [|b ds Hb _ IH]; intros Hc; simpl; [by rewrite Hc|]. by rewrite Hb, IH. Qed.

Lemma get_fraction_fraction nsec :
  0 <= nsec < Second → get_fraction (fraction nsec ++ [x5a]) = (nsec, [x5a]).
Proof.
  intros Hn. unfold fraction. destruct (Z.eqb_spec nsec 0) as [->|Hne]; [reflexivity|].
  destruct (frac_digits_spec 9 nsec) as (Hd & Hl & Hv); [unfold Second in Hn; simpl; lia|].
  destruct (frac_digits 9 nsec) as [|b ds] eqn:E.
  { simpl in Hv. lia. }
  unfold get_fraction. cbn [app]. apply Forall_cons in Hd as Hd'. destruct Hd' as [Hb _]. rewrite Hb.
  rewrite (bool_decide_eq_true_2 (x2e = x2e ∨ x2e = x2c)) by auto. cbn [andb tail].
  change (b :: ds ++ [x5a]) with ((b :: ds) ++ [x5a]). rewrite take_digits_app by done.
  rewrite take_ge by done. by change (Z.of_nat 9) with 9 in Hv; rewrite Hv.
Qed.

(** * Reading back *)

Lemma expect_same c r : expect c (c :: r) = Some r.
Proof. simpl. by destruct (decide (c = c)). Qed.

Lemma Parse_format frac t :
  get_fraction (frac ++ [x5a]) = (t mod Second, [x5a]) → 0 <= (year_of (t / Second / 86400)).1 < 10000 →
  Parse_RFC3339 (format_with frac t) = Some t.
Proof.
  intros Hfrac Hyear. unfold format_with. destruct (civil _) as [[y m] day] eqn:Ec.
  apply civil_spec in Ec as (-> & Hm & Hd & Hdays). set (y := (year_of _).1) in *. set (s := t / Second mod 86400).
  assert (0 <= s < 86400) as Hs by (unfold s; lia).
  assert (days_in m y <= 31) as H31.
  { unfold days_in, month_lengths. destruct (lookup_lt_is_Some_2 (month_lengths y) (Z.to_nat (m - 1))) as [l Hl].
    { change (length (month_lengths y)) with 12%nat. lia. }
    unfold month_lengths in Hl. rewrite Hl. simpl. apply list_elem_of_lookup_2 in Hl.
    rewrite !elem_of_cons, elem_of_nil in Hl. destruct (is_leap y); lia. }
  change (B["-"]) with [x2d]. change (B["T"]) with [x54]. change (B[":"]) with [x3a]. change (B["Z"]) with [x5a].
  unfold Parse_RFC3339. rewrite get_year_pad4 by lia. cbn [mbind option_bind app].
  repeat first [rewrite getnum_pad2 by lia|rewrite expect_same|progress cbn [mbind option_bind app]].
  rewrite Hfrac. cbn [get_zone]. rewrite decide_True by done. cbn [mbind option_bind].
  rewrite bool_decide_eq_true_2 by done.
  repeat match goal with |- context [?a <=? ?b] => destruct (Z.leb_spec a b); [|lia] end.
  repeat match goal with |- context [?a <? ?b] => destruct (Z.ltb_spec a b); [|lia] end.
  cbn [andb]. f_equal. rewrite Hdays.
  assert (3600 * (s / 3600) + 60 * (s / 60 mod 60) + s mod 60 = s) as Hhms by lia.
  replace (86400 * (t / Second / 86400) + 3600 * (s / 3600) + 60 * (s / 60 mod 60) + s mod 60 - 0) with (t / Second)
    by (unfold s in *; lia).
  unfold Second. lia.
Qed.

(** RoundTripStrict: a time that [MarshalJSON] writes is read back as it was, to the
    nanosecond. *)
Theorem Parse_Format_strict t s : Format_strict t = Some s → Parse_RFC3339 s = Some t.
Proof.
  unfold Format_strict. case_match eqn:E; [|done]. intros [= <-]. breflect. apply Parse_format; [|lia].
  apply get_fraction_fraction. unfold Second. lia.
Qed.

(** To the second, [Format] with [time.RFC3339] is the same. *)
Lemma Parse_Format_RFC3339 t :
  t mod Second = 0 → 0 <= (year_of (t / Second / 86400)).1 < 10000 → Parse_RFC3339 (Format_RFC3339 t) = Some t.
Proof. intros Ht Hy. apply Parse_format; [by rewrite Ht|done]. Qed.
