(* ===== verification/RelayTypes.v ===== *)
(** The relay's data model: internal/relay/types.go (slots, states, errors)
    and internal/relay/store.go (the storage contract). *)
From S2P Require Import Prelude Tokens GoTime.

(** * Slots *)

Inductive Kind := KindDrop | KindReveal.

(** [StateEmpty] is the empty string, the zero value of Go's [State]. *)
Inductive State :=
  | StateEmpty | StateCreated | StateUploaded | StateFetched | StateOpened | StateRevoked | StateExpired.

#[export] Instance Kind_eq_dec : EqDecision Kind.
Proof. solve_decision. Defined.
#[export] Instance State_eq_dec : EqDecision State.
Proof. solve_decision. Defined.

Definition State_string (s : State) : string :=
  match s with
  | StateEmpty => ""
  | StateCreated => "created"
  | StateUploaded => "uploaded"
  | StateFetched => "fetched"
  | StateOpened => "opened"
  | StateRevoked => "revoked"
  | StateExpired => "expired"
  end.

Definition Kind_string (k : Kind) : string :=
  match k with KindDrop => "drop" | KindReveal => "reveal" end.

Definition Terminal (s : State) : bool :=
  match s with
  | StateFetched | StateOpened | StateRevoked | StateExpired => true
  | _ => false
  end.

Record Drop := mkDrop {
  ID : string;
  dKind : Kind;
  dState : State;
  Ciphertext : bytes;
  dCommitment : string;
  TokenA : Hash;
  TokenB : Hash;
  AgentKeyID : string;
  CreatedAt : Time;
  ExpiresAt : Time;
  UploadedAt : Time;
  FetchedAt : Time;
  RevokedAt : Time;
}.

Record Status := mkStatus {
  sID : string;
  sKind : Kind;
  sState : State;
  sCreatedAt : Time;
  sExpiresAt : Time;
  sUploadedAt : Time;
  sFetchedAt : Time;
  sRevokedAt : Time;
}.

(** Store occupancy. *)
Record Stats := mkStats { Live : Z; sBytes : Z; Total : Z }.

Inductive store_error :=
  | ErrNotFound
  | ErrBadToken
  | ErrCommitment
  | ErrFull
  | ErrWrongKind
  | StateError (s : State) (at_ : Time).

#[export] Instance store_error_eq_dec : EqDecision store_error.
Proof. solve_decision. Defined.

Definition IsState (e : store_error) (s : State) : bool :=
  match e with StateError s' _ => bool_decide (s' = s) | _ => false end.

Definition status (d : Drop) : Status :=
  mkStatus (ID d) (dKind d) (dState d) (CreatedAt d) (ExpiresAt d) (UploadedAt d) (FetchedAt d) (RevokedAt d).

Definition stateError (d : Drop) : store_error :=
  StateError (dState d)
    match dState d with
    | StateUploaded => UploadedAt d
    | StateFetched | StateOpened => FetchedAt d
    | StateRevoked => RevokedAt d
    | StateExpired => ExpiresAt d
    | _ => CreatedAt d
    end.

(** Everything but the state and the timestamps is cleared. *)
Definition tombstone (d : Drop) (state : State) (at_ : Time) : Drop :=
  mkDrop (ID d) (dKind d) state [] "" zero_hash zero_hash (AgentKeyID d)
    (CreatedAt d) (ExpiresAt d) (UploadedAt d)
    match state with StateFetched | StateOpened => at_ | _ => FetchedAt d end
    match state with StateRevoked => at_ | _ => RevokedAt d end.

(** The slot after an upload: [Upload]'s three assignments. *)
Definition uploaded (d : Drop) (ct : bytes) (at_ : Time) : Drop :=
  mkDrop (ID d) (dKind d) StateUploaded ct (dCommitment d) (TokenA d) (TokenB d) (AgentKeyID d)
    (CreatedAt d) (ExpiresAt d) at_ (FetchedAt d) (RevokedAt d).

(** * Options *)

Record StoreOptions := mkOptions { MaxLive : Z; MaxBytes : Z; TombstoneGrace : Duration }.

Definition withDefaults (o : StoreOptions) : StoreOptions :=
  mkOptions (MaxLive o) (MaxBytes o)
    (if TombstoneGrace o =? 0 then 24 * Hour else TombstoneGrace o).

(** * The storage contract *)

(** [Store]: every method is one atomic step on the store's state; [Clock] is
    the sequence of readings of [Now] the method may make. *)
Class Store (T : Type) := {
  Create : Clock → Drop → T → T * result store_error unit;
  Upload : Clock → string → Hash → string → bytes → T → T * result store_error unit;
  Fetch : Clock → string → Hash → T → T * result store_error (bytes * Time);
  Open : Clock → string → Hash → T → T * result store_error (bytes * Time);
  Revoke : Clock → string → Hash → T → T * result store_error unit;
  StatusOf : Clock → string → T → T * result store_error Status;
  Sweep : Clock → T → T * Z;
  StatsOf : T → Stats;
}.

(** * Facts *)

Definition live (d : Drop) : bool := negb (Terminal (dState d)).

(** A slot after any terminal transition carries no secret material. *)
Definition is_tombstone (d : Drop) : Prop :=
  Ciphertext d = [] ∧ dCommitment d = "" ∧ TokenA d = zero_hash ∧ TokenB d = zero_hash.

Lemma tombstone_is_tombstone d s t : is_tombstone (tombstone d s t).
Proof. repeat split. Qed.

(** The life cycle of a slot of each kind, as calls move it along; a live slot
    expires when its time has come, whatever the call. *)
Inductive transition : Kind → State → State → Prop :=
  | t_upload : transition KindDrop StateCreated StateUploaded
  | t_fetch : transition KindDrop StateUploaded StateFetched
  | t_open : transition KindReveal StateCreated StateOpened
  | t_revoke k s : Terminal s = false → transition k s StateRevoked.

Lemma transition_from_live k s s' : transition k s s' → Terminal s = false.
Proof. by destruct 1. Qed.

#[export] Hint Constructors transition : burndrop.

(** [Create] fills in an empty state. *)
Definition with_default_state (d : Drop) : Drop :=
  match dState d with
  | StateEmpty =>
      mkDrop (ID d) (dKind d) StateCreated (Ciphertext d) (dCommitment d) (TokenA d) (TokenB d)
        (AgentKeyID d) (CreatedAt d) (ExpiresAt d) (UploadedAt d) (FetchedAt d) (RevokedAt d)
  | _ => d
  end.

(** What the relay's handlers pass to [Create]: a new slot, which holds a
    ciphertext only when it is a reveal. *)
Definition create_ok (d : Drop) : Prop :=
  (dState d = StateCreated ∨ dState d = StateEmpty) ∧
  (dKind d = KindDrop → Ciphertext d = []).

(** * Operations as data, for runs of a store *)

Inductive op :=
  | OpCreate (d : Drop)
  | OpUpload (id : string) (token : Hash) (commitment : string) (ct : bytes)
  | OpFetch (id : string) (token : Hash)
  | OpOpen (id : string) (token : Hash)
  | OpRevoke (id : string) (token : Hash)
  | OpStatus (id : string)
  | OpSweep.

Inductive reply :=
  | RUnit (r : result store_error unit)
  | RRead (r : result store_error (bytes * Time))
  | RStatus (r : result store_error Status)
  | RSwept (n : Z).

Definition mapr {T A} (f : A → reply) (p : T * A) : T * reply := (p.1, f p.2).

Definition run_op {T} `{Store T} (ck : Clock) (o : op) (s : T) : T * reply :=
  match o with
  | OpCreate d => mapr RUnit (Create ck d s)
  | OpUpload id tok com ct => mapr RUnit (Upload ck id tok com ct s)
  | OpFetch id tok => mapr RRead (Fetch ck id tok s)
  | OpOpen id tok => mapr RRead (Open ck id tok s)
  | OpRevoke id tok => mapr RUnit (Revoke ck id tok s)
  | OpStatus id => mapr RStatus (StatusOf ck id s)
  | OpSweep => mapr RSwept (Sweep ck s)
  end.

(** One event of a run: the clock readings, the operation and its reply. *)
Record event := mkEvent { ev_clock : Clock; ev_op : op; ev_reply : reply }.

(** The states a store reaches from [init] under admissible operations, with
    the history of the run, most recent event first.  Every method is atomic,
    so a run is also any interleaving of concurrent calls. *)
Inductive reaches {T} `{Store T} (adm : Clock → op → Prop) (init : T) : list event → T → Prop :=
  | reaches_init : reaches adm init [] init
  | reaches_step h s ck o s' r :
      reaches adm init h s → adm ck o → run_op ck o s = (s', r) →
      reaches adm init (mkEvent ck o r :: h) s'.

(** Forward simulation between two stores: related states answer an admissible
    operation alike and stay related. *)
Section simulation.
Context {A B : Type} `{Store A} `{Store B}.
Context (adm : Clock → op → Prop) (R : A → B → Prop).
Context (Hsim : ∀ ck o a b, adm ck o → R a b →
  (run_op ck o a).2 = (run_op ck o b).2 ∧ R (run_op ck o a).1 (run_op ck o b).1).

Lemma simulation_reaches a0 b0 h a :
  R a0 b0 → reaches adm a0 h a → ∃ b, reaches adm b0 h b ∧ R a b.
Proof.
  intros HR. induction 1 as [|h a ck o a' r _ (b & Hb & Hab) Hadm Hrun].
  - exists b0. split; [constructor|done].
  - destruct (Hsim ck o a b Hadm Hab) as [Hr HR']. rewrite Hrun in Hr, HR'. simpl in *.
    destruct (run_op ck o b) as [b' r'] eqn:Eb; simpl in *; subst r'.
    exists b'. split; [|done]. by eapply reaches_step.
Qed.
End simulation.
