(* ===== verification/StoreSpec.v ===== *)
(** What a store promises: the abstract specification of internal/relay/store.go.

    The abstract store is a finite map of slots and nothing else: no counters,
    timers, waiters or hashes.  Its operations are functions of one slot, made
    atomic by construction; occupancy is computed from the map.  The memory
    store (Memory.v) refines it, so the theorems of this file hold of that
    implementation. *)
From S2P Require Import Prelude Tokens GoTime RelayTypes.

(** * Operations on one slot *)

(** A live slot whose expiry has passed is treated as expired, without waiting
    for a sweep. *)
Definition observe (now : Time) (d : Drop) : Drop :=
  if live d && (ExpiresAt d <=? now) then tombstone d StateExpired (ExpiresAt d) else d.

Abbreviation outcome A := (Drop * result store_error A)%type.

Definition refuse {A} (d : Drop) (e : store_error) : outcome A := (d, Err e).

Definition slot_upload (room : bool) (token : Hash) (commitment : string) (ct : bytes) (at_ : Time)
    (d : Drop) : outcome unit :=
  if decide (dKind d ≠ KindDrop) then refuse d ErrWrongKind
  else if Terminal (dState d) then refuse d (stateError d)
  else if decide (TokenA d ≠ token) then refuse d ErrBadToken
  else if decide (dState d ≠ StateCreated) then refuse d (stateError d)
  else if decide (dCommitment d ≠ commitment) then refuse d ErrCommitment
  else if room then (uploaded d ct at_, Ok tt) else refuse d ErrFull.

Definition slot_fetch (token : Hash) (at_ : Time) (d : Drop) : outcome (bytes * Time) :=
  if decide (dKind d ≠ KindDrop) then refuse d ErrWrongKind
  else if Terminal (dState d) then refuse d (stateError d)
  else if decide (TokenB d ≠ token) then refuse d ErrBadToken
  else if decide (dState d ≠ StateUploaded) then refuse d (stateError d)
  else (tombstone d StateFetched at_, Ok (Ciphertext d, UploadedAt d)).

Definition slot_open (token : Hash) (at_ : Time) (d : Drop) : outcome (bytes * Time) :=
  if decide (dKind d ≠ KindReveal) then refuse d ErrWrongKind
  else if Terminal (dState d) then refuse d (stateError d)
  else if decide (TokenA d ≠ token) then refuse d ErrBadToken
  else (tombstone d StateOpened at_, Ok (Ciphertext d, CreatedAt d)).

Definition slot_revoke (token : Hash) (at_ : Time) (d : Drop) : outcome unit :=
  if Terminal (dState d) then refuse d (stateError d)
  else if decide (TokenA d ≠ token ∧ TokenB d ≠ token) then refuse d ErrBadToken
  else (tombstone d StateRevoked at_, Ok tt).

(** * The abstract store *)

Record SpecStore := mkSpec { sp_opts : StoreOptions; slots : gmap string Drop }.

Definition occupied (d : Drop) : Z := if live d then 1 else 0.
Definition held (d : Drop) : Z := zlen (Ciphertext d).

Definition live_count (m : gmap string Drop) : Z := map_sum occupied m.
Definition held_bytes (m : gmap string Drop) : Z := map_sum held m.

Definition below (limit used : Z) : bool := (limit <=? 0) || (used <=? limit).

Definition on_slot {A} (now : Time) (id : string) (f : Drop → outcome A) (s : SpecStore)
    : SpecStore * result store_error A :=
  match slots s !! id with
  | None => (s, Err ErrNotFound)
  | Some d =>
      let '(d', r) := f (observe now d) in
      (mkSpec (sp_opts s) (<[id := d']> (slots s)), r)
  end.

Definition spec_create (ck : Clock) (d : Drop) (s : SpecStore) : SpecStore * result store_error unit :=
  let o := sp_opts s in
  if decide (is_Some (slots s !! ID d)) then (s, Err ErrFull)
  else if negb (below (MaxLive o) (live_count (slots s) + 1)) then (s, Err ErrFull)
  else if negb (below (MaxBytes o) (held_bytes (slots s) + held d)) then (s, Err ErrFull)
  else (mkSpec o (<[ID d := with_default_state d]> (slots s)), Ok tt).

Definition spec_upload (ck : Clock) (id : string) (token : Hash) (commitment : string) (ct : bytes)
    (s : SpecStore) : SpecStore * result store_error unit :=
  let room := below (MaxBytes (sp_opts s)) (held_bytes (slots s) + zlen ct) in
  on_slot (ck 0%nat) id (slot_upload room token commitment ct (ck 1%nat)) s.

Definition spec_fetch (ck : Clock) (id : string) (token : Hash) (s : SpecStore)
    : SpecStore * result store_error (bytes * Time) :=
  on_slot (ck 0%nat) id (slot_fetch token (ck 1%nat)) s.

Definition spec_open (ck : Clock) (id : string) (token : Hash) (s : SpecStore)
    : SpecStore * result store_error (bytes * Time) :=
  on_slot (ck 0%nat) id (slot_open token (ck 1%nat)) s.

Definition spec_revoke (ck : Clock) (id : string) (token : Hash) (s : SpecStore)
    : SpecStore * result store_error unit :=
  on_slot (ck 0%nat) id (slot_revoke token (ck 1%nat)) s.

Definition spec_status (ck : Clock) (id : string) (s : SpecStore) : SpecStore * result store_error Status :=
  on_slot (ck 0%nat) id (λ d, (d, Ok (status d))) s.

(** A sweep expires what is due and forgets what is past its grace period. *)
Definition sweep_slot (grace : Duration) (now : Time) (d : Drop) : option Drop :=
  if ExpiresAt d + grace <=? now then None else Some (observe now d).

Definition sweep_touched (grace : Duration) (now : Time) (d : Drop) : Z :=
  (if live d && (ExpiresAt d <=? now) then 1 else 0) +
  (if ExpiresAt d + grace <=? now then 1 else 0).

Definition spec_sweep (ck : Clock) (s : SpecStore) : SpecStore * Z :=
  let grace := TombstoneGrace (sp_opts s) in
  (mkSpec (sp_opts s) (omap (sweep_slot grace (ck 0%nat)) (slots s)),
   map_sum (sweep_touched grace (ck 0%nat)) (slots s)).

Definition spec_stats (s : SpecStore) : Stats :=
  mkStats (live_count (slots s)) (held_bytes (slots s)) (Z.of_nat (size (slots s))).

#[export] Instance spec_store : Store SpecStore := {
  Create := spec_create;
  Upload := spec_upload;
  Fetch := spec_fetch;
  Open := spec_open;
  Revoke := spec_revoke;
  StatusOf := spec_status;
  Sweep := spec_sweep;
  StatsOf := spec_stats;
}.

Definition spec_init (o : StoreOptions) : SpecStore := mkSpec (withDefaults o) ∅.

(** Operations as the server issues them. *)
Definition op_ok (ck : Clock) (o : op) : Prop :=
  match o with OpCreate d => create_ok d | _ => True end.

(** * Facts about one slot *)

Lemma observe_ID now d : ID (observe now d) = ID d.
Proof. unfold observe. by case_match. Qed.

Lemma observe_live now d : live (observe now d) = true → observe now d = d ∧ now < ExpiresAt d.
Proof.
  unfold observe. case_match eqn:E; [done|]. intros Hl. rewrite Hl in E. simpl in E.
  breflect. done.
Qed.

Lemma observe_not_due now d : now < ExpiresAt d → observe now d = d.
Proof. intros Hn. unfold observe. destruct (ExpiresAt d <=? now) eqn:E; [breflect; lia|]. by rewrite andb_false_r. Qed.

Lemma observe_terminal now d : Terminal (dState d) = true → observe now d = d.
Proof. intros Ht. unfold observe, live. by rewrite Ht. Qed.

Lemma live_Terminal d : live d = negb (Terminal (dState d)).
Proof. done. Qed.

Lemma occupied_nonneg d : 0 <= occupied d.
Proof. unfold occupied. case_match; lia. Qed.

Lemma held_nonneg d : 0 <= held d.
Proof. apply zlen_nonneg. Qed.

(** How an operation may change one slot: not at all, by one transition of the
    life cycle, or (lazily) by expiry. *)
Definition evolves (now : Time) (d d' : Drop) : Prop :=
  d' = d ∨
  (d' = tombstone d StateExpired (ExpiresAt d) ∧ live d = true ∧ ExpiresAt d <= now) ∨
  (live d = true ∧ now < ExpiresAt d ∧ transition (dKind d) (dState d) (dState d') ∧
   ID d' = ID d ∧ dKind d' = dKind d ∧ ExpiresAt d' = ExpiresAt d ∧ CreatedAt d' = CreatedAt d ∧
   (dState d' = StateUploaded ∨ is_tombstone d')).

Lemma observe_evolves now d : evolves now d (observe now d).
Proof.
  unfold observe, evolves. case_match eqn:E; [|by left]. breflect. right. left. auto.
Qed.
