(* ===== verification/StoreHistory.v ===== *)
(** Properties of every run of a store: read at most once, integrity of what is
    read, the life cycle of a slot, expiry, capacity.  They are proved for the
    abstract store; [simulation_reaches] carries them to any store that refines
    it, as Memory.v does for the relay's default store. *)
From S2P Require Import Prelude Tokens GoTime RelayTypes StoreSpec.

(** * Events of a history *)

Definition created_in (id : string) (e : event) : bool :=
  match ev_op e, ev_reply e with
  | OpCreate d, RUnit (Ok _) => bool_decide (ID d = id)
  | _, _ => false
  end.

Definition read_in (id : string) (e : event) : bool :=
  match ev_op e, ev_reply e with
  | OpFetch i _, RRead (Ok _) | OpOpen i _, RRead (Ok _) => bool_decide (i = id)
  | _, _ => false
  end.

Definition uploaded_in (id : string) (e : event) : bool :=
  match ev_op e, ev_reply e with
  | OpUpload i _ _ _, RUnit (Ok _) => bool_decide (i = id)
  | _, _ => false
  end.

Definition occurrences (P : event → bool) (h : list event) : nat := length (filter (λ e, P e = true) h).

Lemma occurrences_app P h1 h2 : occurrences P (h1 ++ h2) = (occurrences P h1 + occurrences P h2)%nat.
Proof. unfold occurrences. by rewrite filter_app, length_app. Qed.

Definition b2n (b : bool) : nat := if b then 1 else 0.

Lemma occurrences_cons P e h : occurrences P (e :: h) = (b2n (P e) + occurrences P h)%nat.
Proof.
  unfold occurrences. rewrite filter_cons. by destruct (P e).
Qed.

(** * Successful operations on one slot *)

Lemma slot_fetch_ok tok at_ d d' ct u :
  slot_fetch tok at_ d = (d', Ok (ct, u)) ↔
  dKind d = KindDrop ∧ dState d = StateUploaded ∧ TokenB d = tok ∧
  d' = tombstone d StateFetched at_ ∧ ct = Ciphertext d ∧ u = UploadedAt d.
Proof.
  unfold slot_fetch, refuse. split.
  - intros Heq. repeat case_decide; try done; case_match; simplify_eq;
      destruct (dKind d) eqn:?, (dState d) eqn:?; naive_solver.
  - intros (Hk & Hs & Ht & -> & -> & ->). rewrite Hk, Hs. simpl. repeat case_decide; naive_solver.
Qed.

Lemma slot_open_ok tok at_ d d' ct u :
  slot_open tok at_ d = (d', Ok (ct, u)) ↔
  dKind d = KindReveal ∧ live d = true ∧ TokenA d = tok ∧
  d' = tombstone d StateOpened at_ ∧ ct = Ciphertext d ∧ u = CreatedAt d.
Proof.
  unfold slot_open, refuse, live. split.
  - intros H. repeat case_decide; try done; case_match; simplify_eq;
      destruct (dKind d) eqn:?; naive_solver.
  - intros (Hk & Hs & Ht & -> & -> & ->). breflect. rewrite Hk, Hs. repeat case_decide; naive_solver.
Qed.

Lemma slot_upload_ok room tok com ct at_ d d' u :
  slot_upload room tok com ct at_ d = (d', Ok u) ↔
  dKind d = KindDrop ∧ dState d = StateCreated ∧ TokenA d = tok ∧ dCommitment d = com ∧
  room = true ∧ d' = uploaded d ct at_.
Proof.
  unfold slot_upload, refuse. split.
  - intros H. repeat case_decide; try done; repeat case_match; simplify_eq;
      destruct (dKind d) eqn:?, (dState d) eqn:?; naive_solver.
  - intros (Hk & Hs & Ht & Hc & -> & ->). rewrite Hk, Hs. simpl. destruct u.
    repeat case_decide; naive_solver.
Qed.

Lemma slot_revoke_ok tok at_ d d' u :
  slot_revoke tok at_ d = (d', Ok u) ↔
  live d = true ∧ (TokenA d = tok ∨ TokenB d = tok) ∧ d' = tombstone d StateRevoked at_.
Proof.
  unfold slot_revoke, refuse, live. split.
  - intros H. case_match; simplify_eq. case_decide as Hd; simplify_eq.
    split; [done|]. split; [|done]. destruct (decide (TokenA d = tok)); [by left|].
    destruct (decide (TokenB d = tok)); [by right|]. naive_solver.
  - intros (Hs & Ht & ->). breflect. rewrite Hs. destruct u. case_decide; naive_solver.
Qed.

(** A refused operation leaves the slot alone. *)
Lemma slot_upload_err room tok com ct at_ d d' e : slot_upload room tok com ct at_ d = (d', Err e) → d' = d.
Proof. unfold slot_upload, refuse. intros H. repeat case_decide; repeat case_match; by simplify_eq. Qed.

Lemma slot_fetch_err tok at_ d d' e : slot_fetch tok at_ d = (d', Err e) → d' = d.
Proof. unfold slot_fetch, refuse. intros H. repeat case_decide; repeat case_match; by simplify_eq. Qed.

Lemma slot_open_err tok at_ d d' e : slot_open tok at_ d = (d', Err e) → d' = d.
Proof. unfold slot_open, refuse. intros H. repeat case_decide; repeat case_match; by simplify_eq. Qed.

Lemma slot_revoke_err tok at_ d d' e : slot_revoke tok at_ d = (d', Err e) → d' = d.
Proof. unfold slot_revoke, refuse. intros H. repeat case_match; by simplify_eq. Qed.

(** * Steps of the abstract store *)

Lemma on_slot_inv {A} now id (f : Drop → outcome A) s s' r :
  on_slot now id f s = (s', r) →
  (slots s !! id = None ∧ s' = s ∧ r = Err ErrNotFound) ∨
  (∃ d d', slots s !! id = Some d ∧ f (observe now d) = (d', r) ∧
           s' = mkSpec (sp_opts s) (<[id := d']> (slots s))).
Proof.
  unfold on_slot. destruct (slots s !! id) as [d|] eqn:E.
  - destruct (f (observe now d)) as [d' r'] eqn:Ef. intros [= <- <-]. right. eauto 10.
  - intros [= <- <-]. left. done.
Qed.

Lemma spec_create_inv ck d s s' r :
  spec_create ck d s = (s', r) →
  (s' = s ∧ r = Err ErrFull) ∨
  (slots s !! ID d = None ∧ r = Ok tt ∧
   below (MaxLive (sp_opts s)) (live_count (slots s) + 1) = true ∧
   below (MaxBytes (sp_opts s)) (held_bytes (slots s) + held d) = true ∧
   s' = mkSpec (sp_opts s) (<[ID d := with_default_state d]> (slots s))).
Proof.
  unfold spec_create. repeat (case_match; [intros [= <- <-]; by left|]). breflect.
  intros [= <- <-]. right. rewrite eq_None_not_Some. auto.
Qed.

(** Every operation other than [Create] and [Sweep] addresses one slot. *)
Definition op_id (o : op) : option string :=
  match o with
  | OpUpload id _ _ _ | OpFetch id _ | OpOpen id _ | OpRevoke id _ | OpStatus id => Some id
  | OpCreate _ | OpSweep => None
  end.

(** The step on the addressed slot, as one function of the slot. *)
Definition slot_step (room : bool) (ck : Clock) (o : op) (d : Drop) : Drop * reply :=
  match o with
  | OpUpload _ tok com ct => mapr RUnit (slot_upload room tok com ct (ck 1%nat) d)
  | OpFetch _ tok => mapr RRead (slot_fetch tok (ck 1%nat) d)
  | OpOpen _ tok => mapr RRead (slot_open tok (ck 1%nat) d)
  | OpRevoke _ tok => mapr RUnit (slot_revoke tok (ck 1%nat) d)
  | OpStatus _ => (d, RStatus (Ok (status d)))
  | _ => (d, RSwept 0)
  end.

Definition room_for (s : SpecStore) (o : op) : bool :=
  match o with
  | OpUpload _ _ _ ct => below (MaxBytes (sp_opts s)) (held_bytes (slots s) + zlen ct)
  | _ => true
  end.

Definition is_not_found (r : reply) : Prop :=
  r = RUnit (Err ErrNotFound) ∨ r = RRead (Err ErrNotFound) ∨ r = RStatus (Err ErrNotFound).

Lemma addressed_step ck o id s s' r :
  op_id o = Some id → run_op ck o s = (s', r) →
  (slots s !! id = None ∧ s' = s ∧ is_not_found r) ∨
  (∃ d d', slots s !! id = Some d ∧ slot_step (room_for s o) ck o (observe (ck 0%nat) d) = (d', r) ∧
           s' = mkSpec (sp_opts s) (<[id := d']> (slots s))).
Proof.
  assert (∀ A (g : result store_error A → reply) f,
    mapr g (on_slot (ck 0%nat) id f s) = (s', r) →
    (slots s !! id = None ∧ s' = s ∧ r = g (Err ErrNotFound)) ∨
    (∃ d d', slots s !! id = Some d ∧ mapr g (f (observe (ck 0%nat) d)) = (d', r) ∧
             s' = mkSpec (sp_opts s) (<[id := d']> (slots s)))) as Hg.
  { intros A g f. destruct (on_slot _ _ _ _) as [s1 r1] eqn:E. intros [= <- <-].
    apply on_slot_inv in E as [(? & -> & ->)|(d & d' & ? & Hf & ->)]; [left; done|right].
    exists d, d'. unfold mapr. by rewrite Hf. }
  unfold is_not_found. destruct o; simpl; intros [= ->] Hrun; apply Hg in Hrun as [(? & ? & ->)|?]; auto 10.
Qed.

(** The step seen from one slot: untouched, created, stepped or swept. *)
Inductive slot_change (ck : Clock) (o : op) (r : reply) (id : string) : option Drop → option Drop → Prop :=
  | sc_same x :
      created_in id (mkEvent ck o r) = false → read_in id (mkEvent ck o r) = false →
      uploaded_in id (mkEvent ck o r) = false → slot_change ck o r id x x
  | sc_created d :
      o = OpCreate d → ID d = id → r = RUnit (Ok tt) →
      slot_change ck o r id None (Some (with_default_state d))
  | sc_stepped room d d' :
      op_id o = Some id → slot_step room ck o (observe (ck 0%nat) d) = (d', r) →
      slot_change ck o r id (Some d) (Some d')
  | sc_swept grace d :
      o = OpSweep → slot_change ck o r id (Some d) (sweep_slot grace (ck 0%nat) d).

Lemma step_change ck o s s' r id :
  run_op ck o s = (s', r) → slot_change ck o r id (slots s !! id) (slots s' !! id).
Proof.
  intros Hrun. destruct (op_id o) as [i|] eqn:Ei.
  - destruct (addressed_step _ _ _ _ _ _ Ei Hrun) as [(Hn & -> & Hr)|(d & d' & Hd & Hst & ->)].
    + apply sc_same; destruct o; simpl in *; simplify_eq; destruct Hr as [->|[->| ->]]; done.
    + simpl. destruct (decide (i = id)) as [->|Hne].
      * rewrite Hd, lookup_insert_eq. by eapply sc_stepped.
      * rewrite lookup_insert_ne by done.
        apply sc_same; destruct o; simpl in *; simplify_eq; unfold created_in, read_in, uploaded_in;
          simpl; repeat case_match; try done; by apply bool_decide_eq_false.
  - destruct o as [d| | | | | |]; simpl in *; try done.
    + destruct (spec_create ck d s) as [s1 r1] eqn:E. unfold mapr in Hrun. simplify_eq/=.
      apply spec_create_inv in E as [[-> ->]|(Hn & -> & _ & _ & ->)]; [by apply sc_same|].
      simpl. destruct (decide (ID d = id)) as [<-|Hne].
      * rewrite Hn, lookup_insert_eq. by apply sc_created.
      * rewrite lookup_insert_ne by done. apply sc_same; try done. by apply bool_decide_eq_false.
    + unfold mapr in Hrun. simplify_eq/=. rewrite lookup_omap.
      destruct (slots s !! id) as [d|]; simpl; [by apply sc_swept|by apply sc_same].
Qed.

(** Only a sweep removes a slot, and only past its grace period. *)
Lemma step_gone ck o s s' r id d :
  run_op ck o s = (s', r) → slots s !! id = Some d → slots s' !! id = None →
  o = OpSweep ∧ ExpiresAt d + TombstoneGrace (sp_opts s) <= ck 0%nat.
Proof.
  intros Hop Hd Hn. pose proof (step_change _ _ _ _ _ id Hop) as Hch. rewrite Hd, Hn in Hch.
  assert (o = OpSweep) as ->.
  { inversion Hch; by subst. }
  split; [done|]. simpl in Hop. unfold mapr in Hop. simplify_eq/=.
  rewrite lookup_omap, Hd in Hn. simpl in Hn. unfold sweep_slot in Hn.
  case_match eqn:E; [by breflect|done].
Qed.

(** Well-formed slots: the states of each kind, no secret in a tombstone, and
    no ciphertext in a drop before its upload. *)
Definition wf_slot (d : Drop) : Prop :=
  match dState d with
  | StateEmpty => False
  | StateCreated => dKind d = KindDrop → Ciphertext d = []
  | StateUploaded => dKind d = KindDrop
  | StateFetched => dKind d = KindDrop ∧ is_tombstone d
  | StateOpened => dKind d = KindReveal ∧ is_tombstone d
  | StateRevoked | StateExpired => is_tombstone d
  end.

Lemma wf_live_reveal d : wf_slot d → dKind d = KindReveal → live d = true → dState d = StateCreated.
Proof. unfold wf_slot, live. intros Hw Hk Hl. destruct (dState d); simpl in *; try done; congruence. Qed.

Lemma wf_terminal d : wf_slot d → live d = false → is_tombstone d.
Proof. unfold wf_slot, live. destruct (dState d); naive_solver. Qed.

Lemma wf_observe now d : wf_slot d → wf_slot (observe now d).
Proof. unfold observe. by case_match. Qed.

Lemma wf_created d : create_ok d → wf_slot (with_default_state d).
Proof. intros [[E|E] Hk]; unfold wf_slot, with_default_state; rewrite E; simpl; rewrite ?E; auto. Qed.

Lemma observe_static now d :
  ID (observe now d) = ID d ∧ dKind (observe now d) = dKind d ∧
  ExpiresAt (observe now d) = ExpiresAt d ∧ CreatedAt (observe now d) = CreatedAt d.
Proof. unfold observe. by case_match. Qed.

(** A successful operation moves the slot along the life cycle; a refused one
    leaves it as observed. *)
Lemma slot_step_moves room ck o d d' r :
  wf_slot d → slot_step room ck o d = (d', r) →
  d' = d ∨
  (live d = true ∧ transition (dKind d) (dState d) (dState d') ∧ ID d' = ID d ∧ dKind d' = dKind d ∧
   ExpiresAt d' = ExpiresAt d ∧ CreatedAt d' = CreatedAt d ∧ (dState d' = StateUploaded ∨ is_tombstone d')).
Proof.
  intros Hw Hst. destruct o; simpl in Hst; unfold mapr in Hst; simplify_eq/=; auto.
  - destruct (slot_upload _ _ _ _ _ _) as [d1 [u|e]] eqn:E; [|left; by eapply slot_upload_err].
    apply slot_upload_ok in E as (Hk & Hs & _ & _ & _ & ->). right.
    rewrite live_Terminal, Hk, Hs. simpl. auto 10 with burndrop.
  - destruct (slot_fetch _ _ _) as [d1 [[ct u]|e]] eqn:E; [|left; by eapply slot_fetch_err].
    apply slot_fetch_ok in E as (Hk & Hs & _ & -> & _). right.
    rewrite live_Terminal, Hk, Hs. simpl. auto 10 using tombstone_is_tombstone with burndrop.
  - destruct (slot_open _ _ _) as [d1 [[ct u]|e]] eqn:E; [|left; by eapply slot_open_err].
    apply slot_open_ok in E as (Hk & Hl & _ & -> & _). right.
    rewrite Hl, (wf_live_reveal d), Hk by done. simpl. auto 10 using tombstone_is_tombstone with burndrop.
  - destruct (slot_revoke _ _ _) as [d1 [u|e]] eqn:E; [|left; by eapply slot_revoke_err].
    apply slot_revoke_ok in E as (Hl & _ & ->). right. rewrite Hl.
    assert (Terminal (dState d) = false) by (by apply negb_true_iff).
    simpl. auto 10 using tombstone_is_tombstone with burndrop.
Qed.

(** What a stepped slot may become: [evolves] covers every operation. *)
Lemma slot_step_evolves room ck o d d' r :
  wf_slot d → slot_step room ck o (observe (ck 0%nat) d) = (d', r) → evolves (ck 0%nat) d d'.
Proof.
  intros Hw Hst. apply slot_step_moves in Hst as [->|(Hl & Ht & ?)]; [| |by apply wf_observe].
  - apply observe_evolves.
  - apply observe_live in Hl as Hl'. destruct Hl' as [Hobs ?]. rewrite Hobs in *.
    right. right. tauto.
Qed.

Lemma wf_evolves now d d' : wf_slot d → evolves now d d' → wf_slot d'.
Proof.
  intros Hw [->|[(-> & _)|(_ & _ & Ht & _ & Hk & _ & _ & Hst)]]; [done|apply tombstone_is_tombstone|].
  unfold wf_slot. inversion Ht as [Hk0|Hk0|Hk0|k s0 Ht0 Hk0];
    destruct (dState d'); simplify_eq; destruct Hst as [?|Htomb]; try done;
    first [apply Htomb | split; [congruence|apply Htomb] | congruence].
Qed.

(** * Invariants of the reachable states *)

Section runs.
Context (o : StoreOptions).

Abbreviation run h s := (reaches op_ok (spec_init o) h s).

Definition wf_spec (s : SpecStore) : Prop := map_Forall (λ id d, wf_slot d ∧ ID d = id) (slots s).

Lemma change_wf ck p r id x y :
  op_ok ck p → slot_change ck p r id x y →
  (∀ d, x = Some d → wf_slot d ∧ ID d = id) → ∀ d, y = Some d → wf_slot d ∧ ID d = id.
Proof.
  intros Hok Hch Hx. inversion Hch as [z H1 H2 H3|d E1 E2 E3|room d d' Hid Hst|grace d E1]; subst; auto.
  - intros ? [= <-]. simpl in Hok. split; [by apply wf_created|].
    unfold with_default_state. by case_match.
  - intros ? [= <-]. destruct (Hx d eq_refl) as [Hw Hi].
    apply slot_step_evolves in Hst; [|done]. split; [by eapply wf_evolves|].
    destruct Hst as [->|[(-> & _)|(_ & _ & _ & -> & _)]]; done.
  - unfold sweep_slot. intros d0. case_match; intros [= <-]. destruct (Hx d eq_refl).
    split; [by apply wf_observe|by rewrite observe_ID].
Qed.

Lemma run_wf h s : run h s → wf_spec s.
Proof.
  induction 1 as [|h s ck p s' r _ IH Hok Hrun].
  - intros id d. simpl. by rewrite lookup_empty.
  - intros id d Hd. eapply change_wf; [done|eapply step_change, Hrun| |exact Hd].
    intros d0 Hd0. by apply IH.
Qed.

Lemma run_opts h s : run h s → sp_opts s = withDefaults o.
Proof.
  induction 1 as [|h s ck p s' r _ IH _ Hrun]; [done|]. rewrite <- IH. clear IH.
  destruct (op_id p) as [i|] eqn:Ei.
  - by destruct (addressed_step _ _ _ _ _ _ Ei Hrun) as [(_ & -> & _)|(? & ? & _ & _ & ->)].
  - destruct p as [d| | | | | |]; simpl in *; try done; unfold mapr in Hrun; simplify_eq/=; [|done].
    destruct (spec_create ck d s) as [s1 r1] eqn:E; simpl.
    by apply spec_create_inv in E as [[-> _]|(_ & _ & _ & _ & ->)].
Qed.

(** ** Reading and uploading once *)

Definition slot_live (x : option Drop) : nat := b2n (from_option live false x).
Definition slot_fresh (x : option Drop) : nat :=
  b2n (from_option (λ d, bool_decide (dState d = StateCreated)) false x).

Lemma evolves_live now d d' : evolves now d d' → (slot_live (Some d') <= slot_live (Some d))%nat.
Proof.
  unfold slot_live. simpl. intros [->|[(-> & _)|(Hl & _)]]; simpl; [lia|lia|].
  rewrite Hl. destruct (live d'); simpl; lia.
Qed.

Lemma evolves_fresh now d d' : evolves now d d' → (slot_fresh (Some d') <= slot_fresh (Some d))%nat.
Proof.
  unfold slot_fresh. simpl. intros [->|[(-> & _)|(_ & _ & Ht & _)]]; simpl; [lia|lia|].
  inversion Ht; simpl; try lia; destruct (bool_decide _); simpl; lia.
Qed.

Lemma step_read_dead room ck p d d' r id :
  slot_step room ck p (observe (ck 0%nat) d) = (d', r) → read_in id (mkEvent ck p r) = true →
  live d = true ∧ live d' = false.
Proof.
  destruct p; simpl; unfold mapr; intros Hst Hr; simplify_eq/=; unfold read_in in Hr; simpl in Hr; try done.
  - destruct (slot_fetch _ _ _) as [d1 [[ct u]|e]] eqn:E; simpl in *; [|done].
    apply slot_fetch_ok in E as (_ & Hs & _ & -> & _). split; [|done].
    assert (live (observe (ck 0%nat) d) = true) as Hl by (by rewrite live_Terminal, Hs).
    by apply observe_live in Hl as Hl'; destruct Hl' as [<- _].
  - destruct (slot_open _ _ _) as [d1 [[ct u]|e]] eqn:E; simpl in *; [|done].
    apply slot_open_ok in E as (_ & Hl & _ & -> & _). split; [|done].
    by apply observe_live in Hl as Hl'; destruct Hl' as [<- _].
Qed.

Lemma step_upload_used room ck p d d' r id :
  slot_step room ck p (observe (ck 0%nat) d) = (d', r) → uploaded_in id (mkEvent ck p r) = true →
  dState d = StateCreated ∧ dState d' = StateUploaded.
Proof.
  destruct p; simpl; unfold mapr; intros Hst Hr; simplify_eq/=; unfold uploaded_in in Hr; simpl in Hr; try done.
  destruct (slot_upload _ _ _ _ _ _) as [d1 [u|e]] eqn:E; simpl in *; [|done].
  apply slot_upload_ok in E as (_ & Hs & _ & _ & _ & ->). split; [|done].
  assert (live (observe (ck 0%nat) d) = true) as Hl by (by rewrite live_Terminal, Hs).
  by apply observe_live in Hl as Hl'; destruct Hl' as [<- _].
Qed.

Lemma change_reads ck p r id x y :
  (∀ d, x = Some d → wf_slot d) → slot_change ck p r id x y →
  (slot_live y + b2n (read_in id (mkEvent ck p r)) <=
   slot_live x + b2n (created_in id (mkEvent ck p r)))%nat.
Proof.
  intros Hw Hch. inversion Hch as [z H1 H2 H3|d E1 E2 E3|room d d' Hid Hst|grace d E1]; subst.
  - rewrite H1, H2. lia.
  - unfold created_in, read_in. simpl. rewrite bool_decide_eq_true_2 by done.
    unfold slot_live. destruct (from_option _ _ _); simpl; lia.
  - apply slot_step_evolves in Hst as He; [|by apply Hw]. apply evolves_live in He.
    destruct (read_in id (mkEvent ck p r)) eqn:Er; [|simpl; lia].
    destruct (step_read_dead _ _ _ _ _ _ _ Hst Er) as [Hl Hl']. unfold slot_live. simpl.
    rewrite Hl, Hl'. simpl. lia.
  - unfold created_in, read_in, sweep_slot. simpl. case_match; [unfold slot_live; simpl; lia|].
    pose proof (evolves_live _ _ _ (observe_evolves (ck 0%nat) d)). lia.
Qed.

Lemma change_uploads ck p r id x y :
  (∀ d, x = Some d → wf_slot d) → slot_change ck p r id x y →
  (slot_fresh y + b2n (uploaded_in id (mkEvent ck p r)) <=
   slot_fresh x + b2n (created_in id (mkEvent ck p r)))%nat.
Proof.
  intros Hw Hch. inversion Hch as [z H1 H2 H3|d E1 E2 E3|room d d' Hid Hst|grace d E1]; subst.
  - rewrite H1, H3. lia.
  - unfold created_in, uploaded_in. simpl. rewrite bool_decide_eq_true_2 by done.
    unfold slot_fresh. destruct (from_option _ _ _); simpl; lia.
  - apply slot_step_evolves in Hst as He; [|by apply Hw]. apply evolves_fresh in He.
    destruct (uploaded_in id (mkEvent ck p r)) eqn:Er; [|simpl; lia].
    destruct (step_upload_used _ _ _ _ _ _ _ Hst Er) as [Hl Hl']. unfold slot_fresh. simpl.
    rewrite Hl, Hl'. simpl. lia.
  - unfold created_in, uploaded_in, sweep_slot. simpl. case_match; [unfold slot_fresh; simpl; lia|].
    pose proof (evolves_fresh _ _ _ (observe_evolves (ck 0%nat) d)). lia.
Qed.

Lemma run_reads_live h s id :
  run h s → (slot_live (slots s !! id) + occurrences (read_in id) h <= occurrences (created_in id) h)%nat.
Proof.
  induction 1 as [|h s ck p s' r Hreach IH Hok Hrun]; [done|].
  rewrite !occurrences_cons. pose proof (step_change _ _ _ _ _ id Hrun) as Hch.
  apply change_reads in Hch; [lia|]. intros d Hd. by apply (run_wf _ _ Hreach id).
Qed.

Lemma run_uploads_fresh h s id :
  run h s → (slot_fresh (slots s !! id) + occurrences (uploaded_in id) h <= occurrences (created_in id) h)%nat.
Proof.
  induction 1 as [|h s ck p s' r Hreach IH Hok Hrun]; [done|].
  rewrite !occurrences_cons. pose proof (step_change _ _ _ _ _ id Hrun) as Hch.
  apply change_uploads in Hch; [lia|]. intros d Hd. by apply (run_wf _ _ Hreach id).
Qed.
(** ** Where a live slot comes from *)

Definition created_as (h : list event) (d : Drop) (d0 : Drop) : Prop :=
  (∃ ck, mkEvent ck (OpCreate d0) (RUnit (Ok tt)) ∈ h) ∧
  ID d0 = ID d ∧ dKind d0 = dKind d ∧ TokenA d0 = TokenA d ∧ TokenB d0 = TokenB d ∧
  dCommitment d0 = dCommitment d ∧ ExpiresAt d0 = ExpiresAt d ∧ CreatedAt d0 = CreatedAt d.

Definition upload_event (h : list event) (d : Drop) : Prop :=
  ∃ ck, mkEvent ck (OpUpload (ID d) (TokenA d) (dCommitment d) (Ciphertext d)) (RUnit (Ok tt)) ∈ h ∧
        UploadedAt d = ck 1%nat.

Definition origin (h : list event) (d : Drop) : Prop :=
  ∃ d0, created_as h d d0 ∧
    match dState d with
    | StateCreated => Ciphertext d = Ciphertext d0
    | StateUploaded => upload_event h d
    | _ => True
    end.

Lemma origin_mono h e d : origin h d → origin (e :: h) d.
Proof.
  intros (d0 & ((ck & Hc) & Hst) & Hm). exists d0. split.
  - split; [exists ck; by right|done].
  - destruct (dState d); try done. destruct Hm as (ck' & Hu & Ht). exists ck'. split; [by right|done].
Qed.

Lemma slot_step_live room ck p d d' r :
  slot_step room ck p (observe (ck 0%nat) d) = (d', r) → live d' = true →
  d' = d ∨
  ∃ id tok com ct, p = OpUpload id tok com ct ∧ r = RUnit (Ok tt) ∧ TokenA d = tok ∧
    dCommitment d = com ∧ live d = true ∧ d' = uploaded d ct (ck 1%nat).
Proof.
  assert (∀ d1, d1 = observe (ck 0%nat) d → live d1 = true → d1 = d) as Hobs.
  { intros d1 -> Hl. by apply observe_live in Hl as [? _]. }
  destruct p; simpl; unfold mapr; intros Hst Hl; simplify_eq/=; auto.
  - destruct (slot_upload _ _ _ _ _ _) as [d1 [[]|e]] eqn:E; simpl in *; [|apply slot_upload_err in E; auto].
    apply slot_upload_ok in E as (_ & Hs & Ht & Hc & _ & ->). right.
    assert (live (observe (ck 0%nat) d) = true) as Hl0 by (by rewrite live_Terminal, Hs).
    pose proof (Hobs _ eq_refl Hl0) as Heq. rewrite Heq in *. eauto 15.
  - destruct (slot_fetch _ _ _) as [d1 [[ct u]|e]] eqn:E; simpl in *; [|apply slot_fetch_err in E; auto].
    apply slot_fetch_ok in E as (_ & _ & _ & -> & _); discriminate Hl.
  - destruct (slot_open _ _ _) as [d1 [[ct u]|e]] eqn:E; simpl in *; [|apply slot_open_err in E; auto].
    apply slot_open_ok in E as (_ & _ & _ & -> & _); discriminate Hl.
  - destruct (slot_revoke _ _ _) as [d1 [u|e]] eqn:E; simpl in *; [|apply slot_revoke_err in E; auto].
    apply slot_revoke_ok in E as (_ & _ & ->); discriminate Hl.
Qed.

Lemma change_origin h ck p r id x y :
  op_ok ck p → (∀ d, x = Some d → wf_slot d ∧ ID d = id) → slot_change ck p r id x y →
  (∀ d, x = Some d → live d = true → origin h d) →
  ∀ d, y = Some d → live d = true → origin (mkEvent ck p r :: h) d.
Proof.
  intros Hok Hw Hch Hx.
  inversion Hch as [z H1 H2 H3|d E1 E2 E3|room d d1 Hid Hst|grace d E1]; subst; intros d' Hy Hl.
  - apply origin_mono; auto.
  - injection Hy as <-. exists d. split; [split|].
    + exists ck. left.
    + unfold with_default_state. case_match; done.
    + destruct Hok as [[E|E] _]; unfold with_default_state; rewrite E; simpl; by rewrite ?E.
  - injection Hy as <-. apply slot_step_live in Hst as [->|(i & tok & com & ct & -> & -> & Ht & Hc & Hl' & ->)]; [| |done].
    { apply origin_mono; auto. }
    destruct (Hw d eq_refl) as [_ Hid']. simpl in Hid. injection Hid as ->.
    destruct (Hx d eq_refl) as (d0 & ((ck0 & Hin) & Hst) & _); [done|].
    exists d0. split; [split; [exists ck0; by right|done]|]. simpl. exists ck. split; [|done].
    simplify_eq/=. left.
  - unfold sweep_slot in Hy. case_match; simplify_eq. apply observe_live in Hl as Hl'.
    destruct Hl' as [Heq _]. rewrite Heq in *. apply origin_mono; auto.
Qed.

Lemma run_origin h s id d : run h s → slots s !! id = Some d → live d = true → origin h d.
Proof.
  intros Hr. revert d. induction Hr as [|h s ck p s' r Hreach IH Hok Hrun]; intros d Hd Hl.
  - simpl in Hd. by rewrite lookup_empty in Hd.
  - eapply change_origin; [done| |eapply step_change, Hrun| |exact Hd|done]; [|done].
    intros d0 Hd0. by apply (run_wf _ _ Hreach id).
Qed.

(** The last event of a run, and the state before it. *)
Lemma run_last h s e : run (e :: h) s → ∃ s0, run h s0 ∧ run_op (ev_clock e) (ev_op e) s0 = (s, ev_reply e).
Proof. inversion 1; subst. eauto. Qed.

Lemma run_fetch h s ck id tok ct u :
  run (mkEvent ck (OpFetch id tok) (RRead (Ok (ct, u))) :: h) s →
  ∃ d0 ck0 ck1,
    mkEvent ck0 (OpCreate d0) (RUnit (Ok tt)) ∈ h ∧
    ID d0 = id ∧ dKind d0 = KindDrop ∧ TokenB d0 = tok ∧ ck 0%nat < ExpiresAt d0 ∧
    mkEvent ck1 (OpUpload id (TokenA d0) (dCommitment d0) ct) (RUnit (Ok tt)) ∈ h ∧ u = ck1 1%nat.
Proof.
  intros (s0 & Hr & Hop)%run_last. simpl in Hop.
  destruct (addressed_step ck (OpFetch id tok) id _ _ _ eq_refl Hop) as
    [(_ & _ & [? | [? | ?]])|(d & d' & Hd & Hst & ->)]; simplify_eq/=.
  unfold mapr in Hst. destruct (slot_fetch _ _ _) as [d1 r1] eqn:E. simplify_eq/=.
  apply slot_fetch_ok in E as (Hk & Hs & Ht & -> & Hc & Hu).
  destruct (run_wf _ _ Hr id d Hd) as [Hw Hid].
  assert (live (observe (ck 0%nat) d) = true) as Hl by (by rewrite live_Terminal, Hs).
  apply observe_live in Hl as Hl'. destruct Hl' as [Heq Hexp]. rewrite Heq in *.
  destruct (run_origin _ _ _ _ Hr Hd Hl) as (d0 & ((ck0 & Hin) & Hst) & Ho).
  rewrite Hs in Ho. destruct Ho as (ck1 & Hup & Hu1).
  destruct Hst as (E1 & E2 & E3 & E4 & E5 & E6 & E7).
  exists d0, ck0, ck1. subst ct u. rewrite E1, E2, E4, E3, E5, E6, <- Hid. auto 10.
Qed.

Lemma run_open h s ck id tok ct u :
  run (mkEvent ck (OpOpen id tok) (RRead (Ok (ct, u))) :: h) s →
  ∃ d0 ck0,
    mkEvent ck0 (OpCreate d0) (RUnit (Ok tt)) ∈ h ∧
    ID d0 = id ∧ dKind d0 = KindReveal ∧ TokenA d0 = tok ∧ ck 0%nat < ExpiresAt d0 ∧
    ct = Ciphertext d0 ∧ u = CreatedAt d0.
Proof.
  intros (s0 & Hr & Hop)%run_last. simpl in Hop.
  destruct (addressed_step ck (OpOpen id tok) id _ _ _ eq_refl Hop) as
    [(_ & _ & [? | [? | ?]])|(d & d' & Hd & Hst & ->)]; simplify_eq/=.
  unfold mapr in Hst. destruct (slot_open _ _ _) as [d1 r1] eqn:E. simplify_eq/=.
  apply slot_open_ok in E as (Hk & Hl & Ht & -> & Hc & Hu).
  destruct (run_wf _ _ Hr id d Hd) as [Hw Hid].
  apply observe_live in Hl as Hl'. destruct Hl' as [Heq Hexp]. rewrite Heq in *.
  destruct (run_origin _ _ _ _ Hr Hd Hl) as (d0 & ((ck0 & Hin) & Hst) & Ho).
  rewrite (wf_live_reveal d Hw Hk Hl) in Ho.
  destruct Hst as (E1 & E2 & E3 & E4 & E5 & E6 & E7).
  exists d0, ck0. rewrite E1, E2, E3, E6, E7. split_and!; congruence || done.
Qed.

(** ** Life cycle *)

Lemma run_step_evolves h s ck p s' r id d d' :
  run h s → run_op ck p s = (s', r) → slots s !! id = Some d → slots s' !! id = Some d' →
  evolves (ck 0%nat) d d'.
Proof.
  intros Hr Hop Hd Hd'. pose proof (step_change _ _ _ _ _ id Hop) as Hch. rewrite Hd, Hd' in Hch.
  destruct (run_wf _ _ Hr id d Hd) as [Hw _].
  inversion Hch as [z H1 H2 H3|d0 E1 E2 E3|room d0 d1 Hid Hst|grace d0 E1 Hd0 Hsw]; subst.
  - by left.
  - by eapply slot_step_evolves.
  - unfold sweep_slot in Hsw. case_match; simplify_eq. apply observe_evolves.
Qed.

(** ** Capacity *)

Definition within (limit used : Z) : Prop := 0 < limit → used <= limit.

Lemma below_iff limit used : below limit used = true ↔ within limit used.
Proof. unfold below, within. rewrite orb_true_iff, !Z.leb_le. lia. Qed.

Lemma below_within limit used : below limit used = true → within limit used.
Proof. apply below_iff. Qed.

Definition capacity (s : SpecStore) : Prop :=
  within (MaxLive (sp_opts s)) (live_count (slots s)) ∧
  within (MaxBytes (sp_opts s)) (held_bytes (slots s)).

Lemma evolves_occupied now d d' : evolves now d d' → occupied d' <= occupied d.
Proof.
  unfold occupied. intros [->|[(-> & Hl & _)|(Hl & _)]]; [lia|rewrite Hl; simpl; lia|].
  rewrite Hl. case_match; lia.
Qed.

Lemma observe_held now d : held (observe now d) <= held d.
Proof. unfold observe. case_match; [|lia]. apply held_nonneg. Qed.

Lemma omap_sum_le (f : Drop → Z) (g : Drop → option Drop) (m : gmap string Drop) :
  (∀ d, 0 <= f d) → (∀ d d', g d = Some d' → f d' <= f d) →
  map_sum f (omap g m) <= map_sum f m.
Proof.
  intros Hf Hg. induction m as [|i x m Hi IH] using map_ind.
  - by rewrite omap_empty.
  - rewrite map_sum_insert_new by done. destruct (g x) as [y|] eqn:E.
    + rewrite (omap_insert_Some _ _ _ _ y) by done. rewrite map_sum_insert_new.
      * specialize (Hg _ _ E). lia.
      * rewrite lookup_omap, Hi. done.
    + rewrite omap_insert_None by done. rewrite delete_id by (by rewrite lookup_omap, Hi).
      specialize (Hf x). lia.
Qed.

Lemma slot_step_held room ck p d d' r :
  slot_step room ck p d = (d', r) →
  held d' <= held d ∨ (room = true ∧ ∃ id tok com ct, p = OpUpload id tok com ct ∧ held d' = zlen ct).
Proof.
  destruct p; simpl; unfold mapr; intros Hst; simplify_eq/=; try (left; lia).
  - destruct (slot_upload _ _ _ _ _ _) as [d1 [u|e]] eqn:E; [|apply slot_upload_err in E as ->; left; simpl; lia].
    apply slot_upload_ok in E as (_ & _ & _ & _ & -> & ->). right. eauto 10.
  - destruct (slot_fetch _ _ _) as [d1 [[c u]|e]] eqn:E; [|apply slot_fetch_err in E as ->; left; simpl; lia].
    apply slot_fetch_ok in E as (_ & _ & _ & -> & _). left. apply held_nonneg.
  - destruct (slot_open _ _ _) as [d1 [[c u]|e]] eqn:E; [|apply slot_open_err in E as ->; left; simpl; lia].
    apply slot_open_ok in E as (_ & _ & _ & -> & _). left. apply held_nonneg.
  - destruct (slot_revoke _ _ _) as [d1 [u|e]] eqn:E; [|apply slot_revoke_err in E as ->; left; simpl; lia].
    apply slot_revoke_ok in E as (_ & _ & ->). left. apply held_nonneg.
Qed.

Lemma run_capacity h s : run h s → capacity s.
Proof.
  induction 1 as [|h s ck p s' r Hreach [IHl IHb] Hok Hrun].
  { unfold capacity, live_count, held_bytes. simpl. rewrite !map_sum_empty. split; intros ?; lia. }
  destruct (op_id p) as [i|] eqn:Ei.
  - destruct (addressed_step _ _ _ _ _ _ Ei Hrun) as [(_ & -> & _)|(d & d' & Hd & Hst & ->)]; [done|].
    destruct (run_wf _ _ Hreach i d Hd) as [Hw _].
    unfold capacity, live_count, held_bytes in *. simpl. rewrite !(map_sum_update _ _ _ _ _ Hd).
    apply slot_step_held in Hst as Hh. apply slot_step_evolves in Hst as He; [|done].
    apply evolves_occupied in He. pose proof (observe_held (ck 0%nat) d).
    split; intros Hlim; [specialize (IHl Hlim); lia|].
    destruct Hh as [Hh|(Hroom & id & tok & com & ct & -> & Hh)]; [specialize (IHb Hlim); lia|].
    apply below_within in Hroom. specialize (Hroom Hlim). unfold held_bytes in Hroom.
    pose proof (held_nonneg d). lia.
  - destruct p as [d| | | | | |]; simpl in *; try done; unfold mapr in Hrun.
    + destruct (spec_create ck d s) as [s1 r1] eqn:E; simplify_eq/=.
      apply spec_create_inv in E as [[-> _]|(Hn & _ & Hl & Hb & ->)]; [done|].
      apply below_within in Hl, Hb. unfold capacity, live_count, held_bytes in *. simpl.
      rewrite !map_sum_insert_new by done.
      assert (occupied (with_default_state d) <= 1) by (unfold occupied; case_match; lia).
      assert (held (with_default_state d) = held d) by (unfold held, with_default_state; by case_match).
      split; intros Hlim; [specialize (Hl Hlim)|specialize (Hb Hlim)]; lia.
    + simplify_eq/=. unfold capacity, live_count, held_bytes in *. simpl.
      assert (∀ f, (∀ d, 0 <= f d) → (∀ d, f (observe (ck 0%nat) d) <= f d) →
        map_sum f (omap (sweep_slot (TombstoneGrace (sp_opts s)) (ck 0%nat)) (slots s)) <= map_sum f (slots s)) as Hle.
      { intros f Hf Ho. apply omap_sum_le; [done|]. unfold sweep_slot. intros d d'. case_match; intros [= <-]; auto. }
      pose proof (Hle occupied occupied_nonneg (λ d, evolves_occupied _ _ _ (observe_evolves (ck 0%nat) d))).
      pose proof (Hle held held_nonneg (observe_held (ck 0%nat))).
      split; intros Hlim; [specialize (IHl Hlim)|specialize (IHb Hlim)]; lia.
Qed.
End runs.
