(* ===== verification/Memory.v ===== *)
(** The relay's default store, internal/relay/memory.go: a map of slots behind
    one mutex, with running totals, a heap of timers and the channels of
    waiting long polls.  A method holds the lock from start to end, so it is
    one function of the state; [Wait] holds it twice and is two functions.

    Slots are values: the store copies every ciphertext it is given and hands
    out its only copy, so no slice is shared with a caller. *)
From S2P Require Import Prelude Tokens GoTime Heap RelayTypes.

(** * State *)

(** A timer: expire the slot, or remove its tombstone. *)
Record expiryEntry := mkEntry { at_ : Time; eid : string; remove : bool }.

#[export] Instance expiryEntry_eq_dec : EqDecision expiryEntry.
Proof. solve_decision. Defined.

(** A channel of capacity one is a name; [signalled] holds the names of the
    channels whose buffer is full. *)
Abbreviation chan := nat.

Record Memory := mkMemory {
  opts : StoreOptions;
  drops : gmap string Drop;
  waiters : gmap string (gset chan);
  timers : list expiryEntry;
  mlive : Z;
  mbytes : Z;
  signalled : gset chan;
  next_chan : chan;
}.

Definition NewMemory (o : StoreOptions) : Memory :=
  mkMemory (withDefaults o) ∅ ∅ [] 0 0 ∅ 0%nat.

(** Assignments to the fields. *)
Definition set_slot (id : string) (d : Drop) (dlive dbytes : Z) (m : Memory) : Memory :=
  mkMemory (opts m) (<[id := d]> (drops m)) (waiters m) (timers m)
    (mlive m + dlive) (mbytes m + dbytes) (signalled m) (next_chan m).

Definition set_timers (ts : list expiryEntry) (m : Memory) : Memory :=
  mkMemory (opts m) (drops m) (waiters m) ts (mlive m) (mbytes m) (signalled m) (next_chan m).

Definition forget (id : string) (m : Memory) : Memory :=
  mkMemory (opts m) (delete id (drops m)) (delete id (waiters m)) (timers m)
    (mlive m) (mbytes m) (signalled m) (next_chan m).

(** [notify]: a non-blocking send on every channel waiting on the slot. *)
Definition notify (id : string) (m : Memory) : Memory :=
  mkMemory (opts m) (drops m) (waiters m) (timers m) (mlive m) (mbytes m)
    (signalled m ∪ default ∅ (waiters m !! id)) (next_chan m).

(** * Helpers run under the lock *)

(** [expire]: the slot stored under [id] is [d]. *)
Definition expire (id : string) (d : Drop) (m : Memory) : Memory * Drop :=
  let d' := tombstone d StateExpired (ExpiresAt d) in
  (notify (ID d) (set_slot id d' (-1) (- zlen (Ciphertext d)) m), d').

(** [get]: the slot, after lazy expiry. *)
Definition get (ck : Clock) (id : string) (m : Memory) : Memory * option Drop :=
  match drops m !! id with
  | None => (m, None)
  | Some d =>
      if negb (Terminal (dState d)) && negb (Before (ck 0%nat) (ExpiresAt d)) then
        let '(m', d') := expire id d m in (m', Some d')
      else (m, Some d)
  end.

(** * Methods *)

Definition mem_Create (ck : Clock) (d : Drop) (m : Memory) : Memory * result store_error unit :=
  if decide (is_Some (drops m !! ID d)) then (m, Err ErrFull)
  else if (0 <? MaxLive (opts m)) && (MaxLive (opts m) <=? mlive m) then (m, Err ErrFull)
  else if (0 <? MaxBytes (opts m)) && (MaxBytes (opts m) <? mbytes m + zlen (Ciphertext d)) then (m, Err ErrFull)
  else
    let cp := with_default_state d in
    let m1 := set_slot (ID cp) cp 1 (zlen (Ciphertext cp)) m in
    let ts := heap_Push at_ (timers m1) (mkEntry (ExpiresAt cp) (ID cp) false) in
    let ts := heap_Push at_ ts (mkEntry (Add (ExpiresAt cp) (TombstoneGrace (opts m))) (ID cp) true) in
    (set_timers ts m1, Ok tt).

Definition mem_Upload (ck : Clock) (id : string) (token : Hash) (commitment : string) (ct : bytes)
    (m : Memory) : Memory * result store_error unit :=
  match get ck id m with
  | (m, None) => (m, Err ErrNotFound)
  | (m, Some d) =>
      if negb (bool_decide (dKind d = KindDrop)) then (m, Err ErrWrongKind)
      else if Terminal (dState d) then (m, Err (stateError d))
      else if negb (HashEqual (TokenA d) token) then (m, Err ErrBadToken)
      else if negb (bool_decide (dState d = StateCreated)) then (m, Err (stateError d))
      else if negb (bool_decide (dCommitment d = commitment)) then (m, Err ErrCommitment)
      else if (0 <? MaxBytes (opts m)) && (MaxBytes (opts m) <? mbytes m + zlen ct) then (m, Err ErrFull)
      else (notify id (set_slot id (uploaded d ct (ck 1%nat)) 0 (zlen ct) m), Ok tt)
  end.

Definition mem_Fetch (ck : Clock) (id : string) (token : Hash) (m : Memory)
    : Memory * result store_error (bytes * Time) :=
  match get ck id m with
  | (m, None) => (m, Err ErrNotFound)
  | (m, Some d) =>
      if negb (bool_decide (dKind d = KindDrop)) then (m, Err ErrWrongKind)
      else if Terminal (dState d) then (m, Err (stateError d))
      else if negb (HashEqual (TokenB d) token) then (m, Err ErrBadToken)
      else if negb (bool_decide (dState d = StateUploaded)) then (m, Err (stateError d))
      else
        let ct := Ciphertext d in
        let uploadedAt := UploadedAt d in
        (notify id (set_slot id (tombstone d StateFetched (ck 1%nat)) (-1) (- zlen ct) m), Ok (ct, uploadedAt))
  end.

Definition mem_Open (ck : Clock) (id : string) (token : Hash) (m : Memory)
    : Memory * result store_error (bytes * Time) :=
  match get ck id m with
  | (m, None) => (m, Err ErrNotFound)
  | (m, Some d) =>
      if negb (bool_decide (dKind d = KindReveal)) then (m, Err ErrWrongKind)
      else if Terminal (dState d) then (m, Err (stateError d))
      else if negb (HashEqual (TokenA d) token) then (m, Err ErrBadToken)
      else
        let ct := Ciphertext d in
        let createdAt := CreatedAt d in
        (notify id (set_slot id (tombstone d StateOpened (ck 1%nat)) (-1) (- zlen ct) m), Ok (ct, createdAt))
  end.

Definition mem_Revoke (ck : Clock) (id : string) (token : Hash) (m : Memory)
    : Memory * result store_error unit :=
  match get ck id m with
  | (m, None) => (m, Err ErrNotFound)
  | (m, Some d) =>
      if Terminal (dState d) then (m, Err (stateError d))
      else if negb (HashEqual (TokenA d) token) && negb (HashEqual (TokenB d) token) then (m, Err ErrBadToken)
      else
        (notify id (set_slot id (tombstone d StateRevoked (ck 1%nat)) (-1) (- zlen (Ciphertext d)) m), Ok tt)
  end.

Definition mem_Status (ck : Clock) (id : string) (m : Memory) : Memory * result store_error Status :=
  match get ck id m with
  | (m, None) => (m, Err ErrNotFound)
  | (m, Some d) => (m, Ok (status d))
  end.

(** One round of [Sweep]'s loop: [None] when no timer is due. *)
Definition sweep_round (now : Time) (m : Memory) : option (Memory * Z) :=
  match timers m !! 0%nat with
  | Some top =>
      if After (at_ top) now then None
      else
        '(e, ts) ← heap_Pop at_ (timers m);
        let m := set_timers ts m in
        match drops m !! eid e with
        | None => Some (m, 0)
        | Some d =>
            if remove e then Some (forget (eid e) m, 1)
            else if negb (Terminal (dState d)) then Some ((expire (eid e) d m).1, 1)
            else Some (m, 0)
        end
  | None => None
  end.

(** Each round takes a timer off the heap, so as many rounds as there are
    timers are enough. *)
Fixpoint sweep_loop (fuel : nat) (now : Time) (m : Memory) (touched : Z) : Memory * Z :=
  match fuel with
  | O => (m, touched)
  | S fuel =>
      match sweep_round now m with
      | Some (m', n) => sweep_loop fuel now m' (touched + n)
      | None => (m, touched)
      end
  end.

Definition mem_Sweep (ck : Clock) (m : Memory) : Memory * Z :=
  sweep_loop (length (timers m)) (ck 0%nat) m 0.

Definition mem_Stats (m : Memory) : Stats :=
  mkStats (mlive m) (mbytes m) (Z.of_nat (size (drops m))).

Definition mem_Close (m : Memory) : Memory :=
  mkMemory (opts m) ∅ (waiters m) (timers m) 0 0 (signalled m) (next_chan m).

#[export] Instance memory_store : Store Memory := {
  Create := mem_Create;
  Upload := mem_Upload;
  Fetch := mem_Fetch;
  Open := mem_Open;
  Revoke := mem_Revoke;
  StatusOf := mem_Status;
  Sweep := mem_Sweep;
  StatsOf := mem_Stats;
}.

(** ** Long polls *)

(** [Wait] up to its [select]: an answer at once, or a channel to wait on. *)
Definition Wait_begin (ck : Clock) (id : string) (current : State) (timeout : Duration) (m : Memory)
    : Memory * (result store_error Status + chan) :=
  match get ck id m with
  | (m, None) => (m, inl (Err ErrNotFound))
  | (m, Some d) =>
      if negb (bool_decide (dState d = current)) || (timeout <=? 0) then (m, inl (Ok (status d)))
      else
        let ch := next_chan m in
        (mkMemory (opts m) (drops m) (<[id := {[ch]} ∪ default ∅ (waiters m !! id)]> (waiters m))
           (timers m) (mlive m) (mbytes m) (signalled m) (S ch), inr ch)
  end.

(** [Wait] after its [select] took the channel, the timer or the context. *)
Definition Wait_end (ck : Clock) (id : string) (ch : chan) (m : Memory)
    : Memory * result store_error Status :=
  let ws :=
    match waiters m !! id with
    | Some ws =>
        let ws := ws ∖ {[ch]} in
        if decide (ws = ∅) then delete id (waiters m) else <[id := ws]> (waiters m)
    | None => waiters m
    end in
  let m := mkMemory (opts m) (drops m) ws (timers m) (mlive m) (mbytes m) (signalled m ∖ {[ch]}) (next_chan m) in
  match get (λ k, ck (S k)) id m with
  | (m, None) => (m, Err ErrNotFound)
  | (m, Some d) => (m, Ok (status d))
  end.
