(* ===== verification/MemoryInv.v ===== *)
(** The memory store keeps its bookkeeping consistent and refines the abstract
    store.  The running totals equal the occupancy of the map, the timers are a
    heap with exactly the entries the slots need, tombstones carry nothing
    secret; every method then answers as the abstract store does. *)
From S2P Require Import Prelude Tokens GoTime Heap RelayTypes StoreSpec StoreHistory Memory.

(** * The invariant *)

Definition grace (m : Memory) : Duration := TombstoneGrace (opts m).

(** When a timer of a slot goes off. *)
Definition due_at (g : Duration) (d : Drop) (rm : bool) : Time := if rm then ExpiresAt d + g else ExpiresAt d.

Record Inv (m : Memory) : Prop := {
  inv_live : mlive m = live_count (drops m);
  inv_bytes : mbytes m = held_bytes (drops m);
  inv_slots : ∀ id d, drops m !! id = Some d → wf_slot d ∧ ID d = id;
  inv_heap : heap_ordered at_ (timers m);
  inv_nodup : NoDup (timers m);
  inv_sound : ∀ e, e ∈ timers m →
    ∃ d, drops m !! eid e = Some d ∧ at_ e = due_at (grace m) d (remove e);
  inv_expiry : ∀ id d, drops m !! id = Some d → live d = true →
    mkEntry (ExpiresAt d) id false ∈ timers m;
  inv_removal : ∀ id d, drops m !! id = Some d → mkEntry (ExpiresAt d + grace m) id true ∈ timers m;
  inv_grace : 0 < grace m;
}.

Definition abs (m : Memory) : SpecStore := mkSpec (opts m) (drops m).

(** The operations the store is run with: the server's. *)
Definition mem_adm (ck : Clock) (o : op) : Prop := op_ok ck o.

(** * Preservation *)

Lemma NewMemory_Inv o : 0 <= TombstoneGrace o → Inv (NewMemory o).
Proof.
  intros Hg. split; simpl.
  - unfold live_count. by rewrite map_sum_empty.
  - unfold held_bytes. by rewrite map_sum_empty.
  - intros id d Hd. by rewrite lookup_empty in Hd.
  - apply heap_ordered_nil.
  - constructor.
  - intros e He. by apply elem_of_nil in He.
  - intros id d Hd. by rewrite lookup_empty in Hd.
  - intros id d Hd. by rewrite lookup_empty in Hd.
  - unfold grace. simpl. case_match; breflect; [reflexivity|lia].
Qed.

Lemma notify_Inv id m : Inv m → Inv (notify id m).
Proof. intros [? ? ? ? ? ? ? ? ?]. by split. Qed.

(** Replacing a slot by a later version of itself. *)
Lemma set_slot_Inv id d d' dl db m :
  Inv m → drops m !! id = Some d → wf_slot d' → ID d' = ID d → ExpiresAt d' = ExpiresAt d →
  (live d' = true → live d = true) →
  dl = occupied d' - occupied d → db = held d' - held d →
  Inv (set_slot id d' dl db m).
Proof.
  intros [Hl Hb Hs Hh Hn Hsd He Hr Hg] Hd Hw Hid Hexp Hlive -> ->.
  split; simpl; unfold grace, live_count, held_bytes in *; simpl; try done.
  - rewrite (map_sum_update _ _ _ _ _ Hd). lia.
  - rewrite (map_sum_update _ _ _ _ _ Hd). lia.
  - intros i x. rewrite lookup_insert. case_decide as Hi; [|apply Hs].
    intros [= <-]. subst. split; [done|]. rewrite Hid. by apply (Hs i d).
  - intros e Hin. destruct (Hsd e Hin) as (x & Hx & Hat). rewrite lookup_insert.
    case_decide as Hi; [|eauto]. subst. simplify_eq. exists d'. split; [done|].
    unfold due_at in *. by rewrite Hexp.
  - intros i x. rewrite lookup_insert. case_decide as Hi; [|apply He].
    intros [= <-] Hlv. subst. rewrite Hexp. apply He; auto.
  - intros i x. rewrite lookup_insert. case_decide as Hi; [|apply Hr].
    intros [= <-]. subst. rewrite Hexp. auto.
Qed.

Lemma observe_wf_Inv m id d now : Inv m → drops m !! id = Some d → wf_slot (observe now d).
Proof. intros HI Hd. apply wf_observe. by apply (inv_slots m HI id d). Qed.

(** [get] replaces the slot by what is observed now. *)
Lemma get_spec ck id m :
  Inv m →
  (drops m !! id = None ∧ get ck id m = (m, None)) ∨
  (∃ d m', drops m !! id = Some d ∧ get ck id m = (m', Some (observe (ck 0%nat) d)) ∧ Inv m' ∧
     opts m' = opts m ∧ drops m' = <[id := observe (ck 0%nat) d]> (drops m)).
Proof.
  intros HI. unfold get. destruct (drops m !! id) as [d|] eqn:Hd; [right|by left].
  exists d. unfold observe, live, Before, expire.
  destruct (Terminal (dState d)) eqn:Ht; simpl.
  { exists m. by rewrite insert_id. }
  rewrite Z.ltb_antisym, negb_involutive. destruct (ExpiresAt d <=? ck 0%nat) eqn:Ee.
  - eexists. split; [done|]. split; [done|]. split; [|done].
    destruct (inv_slots m HI id d Hd) as [Hw Hid]. apply notify_Inv.
    eapply set_slot_Inv; try done; unfold occupied, held, live; simpl; rewrite ?Ht; simpl; try done.
  - exists m. by rewrite insert_id.
Qed.

Lemma create_timers_perm ts e1 e2 : heap_Push at_ (heap_Push at_ ts e1) e2 ≡ₚ e2 :: e1 :: ts.
Proof. by rewrite !heap_Push_perm. Qed.

Lemma create_Inv d m :
  Inv m → create_ok d → drops m !! ID d = None →
  let cp := with_default_state d in
  Inv (set_timers
    (heap_Push at_ (heap_Push at_ (timers m) (mkEntry (ExpiresAt cp) (ID cp) false))
       (mkEntry (ExpiresAt cp + grace m) (ID cp) true))
    (set_slot (ID cp) cp 1 (zlen (Ciphertext cp)) m)).
Proof.
  intros [Hl Hb Hs Hh Hn Hsd He Hr Hg] Hok Hnone cp.
  assert (ID cp = ID d) as Hid by (unfold cp, with_default_state; by case_match).
  assert (occupied cp = 1) as Hocc.
  { unfold cp, occupied, live, with_default_state. destruct Hok as [[E|E] _]; rewrite E; simpl; by rewrite ?E. }
  rewrite <- Hid in Hnone.
  assert (∀ e, e ∈ timers m → eid e ≠ ID cp) as Hfresh.
  { intros e Hin Heq. destruct (Hsd e Hin) as (x & Hx & _). congruence. }
  split; simpl; unfold grace, live_count, held_bytes in *; simpl; try done.
  - rewrite map_sum_insert_new by done. lia.
  - rewrite map_sum_insert_new by done. fold (held cp). lia.
  - intros i x. rewrite lookup_insert. case_decide as Hi; [|apply Hs].
    intros [= <-]. split; [by apply wf_created|done].
  - by repeat apply heap_Push_ordered.
  - rewrite create_timers_perm. repeat (constructor; [intros Hin|]); [..|done].
    + apply elem_of_cons in Hin as [Hin|Hin]; [done|by apply Hfresh in Hin].
    + by apply Hfresh in Hin.
  - intros e. rewrite create_timers_perm, !elem_of_cons. intros [->|[->|Hin]]; simpl.
    + exists cp. rewrite lookup_insert_eq. done.
    + exists cp. rewrite lookup_insert_eq. done.
    + rewrite lookup_insert_ne by (by apply not_eq_sym, Hfresh). auto.
  - intros i x. rewrite lookup_insert. case_decide as Hi.
    + intros [= <-] _. rewrite create_timers_perm, !elem_of_cons, Hi. auto.
    + intros Hx Hlv. rewrite create_timers_perm, !elem_of_cons. right. right. auto.
  - intros i x. rewrite lookup_insert. case_decide as Hi.
    + intros [= <-]. rewrite create_timers_perm, !elem_of_cons, Hi. auto.
    + intros Hx. rewrite create_timers_perm, !elem_of_cons. right. right. auto.
Qed.

(** * Refinement *)

(** A call that keeps the invariant and does what the abstract store does. *)
Definition refines_step {A} (m : Memory) (p : Memory * A) (q : SpecStore * A) : Prop :=
  Inv p.1 ∧ q = (abs p.1, p.2).

(** What follows [get] in a method, [p], does what the abstract operation [q]
    does to the slot found. *)
Definition body_ok {A} (m m1 : Memory) (id : string) (p : Memory * A) (q : Drop * A) : Prop :=
  Inv p.1 ∧ opts p.1 = opts m ∧ drops p.1 = <[id := q.1]> (drops m1) ∧ p.2 = q.2.

(** The methods that look a slot up under the lock: [body] is what follows
    [get], [f] the abstract operation on the observed slot. *)
Lemma addressed_refines {A} ck id (f : Drop → outcome A)
    (body : Memory → Drop → Memory * result store_error A) m :
  Inv m →
  (∀ m1 d, Inv m1 → opts m1 = opts m → drops m1 !! id = Some d → (live d = true → drops m1 = drops m) →
    body_ok m m1 id (body m1 d) (f d)) →
  refines_step m
    (match get ck id m with
     | (m1, None) => (m1, Err ErrNotFound)
     | (m1, Some d) => body m1 d
     end)
    (on_slot (ck 0%nat) id f (abs m)).
Proof.
  intros HI Hbody. unfold refines_step, on_slot. simpl.
  destruct (get_spec ck id m HI) as [[Hn ->]|(d & m1 & Hd & -> & HI1 & Ho & Hdr)].
  - rewrite Hn. done.
  - rewrite Hd. set (d1 := observe (ck 0%nat) d) in *.
    destruct (Hbody m1 d1 HI1 Ho) as (HI2 & Ho2 & Hd2 & Hr).
    + by rewrite Hdr, lookup_insert_eq.
    + intros Hl. apply observe_live in Hl as [Heq _]. rewrite Hdr. unfold d1. rewrite Heq. by apply insert_id.
    + split; [done|]. destruct (f d1) as [d' r]. simpl in *. unfold abs.
      rewrite Ho2, Hd2, Hr, Hdr. by rewrite insert_insert_eq.
Qed.

(** A branch that returns an error leaves the slot as it was found. *)
Lemma body_refused {A} m m1 id d (e : store_error) :
  Inv m1 → opts m1 = opts m → drops m1 !! id = Some d → body_ok (A:=result store_error A) m m1 id (m1, Err e) (d, Err e).
Proof. intros. unfold body_ok. simpl. by rewrite insert_id. Qed.

(** A branch that replaces the slot and wakes its waiters. *)
Lemma body_replaced {A} m m1 id d d' dl db (a : A) :
  Inv m1 → opts m1 = opts m → drops m1 !! id = Some d → wf_slot d' → ID d' = ID d →
  ExpiresAt d' = ExpiresAt d → (live d' = true → live d = true) →
  dl = occupied d' - occupied d → db = held d' - held d →
  body_ok (A:=result store_error A) m m1 id (notify id (set_slot id d' dl db m1), Ok a) (d', Ok a).
Proof. intros. unfold body_ok. split_and!; [|done..]. apply notify_Inv. by eapply set_slot_Inv. Qed.

Lemma body_tombstone {A} m m1 id d st at_ (a : A) :
  Inv m1 → opts m1 = opts m → drops m1 !! id = Some d → Terminal (dState d) = false →
  wf_slot (tombstone d st at_) → Terminal st = true →
  body_ok m m1 id (notify id (set_slot id (tombstone d st at_) (-1) (- zlen (Ciphertext d)) m1), @Ok store_error _ a)
    (tombstone d st at_, Ok a).
Proof.
  intros HI Ho Hd Ht Hw Hst. eapply body_replaced; try done; unfold occupied, held, live; simpl;
    rewrite ?Ht, ?Hst; done.
Qed.

(** The guards of the specification, in the source's boolean form. *)
Lemma decide_guard {A} (P : Prop) `{Decision P} (a b : A) :
  (if decide (¬ P) then a else b) = (if negb (bool_decide P) then a else b).
Proof. case_bool_decide; simpl; case_decide; tauto. Qed.

Lemma decide_guard_and {A} (P Q : Prop) `{Decision P} `{Decision Q} (a b : A) :
  (if decide (¬ P ∧ ¬ Q) then a else b) = (if negb (bool_decide P) && negb (bool_decide Q) then a else b).
Proof. repeat case_bool_decide; simpl; case_decide; tauto. Qed.

(** Split on the guards, now syntactically the same on both sides; each
    refused branch is closed at once. *)
Ltac split_guards :=
  rewrite ?HashEqual_dec, ?decide_guard_and, ?decide_guard;
  repeat (match goal with
  | |- context [if negb (bool_decide ?P) then _ else _] => destruct (bool_decide P) eqn:?
  | |- context [if negb (bool_decide ?P) && negb (bool_decide ?Q) then _ else _] =>
      destruct (bool_decide P) eqn:?, (bool_decide Q) eqn:?
  | |- context [if Terminal ?s then _ else _] => destruct (Terminal s) eqn:?
  end; cbn [negb andb]; try (by apply body_refused)); breflect.

(** The capacity test of the source, negated, is the specification's. *)
Lemma room_below limit used : (0 <? limit) && (limit <? used) = negb (below limit used).
Proof.
  unfold below.
  destruct (Z.ltb_spec 0 limit), (Z.leb_spec limit 0), (Z.ltb_spec limit used), (Z.leb_spec used limit);
    simpl; done || lia.
Qed.

Lemma Upload_refines ck id tok com ct m :
  Inv m → refines_step m (mem_Upload ck id tok com ct m) (spec_upload ck id tok com ct (abs m)).
Proof.
  intros HI. unfold spec_upload. apply addressed_refines; [done|].
  intros m1 d HI1 Ho Hd Hl. destruct (inv_slots m1 HI1 id d Hd) as [Hw Hid].
  unfold slot_upload, refuse. split_guards.
  assert (live d = true) as Hlv by (unfold live; by apply negb_true_iff).
  rewrite room_below, Ho, (inv_bytes m1 HI1), (Hl Hlv). simpl.
  destruct (below _ _); simpl; [|by apply body_refused].
  eapply body_replaced; try done.
  - unfold occupied. by rewrite Hlv.
  - assert (dState d = StateCreated) as Hs by done. unfold wf_slot, held in *.
    rewrite Hs in Hw. rewrite Hw by done. rewrite zlen_nil. simpl. lia.
Qed.

Lemma Fetch_refines ck id tok m :
  Inv m → refines_step m (mem_Fetch ck id tok m) (spec_fetch ck id tok (abs m)).
Proof.
  intros HI. apply addressed_refines; [done|].
  intros m1 d HI1 Ho Hd Hl. unfold slot_fetch, refuse. split_guards.
  by apply body_tombstone.
Qed.

Lemma Open_refines ck id tok m :
  Inv m → refines_step m (mem_Open ck id tok m) (spec_open ck id tok (abs m)).
Proof.
  intros HI. apply addressed_refines; [done|].
  intros m1 d HI1 Ho Hd Hl. unfold slot_open, refuse. split_guards.
  by apply body_tombstone.
Qed.

Lemma Revoke_refines ck id tok m :
  Inv m → refines_step m (mem_Revoke ck id tok m) (spec_revoke ck id tok (abs m)).
Proof.
  intros HI. apply addressed_refines; [done|].
  intros m1 d HI1 Ho Hd Hl. unfold slot_revoke, refuse. split_guards.
  all: by apply body_tombstone.
Qed.

Lemma Status_refines ck id m :
  Inv m → refines_step m (mem_Status ck id m) (spec_status ck id (abs m)).
Proof.
  intros HI. apply addressed_refines; [done|].
  intros m1 d HI1 Ho Hd Hl. unfold body_ok. simpl. by rewrite insert_id.
Qed.

Lemma below_live limit used : (0 <? limit) && (limit <=? used) = negb (below limit (used + 1)).
Proof.
  rewrite <- room_below. f_equal.
  destruct (Z.leb_spec limit used), (Z.ltb_spec limit (used + 1)); done || lia.
Qed.

Lemma Create_refines ck d m :
  Inv m → create_ok d → refines_step m (mem_Create ck d m) (spec_create ck d (abs m)).
Proof.
  intros HI Hok. unfold refines_step, mem_Create, spec_create. simpl.
  rewrite below_live, room_below, (inv_live m HI), (inv_bytes m HI).
  case_decide as Hs; [done|]. fold (held d).
  do 2 (case_match; [done|]).
  assert (ID (with_default_state d) = ID d) as Hid by (unfold with_default_state; by case_match).
  split; [|unfold abs; simpl; by rewrite Hid].
  apply create_Inv; [done..|]. by apply eq_None_not_Some.
Qed.

(** ** Sweep *)

(** What the sweep still has to do, as the specification counts it. *)
Definition to_touch (now : Time) (m : Memory) : Z := map_sum (sweep_touched (grace m) now) (drops m).

Definition swept (now : Time) (m : Memory) : gmap string Drop :=
  omap (sweep_slot (grace m) now) (drops m).

(** The timer at the root, taken off the heap. *)
Lemma pop_timer m e ts :
  Inv m → heap_Pop at_ (timers m) = Some (e, ts) →
  heap_ordered at_ ts ∧ timers m ≡ₚ e :: ts ∧ NoDup (e :: ts) ∧ ∀ e', e' ∈ timers m → at_ e <= at_ e'.
Proof.
  intros HI Hp. apply heap_Pop_spec in Hp as (Ho & Hperm & _ & Hmin); [|apply (inv_heap m HI)].
  split_and!; try done. rewrite <- Hperm. apply (inv_nodup m HI).
Qed.

(** The expiry timer of a slot goes off before its removal timer, so a slot is
    no longer live when its removal timer is the first one. *)
Lemma removal_after_expiry m e d :
  Inv m → e ∈ timers m → (∀ e', e' ∈ timers m → at_ e <= at_ e') → remove e = true →
  drops m !! eid e = Some d → live d = false.
Proof.
  intros HI Hin Hmin Hrm Hd. destruct (live d) eqn:Hl; [|done].
  pose proof (Hmin _ (inv_expiry m HI _ _ Hd Hl)) as Hle. simpl in Hle.
  destruct (inv_sound m HI e Hin) as (d' & Hd' & Hat). simplify_eq. rewrite Hrm in Hat.
  unfold due_at in Hat. pose proof (inv_grace m HI). unfold grace in *. lia.
Qed.

(** No timer of the slot is left when its removal timer is taken off. *)
Lemma last_timer m e ts :
  Inv m → timers m ≡ₚ e :: ts → NoDup (e :: ts) → (∀ e', e' ∈ timers m → at_ e <= at_ e') →
  remove e = true → ∀ e', e' ∈ ts → eid e' ≠ eid e.
Proof.
  intros HI Hperm Hnd Hmin Hrm e' Hin Heq. apply NoDup_cons in Hnd as [Hnotin _].
  assert (e' ∈ timers m) as Hin' by (rewrite Hperm; by right).
  assert (e ∈ timers m) as Hin0 by (rewrite Hperm; by left).
  destruct (inv_sound m HI e' Hin') as (x & Hx & Hat').
  destruct (inv_sound m HI e Hin0) as (y & Hy & Hat).
  rewrite Heq, Hy in Hx. simplify_eq. pose proof (Hmin e' Hin') as Hle. pose proof (inv_grace m HI) as Hg.
  destruct e as [a i r], e' as [a' i' r']; simpl in *; subst. unfold due_at in *.
  destruct r'; [done|]. lia.
Qed.

Lemma forget_Inv m e ts d :
  Inv m → timers m ≡ₚ e :: ts → NoDup (e :: ts) → heap_ordered at_ ts →
  (∀ e', e' ∈ ts → eid e' ≠ eid e) →
  drops m !! eid e = Some d → live d = false → Inv (forget (eid e) (set_timers ts m)).
Proof.
  intros [Hl Hb Hs Hh Hn Hsd He Hr Hg] Hperm Hnd Ho Hother Hd Hdead.
  apply NoDup_cons in Hnd as [Hnotin Hnd].
  assert (∀ i e', i ≠ eid e → eid e' = i → e' ∈ timers m → e' ∈ ts) as Hkeep.
  { intros i e' Hi Hid. rewrite Hperm, elem_of_cons. intros [->|?]; done. }
  assert (held d = 0) as Hheld.
  { destruct (Hs _ _ Hd) as [Hw _]. apply wf_terminal in Hw; [|done]. destruct Hw as [Hct _].
    unfold held. by rewrite Hct. }
  assert (occupied d = 0) as Hocc by (unfold occupied; by rewrite Hdead).
  split; simpl; unfold grace, live_count, held_bytes in *; simpl; try done.
  - rewrite (map_sum_delete _ _ _ _ Hd). lia.
  - rewrite (map_sum_delete _ _ _ _ Hd). lia.
  - intros i x. rewrite lookup_delete_Some. intros [_ Hx]. by apply Hs.
  - intros e' Hin. rewrite lookup_delete_ne by (by apply not_eq_sym, Hother).
    apply Hsd. rewrite Hperm. by right.
  - intros i x. rewrite lookup_delete_Some. intros [Hne Hx] Hlx. eapply Hkeep; [by apply not_eq_sym|done|auto].
  - intros i x. rewrite lookup_delete_Some. intros [Hne Hx]. eapply Hkeep; [by apply not_eq_sym|done|auto].
Qed.

(** An expiry timer may go once its slot is no longer live. *)
Lemma drop_timer_Inv m e ts d :
  Inv m → timers m ≡ₚ e :: ts → NoDup (e :: ts) → heap_ordered at_ ts → remove e = false →
  drops m !! eid e = Some d → live d = false → Inv (set_timers ts m).
Proof.
  intros [Hl Hb Hs Hh Hn Hsd He Hr Hg] Hperm Hnd Ho Hrm Hd Hdead.
  apply NoDup_cons in Hnd as [Hnotin Hnd].
  split; simpl; unfold grace in *; simpl; try done.
  - intros e' Hin. apply Hsd. rewrite Hperm. by right.
  - intros i x Hx Hlx. pose proof (He i x Hx Hlx) as Hin. rewrite Hperm, elem_of_cons in Hin.
    destruct Hin as [<-|?]; [|done]. simpl in *. congruence.
  - intros i x Hx. pose proof (Hr i x Hx) as Hin. rewrite Hperm, elem_of_cons in Hin.
    destruct Hin as [<-|?]; done.
Qed.

Lemma expire_Inv m id d :
  Inv m → drops m !! id = Some d → live d = true → Inv (expire id d m).1.
Proof.
  intros HI Hd Hl. unfold expire. simpl. apply notify_Inv. destruct (inv_slots m HI id d Hd) as [Hw _].
  eapply set_slot_Inv; try done; unfold occupied, held; rewrite ?Hl; done.
Qed.

(** What a round does to the slots, seen by the specification. *)
Lemma omap_replace (f : Drop → option Drop) (m : gmap string Drop) id d d' :
  m !! id = Some d → f d' = f d → omap f (<[id := d']> m) = omap f m.
Proof.
  intros Hd Hf. apply map_eq. intros i. rewrite !lookup_omap, lookup_insert. case_decide; [|done].
  subst. rewrite Hd. simpl. by rewrite Hf.
Qed.

Lemma omap_delete_none (f : Drop → option Drop) (m : gmap string Drop) id d :
  m !! id = Some d → f d = None → omap f (delete id m) = omap f m.
Proof.
  intros Hd Hf. apply map_eq. intros i. rewrite !lookup_omap, lookup_delete. case_decide; [|done].
  subst. rewrite Hd. simpl. by rewrite Hf.
Qed.

(** One round keeps the invariant, does a part of the specified sweep, and
    takes one timer off the heap. *)
Lemma sweep_round_step now m m' n :
  Inv m → sweep_round now m = Some (m', n) →
  Inv m' ∧ opts m' = opts m ∧ swept now m' = swept now m ∧ n + to_touch now m' = to_touch now m ∧
  length (timers m) = S (length (timers m')).
Proof.
  intros HI. unfold sweep_round. destruct (timers m !! 0%nat) as [top|] eqn:Etop; [|done].
  destruct (After (at_ top) now) eqn:Eaft; [done|].
  destruct (heap_Pop at_ (timers m)) as [[e ts]|] eqn:Epop; simpl; [|done].
  destruct (pop_timer m e ts HI Epop) as (Ho & Hperm & Hnd & Hmin).
  assert (e ∈ timers m) as Hin by (rewrite Hperm; by left).
  assert (at_ e <= now) as Hdue.
  { unfold After in Eaft. breflect. assert (top ∈ timers m) as Ht by (by eapply list_elem_of_lookup_2).
    pose proof (Hmin top Ht). lia. }
  assert (length (timers m) = S (length ts)) as Hlen by (by rewrite Hperm).
  destruct (inv_sound m HI e Hin) as (d & Hd & Hat). rewrite Hd. pose proof (inv_grace m HI) as Hg.
  destruct (remove e) eqn:Hrm; unfold due_at in Hat.
  - intros [= <- <-]. pose proof (removal_after_expiry m e d HI Hin Hmin Hrm Hd) as Hdead.
    pose proof (last_timer m e ts HI Hperm Hnd Hmin Hrm) as Hother.
    split_and!; [by eapply forget_Inv|done| | |done].
    + unfold swept. simpl. eapply omap_delete_none; [done|]. unfold sweep_slot, grace in *.
      simpl. destruct (_ <=? _) eqn:E; [done|breflect; lia].
    + unfold to_touch. simpl. rewrite (map_sum_delete _ _ _ _ Hd). unfold sweep_touched, grace in *. simpl.
      rewrite Hdead. simpl. destruct (ExpiresAt d + _ <=? _) eqn:E; [lia|breflect; lia].
  - destruct (Terminal (dState d)) eqn:Ht; simpl; intros [= <- <-].
    + split_and!; try done. eapply drop_timer_Inv; try done. unfold live. by rewrite Ht.
    + assert (live d = true) as Hl by (unfold live; by rewrite Ht).
      pose proof (expire_Inv m (eid e) d HI Hd Hl) as HI'. unfold expire in HI'. simpl in HI'.
      set (d' := tombstone d StateExpired (ExpiresAt d)) in *.
      split_and!; [|done| | |done].
      * unfold expire. simpl.
        eapply (drop_timer_Inv _ e ts d') in HI'; try done. simpl. by rewrite lookup_insert_eq.
      * unfold swept. simpl. eapply omap_replace; [done|]. unfold sweep_slot, grace, observe. simpl.
        rewrite Hl. destruct (ExpiresAt d <=? now) eqn:E; [done|breflect; lia].
      * unfold to_touch. simpl. rewrite (map_sum_update _ _ _ _ _ Hd). unfold sweep_touched, grace. simpl.
        rewrite Hl. unfold live. simpl. destruct (ExpiresAt d <=? now) eqn:E; [lia|breflect; lia].
Qed.

(** The loop stops when the first timer, and so every timer, is yet to come. *)
Lemma sweep_round_late now m :
  Inv m → sweep_round now m = None → ∀ e, e ∈ timers m → now < at_ e.
Proof.
  intros HI Hnone e Hin. unfold sweep_round in Hnone. destruct (timers m !! 0%nat) as [top|] eqn:Etop.
  - destruct (After (at_ top) now) eqn:Eaft.
    + unfold After in Eaft. breflect. pose proof (root_least_elem at_ _ _ _ (inv_heap m HI) Etop Hin). lia.
    + exfalso. destruct (heap_Pop at_ (timers m)) as [[e' ts]|] eqn:Epop; simpl in Hnone; [by split_match Hnone|].
      destruct (timers m) as [|x l] eqn:Etm; [done|]. destruct (heap_Pop_Some at_ (x :: l)) as (p & Hp); [done|].
      congruence.
  - destruct (timers m); [by apply elem_of_nil in Hin|done].
Qed.

(** With no timer due there is nothing left to sweep. *)
Lemma sweep_round_done now m :
  Inv m → sweep_round now m = None → swept now m = drops m ∧ to_touch now m = 0.
Proof.
  intros HI Hnone. pose proof (sweep_round_late now m HI Hnone) as Hlate.
  assert (∀ id d, drops m !! id = Some d → sweep_slot (grace m) now d = Some d ∧ sweep_touched (grace m) now d = 0) as Hslot.
  { intros id d Hd. pose proof (Hlate _ (inv_removal m HI id d Hd)) as Hr. simpl in Hr.
    assert (live d = true → now < ExpiresAt d) as Hl.
    { intros Hl. by apply (Hlate _ (inv_expiry m HI id d Hd Hl)). }
    unfold sweep_slot, sweep_touched, observe. destruct (ExpiresAt d + grace m <=? now) eqn:E; [breflect; lia|].
    destruct (live d); simpl; [|done]. destruct (ExpiresAt d <=? now) eqn:E'; [breflect; lia|done]. }
  split.
  - unfold swept. apply map_eq. intros i. rewrite lookup_omap. destruct (drops m !! i) as [d|] eqn:Hd; [|done].
    simpl. by apply Hslot in Hd as [-> _].
  - unfold to_touch. apply map_sum_zero. intros i d Hd. by apply Hslot in Hd as [_ ->].
Qed.

(** The loop ends before its fuel does, with the whole sweep done. *)
Lemma sweep_loop_spec fuel now m n :
  Inv m → (length (timers m) <= fuel)%nat →
  ∃ m', sweep_loop fuel now m n = (m', n + to_touch now m) ∧ Inv m' ∧ opts m' = opts m ∧
    drops m' = swept now m ∧ sweep_round now m' = None.
Proof.
  revert m n. induction fuel as [|fuel IH]; intros m n HI Hf; simpl.
  - assert (sweep_round now m = None) as Hnone.
    { unfold sweep_round. destruct (timers m); [done|simpl in Hf; lia]. }
    destruct (sweep_round_done now m HI Hnone) as [Hs ->]. exists m. rewrite Z.add_0_r. auto.
  - destruct (sweep_round now m) as [[m' k]|] eqn:E.
    + destruct (sweep_round_step now m m' k HI E) as (HI' & Ho & Hs & Ht & Hlen).
      destruct (IH m' (n + k) HI') as (m2 & Hloop & HI2 & Ho2 & Hd2 & Hnone); [lia|].
      exists m2. rewrite Hloop. split_and!; try congruence. f_equal. lia.
    + destruct (sweep_round_done now m HI E) as [Hs Ht]. exists m. rewrite Ht, Z.add_0_r. auto.
Qed.

Lemma Sweep_refines ck m :
  Inv m → refines_step m (mem_Sweep ck m) (spec_sweep ck (abs m)).
Proof.
  intros HI. unfold refines_step, mem_Sweep, spec_sweep.
  destruct (sweep_loop_spec (length (timers m)) (ck 0%nat) m 0 HI) as (m' & -> & HI' & Ho & Hd & _); [done|].
  split; [done|]. unfold abs. simpl. by rewrite Ho, Hd.
Qed.

(** * Simulation *)

(** Every operation of the memory store, on a state it can reach, answers as
    the abstract store does. *)
Lemma memory_step ck o m s :
  op_ok ck o → Inv m ∧ s = abs m →
  (run_op ck o m).2 = (run_op ck o s).2 ∧ (Inv (run_op ck o m).1 ∧ (run_op ck o s).1 = abs (run_op ck o m).1).
Proof.
  intros Hok [HI ->].
  assert (∀ A (f : A → reply) p q, refines_step m p q →
    (mapr f p).2 = (mapr f q).2 ∧ Inv (mapr f p).1 ∧ (mapr f q).1 = abs (mapr f p).1) as Hlift.
  { intros A f p q [Hp ->]. done. }
  destruct o.
  - exact (Hlift _ RUnit _ _ (Create_refines ck d m HI Hok)).
  - exact (Hlift _ RUnit _ _ (Upload_refines ck id token commitment ct m HI)).
  - exact (Hlift _ RRead _ _ (Fetch_refines ck id token m HI)).
  - exact (Hlift _ RRead _ _ (Open_refines ck id token m HI)).
  - exact (Hlift _ RUnit _ _ (Revoke_refines ck id token m HI)).
  - exact (Hlift _ RStatus _ _ (Status_refines ck id m HI)).
  - exact (Hlift _ RSwept _ _ (Sweep_refines ck m HI)).
Qed.

Lemma memory_reaches o h m :
  0 <= TombstoneGrace o → reaches op_ok (NewMemory o) h m →
  Inv m ∧ reaches op_ok (spec_init o) h (abs m).
Proof.
  intros Hg Hr.
  apply (simulation_reaches op_ok (λ m s, Inv m ∧ s = abs m) memory_step (NewMemory o) (spec_init o)) in Hr
    as (s & Hs & HI & ->); [done|].
  split; [by apply NewMemory_Inv|done].
Qed.
