(* ===== verification/MemoryProps.v ===== *)
(** What the memory store guarantees on every run, for any interleaving of
    calls: the theorems of StoreHistory.v carried over by the refinement of
    MemoryInv.v, and exact conditions for each method to succeed. *)
From S2P Require Import Prelude Tokens GoTime Heap RelayTypes StoreSpec StoreHistory Memory MemoryInv.

(** * A concrete run *)

(** Runs of a list of operations, each with its clock. *)
Fixpoint play {T} `{Store T} (ops : list (Clock * op)) (h : list event) (s : T) : list event * T :=
  match ops with
  | [] => (h, s)
  | (ck, o) :: ops =>
      let '(s', r) := run_op ck o s in play ops (mkEvent ck o r :: h) s'
  end.

Lemma play_reaches {T} `{Store T} adm init ops h (s : T) :
  Forall (λ p, adm p.1 p.2) ops → reaches adm init h s →
  reaches adm init (play ops h s).1 (play ops h s).2.
Proof.
  revert h s. induction ops as [|[ck o] ops IH]; intros h s Hops Hr; simpl; [done|].
  apply Forall_cons in Hops as [Ho Hops]. destruct (run_op ck o s) as [s' r] eqn:E.
  apply IH; [done|]. by eapply reaches_step.
Qed.

(** A drop slot that is uploaded, fetched and fetched again; a reveal slot
    that is opened; a sweep. *)
Definition demo_opts : StoreOptions := mkOptions 10 1000 Hour.
Definition demo_hash (c : byte) : Hash := replicate 32 c.
Definition demo_upload_hash : Hash := demo_hash Byte.x61.
Definition demo_fetch_hash : Hash := demo_hash Byte.x62.
Definition demo_slot (id : string) (k : Kind) (ct : bytes) : Drop :=
  mkDrop id k StateCreated ct "c" demo_upload_hash demo_fetch_hash "key" (100 * Second) (200 * Second) 0 0 0.
Definition demo_ct : bytes := [Byte.x01; Byte.x02; Byte.x03].
Definition demo_create : op := OpCreate (demo_slot "d" KindDrop []).
Definition demo_create_reveal : op := OpCreate (demo_slot "r" KindReveal demo_ct).
Definition demo_upload : op := OpUpload "d" demo_upload_hash "c" demo_ct.
Definition demo_fetch : op := OpFetch "d" demo_fetch_hash.
Definition demo_open : op := OpOpen "r" demo_upload_hash.
Definition at_sec (s : Z) : Clock := λ k, s * Second + Z.of_nat k.

Definition demo_upto_upload : list (Clock * op) :=
  [(at_sec 100, demo_create); (at_sec 101, demo_create_reveal); (at_sec 110, demo_upload)].
Definition demo_created : list (Clock * op) := [(at_sec 100, demo_create)].
Definition demo_fetched : list (Clock * op) := demo_upto_upload ++ [(at_sec 120, demo_fetch)].
Definition demo_opened : list (Clock * op) := demo_upto_upload ++ [(at_sec 120, demo_open)].
Definition demo_all : list (Clock * op) :=
  demo_fetched ++ [(at_sec 121, demo_fetch); (at_sec 122, demo_open); (at_sec 5000, OpSweep)].

Definition demo (ops : list (Clock * op)) : list event * Memory := play ops [] (NewMemory demo_opts).

Lemma demo_grace : 0 <= TombstoneGrace demo_opts.
Proof. discriminate. Qed.

Lemma demo_reaches ops :
  Forall (λ p, op_ok p.1 p.2) ops → reaches op_ok (NewMemory demo_opts) (demo ops).1 (demo ops).2.
Proof. intros Hops. apply play_reaches; [done|constructor]. Qed.

Lemma demo_all_ok : Forall (λ p, op_ok p.1 p.2) demo_all.
Proof. repeat constructor; simpl; try done; auto. Qed.

Lemma demo_created_ok : Forall (λ p, op_ok p.1 p.2) demo_created.
Proof. repeat constructor; simpl; try done; auto. Qed.

Lemma demo_fetched_ok : Forall (λ p, op_ok p.1 p.2) demo_fetched.
Proof. repeat constructor; simpl; try done; auto. Qed.

Lemma demo_opened_ok : Forall (λ p, op_ok p.1 p.2) demo_opened.
Proof. repeat constructor; simpl; try done; auto. Qed.

Lemma demo_upto_upload_ok : Forall (λ p, op_ok p.1 p.2) demo_upto_upload.
Proof. repeat constructor; simpl; try done; auto. Qed.

Example demo_replies :
  map ev_reply (demo demo_all).1 =
  [RSwept 2; RRead (Ok (demo_ct, 100 * Second));
   RRead (Err (StateError StateFetched (120 * Second + 1)));
   RRead (Ok (demo_ct, 110 * Second + 1)); RUnit (Ok tt); RUnit (Ok tt); RUnit (Ok tt)].
Proof. vm_compute. reflexivity. Qed.

(** * Runs *)

Section runs.
Context (o : StoreOptions) (Hgrace : 0 <= TombstoneGrace o).
Context (h : list event) (m : Memory) (Hreach : reaches op_ok (NewMemory o) h m).

(** C18. Every run of the memory store is a run of the abstract store
    with the same replies, ending in the slots and options the memory store
    holds; its occupancy figures, kept incrementally, are those of the
    abstract store, computed from the slots. *)
Theorem memory_refines_spec :
  reaches op_ok (spec_init o) h (abs m) ∧ slots (abs m) = drops m ∧ StatsOf m = StatsOf (abs m).
Proof using Hgrace Hreach.
  destruct (memory_reaches o h m Hgrace Hreach) as [HI Hr].
  split_and!; [done..|]. simpl. unfold mem_Stats, spec_stats. simpl.
  by rewrite (inv_live m HI), (inv_bytes m HI).
Qed.

(** C22. On every run the memory store's bookkeeping stays consistent: the totals
    are the occupancy of the map, the timers form a heap without duplicates
    in which every live slot has its expiry timer and every slot its removal
    timer, each at its time, and no timer is left without its slot. *)
Theorem memory_invariant : Inv m.
Proof using Hgrace Hreach. by apply (memory_reaches o h m). Qed.

(** C17. A secret is read at most once: on every run, the successful fetches and
    opens of an id are no more than the successful creations of that id. *)
Theorem memory_reads_once id :
  (occurrences (read_in id) h <= occurrences (created_in id) h)%nat.
Proof using Hgrace Hreach.
  destruct (memory_reaches o h m Hgrace Hreach) as [_ Hr].
  pose proof (run_reads_live o h (abs m) id Hr). lia.
Qed.

(** MemUploads: A drop is uploaded at most once: on every run, the successful uploads
    of an id are no more than the successful creations of that id. *)
Theorem memory_uploads_once id :
  (occurrences (uploaded_in id) h <= occurrences (created_in id) h)%nat.
Proof using Hgrace Hreach.
  destruct (memory_reaches o h m Hgrace Hreach) as [_ Hr].
  pose proof (run_uploads_fresh o h (abs m) id Hr). lia.
Qed.

(** The store never holds more live slots or more ciphertext bytes than
    its options allow (a limit of zero or less is no limit). *)
Theorem memory_capacity :
  (0 < MaxLive o → Live (mem_Stats m) <= MaxLive o) ∧ (0 < MaxBytes o → sBytes (mem_Stats m) <= MaxBytes o).
Proof using Hgrace Hreach.
  destruct (memory_reaches o h m Hgrace Hreach) as [HI Hr].
  pose proof (run_opts o h (abs m) Hr) as Ho. destruct (run_capacity o h (abs m) Hr) as [Hl Hb].
  rewrite Ho in Hl, Hb. simpl. rewrite (inv_live m HI), (inv_bytes m HI). done.
Qed.

(** A slot in a terminal state carries no ciphertext, no commitment
    and no token hashes, from the transition on. *)
Theorem memory_tombstones id d :
  drops m !! id = Some d → Terminal (dState d) = true → is_tombstone d.
Proof using Hgrace Hreach.
  intros Hd Ht. destruct (memory_reaches o h m Hgrace Hreach) as [HI _].
  apply wf_terminal; [by apply (inv_slots m HI id d)|]. unfold live. by rewrite Ht.
Qed.

(** C21. One call changes one slot at most by one transition of its life cycle,
    before its expiry, or by expiry, and then the call's reading of the clock has
    reached the slot's expiry; and only a live slot.  A slot disappears only in
    a sweep past its expiry and the grace period after it. *)
Theorem memory_life_cycle ck p id d :
  op_ok ck p → drops m !! id = Some d →
  match drops (run_op ck p m).1 !! id with
  | Some d' => evolves (ck 0%nat) d d'
  | None => p = OpSweep ∧ ExpiresAt d + TombstoneGrace (withDefaults o) <= ck 0%nat
  end.
Proof using Hgrace Hreach.
  intros Hok Hd. destruct (memory_reaches o h m Hgrace Hreach) as [HI Hr].
  destruct (memory_step ck p m (abs m) Hok (conj HI eq_refl)) as (_ & _ & Hs).
  destruct (run_op ck p (abs m)) as [s' r] eqn:Hop. simpl in Hs.
  change (drops (run_op ck p m).1) with (slots (abs (run_op ck p m).1)). rewrite <- Hs.
  destruct (slots s' !! id) as [d'|] eqn:Hd'.
  - by eapply (run_step_evolves o h (abs m)).
  - rewrite <- (run_opts o h (abs m) Hr). by eapply step_gone.
Qed.
End runs.

Lemma memory_refines_spec_witness :
  reaches op_ok (spec_init demo_opts) (demo demo_all).1 (abs (demo demo_all).2).
Proof. apply (memory_refines_spec demo_opts demo_grace _ _ (demo_reaches _ demo_all_ok)). Defined.

Lemma memory_invariant_witness : Inv (demo demo_all).2.
Proof. exact (memory_invariant demo_opts demo_grace _ _ (demo_reaches _ demo_all_ok)). Defined.

Lemma memory_reads_once_witness :
  occurrences (read_in "d") (demo demo_all).1 = 1%nat ∧
  (occurrences (read_in "d") (demo demo_all).1 <= occurrences (created_in "d") (demo demo_all).1)%nat.
Proof.
  split; [vm_compute; reflexivity|].
  exact (memory_reads_once demo_opts demo_grace _ _ (demo_reaches _ demo_all_ok) "d").
Defined.

Lemma memory_uploads_once_witness :
  occurrences (uploaded_in "d") (demo demo_all).1 = 1%nat ∧
  (occurrences (uploaded_in "d") (demo demo_all).1 <= occurrences (created_in "d") (demo demo_all).1)%nat.
Proof.
  split; [vm_compute; reflexivity|].
  exact (memory_uploads_once demo_opts demo_grace _ _ (demo_reaches _ demo_all_ok) "d").
Defined.

Lemma memory_capacity_witness : Live (mem_Stats (demo demo_upto_upload).2) = 2 ∧ sBytes (mem_Stats (demo demo_upto_upload).2) <= 1000.
Proof.
  split; [vm_compute; reflexivity|].
  apply (memory_capacity demo_opts demo_grace _ _ (demo_reaches _ demo_upto_upload_ok)). reflexivity.
Defined.

(** The slot "d" of the demo, as the last state holds it. *)
Definition demo_d (ops : list (Clock * op)) : Drop :=
  default (demo_slot "d" KindDrop []) (drops (demo ops).2 !! "d").

Lemma memory_tombstones_witness : is_tombstone (demo_d demo_fetched).
Proof.
  apply (memory_tombstones demo_opts demo_grace _ _ (demo_reaches _ demo_fetched_ok) "d");
    vm_compute; reflexivity.
Defined.

Lemma memory_life_cycle_witness :
  match drops (run_op (at_sec 120) demo_fetch (demo demo_upto_upload).2).1 !! "d" with
  | Some d' => evolves (at_sec 120 0%nat) (demo_d demo_upto_upload) d'
  | None => demo_fetch = OpSweep ∧
      ExpiresAt (demo_d demo_upto_upload) + TombstoneGrace (withDefaults demo_opts) <= at_sec 120 0%nat
  end.
Proof.
  apply (memory_life_cycle demo_opts demo_grace _ _ (demo_reaches _ demo_upto_upload_ok)
    (at_sec 120) demo_fetch "d" (demo_d demo_upto_upload)); [exact I|vm_compute; reflexivity].
Defined.

(** * Reads return what was written *)

Section reads.
Context (o : StoreOptions) (Hgrace : 0 <= TombstoneGrace o).
Context (h : list event) (m : Memory) (ck : Clock) (id : string) (tok : Hash) (ct : bytes) (u : Time).

(** What a fetch returns was uploaded to that slot: the slot was created as
    a drop with the fetch token's hash, it had not expired, and the
    ciphertext and its time are those of a successful upload that presented
    the slot's upload token and commitment. *)
Theorem memory_fetch_integrity :
  reaches op_ok (NewMemory o) (mkEvent ck (OpFetch id tok) (RRead (Ok (ct, u))) :: h) m →
  ∃ d0 ck0 ck1,
    mkEvent ck0 (OpCreate d0) (RUnit (Ok tt)) ∈ h ∧
    ID d0 = id ∧ dKind d0 = KindDrop ∧ TokenB d0 = tok ∧ ck 0%nat < ExpiresAt d0 ∧
    mkEvent ck1 (OpUpload id (TokenA d0) (dCommitment d0) ct) (RUnit (Ok tt)) ∈ h ∧ u = ck1 1%nat.
Proof using Hgrace.
  intros [_ Hr]%memory_reaches; [|done]. by eapply run_fetch.
Qed.

(** What an open returns is the ciphertext the reveal was created with, by a
    caller who presented the token it was created with, before its expiry. *)
Theorem memory_open_integrity :
  reaches op_ok (NewMemory o) (mkEvent ck (OpOpen id tok) (RRead (Ok (ct, u))) :: h) m →
  ∃ d0 ck0,
    mkEvent ck0 (OpCreate d0) (RUnit (Ok tt)) ∈ h ∧
    ID d0 = id ∧ dKind d0 = KindReveal ∧ TokenA d0 = tok ∧ ck 0%nat < ExpiresAt d0 ∧
    ct = Ciphertext d0 ∧ u = CreatedAt d0.
Proof using Hgrace.
  intros [_ Hr]%memory_reaches; [|done]. by eapply run_open.
Qed.
End reads.

Lemma memory_fetch_integrity_witness :
  ∃ d0 ck0 ck1,
    mkEvent ck0 (OpCreate d0) (RUnit (Ok tt)) ∈ (demo demo_upto_upload).1 ∧
    ID d0 = "d" ∧ dKind d0 = KindDrop ∧ TokenB d0 = demo_fetch_hash ∧ at_sec 120 0%nat < ExpiresAt d0 ∧
    mkEvent ck1 (OpUpload "d" (TokenA d0) (dCommitment d0) demo_ct) (RUnit (Ok tt)) ∈ (demo demo_upto_upload).1 ∧
    110 * Second + 1 = ck1 1%nat.
Proof.
  apply (memory_fetch_integrity demo_opts demo_grace _ (demo demo_fetched).2 (at_sec 120) "d"
    demo_fetch_hash demo_ct (110 * Second + 1)).
  exact (demo_reaches _ demo_fetched_ok).
Defined.

Lemma memory_open_integrity_witness :
  ∃ d0 ck0,
    mkEvent ck0 (OpCreate d0) (RUnit (Ok tt)) ∈ (demo demo_upto_upload).1 ∧
    ID d0 = "r" ∧ dKind d0 = KindReveal ∧ TokenA d0 = demo_upload_hash ∧ at_sec 120 0%nat < ExpiresAt d0 ∧
    demo_ct = Ciphertext d0 ∧ 100 * Second = CreatedAt d0.
Proof.
  apply (memory_open_integrity demo_opts demo_grace _ (demo demo_opened).2 (at_sec 120) "r"
    demo_upload_hash demo_ct (100 * Second)).
  exact (demo_reaches _ demo_opened_ok).
Defined.

(** * When each method succeeds *)

(** The slot [get] finds: live, and not yet due. *)
Definition alive (m : Memory) (now : Time) (id : string) (d : Drop) : Prop :=
  drops m !! id = Some d ∧ live d = true ∧ now < ExpiresAt d.

Section success.
Context (m : Memory) (HI : Inv m) (ck : Clock) (id : string).

(** A call on a slot succeeds when its body does on the observed slot. *)
Lemma on_slot_ok {A} (f : Drop → outcome A) a :
  (∀ d d' a, f d = (d', Ok a) → live d = true) →
  (on_slot (ck 0%nat) id f (abs m)).2 = Ok a ↔ ∃ d, alive m (ck 0%nat) id d ∧ ∃ d', f d = (d', Ok a).
Proof.
  intros Hlive. unfold on_slot, alive. simpl. destruct (drops m !! id) as [d|]; simpl.
  - destruct (f (observe (ck 0%nat) d)) as [d' r] eqn:E. simpl. split.
    + intros ->. pose proof (Hlive _ _ _ E) as Hl. apply observe_live in Hl as Hl'.
      destruct Hl' as [Hob Hn]. rewrite Hob in *. exists d. eauto.
    + intros (d0 & ([= ->] & Hl & Hn) & d1 & Hf). rewrite observe_not_due in E by done. congruence.
  - split; [done|]. intros (d & (? & _) & _). done.
Qed.

Lemma refines_reply {A} (p : Memory * A) q : refines_step m p q → p.2 = q.2.
Proof. by intros [_ ->]. Qed.

(** An upload succeeds exactly when the slot is an unexpired drop that
    nothing was uploaded to, the token and the commitment are the slot's and
    the bytes fit. *)
Theorem memory_upload_ok tok com ct :
  (mem_Upload ck id tok com ct m).2 = Ok tt ↔
  ∃ d, alive m (ck 0%nat) id d ∧ dKind d = KindDrop ∧ dState d = StateCreated ∧ TokenA d = tok ∧
    dCommitment d = com ∧ (0 < MaxBytes (opts m) → mbytes m + zlen ct <= MaxBytes (opts m)).
Proof using HI.
  rewrite (refines_reply _ _ (Upload_refines ck id tok com ct m HI)). unfold spec_upload. rewrite on_slot_ok.
  - setoid_rewrite slot_upload_ok. rewrite (inv_bytes m HI). simpl. setoid_rewrite below_iff.
    unfold within. naive_solver.
  - intros d d' []. rewrite slot_upload_ok. unfold live. intros (_ & -> & _). done.
Qed.

(** A fetch succeeds exactly when the slot is an unexpired drop that holds
    an upload and the token is the slot's fetch token; it returns that
    slot's ciphertext. *)
Theorem memory_fetch_ok tok ct u :
  (mem_Fetch ck id tok m).2 = Ok (ct, u) ↔
  ∃ d, alive m (ck 0%nat) id d ∧ dKind d = KindDrop ∧ dState d = StateUploaded ∧ TokenB d = tok ∧
    ct = Ciphertext d ∧ u = UploadedAt d.
Proof using HI.
  rewrite (refines_reply _ _ (Fetch_refines ck id tok m HI)). unfold spec_fetch. rewrite on_slot_ok.
  - setoid_rewrite slot_fetch_ok. naive_solver.
  - intros d d' [c w]. rewrite slot_fetch_ok. unfold live. intros (_ & -> & _). done.
Qed.

(** MemOpenOk: An open succeeds exactly when the slot is an unexpired reveal that was
    not opened or revoked and the token is the slot's; it returns that
    slot's ciphertext. *)
Theorem memory_open_ok tok ct u :
  (mem_Open ck id tok m).2 = Ok (ct, u) ↔
  ∃ d, alive m (ck 0%nat) id d ∧ dKind d = KindReveal ∧ TokenA d = tok ∧
    ct = Ciphertext d ∧ u = CreatedAt d.
Proof using HI.
  rewrite (refines_reply _ _ (Open_refines ck id tok m HI)). unfold spec_open. rewrite on_slot_ok.
  - setoid_rewrite slot_open_ok. unfold alive. naive_solver.
  - intros d d' [c w]. rewrite slot_open_ok. naive_solver.
Qed.

(** MemRevokeOk: A revocation succeeds exactly when the slot is live and unexpired and
    the token is one of its two. *)
Theorem memory_revoke_ok tok :
  (mem_Revoke ck id tok m).2 = Ok tt ↔
  ∃ d, alive m (ck 0%nat) id d ∧ (TokenA d = tok ∨ TokenB d = tok).
Proof using HI.
  rewrite (refines_reply _ _ (Revoke_refines ck id tok m HI)). unfold spec_revoke. rewrite on_slot_ok.
  - setoid_rewrite slot_revoke_ok. unfold alive. naive_solver.
  - intros d d' []. rewrite slot_revoke_ok. naive_solver.
Qed.

(** C23. A sweep ends, forgets exactly the slots past expiry and grace period,
    expires exactly the live ones past expiry, touches no other slot, and leaves
    no timer that is due.  It returns how many it expired and how many it
    forgot, so that a live slot past expiry and grace period, which it expires
    and then forgets, counts twice. *)
Theorem memory_sweep_complete :
  (mem_Sweep ck m).2 = map_sum (sweep_touched (grace m) (ck 0%nat)) (drops m) ∧
  (∀ i, drops (mem_Sweep ck m).1 !! i =
    d ← drops m !! i; if ExpiresAt d + grace m <=? ck 0%nat then None else Some (observe (ck 0%nat) d)) ∧
  (∀ e, e ∈ timers (mem_Sweep ck m).1 → ck 0%nat < at_ e).
Proof using HI.
  unfold mem_Sweep.
  destruct (sweep_loop_spec (length (timers m)) (ck 0%nat) m 0 HI) as (m' & -> & HI' & _ & Hd & Hnone); [done|].
  simpl. split_and!; [done| |].
  - intros i. rewrite Hd. unfold swept. by rewrite lookup_omap.
  - by apply sweep_round_late.
Qed.
End success.

Lemma memory_upload_ok_witness :
  let m := (demo demo_created).2 in
  (mem_Upload (at_sec 110) "d" demo_upload_hash "c" demo_ct m).2 = Ok tt ∧
  ∃ d, alive m (110 * Second) "d" d ∧ dKind d = KindDrop ∧ dState d = StateCreated ∧
    TokenA d = demo_upload_hash ∧ dCommitment d = "c" ∧
    (0 < MaxBytes (opts m) → mbytes m + zlen demo_ct <= MaxBytes (opts m)).
Proof.
  intros m.
  assert ((mem_Upload (at_sec 110) "d" demo_upload_hash "c" demo_ct m).2 = Ok tt) as Hok
    by (vm_compute; reflexivity).
  split; [exact Hok|]. change (110 * Second) with (at_sec 110 0%nat).
  apply (memory_upload_ok m); [|exact Hok]. exact (proj1 (memory_reaches _ _ _ demo_grace (demo_reaches _ demo_created_ok))).
Defined.

Lemma memory_fetch_ok_witness :
  let m := (demo demo_upto_upload).2 in
  (mem_Fetch (at_sec 120) "d" demo_fetch_hash m).2 = Ok (demo_ct, 110 * Second + 1) ∧
  ∃ d, alive m (120 * Second) "d" d ∧ dKind d = KindDrop ∧ dState d = StateUploaded ∧
    TokenB d = demo_fetch_hash ∧ demo_ct = Ciphertext d ∧ 110 * Second + 1 = UploadedAt d.
Proof.
  intros m.
  assert ((mem_Fetch (at_sec 120) "d" demo_fetch_hash m).2 = Ok (demo_ct, 110 * Second + 1)) as Hok
    by (vm_compute; reflexivity).
  split; [exact Hok|]. change (120 * Second) with (at_sec 120 0%nat).
  apply (memory_fetch_ok m); [|exact Hok]. exact (proj1 (memory_reaches _ _ _ demo_grace (demo_reaches _ demo_upto_upload_ok))).
Defined.

Lemma memory_open_ok_witness :
  let m := (demo demo_upto_upload).2 in
  (mem_Open (at_sec 120) "r" demo_upload_hash m).2 = Ok (demo_ct, 100 * Second) ∧
  ∃ d, alive m (120 * Second) "r" d ∧ dKind d = KindReveal ∧ TokenA d = demo_upload_hash ∧
    demo_ct = Ciphertext d ∧ 100 * Second = CreatedAt d.
Proof.
  intros m.
  assert ((mem_Open (at_sec 120) "r" demo_upload_hash m).2 = Ok (demo_ct, 100 * Second)) as Hok
    by (vm_compute; reflexivity).
  split; [exact Hok|]. change (120 * Second) with (at_sec 120 0%nat).
  apply (memory_open_ok m); [|exact Hok]. exact (proj1 (memory_reaches _ _ _ demo_grace (demo_reaches _ demo_upto_upload_ok))).
Defined.

Lemma memory_revoke_ok_witness :
  let m := (demo demo_upto_upload).2 in
  (mem_Revoke (at_sec 120) "r" demo_fetch_hash m).2 = Ok tt ∧
  ∃ d, alive m (120 * Second) "r" d ∧ (TokenA d = demo_fetch_hash ∨ TokenB d = demo_fetch_hash).
Proof.
  intros m.
  assert ((mem_Revoke (at_sec 120) "r" demo_fetch_hash m).2 = Ok tt) as Hok by (vm_compute; reflexivity).
  split; [exact Hok|]. change (120 * Second) with (at_sec 120 0%nat).
  apply (memory_revoke_ok m); [|exact Hok]. exact (proj1 (memory_reaches _ _ _ demo_grace (demo_reaches _ demo_upto_upload_ok))).
Defined.

Lemma memory_sweep_complete_witness :
  let m := (demo demo_upto_upload).2 in
  (mem_Sweep (at_sec 300) m).2 = 2 ∧
  (∀ e, e ∈ timers (mem_Sweep (at_sec 300) m).1 → 300 * Second < at_ e).
Proof.
  intros m. split; [vm_compute; reflexivity|].
  apply (memory_sweep_complete m (proj1 (memory_reaches _ _ _ demo_grace (demo_reaches _ demo_upto_upload_ok))) (at_sec 300)).
Defined.

(** One slot, and a sweep that reaches it only after the grace period. *)
Lemma memory_sweep_counts_twice :
  let m := (demo demo_created).2 in
  let late := mem_Sweep (at_sec 100000000) m in
  late.2 = 2 * Z.of_nat (size (drops m)) ∧ drops late.1 = ∅.
Proof. split; vm_compute; reflexivity. Qed.
