(* ===== verification/Waiters.v ===== *)
(** Long polls of the memory store: internal/relay/memory.go [Wait].

    A wait holds the lock twice, once to register its channel and once to take
    it out again; anything may happen in between.  Runs of the store with
    waits are a step relation whose state lists the waits that are between
    their two halves. *)
From S2P Require Import Prelude Tokens GoTime Heap RelayTypes StoreSpec StoreHistory Memory MemoryInv.

(** * The system: a store and the waits on it *)

(** A wait that is in its [select]: its channel, slot and last known state. *)
Record waiting := mkWaiting { w_chan : chan; w_id : string; w_current : State }.

Record Waits := mkWaits { store : Memory; pending : list waiting }.

(** [ready w m]: the channel of [w] holds a signal, so its [select] returns. *)
Definition ready (w : waiting) (m : Memory) : bool := bool_decide (w_chan w ∈ signalled m).

Inductive wait_step : Waits → Waits → Prop :=
  | ws_op ck o m p : op_ok ck o → wait_step (mkWaits m p) (mkWaits (run_op ck o m).1 p)
  | ws_begin ck id current timeout m m' ch p :
      Wait_begin ck id current timeout m = (m', inr ch) →
      wait_step (mkWaits m p) (mkWaits m' (mkWaiting ch id current :: p))
  | ws_answer ck id current timeout m m' r p :
      Wait_begin ck id current timeout m = (m', inl r) → wait_step (mkWaits m p) (mkWaits m' p)
  | ws_end ck w m p p' :
      p ≡ₚ w :: p' → wait_step (mkWaits m p) (mkWaits (Wait_end ck (w_id w) (w_chan w) m).1 p').

Inductive wait_reaches (o : StoreOptions) : Waits → Prop :=
  | wr_init : wait_reaches o (mkWaits (NewMemory o) [])
  | wr_step a b : wait_reaches o a → wait_step a b → wait_reaches o b.

(** * What one wait needs *)

(** The wait will be woken, or there is nothing to wake it for. *)
Definition attended (w : waiting) (m : Memory) : Prop :=
  w_chan w ∈ signalled m ∨
  ∃ d, drops m !! w_id w = Some d ∧ dState d = w_current w ∧ w_chan w ∈ default ∅ (waiters m !! w_id w).

(** Steps of the store that forget no wait, and register none. *)
Definition attends (m m' : Memory) : Prop :=
  (∀ w, Terminal (w_current w) = false → attended w m → attended w m') ∧
  next_chan m' = next_chan m ∧ waiters m' ⊆ waiters m.

#[export] Instance attends_preorder : PreOrder attends.
Proof.
  split; [by intros m|]. intros m1 m2 m3 (H1 & E1 & S1) (H2 & E2 & S2).
  split_and!; [auto|congruence|by etrans].
Qed.

(** A change of a slot that is followed by [notify] wakes whoever waits on it. *)
Lemma notify_attends id d' dl db m : attends m (notify id (set_slot id d' dl db m)).
Proof.
  split; [|done]. intros w _ [Hs|(d & Hd & Hst & Hch)]; [left; simpl; set_solver|].
  destruct (decide (id = w_id w)) as [->|Hne].
  - left. simpl. set_solver.
  - right. exists d. simpl. rewrite lookup_insert_ne by done. done.
Qed.

Lemma set_timers_attends ts m : attends m (set_timers ts m).
Proof. done. Qed.

(** A new slot has no waiter that was not signalled. *)
Lemma new_slot_attends id d' dl db m : drops m !! id = None → attends m (set_slot id d' dl db m).
Proof.
  intros Hn. split; [|done]. intros w _ [Hs|(d & Hd & Hst & Hch)]; [by left|]. right. exists d. simpl.
  rewrite lookup_insert_ne; [done|]. congruence.
Qed.

(** Nobody waits for a dead slot to leave a live state. *)
Lemma forget_attends id m d :
  drops m !! id = Some d → live d = false → attends m (forget id m).
Proof.
  intros Hd Hdead. split; [|split; [done|apply delete_subseteq]]. intros w Ht [Hs|(d' & Hd' & Hst & Hch)]; [by left|].
  destruct (decide (id = w_id w)) as [->|Hne].
  - simplify_eq. unfold live in Hdead. rewrite Hst, Ht in Hdead. done.
  - right. exists d'. simpl. by rewrite !lookup_delete_ne.
Qed.

Lemma get_attends ck id m : Inv m → attends m (get ck id m).1.
Proof.
  intros HI. unfold get. destruct (drops m !! id) as [d|] eqn:Hd; [|done].
  destruct (_ && _); [|done]. simpl. destruct (inv_slots m HI id d Hd) as [_ ->]. apply notify_attends.
Qed.

(** The methods that look a slot up. *)
Lemma addressed_attends {A} ck id (body : Memory → Drop → Memory * A) (none : Memory → A) m :
  Inv m → (∀ m1 d, attends m1 (body m1 d).1) →
  attends m (match get ck id m with (m1, None) => (m1, none m1) | (m1, Some d) => body m1 d end).1.
Proof.
  intros HI Hbody. pose proof (get_attends ck id m HI) as Hg.
  destruct (get ck id m) as [m1 [d|]]; simpl in *; [|done]. by etrans.
Qed.

Lemma sweep_round_attends now m m' n : Inv m → sweep_round now m = Some (m', n) → attends m m'.
Proof.
  intros HI. unfold sweep_round. destruct (timers m !! 0%nat) as [top|]; [|done].
  destruct (After (at_ top) now); [done|].
  destruct (heap_Pop at_ (timers m)) as [[e ts]|] eqn:Epop; simpl; [|done].
  destruct (pop_timer m e ts HI Epop) as (_ & Hperm & _ & Hmin).
  assert (e ∈ timers m) as Hin by (rewrite Hperm; by left).
  destruct (drops m !! eid e) as [d|] eqn:Hd; [|intros [= <- _]; apply set_timers_attends].
  destruct (remove e) eqn:Hrm; [|destruct (Terminal (dState d)) eqn:Ht]; simpl; intros [= <- <-].
  - pose proof (removal_after_expiry m e d HI Hin Hmin Hrm Hd) as Hdead.
    eapply (forget_attends _ (set_timers ts m)); [exact Hd|done].
  - apply set_timers_attends.
  - destruct (inv_slots m HI _ _ Hd) as [_ ->]. apply (notify_attends _ _ _ _ (set_timers ts m)).
Qed.

Lemma sweep_loop_attends fuel now m n : Inv m → attends m (sweep_loop fuel now m n).1.
Proof.
  revert m n. induction fuel as [|fuel IH]; intros m n HI; simpl; [done|].
  destruct (sweep_round now m) as [[m' k]|] eqn:E; simpl; [|done].
  etrans; [by eapply sweep_round_attends|]. apply IH. by apply (sweep_round_step now m m' k).
Qed.

Lemma run_op_attends ck o m : Inv m → attends m (run_op ck o m).1.
Proof.
  intros HI. destruct o as [d|id tok com ct|id tok|id tok|id tok|id|]; simpl.
  - unfold mem_Create. case_decide as Hs; [done|]. do 2 (case_match; [done|]). simpl.
    apply (new_slot_attends (ID (with_default_state d))).
    rewrite eq_None_not_Some. by replace (ID (with_default_state d)) with (ID d) by (unfold with_default_state; by case_match).
  - apply (addressed_attends ck id _ (λ _, Err ErrNotFound)); [done|]. intros m1 d. repeat case_match; simpl; try done.
    apply notify_attends.
  - apply (addressed_attends ck id _ (λ _, Err ErrNotFound)); [done|]. intros m1 d. repeat case_match; simpl; try done.
    apply notify_attends.
  - apply (addressed_attends ck id _ (λ _, Err ErrNotFound)); [done|]. intros m1 d. repeat case_match; simpl; try done.
    apply notify_attends.
  - apply (addressed_attends ck id _ (λ _, Err ErrNotFound)); [done|]. intros m1 d. repeat case_match; simpl; try done.
    apply notify_attends.
  - apply (addressed_attends ck id _ (λ _, Err ErrNotFound)); [done|]. intros m1 d. done.
  - by apply sweep_loop_attends.
Qed.

(** * The system's invariant *)

Record waits_ok (s : Waits) : Prop := {
  wo_inv : Inv (store s);
  wo_attended : ∀ w, w ∈ pending s → Terminal (w_current w) = false → attended w (store s);
  wo_fresh : ∀ w, w ∈ pending s → (w_chan w < next_chan (store s))%nat;
  wo_nodup : NoDup (map w_chan (pending s));
  wo_registered : ∀ id ws ch, waiters (store s) !! id = Some ws → ch ∈ ws →
    ∃ w, w ∈ pending s ∧ w_chan w = ch ∧ w_id w = id;
  wo_nonempty : ∀ id ws, waiters (store s) !! id = Some ws → ws ≠ ∅;
}.

Lemma store_step_ok m m' p : Inv m' → attends m m' → waits_ok (mkWaits m p) → waits_ok (mkWaits m' p).
Proof.
  intros HI (Ha & Hn & Hsub) [_ Hat Hf Hnd Hr Hne]. simpl in *. split; simpl; auto.
  - intros w Hw. rewrite Hn. auto.
  - intros id ws ch Hid. apply Hr. by eapply lookup_weaken.
  - intros id ws Hid. by eapply Hne, lookup_weaken.
Qed.

Lemma run_op_Inv ck o m : op_ok ck o → Inv m → Inv (run_op ck o m).1.
Proof. intros Hok HI. by destruct (memory_step ck o m (abs m) Hok (conj HI eq_refl)) as (_ & ? & _). Qed.

Lemma get_Inv ck id m : Inv m → Inv (get ck id m).1.
Proof. intros HI. destruct (get_spec ck id m HI) as [[_ ->]|(d & m' & _ & -> & ? & _)]; done. Qed.

Lemma get_lookup ck id m m' d : Inv m → get ck id m = (m', Some d) → drops m' !! id = Some d.
Proof.
  intros HI Hg. destruct (get_spec ck id m HI) as [[_ E]|(d0 & m1 & _ & E & _ & _ & Hd)]; rewrite E in Hg; simplify_eq.
  by rewrite Hd, lookup_insert_eq.
Qed.

(** [get] under the lock, and nothing else. *)
Lemma get_ok ck id m p : waits_ok (mkWaits m p) → waits_ok (mkWaits (get ck id m).1 p).
Proof.
  intros Hok. pose proof (wo_inv _ Hok) as HI. simpl in HI.
  eapply store_step_ok; [by apply get_Inv|by apply get_attends|done].
Qed.

Lemma begin_ok ck id current timeout m m' ch p :
  waits_ok (mkWaits m p) → Wait_begin ck id current timeout m = (m', inr ch) →
  waits_ok (mkWaits m' (mkWaiting ch id current :: p)).
Proof.
  intros Hok Hb. unfold Wait_begin in Hb. pose proof (get_ok ck id m p Hok) as Hok1.
  destruct (get ck id m) as [m1 [d|]] eqn:Hget; [|done].
  apply get_lookup in Hget as Hd; [|apply (wo_inv _ Hok)].
  destruct (negb _ || _) eqn:Hcond; [done|]. simplify_eq. apply orb_false_iff in Hcond as [Hst _]. breflect.
  destruct Hok1 as [HI1 Hat Hf Hnd Hr Hne]. simpl in *.
  split; simpl.
  - by destruct HI1; split.
  - intros w [->|Hw]%elem_of_cons Ht.
    + right. exists d. simpl. rewrite lookup_insert_eq. simpl. split_and!; [done..|set_solver].
    + destruct (Hat w Hw Ht) as [?|(d' & Hd' & Hs' & Hch)]; [by left|]. right. exists d'. simpl.
      split_and!; [done..|]. rewrite lookup_insert. case_decide; subst; simpl; set_solver.
  - intros w [->|Hw]%elem_of_cons; simpl; [lia|]. pose proof (Hf w Hw). lia.
  - constructor; [|done]. intros (w & Heq & Hw)%list_elem_of_fmap. pose proof (Hf w Hw). lia.
  - intros i ws c. rewrite lookup_insert. case_decide; subst.
    + intros [= <-]. rewrite elem_of_union, elem_of_singleton. intros [->|Hc].
      * eexists. split; [by left|done].
      * destruct (waiters m1 !! i) as [ws|] eqn:Hws; simpl in Hc; [|set_solver].
        destruct (Hr i ws c Hws Hc) as (w & ? & ? & ?). exists w. rewrite elem_of_cons. auto.
    + intros Hws Hc. destruct (Hr i ws c Hws Hc) as (w & ? & ? & ?). exists w. rewrite elem_of_cons. auto.
  - intros i ws. rewrite lookup_insert. case_decide; [intros [= <-]; set_solver|apply Hne].
Qed.

(** Taking a channel out leaves the other waits as they were. *)
Definition unregister (id : string) (ch : chan) (m : Memory) : Memory :=
  let ws :=
    match waiters m !! id with
    | Some ws => if decide (ws ∖ {[ch]} = ∅) then delete id (waiters m) else <[id := ws ∖ {[ch]}]> (waiters m)
    | None => waiters m
    end in
  mkMemory (opts m) (drops m) ws (timers m) (mlive m) (mbytes m) (signalled m ∖ {[ch]}) (next_chan m).

Lemma unregister_lookup id ch m i ws c :
  waiters (unregister id ch m) !! i = Some ws → c ∈ ws →
  ∃ ws0, waiters m !! i = Some ws0 ∧ c ∈ ws0 ∧ (i = id → c ≠ ch).
Proof.
  unfold unregister. simpl. destruct (waiters m !! id) as [ws0|] eqn:E.
  - case_decide.
    + intros [Hne Hi]%lookup_delete_Some Hc. exists ws. done.
    + rewrite lookup_insert. case_decide; subst; [intros [= <-]|intros; exists ws; split_and!; [done..|congruence]].
      rewrite elem_of_difference, elem_of_singleton. intros [? ?]. eauto.
  - intros Hi Hc. exists ws. split_and!; [done..|]. congruence.
Qed.

Lemma unregister_keeps id ch m i c :
  c ≠ ch → c ∈ default ∅ (waiters m !! i) → c ∈ default ∅ (waiters (unregister id ch m) !! i).
Proof.
  intros Hne Hc. unfold unregister. simpl. destruct (waiters m !! id) as [ws0|] eqn:E; [|done].
  destruct (decide (i = id)) as [->|Hi].
  - rewrite E in Hc. simpl in Hc. case_decide as Hemp.
    + exfalso. assert (c ∈ ws0 ∖ {[ch]}) as Hin by set_solver. rewrite Hemp in Hin. set_solver.
    + rewrite lookup_insert_eq. simpl. set_solver.
  - case_decide; [by rewrite lookup_delete_ne|by rewrite lookup_insert_ne].
Qed.

Lemma unregister_ok w m p p' :
  p ≡ₚ w :: p' → waits_ok (mkWaits m p) → waits_ok (mkWaits (unregister (w_id w) (w_chan w) m) p').
Proof.
  intros Hp [HI Hat Hf Hnd Hr Hne]. simpl in *.
  assert (∀ w', w' ∈ p' → w' ∈ p) as Hsub by (intros w' Hw'; rewrite Hp; by right).
  rewrite Hp in Hnd. simpl in Hnd. apply NoDup_cons in Hnd as [Hnotin Hnd].
  assert (∀ w', w' ∈ p' → w_chan w' ≠ w_chan w) as Hother.
  { intros w' Hw' Heq. apply Hnotin. rewrite <- Heq. apply list_elem_of_fmap. eauto. }
  split; simpl; auto.
  - by destruct HI; split.
  - intros w' Hw' Ht. pose proof (Hother w' Hw') as Hne'. destruct (Hat w' (Hsub w' Hw') Ht) as [Hs|(d & Hd & Hs & Hc)].
    + left. simpl. set_solver.
    + right. exists d. split_and!; [done..|]. by apply unregister_keeps.
  - intros i ws c Hi Hc. destruct (unregister_lookup _ _ _ _ _ _ Hi Hc) as (ws0 & Hw0 & Hc0 & Hcne).
    destruct (Hr i ws0 c Hw0 Hc0) as (w' & Hw' & Hch & Hid). exists w'. split_and!; [|done..].
    rewrite Hp, elem_of_cons in Hw'. destruct Hw' as [->|?]; [|done]. exfalso. by apply Hcne.
  - intros i ws. destruct (waiters m !! w_id w) as [ws0|] eqn:E; [|apply Hne].
    case_decide as Hd; [rewrite lookup_delete_Some; intros [_ ?]; by eapply Hne|].
    rewrite lookup_insert. case_decide; [by intros [= <-]|apply Hne].
Qed.

Lemma Wait_end_store ck id ch m : (Wait_end ck id ch m).1 = (get (λ k, ck (S k)) id (unregister id ch m)).1.
Proof.
  unfold Wait_end. fold (unregister id ch m). unfold unregister. by destruct (get _ _ _) as [? [?|]].
Qed.

Lemma wait_step_ok a b : wait_step a b → waits_ok a → waits_ok b.
Proof.
  destruct 1 as [ck o m p Ho|ck id current timeout m m' ch p Hb|ck id current timeout m m' r p Hb|ck w m p p' Hp];
    intros Hok; pose proof (wo_inv _ Hok) as HI; simpl in HI.
  - eapply store_step_ok; [by apply run_op_Inv|by apply run_op_attends|done].
  - by eapply begin_ok.
  - unfold Wait_begin in Hb. pose proof (get_ok ck id m p Hok) as Hok1.
    destruct (get ck id m) as [m1 [d|]]; [|by simplify_eq/=]. destruct (_ || _); by simplify_eq/=.
  - rewrite Wait_end_store. by apply get_ok, (unregister_ok w m p p').
Qed.

Lemma wait_reaches_ok o s : 0 <= TombstoneGrace o → wait_reaches o s → waits_ok s.
Proof.
  intros Hg. induction 1 as [|a b _ IH Hst]; [|by eapply wait_step_ok].
  split; simpl; [by apply NewMemory_Inv|..].
  - intros w. by rewrite elem_of_nil.
  - intros w. by rewrite elem_of_nil.
  - constructor.
  - intros id ws ch. by rewrite lookup_empty.
  - intros id ws. by rewrite lookup_empty.
Qed.

(** * Properties *)

(** C24. No wake-up is lost: in every interleaving of store calls and
    waits, a wait that is in its [select] for a slot to leave a live state
    finds its channel signalled as soon as the slot has left that state (or is
    gone), whatever happened between its two halves. *)
Theorem no_lost_wakeup o s w :
  0 <= TombstoneGrace o → wait_reaches o s → w ∈ pending s → Terminal (w_current w) = false →
  (∀ d, drops (store s) !! w_id w = Some d → dState d ≠ w_current w) →
  ready w (store s) = true.
Proof.
  intros Hg Hr Hw Ht Hgone. pose proof (wait_reaches_ok o s Hg Hr) as Hok.
  apply bool_decide_eq_true. destruct (wo_attended _ Hok w Hw Ht) as [?|(d & Hd & Hs & _)]; [done|].
  exfalso. by apply (Hgone d).
Qed.

(** A finished wait leaves nothing behind: every channel the store has
    registered belongs to a wait that is still in its [select] on that slot,
    and when there is none the table of waiters is empty. *)
Theorem no_waiter_leak o s :
  0 <= TombstoneGrace o → wait_reaches o s →
  (∀ id ws ch, waiters (store s) !! id = Some ws → ch ∈ ws →
     ∃ w, w ∈ pending s ∧ w_chan w = ch ∧ w_id w = id) ∧
  (pending s = [] → waiters (store s) = ∅).
Proof.
  intros Hg Hr. pose proof (wait_reaches_ok o s Hg Hr) as Hok. split; [apply (wo_registered _ Hok)|].
  intros Hnil. apply map_empty. intros id. apply eq_None_not_Some. intros [ws Hws].
  destruct (set_choose_or_empty ws) as [[ch Hch]|Hemp].
  - destruct (wo_registered _ Hok id ws ch Hws Hch) as (w & Hw & _). rewrite Hnil in Hw. by apply elem_of_nil in Hw.
  - apply (wo_nonempty _ Hok id ws Hws). set_solver.
Qed.

(** * A concrete run: a wait for the upload, the upload, the end of the wait *)

Definition poll_opts : StoreOptions := mkOptions 10 1000 Hour.
Definition poll_hash : Hash := replicate 32 Byte.x61.
Definition poll_slot : Drop :=
  mkDrop "d" KindDrop StateCreated [] "c" poll_hash poll_hash "key" (100 * Second) (200 * Second) 0 0 0.
Definition poll_clock (s : Z) : Clock := λ _, s * Second.

Definition poll_created : Memory := (run_op (poll_clock 100) (OpCreate poll_slot) (NewMemory poll_opts)).1.
Definition poll_waiting : Waits :=
  mkWaits (Wait_begin (poll_clock 101) "d" StateCreated (30 * Second) poll_created).1
    [mkWaiting 0%nat "d" StateCreated].
Definition poll_uploaded : Waits :=
  mkWaits (run_op (poll_clock 102) (OpUpload "d" poll_hash "c" [Byte.x01]) (store poll_waiting)).1 (pending poll_waiting).
Definition poll_done : Waits :=
  mkWaits (Wait_end (poll_clock 103) "d" 0%nat (store poll_uploaded)).1 [].

Lemma poll_uploaded_reaches : wait_reaches poll_opts poll_uploaded.
Proof.
  eapply wr_step; [eapply wr_step; [eapply wr_step; [apply wr_init|]|]|].
  - apply (ws_op (poll_clock 100) (OpCreate poll_slot)). simpl. split; [by left|done].
  - apply (ws_begin (poll_clock 101) "d" StateCreated (30 * Second)). vm_compute. reflexivity.
  - by apply (ws_op (poll_clock 102)).
Qed.

Lemma poll_done_reaches : wait_reaches poll_opts poll_done.
Proof.
  eapply wr_step; [apply poll_uploaded_reaches|].
  apply (ws_end (poll_clock 103) (mkWaiting 0%nat "d" StateCreated)). done.
Qed.

Lemma no_lost_wakeup_witness : ready (mkWaiting 0%nat "d" StateCreated) (store poll_uploaded) = true.
Proof.
  apply (no_lost_wakeup poll_opts poll_uploaded); [discriminate|apply poll_uploaded_reaches|left|reflexivity|].
  intros d Hd. vm_compute in Hd. injection Hd as <-. discriminate.
Defined.

Lemma no_waiter_leak_witness : waiters (store poll_done) = ∅.
Proof. apply (no_waiter_leak poll_opts poll_done); [discriminate|apply poll_done_reaches|reflexivity]. Defined.
