(* ===== verification/RedisStore.v ===== *)
(** The store of a relay with several replicas: internal/relay/redis_store.go.

    Redis runs one script at a time, so a script is a function on the database.
    A slot's hash is the record of its fields; a field that is not there is
    [None], or 0 for a time, which is how the scripts read it.  Times are unix
    milliseconds, exact as Lua numbers.  The connection may fail: [call]. *)
From S2P Require Import Prelude GoSort GoTime Tokens RelayTypes.

(** * The database *)

Record RHash := mkRHash {
  hKind : Kind;
  hState : State;
  hCt : option bytes;
  hCommitment : option string;
  hTa : option string;
  hTb : option string;
  hAgent : string;
  hCreated : Z;
  hExpires : Z;
  hUploaded : Z;
  hFetched : Z;
  hRevoked : Z;
}.

(** [rdTtl]: when the PEXPIRE of a slot's key takes it away. *)
Record RedisDB := mkRedisDB {
  rdSlots : gmap string RHash;
  rdTtl : gmap string Z;
  rdExpiry : gmap string Z;
  rdRemoval : gmap string Z;
  rdLive : Z;
  rdBytes : Z;
}.

Definition empty_db : RedisDB := mkRedisDB ∅ ∅ ∅ ∅ 0 0.

Definition with_slots (f : gmap string RHash → gmap string RHash) (db : RedisDB) : RedisDB :=
  mkRedisDB (f (rdSlots db)) (rdTtl db) (rdExpiry db) (rdRemoval db) (rdLive db) (rdBytes db).
Definition with_expiry (f : gmap string Z → gmap string Z) (db : RedisDB) : RedisDB :=
  mkRedisDB (rdSlots db) (rdTtl db) (f (rdExpiry db)) (rdRemoval db) (rdLive db) (rdBytes db).
Definition with_removal (f : gmap string Z → gmap string Z) (db : RedisDB) : RedisDB :=
  mkRedisDB (rdSlots db) (rdTtl db) (rdExpiry db) (f (rdRemoval db)) (rdLive db) (rdBytes db).
Definition incr_live (n : Z) (db : RedisDB) : RedisDB :=
  mkRedisDB (rdSlots db) (rdTtl db) (rdExpiry db) (rdRemoval db) (rdLive db + n) (rdBytes db).
Definition incr_bytes (n : Z) (db : RedisDB) : RedisDB :=
  mkRedisDB (rdSlots db) (rdTtl db) (rdExpiry db) (rdRemoval db) (rdLive db) (rdBytes db + n).
Definition pexpire (id : string) (at_ : Z) (db : RedisDB) : RedisDB :=
  mkRedisDB (rdSlots db) (<[id := at_]> (rdTtl db)) (rdExpiry db) (rdRemoval db) (rdLive db) (rdBytes db).

(** [DEL] *)
Definition del_slot (id : string) (db : RedisDB) : RedisDB :=
  mkRedisDB (delete id (rdSlots db)) (delete id (rdTtl db)) (rdExpiry db) (rdRemoval db) (rdLive db) (rdBytes db).

(** The server drops a key whose time is up, and only the key. *)
Definition evict (id : string) (db : RedisDB) : RedisDB := del_slot id db.

(** * The prelude of the scripts *)

Section script.
Context (now : Z) (id : string).

(** [HSTRLEN slot ct] *)
Definition ct_length (db : RedisDB) : Z :=
  match rdSlots db !! id with Some h => zlen (default [] (hCt h)) | None => 0 end.

Definition release (db : RedisDB) : RedisDB :=
  let n := ct_length db in
  let db := if 0 <? n then incr_bytes (- n) db else db in
  with_expiry (delete id) (incr_live (- 1) db).

(** The table a script works on. *)
Record LuaDrop := mkLuaDrop {
  lKind : Kind;
  lState : State;
  lCreated : Z;
  lExpires : Z;
  lUploaded : Z;
  lFetched : Z;
  lRevoked : Z;
  lCommitment : string;
  lTa : string;
  lTb : string;
}.

(** [HDEL] of the four fields, then [HSET] of the state and one time. *)
Definition tombstone_hash (state : State) (at_ : Z) (h : RHash) : RHash :=
  mkRHash (hKind h) state None None None None (hAgent h) (hCreated h) (hExpires h) (hUploaded h)
    (match state with StateFetched | StateOpened => at_ | _ => hFetched h end)
    (match state with StateRevoked => at_ | _ => hRevoked h end).

Definition tombstone_lua (d : LuaDrop) (state : State) (at_ : Z) : LuaDrop :=
  mkLuaDrop (lKind d) state (lCreated d) (lExpires d) (lUploaded d)
    (match state with StateFetched | StateOpened => at_ | _ => lFetched d end)
    (match state with StateRevoked => at_ | _ => lRevoked d end) "" "" "".

Definition tombstone_slot (state : State) (at_ : Z) (db : RedisDB) : RedisDB :=
  with_slots (alter (tombstone_hash state at_) id) db.

(** [HMGET] *)
Definition lua_of (h : RHash) : LuaDrop :=
  mkLuaDrop (hKind h) (hState h) (hCreated h) (hExpires h) (hUploaded h) (hFetched h) (hRevoked h)
    (default "" (hCommitment h)) (default "" (hTa h)) (default "" (hTb h)).

Definition script_get (db : RedisDB) : RedisDB * option LuaDrop :=
  match rdSlots db !! id with
  | None => (db, None)
  | Some h =>
      let d := lua_of h in
      if negb (Terminal (lState d)) && (lExpires d <=? now) then
        (tombstone_slot StateExpired 0 (release db), Some (tombstone_lua d StateExpired 0))
      else (db, Some d)
  end.

(** * The scripts *)

Inductive code := COk | CNotFound | CBadToken | CCommitment | CFull | CWrongKind | CState.

#[export] Instance code_eq_dec : EqDecision code.
Proof. solve_decision. Defined.

(** What a script returns: a code, and with some the table and a payload. *)
Record script_reply := mkReply { rCode : code; rTable : option (LuaDrop * bytes) }.

Definition just (c : code) : script_reply := mkReply c None.
Definition reply_with (c : code) (d : LuaDrop) (payload : bytes) : script_reply := mkReply c (Some (d, payload)).

(** A script that begins with [get]. *)
Definition with_slot (body : LuaDrop → RedisDB → RedisDB * script_reply) (db : RedisDB) : RedisDB * script_reply :=
  match script_get db with
  | (db, None) => (db, just CNotFound)
  | (db, Some d) => body d db
  end.

Definition slot_ct (db : RedisDB) : bytes :=
  match rdSlots db !! id with Some h => default [] (hCt h) | None => [] end.

Definition redisCreate (h : RHash) (ct : bytes) (maxLive maxBytes removeAt : Z) (db : RedisDB) : RedisDB * script_reply :=
  if bool_decide (is_Some (rdSlots db !! id)) then (db, just CFull)
  else
    let n := zlen ct in
    if (0 <? maxLive) && (maxLive <=? rdLive db) then (db, just CFull)
    else if (0 <? maxBytes) && (maxBytes <? rdBytes db + n) then (db, just CFull)
    else
      let db := with_slots (insert id h) db in
      let db := if 0 <? n then
                  incr_bytes n (with_slots (alter (λ h, mkRHash (hKind h) (hState h) (Some ct) (hCommitment h) (hTa h) (hTb h)
                    (hAgent h) (hCreated h) (hExpires h) (hUploaded h) (hFetched h) (hRevoked h)) id) db)
                else db in
      let db := incr_live 1 db in
      let db := with_expiry (insert id (hExpires h)) db in
      let db := with_removal (insert id removeAt) db in
      let ttl := if removeAt - now <? 1 then 1 else removeAt - now in
      (pexpire id (now + ttl) db, just COk).

Definition set_uploaded (ct : bytes) (h : RHash) : RHash :=
  mkRHash (hKind h) StateUploaded (Some ct) (hCommitment h) (hTa h) (hTb h) (hAgent h) (hCreated h) (hExpires h) now
    (hFetched h) (hRevoked h).

Definition redisUpload (token commitment : string) (ct : bytes) (maxBytes : Z) : RedisDB → RedisDB * script_reply :=
  with_slot (λ d db,
    if negb (bool_decide (lKind d = KindDrop)) then (db, just CWrongKind)
    else if Terminal (lState d) then (db, reply_with CState d [])
    else if negb (bool_decide (lTa d = token)) then (db, just CBadToken)
    else if negb (bool_decide (lState d = StateCreated)) then (db, reply_with CState d [])
    else if negb (bool_decide (lCommitment d = commitment)) then (db, just CCommitment)
    else
      let n := zlen ct in
      if (0 <? maxBytes) && (maxBytes <? rdBytes db + n) then (db, just CFull)
      else
        let db := with_slots (alter (set_uploaded ct) id) db in
        ((if 0 <? n then incr_bytes n db else db), just COk)).

Definition redisFetch (token : string) : RedisDB → RedisDB * script_reply :=
  with_slot (λ d db,
    if negb (bool_decide (lKind d = KindDrop)) then (db, just CWrongKind)
    else if Terminal (lState d) then (db, reply_with CState d [])
    else if negb (bool_decide (lTb d = token)) then (db, just CBadToken)
    else if negb (bool_decide (lState d = StateUploaded)) then (db, reply_with CState d [])
    else
      let ct := slot_ct db in
      (tombstone_slot StateFetched now (release db), reply_with COk (tombstone_lua d StateFetched now) ct)).

Definition redisOpen (token : string) : RedisDB → RedisDB * script_reply :=
  with_slot (λ d db,
    if negb (bool_decide (lKind d = KindReveal)) then (db, just CWrongKind)
    else if Terminal (lState d) then (db, reply_with CState d [])
    else if negb (bool_decide (lTa d = token)) then (db, just CBadToken)
    else
      let ct := slot_ct db in
      (tombstone_slot StateOpened now (release db), reply_with COk (tombstone_lua d StateOpened now) ct)).

Definition redisRevoke (token : string) : RedisDB → RedisDB * script_reply :=
  with_slot (λ d db,
    if Terminal (lState d) then (db, reply_with CState d [])
    else if negb (bool_decide (lTa d = token)) && negb (bool_decide (lTb d = token)) then (db, just CBadToken)
    else (tombstone_slot StateRevoked now (release db), just COk)).

Definition redisStatus : RedisDB → RedisDB * script_reply := with_slot (λ d db, (db, reply_with COk d [])).

(** The two scripts of the sweeper; [true] is their reply 1. *)
Definition redisExpire (db : RedisDB) : RedisDB * bool :=
  match rdSlots db !! id with
  | None => (with_expiry (delete id) db, false)
  | Some h =>
      if Terminal (hState h) then (with_expiry (delete id) db, false)
      else if now <? hExpires h then (db, false)
      else (tombstone_slot StateExpired 0 (release db), true)
  end.

Definition redisRemove (db : RedisDB) : RedisDB * bool :=
  let db := with_removal (delete id) db in
  match rdSlots db !! id with
  | None => (with_expiry (delete id) db, false)
  | Some h =>
      let db := if Terminal (hState h) then db else release db in
      (with_expiry (delete id) (del_slot id db), true)
  end.
End script.

(** * The store *)

(** [redisTime] and [redisMillis]: 0 stands for the zero time. *)
Definition redisTime (n : Z) : Time := if n =? 0 then zero_time else time_UnixMilli n.
Definition redisMillis (t : Time) : Z := if IsZero t then 0 else UnixMilli t.

Record Redis := mkRedis { rOpts : StoreOptions; rDB : RedisDB }.

Definition newRedis (o : StoreOptions) : Redis := mkRedis (withDefaults o) empty_db.

(** The slot in a reply; what is not in the reply is zero. *)
Definition reply_drop (id : string) (d : LuaDrop) : Drop :=
  mkDrop id (lKind d) (lState d) [] "" zero_hash zero_hash "" (redisTime (lCreated d)) (redisTime (lExpires d))
    (redisTime (lUploaded d)) (redisTime (lFetched d)) (redisTime (lRevoked d)).

(** A reply without the table leaves the zero [Drop]. *)
Definition zero_drop : Drop := mkDrop "" KindDrop StateEmpty [] "" zero_hash zero_hash "" 0 0 0 0 0.

Definition slot_result (id : string) (r : script_reply) : result store_error (Drop * bytes) :=
  let '(d, payload) := match rTable r with Some (d, p) => (reply_drop id d, p) | None => (zero_drop, []) end in
  match rCode r with
  | COk => Ok (d, payload)
  | CNotFound => Err ErrNotFound
  | CBadToken => Err ErrBadToken
  | CCommitment => Err ErrCommitment
  | CFull => Err ErrFull
  | CWrongKind => Err ErrWrongKind
  | CState => Err (stateError d)
  end.

(** [run] and [slot]: one script, with the clock of the store. *)
Definition redis_slot (ck : Clock) (id : string) (script : Z → string → RedisDB → RedisDB * script_reply) (r : Redis)
    : Redis * result store_error (Drop * bytes) :=
  let '(db, rep) := script (UnixMilli (ck 0%nat)) id (rDB r) in (mkRedis (rOpts r) db, slot_result id rep).

Definition map_ok {A B} (f : A → B) (p : Redis * result store_error A) : Redis * result store_error B :=
  (p.1, match p.2 with Ok a => Ok (f a) | Err e => Err e end).

(** The hash that [redisCreate] writes. *)
Definition create_hash (d : Drop) : RHash :=
  mkRHash (dKind d) (match dState d with StateEmpty => StateCreated | s => s end) None (Some (dCommitment d))
    (Some (hash_Encode (TokenA d))) (Some (hash_Encode (TokenB d))) (AgentKeyID d)
    (redisMillis (CreatedAt d)) (redisMillis (ExpiresAt d)) (redisMillis (UploadedAt d)) (redisMillis (FetchedAt d))
    (redisMillis (RevokedAt d)).

Definition redis_Create (ck : Clock) (d : Drop) (r : Redis) : Redis * result store_error unit :=
  let removeAt := Add (ExpiresAt d) (TombstoneGrace (rOpts r)) in
  map_ok (λ _, tt) (redis_slot ck (ID d) (λ now id,
    redisCreate now id (create_hash d) (Ciphertext d) (MaxLive (rOpts r)) (MaxBytes (rOpts r)) (redisMillis removeAt)) r).

Definition redis_Upload (ck : Clock) (id : string) (token : Hash) (commitment : string) (ct : bytes) (r : Redis)
    : Redis * result store_error unit :=
  map_ok (λ _, tt) (redis_slot ck id (λ now id, redisUpload now id (hash_Encode token) commitment ct (MaxBytes (rOpts r))) r).

Definition redis_Fetch (ck : Clock) (id : string) (token : Hash) (r : Redis) : Redis * result store_error (bytes * Time) :=
  map_ok (λ x, (x.2, UploadedAt x.1)) (redis_slot ck id (λ now id, redisFetch now id (hash_Encode token)) r).

Definition redis_Open (ck : Clock) (id : string) (token : Hash) (r : Redis) : Redis * result store_error (bytes * Time) :=
  map_ok (λ x, (x.2, CreatedAt x.1)) (redis_slot ck id (λ now id, redisOpen now id (hash_Encode token)) r).

Definition redis_Revoke (ck : Clock) (id : string) (token : Hash) (r : Redis) : Redis * result store_error unit :=
  map_ok (λ _, tt) (redis_slot ck id (λ now id, redisRevoke now id (hash_Encode token)) r).

Definition redis_Status (ck : Clock) (id : string) (r : Redis) : Redis * result store_error Status :=
  map_ok (λ x, status x.1) (redis_slot ck id redisStatus r).

(** ** Sweeping *)

(** [ZRANGEBYSCORE set -inf max LIMIT 0 count]: by score, then by name. *)
Definition by_score (x y : string * Z) : bool := (x.2 <? y.2) || ((x.2 =? y.2) && String.ltb x.1 y.1).

Definition zrange (set : gmap string Z) (max : Z) (count : nat) : list string :=
  take count (sort_stable by_score (filter (λ x, x.2 <= max) (map_to_list set))).*1.

Definition sweep_batch : nat := 256.

(** The inner loop: one script for every id, each with its own reading of the
    clock. *)
Fixpoint run_scripts (ck : Clock) (k : nat) (script : Z → string → RedisDB → RedisDB * bool) (ids : list string)
    (touched : Z) (db : RedisDB) : RedisDB * Z :=
  match ids with
  | [] => (db, touched)
  | id :: ids =>
      let '(db, one) := script (UnixMilli (ck k)) id db in
      run_scripts ck (S k) script ids (if one then touched + 1 else touched) db
  end.

(** The outer loop.  Every full round takes members from the set, so the size
    of the set is fuel enough. *)
Fixpoint sweepSet (fuel : nat) (ck : Clock) (k : nat) (which : RedisDB → gmap string Z) (now : Z)
    (script : Z → string → RedisDB → RedisDB * bool) (last : option string) (touched : Z) (db : RedisDB)
    : RedisDB * Z * nat :=
  match fuel with
  | O => (db, touched, k)
  | S fuel =>
      let ids := zrange (which db) now sweep_batch in
      if bool_decide (ids = []) || bool_decide (head ids = last) then (db, touched, k)
      else
        let '(db, touched) := run_scripts ck k script ids touched db in
        let k := (k + length ids)%nat in
        if (length ids <? sweep_batch)%nat then (db, touched, k)
        else sweepSet fuel ck k which now script (head ids) touched db
  end.

Definition redis_Sweep (ck : Clock) (r : Redis) : Redis * Z :=
  let now := UnixMilli (ck 0%nat) in
  let '(db, n, k) := sweepSet (S (size (rdExpiry (rDB r)))) ck 1 rdExpiry now redisExpire None 0 (rDB r) in
  let '(db, m, _) := sweepSet (S (size (rdRemoval db))) ck k rdRemoval now (λ _, redisRemove) None 0 db in
  (mkRedis (rOpts r) db, n + m).

Definition redis_Stats (r : Redis) : Stats :=
  mkStats (rdLive (rDB r)) (rdBytes (rDB r)) (Z.of_nat (size (rdRemoval (rDB r)))).

#[export] Instance redis_store : Store Redis := {
  Create := redis_Create; Upload := redis_Upload; Fetch := redis_Fetch; Open := redis_Open; Revoke := redis_Revoke;
  StatusOf := redis_Status; Sweep := redis_Sweep; StatsOf := redis_Stats }.

(** ** Waiting *)

(** What ends the [select] of a long poll, with the status read after it. *)
Inductive wait_event := WaitTick | WaitDeadline | WaitCancelled.

Record poll := mkPoll { poll_event : wait_event; poll_read : result store_error Status; poll_cancelled : option (result store_error Status) }.

(** [Wait]: [first] is the status at the start; after each event the slot is
    read again, and once more when that read failed and the caller's context
    had ended by then ([poll_cancelled]). *)
Fixpoint wait_loop (current : State) (polls : list poll) : option (result store_error Status) :=
  match polls with
  | [] => None
  | p :: polls =>
      match poll_event p with
      | WaitDeadline | WaitCancelled => Some (poll_read p)
      | WaitTick =>
          match poll_read p with
          | Err e => Some (match poll_cancelled p with Some r => r | None => Err e end)
          | Ok st => if bool_decide (sState st = current) then wait_loop current polls else Some (Ok st)
          end
      end
  end.

Definition redis_Wait (current : State) (timeout : Duration) (first : result store_error Status) (polls : list poll)
    : option (result store_error Status) :=
  match first with
  | Err e => Some (Err e)
  | Ok st =>
      if negb (bool_decide (sState st = current)) || (timeout <=? 0) then Some (Ok st) else wait_loop current polls
  end.

(** ** The connection *)

(** A call of the server is answered, is lost on the way, or is carried out
    and its answer lost. *)
Inductive delivery := Answered | LostBefore | LostAfter.

Definition call {A} (w : delivery) (f : Redis → Redis * A) (r : Redis) : Redis * option A :=
  match w with
  | Answered => let '(r, a) := f r in (r, Some a)
  | LostBefore => (r, None)
  | LostAfter => ((f r).1, None)
  end.

(** ** A sweep, call by call

    [redis_Sweep] is a sweep that nothing else falls into.  A sweep is many calls of
    the server, and those of requests and of other replicas run in between;
    each may get lost, which ends the loop over its set. *)
Inductive sweep_set := Expiring | Removing.

Inductive sweep_todo :=
  | AskMembers (last : option string)
  | RunScripts (first : string) (ids : list string) (full : bool).

Record Sweeper := mkSweeper { sw_now : Z; sw_set : sweep_set; sw_todo : sweep_todo; sw_touched : Z }.

Definition sweep_begin (now : Z) : Sweeper := mkSweeper now Expiring (AskMembers None) 0.

Definition set_of (set : sweep_set) : RedisDB → gmap string Z :=
  match set with Expiring => rdExpiry | Removing => rdRemoval end.

Definition script_of (set : sweep_set) : Z → string → RedisDB → RedisDB * bool :=
  match set with Expiring => redisExpire | Removing => λ _, redisRemove end.

(** [sweepSet] returns: on to the other set, or the sweep ends with its count. *)
Definition set_done (touched : Z) (sw : Sweeper) : Sweeper + Z :=
  match sw_set sw with
  | Expiring => inl (mkSweeper (sw_now sw) Removing (AskMembers None) touched)
  | Removing => inr touched
  end.

Definition go_on (todo : sweep_todo) (touched : Z) (sw : Sweeper) : Sweeper + Z :=
  inl (mkSweeper (sw_now sw) (sw_set sw) todo touched).

(** One call of a sweep; [at_] is the reading of the clock for it. *)
Definition sweep_call (w : delivery) (at_ : Z) (sw : Sweeper) (db : RedisDB) : RedisDB * (Sweeper + Z) :=
  let touched := sw_touched sw in
  match sw_todo sw with
  | AskMembers last =>
      (db,
       match w, zrange (set_of (sw_set sw) db) (sw_now sw) sweep_batch with
       | Answered, (first :: _) as ids =>
           if bool_decide (Some first = last) then set_done touched sw
           else go_on (RunScripts first ids (negb (length ids <? sweep_batch)%nat)) touched sw
       | _, _ => set_done touched sw
       end)
  | RunScripts first [] full =>
      (db, if full then go_on (AskMembers (Some first)) touched sw else set_done touched sw)
  | RunScripts first (id :: ids) full =>
      let '(db', one) := script_of (sw_set sw) at_ id db in
      match w with
      | LostBefore => (db, set_done touched sw)
      | LostAfter => (db', set_done touched sw)
      | Answered => (db', go_on (RunScripts first ids full) (if one then touched + 1 else touched) sw)
      end
  end.

(** ** Replicas

    Several replicas at one database, some of them in the middle of a sweep.
    The server carries out one step at a time; it also drops keys by itself,
    at a time [t] of its own clock. *)
Record Replicas := mkReplicas { rp_redis : Redis; rp_sweeps : gmap nat Sweeper }.

Definition newReplicas (o : StoreOptions) : Replicas := mkReplicas (newRedis o) ∅.

Inductive server_step :=
  | Called (w : delivery) (ck : Clock) (p : op)
  | SweepBegun (i : nat) (now : Z)
  | SweepCalled (i : nat) (w : delivery) (at_ : Z)
  | Evicted (id : string) (t : Z).

Definition set_db (db : RedisDB) (r : Redis) : Redis := mkRedis (rOpts r) db.

(** The reply is what comes back to the caller of an operation. *)
Definition serve (c : server_step) (s : Replicas) : Replicas * option reply :=
  let r := rp_redis s in
  match c with
  | Called w ck p => let '(r, got) := call w (run_op ck p) r in (mkReplicas r (rp_sweeps s), got)
  | SweepBegun i now => (mkReplicas r (<[i := sweep_begin now]> (rp_sweeps s)), None)
  | SweepCalled i w at_ =>
      match rp_sweeps s !! i with
      | None => (s, None)
      | Some sw =>
          let '(db, next) := sweep_call w at_ sw (rDB r) in
          (mkReplicas (set_db db r) (match next with inl sw' => <[i := sw']> (rp_sweeps s) | inr _ => delete i (rp_sweeps s) end), None)
      end
  | Evicted id t =>
      (match rdTtl (rDB r) !! id with
       | Some ttl => if ttl <=? t then mkReplicas (set_db (evict id (rDB r)) r) (rp_sweeps s) else s
       | None => s
       end, None)
  end.
