(* ===== verification/RedisInv.v ===== *)
(** The Redis store does what the abstract store does when time is read in
    whole milliseconds: its invariant, the slot that a hash stands for, and one
    simulation for every operation but the sweep. *)
From S2P Require Import Prelude Tokens GoTime RelayTypes StoreSpec StoreHistory Memory MemoryInv RedisStore.

(** * The database and its slots *)

Definition hash_live (h : RHash) : bool := negb (Terminal (hState h)).
Definition hash_occupied (h : RHash) : Z := if hash_live h then 1 else 0.
Definition hash_held (h : RHash) : Z := zlen (default [] (hCt h)).
Definition due (h : RHash) : option Z := if hash_live h then Some (hExpires h) else None.

(** The counters and the sorted sets say what the slots say; [g] is the grace
    period in milliseconds. *)
Record db_ok (g : Z) (db : RedisDB) : Prop := {
  ok_expiry : rdExpiry db = omap due (rdSlots db);
  ok_removal : rdRemoval db = omap (λ h, Some (hExpires h + g)) (rdSlots db);
  ok_live : rdLive db = map_sum hash_occupied (rdSlots db);
  ok_bytes : rdBytes db = map_sum hash_held (rdSlots db);
}.

Lemma empty_db_ok g : db_ok g empty_db.
Proof. split; simpl; by rewrite ?omap_empty, ?map_sum_empty. Qed.

(** Changing one slot, with what it changes of the counters and the set. *)
Lemma replace_ok g db db' id h h' :
  db_ok g db → rdSlots db !! id = Some h →
  rdSlots db' = <[id := h']> (rdSlots db) → hExpires h' = hExpires h →
  rdExpiry db' = partial_alter (λ _, due h') id (rdExpiry db) → rdRemoval db' = rdRemoval db →
  rdLive db' = rdLive db + hash_occupied h' - hash_occupied h →
  rdBytes db' = rdBytes db + hash_held h' - hash_held h →
  db_ok g db'.
Proof.
  intros [H1 H2 H3 H4] Hh Hs He Hx Hr Hl Hb. split; rewrite Hs.
  - rewrite Hx, H1. apply map_eq. intros j. rewrite lookup_omap. destruct (decide (j = id)) as [->|Hj].
    + by rewrite lookup_partial_alter_eq, lookup_insert_eq.
    + by rewrite lookup_partial_alter_ne, lookup_insert_ne, lookup_omap by done.
  - rewrite Hr, H2. apply map_eq. intros j. rewrite !lookup_omap. destruct (decide (j = id)) as [->|Hj].
    + rewrite lookup_insert_eq, Hh. simpl. by rewrite He.
    + by rewrite lookup_insert_ne by done.
  - rewrite Hl, H3, (map_sum_update _ _ _ _ _ Hh). lia.
  - rewrite Hb, H4, (map_sum_update _ _ _ _ _ Hh). lia.
Qed.

(** A new live slot. *)
Lemma new_slot_ok g db db' id h :
  db_ok g db → rdSlots db !! id = None → hash_live h = true → rdSlots db' = <[id := h]> (rdSlots db) →
  rdExpiry db' = <[id := hExpires h]> (rdExpiry db) → rdRemoval db' = <[id := hExpires h + g]> (rdRemoval db) →
  rdLive db' = rdLive db + 1 → rdBytes db' = rdBytes db + hash_held h →
  db_ok g db'.
Proof.
  intros [H1 H2 H3 H4] Hn Hl Hs Hx Hr Hv Hb. split; rewrite Hs.
  - rewrite Hx, H1. symmetry. apply omap_insert_Some. unfold due. by rewrite Hl.
  - rewrite Hr, H2. symmetry. by apply omap_insert_Some.
  - rewrite Hv, H3, map_sum_insert_new by done.
    assert (hash_occupied h = 1) as -> by (unfold hash_occupied; by rewrite Hl). lia.
  - rewrite Hb, H4, map_sum_insert_new by done. lia.
Qed.

Lemma alter_known (f : RHash → RHash) (m : gmap string RHash) id h :
  m !! id = Some h → alter f id m = <[id := f h]> m.
Proof.
  intros Hh. apply map_eq. intros j. destruct (decide (j = id)) as [->|Hj].
  - by rewrite lookup_alter_eq, lookup_insert_eq, Hh.
  - by rewrite lookup_alter_ne, lookup_insert_ne.
Qed.

(** [release] and then [tombstone] on a live slot. *)
Lemma finish_ok g db id h st at_ :
  db_ok g db → rdSlots db !! id = Some h → hash_live h = true → Terminal st = true →
  db_ok g (tombstone_slot id st at_ (release id db)) ∧
  rdSlots (tombstone_slot id st at_ (release id db)) = <[id := tombstone_hash st at_ h]> (rdSlots db).
Proof.
  intros Hok Hh Hl Hst. unfold tombstone_slot, release, ct_length. rewrite Hh. fold (hash_held h).
  assert (rdSlots (if 0 <? hash_held h then incr_bytes (- hash_held h) db else db) = rdSlots db) as Es by by case_match.
  simpl. rewrite Es, (alter_known _ _ _ _ Hh). split; [|done].
  apply (replace_ok g db _ id h (tombstone_hash st at_ h)); simpl; rewrite ?Es, ?(alter_known _ _ _ _ Hh); try done.
  - unfold due, hash_live. simpl. rewrite Hst. simpl. unfold delete, map_delete. by case_match.
  - by case_match.
  - unfold hash_occupied, hash_live in *. simpl. rewrite Hst, Hl. simpl. case_match; simpl; lia.
  - assert (hash_held (tombstone_hash st at_ h) = 0) as -> by done. pose proof (zlen_nonneg (default [] (hCt h))).
    unfold hash_held in *. destruct (Z.ltb_spec 0 (zlen (default [] (hCt h)))); simpl; lia.
Qed.

(** * A hash and the slot it stands for *)

Record slot_rel (id : string) (h : RHash) (d : Drop) : Prop := {
  rel_wf : wf_slot d;
  rel_shown : status d = status (reply_drop id (lua_of h));
  rel_due : 1 <= hExpires h;
  rel_ct : default [] (hCt h) = Ciphertext d;
  rel_secret : live d = true →
    hCommitment h = Some (dCommitment d) ∧
    hTa h = Some (hash_Encode (TokenA d)) ∧ hTb h = Some (hash_Encode (TokenB d));
}.

(** What Redis keeps of a time. *)
Definition ms (t : Time) : Time := redisTime (redisMillis t).

Lemma redisTime_pos n : 1 <= n → redisTime n = time_UnixMilli n.
Proof. intros Hn. unfold redisTime. by case_bool_decide || (destruct (Z.eqb_spec n 0); [lia|]). Qed.

Lemma time_UnixMilli_le a b : (time_UnixMilli a <=? time_UnixMilli b) = (a <=? b).
Proof. unfold time_UnixMilli, Millisecond. destruct (Z.leb_spec a b), (Z.leb_spec (unix_epoch + a * 1000000) (unix_epoch + b * 1000000)); done || lia. Qed.

Section slots.
Context (id : string) (h : RHash) (d : Drop) (Hrel : slot_rel id h d).

Lemma rel_ID : ID d = id.
Proof using Hrel. exact (f_equal sID (rel_shown _ _ _ Hrel)). Qed.
Lemma rel_kind : dKind d = hKind h.
Proof using Hrel. exact (f_equal sKind (rel_shown _ _ _ Hrel)). Qed.
Lemma rel_state : dState d = hState h.
Proof using Hrel. exact (f_equal sState (rel_shown _ _ _ Hrel)). Qed.
Lemma rel_expires : ExpiresAt d = time_UnixMilli (hExpires h).
Proof using Hrel.
  rewrite <- redisTime_pos by apply Hrel. exact (f_equal sExpiresAt (rel_shown _ _ _ Hrel)).
Qed.
Lemma rel_live : live d = hash_live h.
Proof using Hrel. unfold live, hash_live. by rewrite rel_state. Qed.

(** The state in an answer is the slot's. *)
Lemma rel_stateError : stateError (reply_drop id (lua_of h)) = stateError d.
Proof using Hrel.
  pose proof (rel_shown _ _ _ Hrel) as Hs. unfold status in Hs. injection Hs as _ _ E3 E4 E5 E6 E7 E8.
  unfold stateError. simpl in *. rewrite <- E3. destruct (dState d); congruence.
Qed.

Lemma rel_tombstone st at_ t :
  Terminal st = true →
  (match st with StateFetched => dKind d = KindDrop | StateOpened => dKind d = KindReveal | _ => True end) →
  (match st with StateFetched | StateOpened | StateRevoked => t = redisTime at_ | _ => True end) →
  slot_rel id (tombstone_hash st at_ h) (tombstone d st t).
Proof using Hrel.
  intros Hst Hk Ht. destruct Hrel as [Hw Hs Hd Hc Hx]. unfold status in Hs. injection Hs as E1 E2 E3 E4 E5 E6 E7 E8.
  split; simpl; try done.
  - unfold wf_slot in *. simpl. unfold is_tombstone. destruct st; naive_solver.
  - unfold status. simpl. rewrite E1, E2, E4, E5, E6. destruct st; try done; simpl in *; congruence.
  - unfold live. simpl. by rewrite Hst.
Qed.
End slots.

(** * The operations on one slot *)

Section store.
Context (g : Z).

Record sim_db (db : RedisDB) (m : gmap string Drop) : Prop := {
  sim_ok : db_ok g db;
  sim_slots : ∀ id, option_Forall2 (slot_rel id) (rdSlots db !! id) (m !! id);
}.

Lemma sim_cases db m id :
  sim_db db m →
  (rdSlots db !! id = None ∧ m !! id = None) ∨
  (∃ h d, rdSlots db !! id = Some h ∧ m !! id = Some d ∧ slot_rel id h d).
Proof. intros [_ Hs]. destruct (Hs id); [right; by eauto|by left]. Qed.

Lemma sim_sum (f : RHash → Z) (f' : Drop → Z) db m :
  sim_db db m → (∀ id h d, slot_rel id h d → f h = f' d) → map_sum f (rdSlots db) = map_sum f' m.
Proof.
  intros [_ Hs] Hf. revert m Hs. generalize (rdSlots db) as hs. clear db.
  induction hs as [|id h hs Hid IH] using map_ind; intros m Hs.
  - assert (m = ∅) as ->; [|by rewrite !map_sum_empty].
    apply map_empty. intros j. specialize (Hs j). rewrite lookup_empty in Hs. by inversion Hs.
  - pose proof (Hs id) as Hi. rewrite lookup_insert_eq in Hi. inversion Hi as [? d Hr Hh Hm|]; subst.
    rewrite map_sum_insert_new by done. rewrite (IH (delete id m)).
    + rewrite (map_sum_delete _ _ _ _ (eq_sym Hm)), (Hf _ _ _ Hr). lia.
    + intros j. destruct (decide (j = id)) as [->|Hj].
      * rewrite lookup_delete_eq, Hid. constructor.
      * specialize (Hs j). rewrite lookup_insert_ne in Hs by done. by rewrite lookup_delete_ne by done.
Qed.

Lemma sim_live db m : sim_db db m → rdLive db = live_count m.
Proof.
  intros Hs. rewrite (ok_live _ _ (sim_ok _ _ Hs)). apply sim_sum; [done|].
  intros id h d Hr. unfold hash_occupied, occupied. by rewrite (rel_live _ _ _ Hr).
Qed.

Lemma sim_bytes db m : sim_db db m → rdBytes db = held_bytes m.
Proof.
  intros Hs. rewrite (ok_bytes _ _ (sim_ok _ _ Hs)). apply sim_sum; [done|].
  intros id h d Hr. unfold hash_held, held. by rewrite (rel_ct _ _ _ Hr).
Qed.

Lemma sim_insert db db' m id h d :
  sim_db db m → db_ok g db' → rdSlots db' = <[id := h]> (rdSlots db) → slot_rel id h d → sim_db db' (<[id := d]> m).
Proof.
  intros Hs Hok Hi Hr. split; [done|]. intros j. rewrite Hi. destruct (decide (j = id)) as [->|Hj].
  - rewrite !lookup_insert_eq. by constructor.
  - rewrite !lookup_insert_ne by done. apply Hs.
Qed.

(** [get] is [observe]. *)
Lemma get_sim now db id h d :
  db_ok g db → rdSlots db !! id = Some h → slot_rel id h d →
  ∃ db1 h1, script_get now id db = (db1, Some (lua_of h1)) ∧ db_ok g db1 ∧ rdSlots db1 = <[id := h1]> (rdSlots db) ∧
    slot_rel id h1 (observe (time_UnixMilli now) d) ∧ (live (observe (time_UnixMilli now) d) = true → db1 = db).
Proof.
  intros Hok Hh Hr. unfold script_get, observe. rewrite Hh. simpl. fold (hash_live h).
  rewrite (rel_expires _ _ _ Hr), time_UnixMilli_le, (rel_live _ _ _ Hr).
  destruct (hash_live h && (hExpires h <=? now)) eqn:E.
  - breflect. destruct (finish_ok g db id h StateExpired 0 Hok Hh) as [Hok1 Hs1]; [done..|].
    eexists _, (tombstone_hash StateExpired 0 h). split_and!; [done..| |done].
    by apply rel_tombstone.
  - eexists _, h. split_and!; [done..| |done|done]. by rewrite insert_id.
Qed.

(** What follows [get] does what the abstract operation does to the slot. *)
Definition kept {A B} (k : A → B) (r : result store_error A) : result store_error B :=
  match r with Ok a => Ok (k a) | Err e => Err e end.

Definition body_sim {A} (k : Drop * bytes → A) (id : string) (db : RedisDB) (p : RedisDB * script_reply) (q : Drop * result store_error A) : Prop :=
  db_ok g p.1 ∧ (∃ h', rdSlots p.1 = <[id := h']> (rdSlots db) ∧ slot_rel id h' q.1) ∧ kept k (slot_result id p.2) = q.2.

Record sim (r : Redis) (s : SpecStore) : Prop := {
  sim_opts : rOpts r = sp_opts s;
  sim_grace : TombstoneGrace (rOpts r) = g * Millisecond;
  sim_data : sim_db (rDB r) (slots s);
}.

Definition sim_step {A} (p : Redis * A) (q : SpecStore * A) : Prop := p.2 = q.2 ∧ sim p.1 q.1.

Lemma addressed_sim {A} (k : Drop * bytes → A) (ck : Clock) id (body : Z → string → LuaDrop → RedisDB → RedisDB * script_reply)
    (f : Drop → outcome A) r s :
  sim r s →
  (∀ h d db, db_ok g db → rdSlots db !! id = Some h → slot_rel id h d → (live d = true → rdBytes db = held_bytes (slots s)) →
    body_sim k id db (body (UnixMilli (ck 0%nat)) id (lua_of h) db) (f d)) →
  sim_step (map_ok k (redis_slot ck id (λ now id, with_slot now id (body now id)) r))
    (on_slot (time_UnixMilli (UnixMilli (ck 0%nat))) id f s).
Proof.
  intros [Ho Hg Hs] Hbody. unfold sim_step, on_slot, redis_slot, with_slot, map_ok.
  destruct (sim_cases _ _ id Hs) as [[Hh Hd]|(h & d & Hh & Hd & Hr)].
  - unfold script_get. rewrite Hh, Hd. done.
  - destruct (get_sim (UnixMilli (ck 0%nat)) _ id h d (sim_ok _ _ Hs) Hh Hr) as (db1 & h1 & -> & Hok1 & Hs1 & Hr1 & Hl1).
    rewrite Hd. destruct (Hbody h1 (observe (time_UnixMilli (UnixMilli (ck 0%nat))) d) db1) as (Hok2 & (h2 & Hs2 & Hr2) & Hres); [done| |done| |].
    + by rewrite Hs1, lookup_insert_eq.
    + intros ->%Hl1. by apply sim_bytes.
    + destruct (body _ _ _ _) as [db2 rep], (f _) as [d2 res]. simpl in *. split; [done|].
      split; simpl; [done..|]. eapply sim_insert; [done..| |done]. by rewrite Hs2, Hs1, insert_insert_eq.
Qed.

(** ** The bodies of the scripts *)

Lemma body_refused_sim {A} (k : Drop * bytes → A) id db rep h d e :
  db_ok g db → rdSlots db !! id = Some h → slot_rel id h d → slot_result id rep = Err e →
  body_sim k id db (db, rep) (d, Err e).
Proof.
  intros Hok Hh Hr He. split; [done|]. split; [|simpl; by rewrite He]. exists h. split; [|done]. simpl. by rewrite insert_id.
Qed.

Lemma body_finished_sim {A} (k : Drop * bytes → A) id db rep h d st at_ t a :
  db_ok g db → rdSlots db !! id = Some h → slot_rel id h d → live d = true → Terminal st = true →
  (match st with StateFetched => dKind d = KindDrop | StateOpened => dKind d = KindReveal | _ => True end) →
  (match st with StateFetched | StateOpened | StateRevoked => t = redisTime at_ | _ => True end) →
  kept k (slot_result id rep) = Ok a →
  body_sim k id db (tombstone_slot id st at_ (release id db), rep) (tombstone d st t, Ok a).
Proof.
  intros Hok Hh Hr Hl Hst Hk Ht Ha. rewrite (rel_live _ _ _ Hr) in Hl.
  destruct (finish_ok g db id h st at_) as [Hok' Hs']; [done..|]. split; [done|]. split; [|done].
  exists (tombstone_hash st at_ h). split; [done|]. by apply rel_tombstone.
Qed.

Lemma rel_tokenA id h d tok :
  slot_rel id h d → live d = true → bool_decide (default "" (hTa h) = hash_Encode tok) = bool_decide (TokenA d = tok).
Proof.
  intros Hr Hl. destruct (rel_secret _ _ _ Hr Hl) as (_ & -> & _). simpl.
  apply bool_decide_ext. split; [apply EncodeToString_inj|congruence].
Qed.

Lemma rel_tokenB id h d tok :
  slot_rel id h d → live d = true → bool_decide (default "" (hTb h) = hash_Encode tok) = bool_decide (TokenB d = tok).
Proof.
  intros Hr Hl. destruct (rel_secret _ _ _ Hr Hl) as (_ & _ & ->). simpl.
  apply bool_decide_ext. split; [apply EncodeToString_inj|congruence].
Qed.

Lemma rel_commitment id h d com :
  slot_rel id h d → live d = true → bool_decide (default "" (hCommitment h) = com) = bool_decide (dCommitment d = com).
Proof. intros Hr Hl. by destruct (rel_secret _ _ _ Hr Hl) as (-> & _). Qed.

(** The guards of a script are those of the abstract operation; refused
    branches are closed at once. *)
Ltac script_guards Hr :=
  unfold refuse; rewrite ?decide_guard_and, ?decide_guard; rewrite ?(rel_kind _ _ _ Hr), ?(rel_state _ _ _ Hr); simpl;
  repeat (match goal with
  | |- context [if negb (bool_decide (hKind _ = ?b)) then _ else _] => destruct (bool_decide (hKind _ = b)) eqn:?; simpl
  | |- context [if Terminal ?s then _ else _] => destruct (Terminal s) eqn:?; simpl;
      [|match type of Hr with slot_rel _ _ ?d => let Hl := fresh "Hlive" in
          assert (live d = true) as Hl by (rewrite (rel_live _ _ _ Hr); by apply negb_true_iff);
          rewrite ?(rel_tokenA _ _ _ _ Hr Hl), ?(rel_tokenB _ _ _ _ Hr Hl), ?(rel_commitment _ _ _ _ Hr Hl) end]
  | |- context [if negb (bool_decide ?P) then _ else _] => destruct (bool_decide P) eqn:?; simpl
  | |- context [if negb (bool_decide ?P) && negb (bool_decide ?Q) then _ else _] =>
      destruct (bool_decide P) eqn:?, (bool_decide Q) eqn:?; simpl
  end;
  try (eapply body_refused_sim; [done..|]; simpl; unfold slot_result; simpl; by rewrite ?(rel_stateError _ _ _ Hr)));
  breflect.

Context (ck : Clock) (Hck : 1 <= UnixMilli (ck 0%nat)).
Abbreviation msck := (still (time_UnixMilli (UnixMilli (ck 0%nat)))).

Lemma slot_ct_rel id h d db : rdSlots db !! id = Some h → slot_rel id h d → slot_ct id db = Ciphertext d.
Proof. intros Hh Hr. unfold slot_ct. rewrite Hh. apply Hr. Qed.

Lemma fetch_sim id tok r s : sim r s → sim_step (redis_Fetch ck id tok r) (spec_fetch msck id tok s).
Proof using Hck.
  intros Hs. unfold redis_Fetch, redisFetch. apply addressed_sim; [done|]. intros h d db Hok Hh Hr _.
  unfold slot_fetch. script_guards Hr. eapply body_finished_sim; [done..| | |].
  - by rewrite (rel_kind _ _ _ Hr).
  - by rewrite redisTime_pos.
  - simpl. rewrite (slot_ct_rel _ _ _ _ Hh Hr). by rewrite (f_equal sUploadedAt (rel_shown _ _ _ Hr) : UploadedAt d = _).
Qed.

Lemma open_sim id tok r s : sim r s → sim_step (redis_Open ck id tok r) (spec_open msck id tok s).
Proof using Hck.
  intros Hs. unfold redis_Open, redisOpen. apply addressed_sim; [done|]. intros h d db Hok Hh Hr _.
  unfold slot_open. script_guards Hr. eapply body_finished_sim; [done..| | |].
  - by rewrite (rel_kind _ _ _ Hr).
  - by rewrite redisTime_pos.
  - simpl. rewrite (slot_ct_rel _ _ _ _ Hh Hr). by rewrite (f_equal sCreatedAt (rel_shown _ _ _ Hr) : CreatedAt d = _).
Qed.

Lemma revoke_sim id tok r s : sim r s → sim_step (redis_Revoke ck id tok r) (spec_revoke msck id tok s).
Proof using Hck.
  intros Hs. unfold redis_Revoke, redisRevoke. apply addressed_sim; [done|]. intros h d db Hok Hh Hr _.
  unfold slot_revoke. script_guards Hr.
  all: by eapply body_finished_sim; try done; rewrite redisTime_pos.
Qed.

Lemma status_sim id r s : sim r s → sim_step (redis_Status ck id r) (spec_status msck id s).
Proof.
  intros Hs. unfold redis_Status, redisStatus. apply addressed_sim; [done|]. intros h d db Hok Hh Hr _.
  split; [done|]. split; [exists h; simpl; by rewrite insert_id|]. simpl. by rewrite (rel_shown _ _ _ Hr).
Qed.

(** The upload itself. *)
Lemma store_upload id ct h d db :
  db_ok g db → rdSlots db !! id = Some h → slot_rel id h d → hKind h = KindDrop → hState h = StateCreated → live d = true →
  let db' := with_slots (alter (set_uploaded (UnixMilli (ck 0%nat)) ct) id) db in
  body_sim (λ _, tt) id db ((if 0 <? zlen ct then incr_bytes (zlen ct) db' else db'), just COk)
    (uploaded d ct (msck 1%nat), Ok tt).
Proof using Hck.
  intros Hok Hh Hr Hk Hst Hl db'. set (h' := set_uploaded (UnixMilli (ck 0%nat)) ct h).
  assert (rdSlots db' = <[id := h']> (rdSlots db)) as Hs' by by apply alter_known.
  assert (hash_held h = 0) as Hnone.
  { unfold hash_held. rewrite (rel_ct _ _ _ Hr). pose proof (rel_wf _ _ _ Hr) as Hw. unfold wf_slot in Hw.
    rewrite (rel_state _ _ _ Hr), Hst in Hw. rewrite Hw; [done|]. by rewrite (rel_kind _ _ _ Hr). }
  split; [|split; [|done]].
  - apply (replace_ok g db _ id h h'); try done; try (by case_match).
    + match goal with |- ?x = _ => replace x with (rdExpiry db) by by case_match end.
      rewrite (ok_expiry _ _ Hok). apply map_eq. intros j. destruct (decide (j = id)) as [->|Hj].
      * rewrite lookup_partial_alter_eq, lookup_omap, Hh. simpl. unfold due, hash_live. by rewrite Hst.
      * by rewrite lookup_partial_alter_ne by done.
    + unfold hash_occupied, hash_live. rewrite Hst. simpl. case_match; simpl; lia.
    + rewrite Hnone. unfold hash_held. simpl. pose proof (zlen_nonneg ct). destruct (Z.ltb_spec 0 (zlen ct)); simpl; lia.
  - exists h'. split; [by case_match|]. assert (wf_slot (uploaded d ct (msck 1%nat))) as Hw'.
    { unfold wf_slot. simpl. by rewrite (rel_kind _ _ _ Hr). }
    destruct Hr as [Hw Hs Hd Hc Hx]. split; try done; [|by intros _; apply Hx].
    unfold status in *. injection Hs as E1 E2 E3 E4 E5 E6 E7 E8. simpl. rewrite E1, E2, E4, E5, E7, E8.
    by rewrite (redisTime_pos (UnixMilli (ck 0%nat))).
Qed.

Lemma upload_sim id tok com ct r s : sim r s → sim_step (redis_Upload ck id tok com ct r) (spec_upload msck id tok com ct s).
Proof using Hck.
  intros Hs. unfold redis_Upload, redisUpload. apply addressed_sim; [done|]. intros h d db Hok Hh Hr Hb.
  unfold slot_upload. script_guards Hr. rewrite room_below, (sim_opts _ _ Hs), (Hb Hlive).
  destruct (below _ _); simpl; [|by eapply body_refused_sim]. by eapply store_upload.
Qed.

(** ** Create *)

(** A slot with the times that Redis keeps. *)
Definition ms_drop (d : Drop) : Drop :=
  mkDrop (ID d) (dKind d) (dState d) (Ciphertext d) (dCommitment d) (TokenA d) (TokenB d) (AgentKeyID d)
    (ms (CreatedAt d)) (ms (ExpiresAt d)) (ms (UploadedAt d)) (ms (FetchedAt d)) (ms (RevokedAt d)).

Lemma after_epoch t : 1 <= UnixMilli t → redisMillis t = UnixMilli t.
Proof.
  intros Ht. unfold redisMillis, IsZero. destruct (Z.eqb_spec t zero_time) as [->|]; [|done].
  unfold UnixMilli, zero_time, unix_epoch, Second, Millisecond in Ht. lia.
Qed.

Lemma removal_time t : 1 <= UnixMilli t → 0 <= g → redisMillis (Add t (g * Millisecond)) = redisMillis t + g.
Proof.
  intros Ht Hg. assert (UnixMilli (Add t (g * Millisecond)) = UnixMilli t + g) as E.
  { unfold UnixMilli, Add, Millisecond. replace (t + g * 1000000 - unix_epoch) with (t - unix_epoch + g * 1000000) by lia.
    by rewrite Z.div_add. }
  rewrite !after_epoch, E; lia.
Qed.

(** What [redisCreate] leaves of the hash and the ciphertext it gets. *)
Definition stored_hash (d : Drop) : RHash :=
  let h := create_hash d in
  if 0 <? zlen (Ciphertext d) then
    mkRHash (hKind h) (hState h) (Some (Ciphertext d)) (hCommitment h) (hTa h) (hTb h) (hAgent h) (hCreated h)
      (hExpires h) (hUploaded h) (hFetched h) (hRevoked h)
  else h.

Lemma stored_rel d :
  create_ok d → 1 <= UnixMilli (ExpiresAt d) →
  slot_rel (ID d) (stored_hash d) (with_default_state (ms_drop d)).
Proof.
  intros Hok He. assert (create_ok (ms_drop d)) as Hw%wf_created by done.
  assert (default [] (hCt (stored_hash d)) = Ciphertext d) as Hc.
  { unfold stored_hash. destruct (Z.ltb_spec 0 (zlen (Ciphertext d))) as [|Hz]; [done|].
    destruct (Ciphertext d); [done|]. rewrite zlen_cons in Hz. pose proof (zlen_nonneg l). lia. }
  split; [done| | | |].
  - destruct Hok as [[E|E] _]; unfold stored_hash, create_hash, with_default_state, status; simpl; rewrite E;
      by destruct (0 <? _); simpl; rewrite ?E.
  - rewrite <- (after_epoch _ He) in He. unfold stored_hash. by destruct (0 <? _).
  - rewrite Hc. by destruct Hok as [[E|E] _]; unfold with_default_state; simpl; rewrite E.
  - intros _. by destruct Hok as [[E|E] _]; unfold stored_hash, with_default_state; simpl; rewrite E; destruct (0 <? _).
Qed.

Lemma create_sim d r s :
  0 <= g → create_ok d → 1 <= UnixMilli (ExpiresAt d) → sim r s →
  sim_step (redis_Create ck d r) (spec_create msck (ms_drop d) s).
Proof.
  intros Hg Hok He [Ho Hgr Hs]. unfold redis_Create, spec_create, redis_slot, redisCreate. simpl.
  rewrite below_live, room_below, (sim_live _ _ Hs), (sim_bytes _ _ Hs), <- Ho.
  change (held (ms_drop d)) with (zlen (Ciphertext d)).
  assert (is_Some (slots s !! ID d) ↔ is_Some (rdSlots (rDB r) !! ID d)) as Hfresh.
  { destruct (sim_cases _ _ (ID d) Hs) as [[-> ->]|(h & d' & -> & -> & _)]; [done|by split; eauto]. }
  case_bool_decide as Hd; [by rewrite decide_True by tauto|]. rewrite decide_False by tauto.
  do 2 (destruct (below _ _); simpl; [|done]). split; [done|]. split; [done..|]. cbn [rDB slots].
  assert (rdSlots (rDB r) !! ID d = None) as Hn by by apply eq_None_not_Some.
  match goal with |- sim_db ?x _ => set (db' := x) end.
  assert (rdSlots db' = <[ID d := stored_hash d]> (rdSlots (rDB r))) as Hslots.
  { unfold db', stored_hash. simpl. destruct (0 <? zlen (Ciphertext d)); simpl; [|done].
    rewrite (alter_known _ _ _ (create_hash d)) by apply lookup_insert_eq. by rewrite insert_insert_eq. }
  assert (rdBytes db' = rdBytes (rDB r) + hash_held (stored_hash d)) as Hbytes.
  { unfold hash_held. rewrite (rel_ct _ _ _ (stored_rel d Hok He)). unfold db'. simpl. pose proof (zlen_nonneg (Ciphertext d)).
    assert (Ciphertext (with_default_state (ms_drop d)) = Ciphertext d) as ->.
    { unfold with_default_state. by case_match. }
    destruct (Z.ltb_spec 0 (zlen (Ciphertext d))); simpl; lia. }
  assert (hExpires (stored_hash d) = redisMillis (ExpiresAt d)) as Hexp by (unfold stored_hash; by case_match).
  eapply sim_insert; [exact Hs| |exact Hslots|by apply stored_rel].
  apply (new_slot_ok g (rDB r) _ (ID d) (stored_hash d)); [apply Hs|done| |done| | | |done]; rewrite ?Hexp.
  - rewrite <- (rel_live _ _ _ (stored_rel d Hok He)). destruct Hok as [[E|E] _]; unfold with_default_state, live; simpl; rewrite E; simpl; by rewrite ?E.
  - unfold db'. simpl. by case_match.
  - unfold db'. simpl. rewrite Hgr, removal_time by done. by case_match.
  - unfold db'. simpl. by case_match.
Qed.
End store.
