(* ===== verification/RedisProps.v ===== *)
(** The sweep of the Redis store: each of its two loops runs one script on
    every member that is due and then stops, and together they do what the
    abstract sweep does. *)
From S2P Require Import Prelude Tokens GoTime GoSort RelayTypes StoreSpec StoreHistory RedisStore RedisInv Memory MemoryInv MemoryProps.

(** * What is due *)

Definition due_set (now : Z) (set : gmap string Z) : gmap string Z := filter (λ x, x.2 <= now) set.

Lemma due_lookup now set id v : due_set now set !! id = Some v ↔ set !! id = Some v ∧ v <= now.
Proof. unfold due_set. by rewrite map_lookup_filter_Some. Qed.

Lemma due_delete now set id : due_set now (delete id set) = delete id (due_set now set).
Proof. unfold due_set. by rewrite map_filter_delete. Qed.

(** The members that [ZRANGEBYSCORE] names. *)
Definition named (now : Z) (set : gmap string Z) : list string :=
  (sort_stable by_score (filter (λ x, x.2 <= now) (map_to_list set))).*1.

Lemma named_due now set id : id ∈ named now set ↔ is_Some (due_set now set !! id).
Proof.
  unfold named. rewrite list_elem_of_fmap. split.
  - intros ([i v] & -> & Hx). apply elem_of_sort_stable, list_elem_of_filter in Hx as [Hv Hx%elem_of_map_to_list].
    exists v. by apply due_lookup.
  - intros [v [Hs Hv]%due_lookup]. exists (id, v). split; [done|].
    apply elem_of_sort_stable, list_elem_of_filter. split; [done|]. by apply elem_of_map_to_list.
Qed.

Lemma named_NoDup now set : NoDup (named now set).
Proof.
  unfold named. rewrite sort_stable_perm. eapply sublist_NoDup; [apply (NoDup_fst_map_to_list set)|].
  apply fmap_sublist, sublist_filter.
Qed.

Lemma named_length now set : length (named now set) = size (due_set now set).
Proof.
  assert (NoDup (map_to_list (due_set now set)).*1) as Hd by apply NoDup_fst_map_to_list.
  rewrite <- length_map_to_list, <- (length_fmap fst). apply Permutation_length, NoDup_Permutation; [apply named_NoDup|done|].
  intros id. rewrite named_due, list_elem_of_fmap. split.
  - intros [v Hv]. exists (id, v). split; [done|]. by apply elem_of_map_to_list.
  - intros ([i v] & -> & Hx%elem_of_map_to_list). by exists v.
Qed.

(** * The loops *)

Section loop.
Context {X : Type} (which : RedisDB → gmap string Z) (now : Z) (script : Z → string → RedisDB → RedisDB * bool).
Context (good : RedisDB → Prop) (goal : RedisDB → X).

(** On a member that is due, the script counts it, takes it out of the set,
    and changes nothing of what the loop is to reach. *)
Context (Hscript : ∀ at_ id db, now <= at_ → good db → is_Some (due_set now (which db) !! id) →
  ∃ db', script at_ id db = (db', true) ∧ good db' ∧ goal db' = goal db ∧ which db' = delete id (which db)).
Context (ck : Clock) (Hck : ∀ k, now <= UnixMilli (ck k)).

Abbreviation left_over db := (size (due_set now (which db))).

Lemma run_scripts_due k ids touched db :
  good db → NoDup ids → (∀ id, id ∈ ids → is_Some (due_set now (which db) !! id)) →
  ∃ db', run_scripts ck k script ids touched db = (db', touched + Z.of_nat (length ids)) ∧
    good db' ∧ goal db' = goal db ∧ (left_over db' + length ids = left_over db)%nat ∧ ∀ j, j ∈ ids ∨ which db !! j = None → which db' !! j = None.
Proof using Hscript Hck.
  revert k touched db. induction ids as [|id ids IH]; intros k touched db Hg Hnd Hdue; simpl.
  - exists db. rewrite Z.add_0_r, Nat.add_0_r. split_and!; try done. by intros ? [?%not_elem_of_nil|].
  - apply NoDup_cons in Hnd as [Hid Hnd].
    destruct (Hscript (UnixMilli (ck k)) id db (Hck k) Hg (Hdue id ltac:(left))) as (db1 & -> & Hg1 & Hgoal1 & Hw1).
    assert (∀ id', id' ∈ ids → is_Some (due_set now (which db1) !! id')) as Hdue1.
    { intros id' Hid'. rewrite Hw1, due_delete, lookup_delete_ne by (intros ->; done). apply Hdue. by right. }
    destruct (IH (S k) (touched + 1) db1 Hg1 Hnd Hdue1) as (db' & -> & Hg' & Hgoal' & Hsize & Hgone).
    exists db'. split_and!; try done; [f_equal; lia|congruence| |].
    + rewrite Hw1, due_delete in Hsize. pose proof (Hdue id ltac:(left)) as Hin.
      rewrite (map_size_delete_Some _ _ Hin) in Hsize. pose proof (map_size_ne_0_lookup_2 _ _ Hin). lia.
    + intros j Hj. apply Hgone. rewrite Hw1. destruct (decide (j = id)) as [->|Hne].
      * right. apply lookup_delete_eq.
      * rewrite lookup_delete_ne by done. destruct Hj as [[->|Hj]%elem_of_cons|Hj]; [done|by left|by right].
Qed.

(** Enough fuel: one round more than there are members due. *)
Lemma sweepSet_due fuel k last touched db :
  (left_over db < fuel)%nat → good db → (∀ id, last = Some id → which db !! id = None) →
  ∃ db' k', sweepSet fuel ck k which now script last touched db = (db', touched + Z.of_nat (left_over db), k') ∧
    good db' ∧ goal db' = goal db ∧ due_set now (which db') = ∅.
Proof using Hscript Hck.
  revert k last touched db. induction fuel as [|fuel IH]; intros k last touched db Hf Hg Hlast; [lia|]. simpl.
  change (zrange (which db) now sweep_batch) with (take sweep_batch (named now (which db))).
  set (ids := take sweep_batch (named now (which db))).
  assert (length ids = sweep_batch `min` left_over db)%nat as Hlen by (unfold ids; by rewrite length_take, named_length).
  assert (∀ id, id ∈ ids → is_Some (due_set now (which db) !! id)) as Hdue.
  { intros id Hid. apply named_due. rewrite <- (take_drop sweep_batch). apply elem_of_app. by left. }
  assert (NoDup ids) as Hnd by (eapply sublist_NoDup; [apply (named_NoDup now (which db))|apply sublist_take]).
  assert (left_over db = 0%nat → due_set now (which db) = ∅) as Hnone by apply map_size_empty_inv.
  clearbody ids. unfold sweep_batch in *. destruct ids as [|id ids].
  { rewrite bool_decide_true by done. cbn [length] in Hlen. assert (left_over db = 0%nat) as Hz by lia. rewrite Hz, Z.add_0_r.
    eexists _, _. split_and!; try done. by apply Hnone. }
  rewrite (bool_decide_false (_ = [])) by done. rewrite bool_decide_false.
  2:{ intros E. destruct (Hdue id ltac:(left)) as [v [Hv _]%due_lookup]. by rewrite (Hlast id) in Hv. }
  destruct (run_scripts_due k (id :: ids) touched db Hg Hnd Hdue) as (db1 & -> & Hg1 & Hgoal1 & Hsize & Hgone).
  cbn [orb]. destruct (Nat.ltb_spec (length (id :: ids)) 256).
  - exists db1. eexists. split_and!; [|done..|].
    + f_equal. f_equal. lia.
    + apply map_size_empty_inv. lia.
  - destruct (IH (k + length (id :: ids))%nat (Some id) (touched + Z.of_nat (length (id :: ids))) db1) as (db' & k' & E & Hg' & Hgoal' & Hd').
    + cbn [length] in Hsize. lia.
    + done.
    + intros id' [= <-]. apply Hgone. left. by left.
    + exists db', k'. split_and!; try done; [|congruence].
      change (head (id :: ids)) with (Some id). rewrite E. f_equal. f_equal. lia.
Qed.
End loop.

(** * Counting *)

Lemma map_sum_add {K A} `{Countable K} (f f' : A → Z) (m : gmap K A) :
  map_sum (λ x, f x + f' x) m = map_sum f m + map_sum f' m.
Proof.
  induction m as [|i x m Hi IH] using map_ind; [by rewrite !map_sum_empty|].
  rewrite !map_sum_insert_new by done. lia.
Qed.

Definition is_due (now : Z) (x : option Z) : Z := match x with Some v => if v <=? now then 1 else 0 | None => 0 end.

Lemma due_count {A} now (f : A → option Z) (m : gmap string A) :
  Z.of_nat (size (due_set now (omap f m))) = map_sum (λ x, is_due now (f x)) m.
Proof.
  induction m as [|i x m Hi IH] using map_ind.
  - unfold due_set. by rewrite omap_empty, map_filter_empty, map_size_empty, map_sum_empty.
  - rewrite map_sum_insert_new by done. rewrite <- IH. assert (omap f m !! i = None) as Hn by by rewrite lookup_omap, Hi.
    destruct (f x) as [v|] eqn:Ef; simpl.
    + rewrite (omap_insert_Some f m i x v Ef). unfold due_set. destruct (Z.leb_spec v now).
      * rewrite map_filter_insert_True, map_size_insert_None by (done || by rewrite map_lookup_filter, Hn). lia.
      * rewrite map_filter_insert_False by (simpl; lia). rewrite delete_id by done. lia.
    + rewrite (omap_insert_None f m i x Ef), delete_id by done. lia.
Qed.

(** * The two scripts *)

Section sweep.
Context (g now : Z).

(** A terminal slot holds no ciphertext. *)
Definition clear (db : RedisDB) : Prop := map_Forall (λ _ h, hash_live h = false → hash_held h = 0) (rdSlots db).
Definition good (db : RedisDB) : Prop := db_ok g db ∧ clear db.

Definition expire_due (h : RHash) : RHash :=
  if hash_live h && (hExpires h <=? now) then tombstone_hash StateExpired 0 h else h.

Definition expired (db : RedisDB) : gmap string RHash := expire_due <$> rdSlots db.

Lemma expire_due_idem h : expire_due (expire_due h) = expire_due h.
Proof. unfold expire_due at 2 3. destruct (hash_live h && (hExpires h <=? now)) eqn:E; [done|]. unfold expire_due. by rewrite E. Qed.

Lemma due_live db id v :
  db_ok g db → due_set now (rdExpiry db) !! id = Some v →
  ∃ h, rdSlots db !! id = Some h ∧ hash_live h = true ∧ hExpires h <= now.
Proof.
  intros Hok [Hv Hn]%due_lookup. rewrite (ok_expiry _ _ Hok), lookup_omap in Hv. unfold due in Hv.
  destruct (rdSlots db !! id) as [h|]; simpl in Hv; [|done]. destruct (hash_live h) eqn:El; [|done].
  injection Hv as <-. by exists h.
Qed.

Lemma expire_script at_ id db :
  now <= at_ → good db → is_Some (due_set now (rdExpiry db) !! id) →
  ∃ db', redisExpire at_ id db = (db', true) ∧ good db' ∧ expired db' = expired db ∧ rdExpiry db' = delete id (rdExpiry db).
Proof.
  intros Hat [Hok Hc] [v Hv]. destruct (due_live _ _ _ Hok Hv) as (h & Hh & Hl & He).
  unfold redisExpire. rewrite Hh. unfold hash_live in Hl. apply negb_true_iff in Hl. rewrite Hl.
  destruct (Z.ltb_spec at_ (hExpires h)); [lia|].
  destruct (finish_ok g db id h StateExpired 0 Hok Hh) as [Hok' Hs']; [unfold hash_live; by rewrite Hl|done|].
  eexists. split_and!; [done|split; [done|]| |].
  - unfold clear. rewrite Hs'. apply map_Forall_insert_2; [done|exact Hc].
  - unfold expired. rewrite Hs', fmap_insert. apply insert_id. rewrite lookup_fmap, Hh. simpl. f_equal.
    unfold expire_due, hash_live. rewrite Hl. simpl. by destruct (Z.leb_spec (hExpires h) now); [|lia].
  - unfold release. simpl. by case_match.
Qed.

Definition kept_slots (db : RedisDB) : gmap string RHash := filter (λ x, now < hExpires x.2 + g) (rdSlots db).

Lemma remove_ok db db' id h :
  db_ok g db → rdSlots db !! id = Some h → rdSlots db' = delete id (rdSlots db) →
  rdExpiry db' = delete id (rdExpiry db) → rdRemoval db' = delete id (rdRemoval db) →
  rdLive db' = rdLive db - hash_occupied h → rdBytes db' = rdBytes db - hash_held h → db_ok g db'.
Proof.
  intros [H1 H2 H3 H4] Hh Hs Hx Hr Hl Hb. split; rewrite Hs.
  - by rewrite Hx, H1, omap_delete.
  - by rewrite Hr, H2, omap_delete.
  - rewrite Hl, H3, (map_sum_delete _ _ _ _ Hh). lia.
  - rewrite Hb, H4, (map_sum_delete _ _ _ _ Hh). lia.
Qed.

(** [redisRemove] on a slot that is there. *)
Lemma remove_there id h db :
  good db → rdSlots db !! id = Some h →
  (redisRemove id db).2 = true ∧ good (redisRemove id db).1 ∧
  rdSlots (redisRemove id db).1 = delete id (rdSlots db) ∧ rdRemoval (redisRemove id db).1 = delete id (rdRemoval db).
Proof.
  intros [Hok Hc] Hh. unfold redisRemove. simpl. rewrite Hh. cbn [fst snd]. split; [done|].
  match goal with |- good ?x ∧ _ => set (db' := x) end.
  assert (rdSlots db' = delete id (rdSlots db)) as Hs'.
  { unfold db', release. simpl. repeat case_match; done. }
  assert (rdRemoval db' = delete id (rdRemoval db)) as Hr'.
  { unfold db', release. simpl. repeat case_match; done. }
  split_and!; [split|done|done].
  - apply (remove_ok db _ id h); try done; unfold db', release, ct_length, hash_occupied, hash_live; simpl.
    + destruct (Terminal (hState h)); [done|]. simpl. case_match; simpl; apply delete_delete_eq.
    + destruct (Terminal (hState h)); [simpl; lia|]. simpl. by case_match.
    + fold (hash_held h). rewrite Hh. destruct (Terminal (hState h)) eqn:Et; simpl.
      * rewrite (Hc _ _ Hh); [lia|]. unfold hash_live. by rewrite Et.
      * fold (hash_held h). pose proof (zlen_nonneg (default [] (hCt h))). unfold hash_held in *.
        destruct (Z.ltb_spec 0 (zlen (default [] (hCt h)))); simpl; lia.
  - unfold clear. rewrite Hs'. by apply map_Forall_delete.
Qed.

Lemma remove_script at_ id db :
  now <= at_ → good db → is_Some (due_set now (rdRemoval db) !! id) →
  ∃ db', redisRemove id db = (db', true) ∧ good db' ∧ kept_slots db' = kept_slots db ∧ rdRemoval db' = delete id (rdRemoval db).
Proof.
  intros _ Hg [v [Hv Hn]%due_lookup]. rewrite (ok_removal _ _ (proj1 Hg)), lookup_omap in Hv.
  destruct (rdSlots db !! id) as [h|] eqn:Hh; simpl in Hv; [|done]. injection Hv as <-.
  destruct (remove_there id h db Hg Hh) as (H1 & Hg' & Hs' & Hr'). destruct (redisRemove id db) as [db' one].
  simpl in *. subst one. exists db'. split_and!; [done..| |done].
  unfold kept_slots. rewrite Hs', map_filter_delete. apply delete_id. apply map_lookup_filter_None. right.
  intros x Hx. simpl. replace x with h by congruence. lia.
Qed.
End sweep.

(** * The whole sweep *)

Lemma UnixMilli_le t u : t <= u → UnixMilli t <= UnixMilli u.
Proof. intros Htu. unfold UnixMilli. apply Z.div_le_mono; [done|]. lia. Qed.

Lemma sweep_phase1 g ck k db :
  (∀ j, UnixMilli (ck 0%nat) <= UnixMilli (ck j)) → good g db →
  ∃ db1 k1, sweepSet (S (size (rdExpiry db))) ck k rdExpiry (UnixMilli (ck 0%nat)) redisExpire None 0 db =
      (db1, Z.of_nat (size (due_set (UnixMilli (ck 0%nat)) (rdExpiry db))), k1) ∧
    good g db1 ∧ rdSlots db1 = expire_due (UnixMilli (ck 0%nat)) <$> rdSlots db.
Proof.
  intros Hck Hg. set (now := UnixMilli (ck 0%nat)) in *.
  destruct (sweepSet_due rdExpiry now redisExpire (good g) (expired now) (expire_script g now) ck Hck
    (S (size (rdExpiry db))) k None 0 db) as (db1 & k1 & -> & Hg1 & Hgoal & Hnone); [|done..|].
  { unfold due_set. pose proof (map_size_filter (λ x : string * Z, x.2 <= now) (rdExpiry db)). lia. }
  exists db1, k1. split_and!; [done..|]. unfold expired in Hgoal. rewrite <- Hgoal. apply map_eq. intros id.
  rewrite lookup_fmap. destruct (rdSlots db1 !! id) as [h|] eqn:Hh; [|done]. simpl. f_equal.
  unfold expire_due. destruct (hash_live h && (hExpires h <=? now)) eqn:E; [|done]. breflect. exfalso.
  assert (due_set now (rdExpiry db1) !! id = Some (hExpires h)) as Hd; [|by rewrite Hnone in Hd].
  apply due_lookup. split; [|done]. destruct Hg1 as [Hok1 _]. rewrite (ok_expiry _ _ Hok1), lookup_omap, Hh. simpl.
  unfold due. by rewrite H.
Qed.

Lemma sweep_phase2 g ck k db :
  (∀ j, UnixMilli (ck 0%nat) <= UnixMilli (ck j)) → good g db →
  ∃ db2 k2, sweepSet (S (size (rdRemoval db))) ck k rdRemoval (UnixMilli (ck 0%nat)) (λ _, redisRemove) None 0 db =
      (db2, Z.of_nat (size (due_set (UnixMilli (ck 0%nat)) (rdRemoval db))), k2) ∧
    good g db2 ∧ rdSlots db2 = kept_slots g (UnixMilli (ck 0%nat)) db.
Proof.
  intros Hck Hg. set (now := UnixMilli (ck 0%nat)) in *.
  destruct (sweepSet_due rdRemoval now (λ _, redisRemove) (good g) (kept_slots g now) (remove_script g now) ck Hck
    (S (size (rdRemoval db))) k None 0 db) as (db2 & k2 & -> & Hg2 & Hgoal & Hnone); [|done..|].
  { unfold due_set. pose proof (map_size_filter (λ x : string * Z, x.2 <= now) (rdRemoval db)). lia. }
  exists db2, k2. split_and!; [done..|]. rewrite <- Hgoal. symmetry. apply map_filter_id. intros id h Hh. simpl.
  destruct (Z.lt_ge_cases now (hExpires h + g)) as [|Hge]; [done|]. exfalso.
  assert (due_set now (rdRemoval db2) !! id = Some (hExpires h + g)) as Hd; [|by rewrite Hnone in Hd].
  apply due_lookup. split; [|done]. destruct Hg2 as [Hok2 _]. by rewrite (ok_removal _ _ Hok2), lookup_omap, Hh.
Qed.

Lemma sim_good g db m : sim_db g db m → good g db.
Proof.
  intros Hs. split; [apply Hs|]. intros id h Hh Hl. destruct (sim_cases _ _ _ id Hs) as [[]|(h' & d & Hh' & _ & Hr)]; [congruence|].
  assert (h' = h) as -> by congruence. unfold hash_held. rewrite (rel_ct _ _ _ Hr).
  assert (is_tombstone d) as [-> _]; [|done]. apply wf_terminal; [apply Hr|]. by rewrite (rel_live _ _ _ Hr).
Qed.

Section sweep_sim.
Context (g : Z) (ck : Clock) (Hck : ∀ j, UnixMilli (ck 0%nat) <= UnixMilli (ck j)).
Abbreviation now := (UnixMilli (ck 0%nat)).

Lemma removal_due grace id h d :
  slot_rel id h d → grace = g * Millisecond → (ExpiresAt d + grace <=? time_UnixMilli now) = (hExpires h + g <=? now).
Proof.
  intros Hr ->. rewrite (rel_expires _ _ _ Hr).
  replace (time_UnixMilli (hExpires h) + g * Millisecond) with (time_UnixMilli (hExpires h + g)); [apply time_UnixMilli_le|].
  unfold time_UnixMilli. lia.
Qed.

Lemma swept_slot grace id h d :
  slot_rel id h d → grace = g * Millisecond →
  option_Forall2 (slot_rel id) (if hExpires h + g <=? now then None else Some (expire_due now h))
    (sweep_slot grace (time_UnixMilli now) d).
Proof.
  intros Hr Hg. unfold sweep_slot. rewrite (removal_due _ _ _ _ Hr Hg). destruct (_ <=? _); constructor.
  unfold expire_due, observe. rewrite (rel_expires _ _ _ Hr), time_UnixMilli_le, (rel_live _ _ _ Hr).
  case_match; [by apply rel_tombstone|done].
Qed.

Lemma touched_slot grace id h d :
  slot_rel id h d → grace = g * Millisecond →
  is_due now (due h) + is_due now (Some (hExpires h + g)) = sweep_touched grace (time_UnixMilli now) d.
Proof.
  intros Hr Hg. unfold sweep_touched, due. rewrite (removal_due _ _ _ _ Hr Hg), (rel_expires _ _ _ Hr), time_UnixMilli_le, (rel_live _ _ _ Hr).
  by destruct (hash_live h).
Qed.

Lemma sweep_sim r s : sim g r s → sim_step g (redis_Sweep ck r) (spec_sweep (still (time_UnixMilli now)) s).
Proof using Hck.
  intros [Ho Hgr Hs]. unfold redis_Sweep.
  destruct (sweep_phase1 g ck 1 (rDB r) Hck (sim_good _ _ _ Hs)) as (db1 & k1 & -> & Hg1 & Hs1).
  destruct (sweep_phase2 g ck k1 db1 Hck Hg1) as (db2 & k2 & -> & Hg2 & Hs2).
  assert (TombstoneGrace (sp_opts s) = g * Millisecond) as Hgrace by by rewrite <- Ho.
  split; [|split; [done..|]]; cbn [fst snd rDB slots spec_sweep].
  - destruct Hg1 as [Hok1 _]. pose proof (sim_ok _ _ _ Hs) as Hok.
    assert (rdRemoval db1 = omap (λ h, Some (hExpires h + g)) (rdSlots (rDB r))) as ->.
    { rewrite (ok_removal _ _ Hok1), Hs1. apply map_eq. intros id. rewrite !lookup_omap, lookup_fmap.
      destruct (rdSlots (rDB r) !! id) as [h|]; simpl; [|done].
      unfold expire_due. by destruct (hash_live h && (hExpires h <=? now)). }
    rewrite (ok_expiry _ _ Hok), !due_count, <- map_sum_add. apply (sim_sum g _ _ _ _ Hs).
    intros id h d Hr. by apply (touched_slot _ id).
  - split; [apply Hg2|]. intros id. rewrite Hs2, lookup_omap. unfold kept_slots. rewrite map_lookup_filter, Hs1, lookup_fmap.
    destruct (sim_cases _ _ _ id Hs) as [[-> ->]|(h & d & -> & -> & Hr)]; simpl; [constructor|].
    pose proof (swept_slot _ id h d Hr Hgrace) as Hsw. assert (hExpires (expire_due now h) = hExpires h) as -> by (unfold expire_due; by destruct (hash_live h && (hExpires h <=? now))).
    destruct (Z.leb_spec (hExpires h + g) now).
    + rewrite option_guard_False by lia. done.
    + rewrite option_guard_True by lia. done.
Qed.
End sweep_sim.

(** * The store

    The Redis store answers as the abstract store and as the memory store do
    when time is read in whole milliseconds. *)

(** * Whole milliseconds *)

(** The reading of the clock that reaches the scripts. *)
Definition ms_clock (ck : Clock) : Clock := still (time_UnixMilli (UnixMilli (ck 0%nat))).

Definition ms_op (o : op) : op := match o with OpCreate d => OpCreate (ms_drop d) | o => o end.

(** A call as a store with the precision of Redis gets it. *)
Definition ms_call (c : Clock * op) : Clock * op := (ms_clock c.1, ms_op c.2).

Definition ms_event (e : event) : event := mkEvent (ms_clock (ev_clock e)) (ms_op (ev_op e)) (ev_reply e).

(** The calls of a relay: the clock does not run backwards during one, and
    stands after the epoch, as the expiry of a new slot does. *)
Definition redis_ok (ck : Clock) (o : op) : Prop :=
  monotone ck ∧ 1 <= UnixMilli (ck 0%nat) ∧ op_ok ck o ∧
  match o with OpCreate d => 1 <= UnixMilli (ExpiresAt d) | _ => True end.

Lemma redis_ok_ms ck o : redis_ok ck o → op_ok (ms_clock ck) (ms_op o).
Proof. intros (_ & _ & Hok & _). by destruct o. Qed.

(** * Simulation *)

(** Stores that answer alike, call for call, where [τ] translates the calls. *)
Section play.
Context {A B : Type} `{Store A} `{Store B} (τ : Clock * op → Clock * op).
Context (adm : Clock → op → Prop) (R : A → B → Prop).
Context (Hsim : ∀ ck o a b, adm ck o → R a b →
  (run_op ck o a).2 = (run_op (τ (ck, o)).1 (τ (ck, o)).2 b).2 ∧
  R (run_op ck o a).1 (run_op (τ (ck, o)).1 (τ (ck, o)).2 b).1).

Lemma play_alike ops h h' a b :
  Forall (λ c, adm c.1 c.2) ops → R a b → ev_reply <$> h = ev_reply <$> h' →
  ev_reply <$> (play ops h a).1 = ev_reply <$> (play (τ <$> ops) h' b).1 ∧
  R (play ops h a).2 (play (τ <$> ops) h' b).2.
Proof using Hsim.
  revert h h' a b. induction ops as [|[ck o] ops IH]; intros h h' a b Hops HR Hh; [done|].
  apply Forall_cons in Hops as [Ho Hops]. destruct (Hsim ck o a b Ho HR) as [Hr HR']. rewrite fmap_cons. simpl.
  destruct (τ (ck, o)) as [ck' o']. simpl in *. destruct (run_op ck o a) as [a' r], (run_op ck' o' b) as [b' r'].
  simpl in *. apply IH; [done..|]. rewrite !fmap_cons. simpl. by rewrite Hr, Hh.
Qed.
End play.

Section redis.
Context (o : StoreOptions) (g : Z) (Hg : 0 <= g) (Hgrace : TombstoneGrace (withDefaults o) = g * Millisecond).

Lemma newRedis_sim : sim g (newRedis o) (spec_init o).
Proof using Hgrace.
  split; [done..|]. split; [apply empty_db_ok|]. intros id. simpl. rewrite !lookup_empty. constructor.
Qed.

Lemma redis_step ck p r s :
  redis_ok ck p → sim g r s →
  (run_op ck p r).2 = (run_op (ms_clock ck) (ms_op p) s).2 ∧
  sim g (run_op ck p r).1 (run_op (ms_clock ck) (ms_op p) s).1.
Proof using Hg.
  intros (Hmono & Hck & Hok & He) Hs.
  assert (∀ A (f : A → reply) x y, sim_step g x y → (mapr f x).2 = (mapr f y).2 ∧ sim g (mapr f x).1 (mapr f y).1) as Hlift.
  { intros A f x y [Hx Hy]. simpl. by rewrite Hx. }
  destruct p.
  - exact (Hlift _ RUnit _ _ (create_sim g ck d r s Hg Hok He Hs)).
  - exact (Hlift _ RUnit _ _ (upload_sim g ck Hck id token commitment ct r s Hs)).
  - exact (Hlift _ RRead _ _ (fetch_sim g ck Hck id token r s Hs)).
  - exact (Hlift _ RRead _ _ (open_sim g ck Hck id token r s Hs)).
  - exact (Hlift _ RUnit _ _ (revoke_sim g ck Hck id token r s Hs)).
  - exact (Hlift _ RStatus _ _ (status_sim g ck id r s Hs)).
  - refine (Hlift _ RSwept _ _ (sweep_sim g ck _ r s Hs)). intros j. apply UnixMilli_le, Hmono. lia.
Qed.

Lemma sim_stats r s : sim g r s → StatsOf r = StatsOf s.
Proof.
  intros [_ _ Hs]. simpl. unfold redis_Stats, spec_stats. rewrite (sim_live _ _ _ Hs), (sim_bytes _ _ _ Hs).
  rewrite (ok_removal _ _ (sim_ok _ _ _ Hs)). do 2 f_equal.
  rewrite <- (size_dom (slots s)), <- (size_dom (omap _ _)). f_equal. apply set_eq. intros id.
  rewrite !elem_of_dom, lookup_omap.
  destruct (sim_cases _ _ _ id Hs) as [[-> ->]|(h & d & -> & -> & _)]; simpl; [done|by split; eauto].
Qed.

Lemma grace_nonneg : 0 <= TombstoneGrace o.
Proof using Hg Hgrace.
  unfold withDefaults in Hgrace. simpl in Hgrace. destruct (Z.eqb_spec (TombstoneGrace o) 0) as [->|]; [done|].
  rewrite Hgrace. unfold Millisecond. lia.
Qed.

Lemma memory_play ops h m s :
  Forall (λ c, op_ok c.1 c.2) ops → Inv m → s = abs m →
  ev_reply <$> (play ops h m).1 = ev_reply <$> (play ops h s).1 ∧
  (Inv (play ops h m).2 ∧ (play ops h s).2 = abs (play ops h m).2).
Proof.
  intros Hops HI Hs. rewrite <- (list_fmap_id ops) at 2 4.
  apply (play_alike id op_ok (λ m s, Inv m ∧ s = abs m) memory_step ops h h m s); done.
Qed.

(** Without replicas, and as long as Redis drops no key by itself, the two stores
    of the relay are interchangeable: a relay that keeps its slots in Redis gives
    every answer that a relay with the memory store gives when the same calls
    reach it with times in whole milliseconds: the same payloads, statuses, times,
    errors and, of sweeps that no other call falls into, numbers of slots; and
    their figures of occupancy are equal. *)
Theorem redis_answers_as_memory ops :
  Forall (λ c, redis_ok c.1 c.2) ops →
  ev_reply <$> (play ops [] (newRedis o)).1 = ev_reply <$> (play (ms_call <$> ops) [] (NewMemory o)).1 ∧
  StatsOf (play ops [] (newRedis o)).2 = StatsOf (play (ms_call <$> ops) [] (NewMemory o)).2.
Proof using Hg Hgrace.
  intros Hops.
  destruct (play_alike ms_call redis_ok (sim g) redis_step ops [] [] (newRedis o) (spec_init o)) as [Hr HR];
    [done|apply newRedis_sim|done|].
  destruct (memory_play (ms_call <$> ops) [] (NewMemory o) (spec_init o)) as (Hm & HI & Ha); [|by apply NewMemory_Inv, grace_nonneg|done|].
  { apply Forall_fmap. eapply Forall_impl; [exact Hops|]. intros [ck p]. apply redis_ok_ms. }
  split; [by rewrite Hr, Hm|]. rewrite (sim_stats _ _ HR), Ha. simpl. unfold mem_Stats, spec_stats. simpl.
  by rewrite (inv_live _ HI), (inv_bytes _ HI).
Qed.

End redis.

(** * Concrete runs *)

(** Readings half a millisecond off. *)
Definition at_ms (n : Z) : Clock := λ k, time_UnixMilli n + 500000 + Z.of_nat k.

Definition redis_slot_of (id : string) (k : Kind) (ct : bytes) : Drop :=
  mkDrop id k StateCreated ct "c" demo_upload_hash demo_fetch_hash "key" (at_ms 1000 0%nat) (at_ms 9000 0%nat) 0 0 0.

Definition redis_demo : list (Clock * op) :=
  [(at_ms 1000, OpCreate (redis_slot_of "d" KindDrop [])); (at_ms 1001, OpCreate (redis_slot_of "r" KindReveal demo_ct));
   (at_ms 2000, demo_upload); (at_ms 3000, demo_fetch); (at_ms 3001, demo_fetch); (at_ms 8999, OpStatus "r");
   (at_ms 9000, demo_open); (at_ms 9001, OpSweep); (at_ms 4000000, OpSweep); (at_ms 4000000, OpStatus "d")].

Lemma at_ms_ok n p :
  1 <= n → op_ok (at_ms n) p → match p with OpCreate d => 1 <= UnixMilli (ExpiresAt d) | _ => True end →
  redis_ok (at_ms n) p.
Proof.
  intros Hn Hp He. split_and!; [|unfold at_ms, UnixMilli, time_UnixMilli, Millisecond; lia|done..].
  intros i j Hij. unfold at_ms. lia.
Qed.

Lemma redis_demo_ok : Forall (λ c, redis_ok c.1 c.2) redis_demo.
Proof.
  repeat (apply Forall_cons; split; [apply at_ms_ok; try done; by (split; [left|])|]). apply Forall_nil. done.
Qed.

Lemma redis_answers_as_memory_witness :
  ev_reply <$> (play redis_demo [] (newRedis demo_opts)).1 =
    [RStatus (Err ErrNotFound); RSwept 2; RSwept 0; RRead (Err (StateError StateExpired (time_UnixMilli 9000)));
     RStatus (Ok (mkStatus "r" KindReveal StateCreated (time_UnixMilli 1000) (time_UnixMilli 9000) 0 0 0));
     RRead (Err (StateError StateFetched (time_UnixMilli 3000))); RRead (Ok (demo_ct, time_UnixMilli 2000));
     RUnit (Ok tt); RUnit (Ok tt); RUnit (Ok tt)] ∧
  ev_reply <$> (play redis_demo [] (newRedis demo_opts)).1 =
    ev_reply <$> (play (ms_call <$> redis_demo) [] (NewMemory demo_opts)).1.
Proof.
  split; [vm_compute; reflexivity|].
  exact (proj1 (redis_answers_as_memory demo_opts 3600000 ltac:(done) ltac:(reflexivity) redis_demo redis_demo_ok)).
Defined.
