(* ===== verification/RedisReplicas.v ===== *)
(** Replicas at one Redis: the calls of operations and of sweeps in every
    interleaving, over a connection that loses calls and answers, with keys that
    Redis drops by itself.  A secret is handed out at most once, whatever
    happens; and the replicas are one abstract store as long as no live slot is
    dropped. *)
From S2P Require Import Prelude Tokens GoTime GoSort RelayTypes StoreSpec StoreHistory RedisStore RedisInv Memory MemoryInv MemoryProps RedisProps.

(** * Reads *)

(** Whether the database has a live slot of this id. *)
Definition present (id : string) (db : RedisDB) : nat :=
  match rdSlots db !! id with Some h => b2n (hash_live h) | None => 0 end.

Lemma present_alter (f : RHash → RHash) id j db db' :
  rdSlots db' = alter f id (rdSlots db) → (∀ h, hash_live (f h) = true → hash_live h = true) →
  (present j db' <= present j db)%nat.
Proof.
  intros Hs Hf. unfold present. rewrite Hs. destruct (decide (j = id)) as [->|Hj].
  - rewrite lookup_alter_eq. destruct (rdSlots db !! id) as [h|]; simpl; [|lia]. specialize (Hf h).
    destruct (hash_live (f h)), (hash_live h); simpl; naive_solver lia.
  - rewrite lookup_alter_ne by done. lia.
Qed.

Lemma tombstone_not_live st at_ h : Terminal st = true → hash_live (tombstone_hash st at_ h) = true → hash_live h = true.
Proof. unfold hash_live. simpl. by intros ->. Qed.

(** A slot that ends was live, or nothing changes. *)
Lemma finish_slots id st at_ db : rdSlots (tombstone_slot id st at_ (release id db)) = alter (tombstone_hash st at_) id (rdSlots db).
Proof. unfold tombstone_slot, release. simpl. by case_match. Qed.

Lemma finish_present id st at_ j db :
  Terminal st = true → (present j (tombstone_slot id st at_ (release id db)) <= present j db)%nat.
Proof. intros Hst. eapply present_alter; [apply finish_slots|]. intros h. by apply tombstone_not_live. Qed.

Lemma finish_absent id st at_ db : Terminal st = true → present id (tombstone_slot id st at_ (release id db)) = 0%nat.
Proof.
  intros Hst. unfold present. rewrite finish_slots, lookup_alter_eq. destruct (rdSlots db !! id); simpl; [|done].
  unfold hash_live. simpl. by rewrite Hst.
Qed.

(** What [get] leaves, and the slot that a script goes on with. *)
Lemma get_present now id j db : (present j (script_get now id db).1 <= present j db)%nat.
Proof.
  unfold script_get. destruct (rdSlots db !! id) as [h|]; [|done]. case_match; [by apply finish_present|done].
Qed.

Lemma get_found now id db d :
  (script_get now id db).2 = Some d → Terminal (lState d) = false → present id (script_get now id db).1 = 1%nat.
Proof.
  unfold script_get. destruct (rdSlots db !! id) as [h|] eqn:Eh; [|done]. case_match; [intros [= <-]; done|].
  intros [= <-]. simpl. unfold present, hash_live. rewrite Eh. by intros ->.
Qed.


Lemma slot_result_ok id rep x : slot_result id rep = Ok x → rCode rep = COk.
Proof. unfold slot_result. destruct (rTable rep) as [[d p]|], (rCode rep); done. Qed.

(** What a body may do to the slot it was called for. *)
Definition body_reads (reads : bool) (id : string) (db : RedisDB) (p : RedisDB * script_reply) : Prop :=
  (∀ j, (present j p.1 <= present j db)%nat) ∧
  (reads = true → rCode p.2 = COk → present id db = 1%nat ∧ present id p.1 = 0%nat).

Lemma refused_reads reads id db rep : rCode rep ≠ COk → body_reads reads id db (db, rep).
Proof. by split. Qed.

Lemma finished_reads reads id st at_ db rep :
  Terminal st = true → present id db = 1%nat → body_reads reads id db (tombstone_slot id st at_ (release id db), rep).
Proof. intros Hst Hp. split; [intros j; by apply finish_present|]. intros _ _. split; [done|by apply finish_absent]. Qed.

(** What was handed out was there and is gone. *)
Definition handed {A} (reads : bool) (id j : string) (r : Redis) (p : Redis * result store_error A) : Prop :=
  (present j (rDB p.1) + b2n (reads && is_ok p.2 && bool_decide (id = j)) <= present j (rDB r))%nat.

(** A script that begins with [get], as a method of the store. *)
Lemma slot_reads {A} (f : Drop * bytes → A) (reads : bool) ck id (body : Z → string → LuaDrop → RedisDB → RedisDB * script_reply) r j :
  (∀ now d db, (Terminal (lState d) = false → present id db = 1%nat) → body_reads reads id db (body now id d db)) →
  handed reads id j r (map_ok f (redis_slot ck id (λ now id, with_slot now id (body now id)) r)).
Proof.
  intros Hbody. unfold handed, map_ok, redis_slot, with_slot.
  pose proof (get_present (UnixMilli (ck 0%nat)) id j (rDB r)) as Hget. pose proof (get_found (UnixMilli (ck 0%nat)) id (rDB r)) as Hfound.
  destruct (script_get _ _ _) as [db1 [d|]]; simpl in *; [|rewrite andb_false_r; simpl; lia].
  destruct (Hbody (UnixMilli (ck 0%nat)) d db1 (Hfound d eq_refl)) as [Hle Hread]. destruct (body _ _ _ _) as [db2 rep].
  specialize (Hle j). simpl in *. destruct reads; [|simpl; lia].
  destruct (slot_result id rep) as [x|] eqn:E; simpl; [|lia]. apply slot_result_ok in E.
  destruct (Hread eq_refl E). case_bool_decide; simpl; [subst j; lia|lia].
Qed.

(** The branches of a body: refused ones leave the database. *)
Ltac body_branches := cbv iota;
  repeat match goal with
  | |- body_reads _ _ _ (if ?b then _ else _) => destruct b; [by apply refused_reads|]
  end;
  try by apply refused_reads.

Lemma upload_present ck id tok com ct r j : handed false id j r (redis_Upload ck id tok com ct r).
Proof.
  unfold redis_Upload, redisUpload. apply slot_reads. intros now d db Hp. destruct (Terminal (lState d)) eqn:Et; body_branches.
  all: split; [|done]; intros i; specialize (Hp eq_refl); unfold present in *.
  all: assert (∀ db', rdSlots db' = alter (set_uploaded now ct) id (rdSlots db) →
    (match rdSlots db' !! i with Some h => b2n (hash_live h) | None => 0 end <=
     match rdSlots db !! i with Some h => b2n (hash_live h) | None => 0 end)%nat) as Halter.
  { intros db' ->. destruct (decide (i = id)) as [->|Hi]; [|by rewrite lookup_alter_ne].
    rewrite lookup_alter_eq. destruct (rdSlots db !! id) as [h|]; [|done]. simpl. by rewrite Hp. }
  all: simpl; apply Halter; by destruct (0 <? zlen ct).
Qed.

Lemma fetch_present ck id tok r j : handed true id j r (redis_Fetch ck id tok r).
Proof.
  unfold redis_Fetch, redisFetch. apply slot_reads. intros now d db Hp. destruct (Terminal (lState d)) eqn:Et; body_branches.
  apply finished_reads; auto.
Qed.

Lemma open_present ck id tok r j : handed true id j r (redis_Open ck id tok r).
Proof.
  unfold redis_Open, redisOpen. apply slot_reads. intros now d db Hp. destruct (Terminal (lState d)) eqn:Et; body_branches.
  apply finished_reads; auto.
Qed.

Lemma revoke_present ck id tok r j : handed false id j r (redis_Revoke ck id tok r).
Proof.
  unfold redis_Revoke, redisRevoke. apply slot_reads. intros now d db Hp. destruct (Terminal (lState d)) eqn:Et; body_branches.
  apply finished_reads; auto.
Qed.

Lemma status_present ck id r j : handed false id j r (redis_Status ck id r).
Proof. unfold redis_Status, redisStatus. apply slot_reads. intros now d db Hp. by split. Qed.

Lemma redisCreate_slots now id h ct maxLive maxBytes removeAt db :
  let p := redisCreate now id h ct maxLive maxBytes removeAt db in
  (rCode p.2 = COk ∧ rdSlots db !! id = None ∧ ∃ h', rdSlots p.1 = <[id := h']> (rdSlots db) ∧ hExpires h' = hExpires h) ∨
  (p = (db, just CFull)).
Proof.
  unfold redisCreate. case_bool_decide as Hd; [by right|]. destruct (_ && _); [by right|]. destruct (_ && _); [by right|].
  left. simpl. split; [done|]. split; [by apply eq_None_not_Some|]. destruct (0 <? zlen ct); simpl; [|by eexists].
  erewrite alter_known by apply lookup_insert_eq. rewrite insert_insert_eq. by eexists.
Qed.

Lemma create_present ck d r j :
  (present j (rDB (redis_Create ck d r).1) <= present j (rDB r) + b2n (is_ok (redis_Create ck d r).2 && bool_decide (ID d = j)))%nat.
Proof.
  unfold redis_Create, map_ok, redis_slot.
  match goal with |- context [redisCreate ?a ?b ?c ?d ?e ?f ?g ?h] => pose proof (redisCreate_slots a b c d e f g h) as Hc;
    destruct (redisCreate a b c d e f g h) as [db rep] end. simpl in Hc.
  destruct Hc as [(Hok & Hn & h & Hs & _)|[= -> ->]]; [|simpl; lia].
  assert (is_ok match slot_result (ID d) rep with Ok _ => @Ok store_error unit tt | Err e => Err e end = true) as Hres.
  { unfold slot_result. rewrite Hok. by destruct (rTable rep) as [[]|]. }
  simpl. rewrite Hres. unfold present. rewrite Hs. simpl. case_bool_decide as Hj.
  - subst j. rewrite Hn, lookup_insert_eq. destruct (hash_live h); simpl; lia.
  - rewrite lookup_insert_ne by done. lia.
Qed.

(** ** The sweeper *)

Lemma expire_present at_ id j db : (present j (redisExpire at_ id db).1 <= present j db)%nat.
Proof.
  unfold redisExpire. repeat case_match; try done; simpl; by apply finish_present.
Qed.

Lemma delete_present id j db db' :
  rdSlots db' = delete id (rdSlots db) → (present j db' <= present j db)%nat.
Proof.
  intros Hs. unfold present. rewrite Hs. destruct (decide (j = id)) as [->|Hj].
  - rewrite lookup_delete_eq. lia.
  - by rewrite lookup_delete_ne by done.
Qed.

Lemma remove_slots id db : rdSlots (redisRemove id db).1 = delete id (rdSlots db).
Proof.
  unfold redisRemove, release. simpl. destruct (rdSlots db !! id) eqn:E; [repeat case_match; done|]. simpl. by rewrite delete_id.
Qed.

Lemma script_present set at_ id j db : (present j (script_of set at_ id db).1 <= present j db)%nat.
Proof. destruct set; [apply expire_present|]. apply (delete_present id), remove_slots. Qed.

Lemma run_scripts_present set ck k ids touched j db :
  (present j (run_scripts ck k (script_of set) ids touched db).1 <= present j db)%nat.
Proof.
  revert k touched db. induction ids as [|id ids IH]; intros k touched db; simpl; [done|].
  pose proof (script_present set (UnixMilli (ck k)) id j db) as Hs. destruct (script_of _ _ _ _) as [db1 one]. simpl in Hs.
  specialize (IH (S k) (if one then touched + 1 else touched) db1). lia.
Qed.

Lemma sweepSet_present set fuel ck k now last touched j db :
  (present j (sweepSet fuel ck k (set_of set) now (script_of set) last touched db).1.1 <= present j db)%nat.
Proof.
  revert k last touched db. induction fuel as [|fuel IH]; intros k last touched db; [done|]. simpl. case_match; [done|].
  pose proof (run_scripts_present set ck k (zrange (set_of set db) now sweep_batch) touched j db) as Hs.
  destruct (run_scripts _ _ _ _ _ _) as [db1 t1]. simpl in Hs. case_match; [done|].
  specialize (IH (k + length (zrange (set_of set db) now sweep_batch))%nat (head (zrange (set_of set db) now sweep_batch)) t1 db1). lia.
Qed.

Lemma sweep_present ck r j : (present j (rDB (redis_Sweep ck r).1) <= present j (rDB r))%nat.
Proof.
  unfold redis_Sweep.
  pose proof (sweepSet_present Expiring (S (size (rdExpiry (rDB r)))) ck 1 (UnixMilli (ck 0%nat)) None 0 j (rDB r)) as H1.
  cbn [set_of script_of] in H1. destruct (sweepSet _ _ _ rdExpiry _ _ _ _ _) as [[db1 n1] k1]. cbn [fst] in H1.
  pose proof (sweepSet_present Removing (S (size (rdRemoval db1))) ck k1 (UnixMilli (ck 0%nat)) None 0 j db1) as H2.
  cbn [set_of script_of] in H2. destruct (sweepSet _ _ _ rdRemoval _ _ _ _ _) as [[db2 n2] k2]. cbn [fst rDB] in *. lia.
Qed.

Lemma sweep_call_present w at_ sw j db : (present j (sweep_call w at_ sw db).1 <= present j db)%nat.
Proof.
  unfold sweep_call. destruct (sw_todo sw) as [last|first [|id ids] full]; [done..|].
  pose proof (script_present (sw_set sw) at_ id j db). destruct (script_of _ _ _ _) as [db' one]. by destruct w.
Qed.

(** ** Every call *)

Lemma op_present ck p r j :
  (present j (rDB (run_op ck p r).1) + b2n (read_in j (mkEvent ck p (run_op ck p r).2)) <=
   present j (rDB r) + b2n (created_in j (mkEvent ck p (run_op ck p r).2)))%nat.
Proof.
  destruct p as [d|id tok com ct|id tok|id tok|id tok|id|]; unfold created_in, read_in; cbn [run_op mapr fst snd ev_op ev_reply Create Upload Fetch Open Revoke StatusOf Sweep redis_store].
  - pose proof (create_present ck d r j). destruct (redis_Create ck d r) as [r' [[]|e]]; simpl in *; lia.
  - pose proof (upload_present ck id tok com ct r j). unfold handed in *. cbn [andb b2n] in *. lia.
  - pose proof (fetch_present ck id tok r j) as H. destruct (redis_Fetch ck id tok r) as [r' [x|e]]; unfold handed in H; simpl in *; lia.
  - pose proof (open_present ck id tok r j) as H. destruct (redis_Open ck id tok r) as [r' [x|e]]; unfold handed in H; simpl in *; lia.
  - pose proof (revoke_present ck id tok r j). unfold handed in *. cbn [andb b2n] in *. lia.
  - pose proof (status_present ck id r j). unfold handed in *. cbn [andb b2n] in *. lia.
  - pose proof (sweep_present ck r j). cbn [b2n]. lia.
Qed.

(** ** Runs of the replicas *)

(** What the server carried out of an operation. *)
Definition carried_out (c : server_step) (s : Replicas) : list event :=
  match c with
  | Called Answered ck p | Called LostAfter ck p => [mkEvent ck p (run_op ck p (rp_redis s)).2]
  | _ => []
  end.

Definition answered (c : server_step) (got : option reply) : list event :=
  match c, got with Called _ ck p, Some a => [mkEvent ck p a] | _, _ => [] end.

(** The operations that were carried out and those whose answers came back,
    the last one first, and the replicas at the end. *)
Fixpoint play_replicas (steps : list server_step) (carried came : list event) (s : Replicas) : list event * list event * Replicas :=
  match steps with
  | [] => (carried, came, s)
  | c :: steps =>
      let '(s', got) := serve c s in
      play_replicas steps (carried_out c s ++ carried) (answered c got ++ came) s'
  end.

Lemma serve_present c s j :
  (present j (rDB (rp_redis (serve c s).1)) + occurrences (read_in j) (answered c (serve c s).2) <=
   present j (rDB (rp_redis s)) + occurrences (created_in j) (carried_out c s))%nat.
Proof.
  destruct c as [w ck p|i now|i w at_|id t]; simpl.
  - pose proof (op_present ck p (rp_redis s) j) as H. destruct w; simpl.
    + destruct (run_op ck p (rp_redis s)) as [r' a]. simpl in *. rewrite !occurrences_cons. unfold occurrences. simpl. lia.
    + unfold occurrences. simpl. lia.
    + rewrite occurrences_cons. unfold occurrences. simpl. lia.
  - unfold occurrences. simpl. lia.
  - unfold occurrences. simpl. destruct (rp_sweeps s !! i) as [sw|]; [|simpl; lia].
    pose proof (sweep_call_present w at_ sw j (rDB (rp_redis s))). destruct (sweep_call _ _ _ _) as [db next]. simpl in *. lia.
  - unfold occurrences. simpl. destruct (rdTtl (rDB (rp_redis s)) !! id) as [ttl|]; [|simpl; lia]. case_match; [|simpl; lia].
    simpl. pose proof (delete_present id j (rDB (rp_redis s)) (evict id (rDB (rp_redis s))) eq_refl). lia.
Qed.

Lemma play_present steps carried came s j :
  (occurrences (read_in j) came + present j (rDB (rp_redis s)) <= occurrences (created_in j) carried)%nat →
  let '(carried', came', s') := play_replicas steps carried came s in
  (occurrences (read_in j) came' + present j (rDB (rp_redis s')) <= occurrences (created_in j) carried')%nat.
Proof.
  revert carried came s. induction steps as [|c steps IH]; intros carried came s Hle; simpl; [done|].
  pose proof (serve_present c s j). destruct (serve c s) as [s' got]. simpl in *. apply IH. rewrite !occurrences_app. lia.
Qed.

(** C20. A secret kept in Redis is handed out at most once.  Whatever several
    replicas call, with whatever clocks, though calls are lost before they
    arrive and answers after they were carried out, though sweeps run in between
    call by call and Redis drops keys by itself: of the answers that reach a
    relay, those that carry a secret of an id are no more than the creations of
    that id that Redis carried out. *)
Theorem redis_reads_once o steps id :
  let '(carried, came, _) := play_replicas steps [] [] (newReplicas o) in
  (occurrences (read_in id) came <= occurrences (created_in id) carried)%nat.
Proof.
  pose proof (play_present steps [] [] (newReplicas o) id) as H.
  destruct (play_replicas _ _ _ _) as [[carried came] s]. assert (present id (rDB (rp_redis (newReplicas o))) = 0%nat) as H0 by done.
  assert (∀ P, occurrences P [] = 0%nat) as Hz by done. rewrite H0, !Hz in H. specialize (H ltac:(lia)). lia.
Qed.

(** * Refinement with replicas *)

(** ** What a call leaves alone

    No script but [redisCreate] and [redisRemove] makes or removes a key, and
    none changes the expiry of a slot. *)
Record steady (db db' : RedisDB) : Prop := {
  st_slots : ∀ id, option_Forall2 (λ h h', hExpires h' = hExpires h) (rdSlots db !! id) (rdSlots db' !! id);
  st_ttl : rdTtl db' = rdTtl db;
  st_removal : rdRemoval db' = rdRemoval db;
}.

#[export] Instance steady_preorder : PreOrder steady.
Proof.
  split.
  - intros db. split; [|done..]. intros id. destruct (rdSlots db !! id); by constructor.
  - intros db1 db2 db3 [S1 T1 R1] [S2 T2 R2]. split; [|congruence..]. intros id. specialize (S1 id). specialize (S2 id).
    inversion S1; inversion S2; try constructor; congruence.
Qed.

Lemma steady_alter (f : RHash → RHash) id db db' :
  (∀ h, hExpires (f h) = hExpires h) → rdSlots db' = alter f id (rdSlots db) → rdTtl db' = rdTtl db → rdRemoval db' = rdRemoval db →
  steady db db'.
Proof.
  intros Hf Hs Ht Hr. split; [|done..]. intros j. rewrite Hs. destruct (decide (j = id)) as [->|Hj].
  - rewrite lookup_alter_eq. destruct (rdSlots db !! id); constructor. apply Hf.
  - rewrite lookup_alter_ne by done. destruct (rdSlots db !! j); by constructor.
Qed.

Lemma steady_finish id st at_ db : steady db (tombstone_slot id st at_ (release id db)).
Proof. eapply (steady_alter (tombstone_hash st at_) id); [done|apply finish_slots|..]; unfold tombstone_slot, release; simpl; by case_match. Qed.

Lemma steady_expire at_ id db : steady db (redisExpire at_ id db).1.
Proof.
  unfold redisExpire. repeat case_match; simpl; try done; try apply steady_finish.
  all: split; [intros j; simpl; destruct (rdSlots db !! j); by constructor|done..].
Qed.

(** ** The removals that are behind

    Of the members of the sorted set of removals only those that still have a
    slot matter: no script but the sweeper's looks at the set. *)
Definition held_removal (db : RedisDB) : gmap string Z := filter (λ x, is_Some (rdSlots db !! x.1)) (rdRemoval db).
Definition set_removal (X : gmap string Z) : RedisDB → RedisDB := with_removal (λ _, X).
Definition tidy_db (db : RedisDB) : RedisDB := set_removal (held_removal db) db.
Definition tidy (r : Redis) : Redis := set_db (tidy_db (rDB r)) r.

Lemma held_lookup db id v : held_removal db !! id = Some v ↔ rdRemoval db !! id = Some v ∧ is_Some (rdSlots db !! id).
Proof. unfold held_removal. by rewrite map_lookup_filter_Some. Qed.

Lemma held_steady db db' : steady db db' → held_removal db' = held_removal db.
Proof.
  intros [Hs _ Hr]. apply map_eq. intros id. apply option_eq. intros v. rewrite !held_lookup, Hr.
  assert (is_Some (rdSlots db' !! id) ↔ is_Some (rdSlots db !! id)) as ->; [|done]. destruct (Hs id); by split; eauto.
Qed.

(** A script that knows nothing of the removals. *)
Definition blind (f : RedisDB → RedisDB * script_reply) : Prop :=
  ∀ X db, f (set_removal X db) = (set_removal X (f db).1, (f db).2).

Lemma with_slot_blind now id body :
  (∀ d, blind (body d)) → (∀ d db, steady db (body d db).1) →
  blind (with_slot now id body) ∧ ∀ db, steady db (with_slot now id body db).1.
Proof.
  intros Hb Hs. unfold with_slot.
  assert (∀ X db, script_get now id (set_removal X db) = (set_removal X (script_get now id db).1, (script_get now id db).2)) as Hget.
  { intros X db. unfold script_get. simpl. destruct (rdSlots db !! id) as [h|] eqn:Eh; [|done].
    destruct (negb _ && _); [|done]. unfold tombstone_slot, release, ct_length. simpl. rewrite Eh. by destruct (0 <? _). }
  split.
  - intros X db. rewrite Hget. destruct (script_get now id db) as [db1 [d|]]; simpl; [apply Hb|done].
  - intros db. assert (steady db (script_get now id db).1) as Hg.
    { unfold script_get. destruct (rdSlots db !! id); [|done]. case_match; [apply steady_finish|done]. }
    destruct (script_get now id db) as [db1 [d|]]; simpl in *; [|done]. etrans; [exact Hg|apply Hs].
Qed.

Lemma slot_tidy {A} (f : Drop * bytes → A) ck id (body : Z → string → LuaDrop → RedisDB → RedisDB * script_reply) r :
  (∀ now d, blind (body now id d)) → (∀ now d db, steady db (body now id d db).1) →
  let p := map_ok f (redis_slot ck id (λ now id, with_slot now id (body now id)) r) in
  map_ok f (redis_slot ck id (λ now id, with_slot now id (body now id)) (tidy r)) = (tidy p.1, p.2) ∧
  steady (rDB r) (rDB p.1).
Proof.
  intros Hb Hs. destruct (with_slot_blind (UnixMilli (ck 0%nat)) id (body (UnixMilli (ck 0%nat)) id) (Hb _) (Hs _)) as [Hbl Hst].
  unfold map_ok, redis_slot. change (rDB (tidy r)) with (set_removal (held_removal (rDB r)) (rDB r)). rewrite (Hbl (held_removal (rDB r)) (rDB r)). specialize (Hst (rDB r)).
  destruct (with_slot _ _ _ (rDB r)) as [db rep]. simpl in *. split; [|done].
  unfold tidy, tidy_db, set_db. simpl. by rewrite (held_steady _ _ Hst).
Qed.

Ltac script_branches := repeat match goal with
  | |- context [if ?b then _ else _] => destruct b
  end; done || apply steady_finish.

(** Every operation but the creation of a slot, and the sweep. *)
Lemma op_tidy ck p r :
  match p with OpCreate _ | OpSweep => False | _ => True end →
  run_op ck p (tidy r) = (tidy (run_op ck p r).1, (run_op ck p r).2) ∧ steady (rDB r) (rDB (run_op ck p r).1).
Proof.
  assert (∀ A (f : A → reply) (x y : Redis * A) db, x = (tidy y.1, y.2) ∧ steady db (rDB y.1) →
    mapr f x = (tidy (mapr f y).1, (mapr f y).2) ∧ steady db (rDB (mapr f y).1)) as Hlift by (intros A f x y db [-> ?]; done).
  destruct p as [|id tok com ct|id tok|id tok|id tok|id|]; intros Hp; try done; apply Hlift.
  - apply slot_tidy; [intros now d X db|intros now d db].
    + simpl. script_branches.
    + simpl. repeat (case_match; [done|]).
      eapply (steady_alter (set_uploaded now ct) id); [done|..]; simpl; by destruct (0 <? zlen ct).
  - apply slot_tidy; [intros now d X db|intros now d db].
    + simpl. unfold tombstone_slot, release, ct_length, slot_ct. simpl. script_branches.
    + simpl. script_branches.
  - apply slot_tidy; [intros now d X db|intros now d db].
    + simpl. unfold tombstone_slot, release, ct_length, slot_ct. simpl. script_branches.
    + simpl. script_branches.
  - apply slot_tidy; [intros now d X db|intros now d db].
    + simpl. unfold tombstone_slot, release, ct_length. simpl. script_branches.
    + simpl. script_branches.
  - apply slot_tidy; done.
Qed.

(** A slot that is made is the one key that is new. *)
Record made (id : string) (expires removeAt : Z) (db db' : RedisDB) : Prop := {
  md_fresh : rdSlots db !! id = None;
  md_slots : ∃ h, rdSlots db' = <[id := h]> (rdSlots db) ∧ hExpires h = expires;
  md_ttl : ∃ t, rdTtl db' = <[id := t]> (rdTtl db) ∧ removeAt <= t;
  md_removal : rdRemoval db' = <[id := removeAt]> (rdRemoval db);
}.

Lemma held_made id e t db db' : made id e t db db' → held_removal db' = <[id := t]> (held_removal db).
Proof.
  intros [Hn (h & Hs & _) _ Hr]. apply map_eq. intros j. apply option_eq. intros v. rewrite held_lookup, Hr, Hs.
  destruct (decide (j = id)) as [->|Hj].
  - rewrite !lookup_insert_eq. naive_solver.
  - rewrite !lookup_insert_ne, held_lookup by done. done.
Qed.

Lemma redisCreate_made now id h ct maxLive maxBytes removeAt db :
  (∀ X, redisCreate now id h ct maxLive maxBytes removeAt (set_removal X db) =
    (set_removal (<[id := removeAt]> X) (redisCreate now id h ct maxLive maxBytes removeAt db).1,
     (redisCreate now id h ct maxLive maxBytes removeAt db).2) ∧
   made id (hExpires h) removeAt db (redisCreate now id h ct maxLive maxBytes removeAt db).1) ∨
  (∀ X, redisCreate now id h ct maxLive maxBytes removeAt (set_removal X db) = (set_removal X db, just CFull)) ∧
   redisCreate now id h ct maxLive maxBytes removeAt db = (db, just CFull).
Proof.
  destruct (redisCreate_slots now id h ct maxLive maxBytes removeAt db) as [(Hok & Hn & Hs)|Hf].
  - left. intros X. unfold redisCreate in *. simpl. case_bool_decide; [done|].
    destruct ((0 <? maxLive) && _); [done|]. destruct ((0 <? maxBytes) && _); [done|]. simpl in *.
    split; [by destruct (0 <? zlen ct)|]. split; simpl; [done|done| |by destruct (0 <? zlen ct)].
    eexists. split; [by destruct (0 <? zlen ct)|]. destruct (Z.ltb_spec (removeAt - now) 1); lia.
  - right. split; [|done]. intros X. unfold redisCreate in *. simpl. case_bool_decide; [done|].
    destruct ((0 <? maxLive) && _); [done|]. destruct ((0 <? maxBytes) && _); [done|]. done.
Qed.

Lemma create_tidy ck d r :
  run_op ck (OpCreate d) (tidy r) = (tidy (run_op ck (OpCreate d) r).1, (run_op ck (OpCreate d) r).2) ∧
  (rDB (run_op ck (OpCreate d) r).1 = rDB r ∨
   made (ID d) (redisMillis (ExpiresAt d)) (redisMillis (Add (ExpiresAt d) (TombstoneGrace (rOpts r)))) (rDB r) (rDB (run_op ck (OpCreate d) r).1)).
Proof.
  cbn [run_op Create redis_store]. unfold mapr, redis_Create, map_ok, redis_slot. cbn [rOpts tidy set_db].
  change (rDB (tidy r)) with (set_removal (held_removal (rDB r)) (rDB r)).
  match goal with |- context [redisCreate ?a ?b ?c ?d ?e ?f ?g (rDB r)] =>
    destruct (redisCreate_made a b c d e f g (rDB r)) as [Hm|[Hf Hf']] end.
  - destruct (Hm (held_removal (rDB r))) as [E Hmade]. rewrite E.
    destruct (redisCreate _ _ _ _ _ _ _ (rDB r)) as [db rep]. simpl in *. split; [|by right].
    unfold tidy, tidy_db, set_db. simpl. by rewrite (held_made _ _ _ _ _ Hmade).
  - rewrite Hf, Hf'. split; [done|by left].
Qed.

(** ** The abstract store and its tidying

    Between calls the abstract store may expire a slot whose expiry has come,
    and forget one whose grace period is over. *)
Definition tidied (now : Time) (s s' : SpecStore) : Prop :=
  s' = s ∨
  ∃ id d, slots s !! id = Some d ∧
    (s' = mkSpec (sp_opts s) (<[id := observe now d]> (slots s)) ∨
     (ExpiresAt d + TombstoneGrace (sp_opts s) <= now ∧ s' = mkSpec (sp_opts s) (delete id (slots s)))).

(** What the abstract store does for a step of the server, and the reply. *)
Inductive spec_step : server_step → option reply → SpecStore → SpecStore → Prop :=
  | ss_lost ck p s : spec_step (Called LostBefore ck p) None s s
  | ss_answered ck p s s' a : run_op (ms_clock ck) (ms_op p) s = (s', a) → spec_step (Called Answered ck p) (Some a) s s'
  | ss_unanswered ck p s s' a : run_op (ms_clock ck) (ms_op p) s = (s', a) → spec_step (Called LostAfter ck p) None s s'
  | ss_begun i now s : spec_step (SweepBegun i now) None s s
  | ss_swept i w at_ s s' : tidied (time_UnixMilli at_) s s' → spec_step (SweepCalled i w at_) None s s'
  | ss_evicted id t s s' : tidied (time_UnixMilli t) s s' → spec_step (Evicted id t) None s s'.

Inductive spec_steps : list server_step → list (option reply) → SpecStore → SpecStore → Prop :=
  | ss_nil s : spec_steps [] [] s s
  | ss_cons c cs a l s s' s'' : spec_step c a s s' → spec_steps cs l s' s'' → spec_steps (c :: cs) (a :: l) s s''.

(** The answers of the server. *)
Fixpoint serve_all (steps : list server_step) (s : Replicas) : list (option reply) * Replicas :=
  match steps with
  | [] => ([], s)
  | c :: steps => let '(s', a) := serve c s in let '(l, s'') := serve_all steps s' in (a :: l, s'')
  end.

(** The steps that the refinement is about: identifiers are never used twice
    ([seen] has those that were), a clock does not run backwards during a
    sweep, and Redis drops no slot that is still live. *)
Definition step_ok (seen : gset string) (c : server_step) (s : Replicas) : Prop :=
  match c with
  | Called _ ck p => redis_ok ck p ∧ match p with OpCreate d => ID d ∉ seen | OpSweep => False | _ => True end
  | SweepBegun _ _ => True
  | SweepCalled i _ at_ => ∀ sw, rp_sweeps s !! i = Some sw → sw_now sw <= at_
  | Evicted id _ => ∀ h, rdSlots (rDB (rp_redis s)) !! id = Some h → hash_live h = false
  end.

Definition now_seen (c : server_step) (seen : gset string) : gset string :=
  match c with Called _ _ (OpCreate d) => {[ID d]} ∪ seen | _ => seen end.

Fixpoint steps_ok (seen : gset string) (steps : list server_step) (s : Replicas) : Prop :=
  match steps with
  | [] => True
  | c :: steps => step_ok seen c s ∧ steps_ok (now_seen c seen) steps (serve c s).1
  end.

(** ** The simulation *)

(** A sweeper is to remove only slots whose time has come by its clock. *)
Definition sweeper_ok (g : Z) (seen : gset string) (db : RedisDB) (sw : Sweeper) : Prop :=
  match sw_set sw, sw_todo sw with
  | Removing, RunScripts _ ids _ => ∀ id, id ∈ ids → id ∈ seen ∧ ∀ h, rdSlots db !! id = Some h → hExpires h + g <= sw_now sw
  | _, _ => True
  end.

Record sys_sim (g : Z) (seen : gset string) (s : Replicas) (a : SpecStore) : Prop := {
  sys_store : sim g (tidy (rp_redis s)) a;
  sys_seen : ∀ id, is_Some (rdRemoval (rDB (rp_redis s)) !! id) → id ∈ seen;
  sys_ttl : ∀ id h t, rdSlots (rDB (rp_redis s)) !! id = Some h → rdTtl (rDB (rp_redis s)) !! id = Some t → hExpires h + g <= t;
  sys_sweeps : ∀ i sw, rp_sweeps s !! i = Some sw → sweeper_ok g seen (rDB (rp_redis s)) sw;
}.

(** Slots, times to live and removals may go, and new ones be made of fresh
    identifiers; the rest of the invariant stays. *)
Definition outlived (g : Z) (seen : gset string) (db db' : RedisDB) : Prop :=
  (∀ id h', rdSlots db' !! id = Some h' → id ∉ seen ∨ ∃ h, rdSlots db !! id = Some h ∧ hExpires h' = hExpires h) ∧
  (∀ id h' t, rdSlots db' !! id = Some h' → rdTtl db' !! id = Some t → rdTtl db !! id = Some t ∧ id ∈ seen ∨ hExpires h' + g <= t).

Lemma sweeper_outlived g seen seen' db db' sw :
  seen ⊆ seen' → outlived g seen db db' → sweeper_ok g seen db sw → sweeper_ok g seen' db' sw.
Proof.
  intros Hsub [Hs _]. unfold sweeper_ok. destruct (sw_set sw), (sw_todo sw); try done.
  intros Hok id Hid. destruct (Hok id Hid) as [Hin Hle]. split; [set_solver|]. intros h' Hh'.
  destruct (Hs _ _ Hh') as [?|(h & Hh & ->)]; [done|]. by apply Hle.
Qed.

Lemma slot_seen g seen s a id h :
  sys_sim g seen s a → rdSlots (rDB (rp_redis s)) !! id = Some h →
  id ∈ seen ∧ rdRemoval (rDB (rp_redis s)) !! id = Some (hExpires h + g).
Proof.
  intros Hs Hh. pose proof (ok_removal _ _ (sim_ok _ _ _ (sim_data _ _ _ (sys_store _ _ _ _ Hs)))) as Hr. simpl in Hr.
  assert (held_removal (rDB (rp_redis s)) !! id = Some (hExpires h + g)) as [Hv _]%held_lookup.
  { change (held_removal (rDB (rp_redis s)) = omap (λ h, Some (hExpires h + g)) (rdSlots (rDB (rp_redis s)))) in Hr.
    by rewrite Hr, lookup_omap, Hh. }
  split; [|done]. apply (sys_seen _ _ _ _ Hs). by eexists.
Qed.

Lemma steady_outlived g seen db db' :
  (∀ id h, rdSlots db !! id = Some h → id ∈ seen) → steady db db' → outlived g seen db db'.
Proof.
  intros Hseen [Hs Ht _]. assert (∀ id h', rdSlots db' !! id = Some h' → ∃ h, rdSlots db !! id = Some h ∧ hExpires h' = hExpires h) as Hold.
  { intros id h' Hh'. specialize (Hs id). rewrite Hh' in Hs. inversion Hs as [h ? E Hh|]; subst. eauto. }
  split; [by right; apply Hold|]. intros id h' t Hh'. rewrite Ht. intros Htt. left. split; [done|].
  destruct (Hold _ _ Hh') as (h & Hh & _). by eapply Hseen.
Qed.

Lemma deleted_outlived g seen db db' id :
  (∀ id h, rdSlots db !! id = Some h → id ∈ seen) →
  rdSlots db' = delete id (rdSlots db) → rdTtl db' ⊆ rdTtl db → outlived g seen db db'.
Proof.
  intros Hseen Hs Ht. split.
  - intros j h'. rewrite Hs, lookup_delete_Some. intros [_ Hh']. right. eauto.
  - intros j h' t. rewrite Hs, lookup_delete_Some. intros [_ Hh'] Htt. left. split; [|by eapply Hseen].
    by eapply lookup_weaken.
Qed.

(** A step that only changes the database. *)
Lemma sys_step g seen seen' s a r' sweeps' a' :
  sys_sim g seen s a → seen ⊆ seen' → sim g (tidy r') a' → outlived g seen (rDB (rp_redis s)) (rDB r') →
  (∀ id, is_Some (rdRemoval (rDB r') !! id) → id ∈ seen') →
  (∀ i sw, sweeps' !! i = Some sw → rp_sweeps s !! i = Some sw ∨ sweeper_ok g seen' (rDB r') sw) →
  sys_sim g seen' (mkReplicas r' sweeps') a'.
Proof.
  intros Hs Hsub Hsim Hout Hseen Hsw. split; [done|done| |].
  - intros id h t Hh Ht. simpl in *. destruct (proj2 Hout id h t Hh Ht) as [[Ht' Hin]|?]; [|done].
    destruct (proj1 Hout id h Hh) as [?|(h0 & Hh0 & ->)]; [done|]. by eapply (sys_ttl _ _ _ _ Hs).
  - intros i sw Hi. destruct (Hsw i sw Hi) as [Hold|?]; [|done]. eapply sweeper_outlived; [done..|].
    by apply (sys_sweeps _ _ _ _ Hs i).
Qed.

(** ** The calls of a sweep, and what Redis does by itself *)

Lemma with_expiry_gone id db : rdExpiry db !! id = None → with_expiry (delete id) db = db.
Proof. intros Hn. unfold with_expiry. rewrite delete_id by done. by destruct db. Qed.

Lemma no_expiry g db id :
  db_ok g db → (∀ h, rdSlots db !! id = Some h → hash_live h = false) → rdExpiry db !! id = None.
Proof.
  intros Hok Hl. rewrite (ok_expiry _ _ Hok), lookup_omap. destruct (rdSlots db !! id) as [h|]; [|done]. simpl. unfold due.
  by rewrite Hl.
Qed.

Lemma sim_delete g r a db' id :
  sim g r a → db_ok g db' → rdSlots db' = delete id (rdSlots (rDB r)) →
  sim g (set_db db' r) (mkSpec (sp_opts a) (delete id (slots a))).
Proof.
  intros [Ho Hg Hs] Hok Hd. split; [done..|]. split; [done|]. intros j. simpl. rewrite Hd. destruct (decide (j = id)) as [->|Hj].
  - rewrite !lookup_delete_eq. constructor.
  - rewrite !lookup_delete_ne by done. apply Hs.
Qed.

Lemma forgets g t id h r a :
  sim g r a → rdSlots (rDB r) !! id = Some h → hExpires h + g <= t →
  tidied (time_UnixMilli t) a (mkSpec (sp_opts a) (delete id (slots a))).
Proof.
  intros [Ho Hg Hs] Hh Hle. destruct (sim_cases g _ _ id Hs) as [[E _]|(h0 & d & E & Hd & Hr)]; [congruence|].
  right. exists id, d. split; [done|]. right. split; [|done]. rewrite <- Ho, Hg.
  assert (h0 = h) as -> by congruence. rewrite (rel_expires _ _ _ Hr). unfold time_UnixMilli, Millisecond. lia.
Qed.

Lemma expire_sim g at_ id r a :
  sim g r a → ∃ a', sim g (set_db (redisExpire at_ id (rDB r)).1 r) a' ∧ tidied (time_UnixMilli at_) a a'.
Proof.
  intros Hsim. pose proof Hsim as [Ho Hg Hs]. pose proof (sim_ok _ _ _ Hs) as Hok.
  assert ((redisExpire at_ id (rDB r)).1 = rDB r → ∃ a', sim g (set_db (redisExpire at_ id (rDB r)).1 r) a' ∧ tidied (time_UnixMilli at_) a a') as Hsame.
  { intros ->. exists a. split; [by destruct r|by left]. }
  destruct (sim_cases g _ _ id Hs) as [[Hh Hd]|(h & d & Hh & Hd & Hr)].
  { apply Hsame. unfold redisExpire. rewrite Hh. apply with_expiry_gone, (no_expiry g); [done|]. congruence. }
  destruct (Terminal (hState h)) eqn:Et.
  { apply Hsame. unfold redisExpire. rewrite Hh, Et. apply with_expiry_gone, (no_expiry g); [done|].
    intros h' Hh'. replace h' with h by congruence. unfold hash_live. by rewrite Et. }
  destruct (Z.ltb_spec at_ (hExpires h)) as [Hlt|Hle].
  { apply Hsame. unfold redisExpire. rewrite Hh, Et. by rewrite (proj2 (Z.ltb_lt _ _) Hlt). }
  assert (hash_live h = true) as Hl by (unfold hash_live; by rewrite Et).
  destruct (finish_ok g (rDB r) id h StateExpired 0 Hok Hh Hl eq_refl) as [Hok' Hs'].
  unfold redisExpire. rewrite Hh, Et, (proj2 (Z.ltb_ge _ _) Hle). cbn [fst].
  exists (mkSpec (sp_opts a) (<[id := observe (time_UnixMilli at_) d]> (slots a))). split.
  - split; [done..|]. eapply sim_insert; [exact Hs|exact Hok'|exact Hs'|].
    unfold observe. rewrite (rel_live _ _ _ Hr), Hl, (rel_expires _ _ _ Hr), time_UnixMilli_le, (proj2 (Z.leb_le _ _) Hle). by apply rel_tombstone.
  - right. exists id, d. auto.
Qed.

Lemma remove_sim g t id r a :
  sim g r a → (∀ h, rdSlots (rDB r) !! id = Some h → hExpires h + g <= t) →
  ∃ a', sim g (set_db (redisRemove id (rDB r)).1 r) a' ∧ tidied (time_UnixMilli t) a a'.
Proof.
  intros Hsim Hdue. pose proof Hsim as [Ho Hg Hs]. destruct (rdSlots (rDB r) !! id) as [h|] eqn:Hh.
  - destruct (remove_there g id h (rDB r) (sim_good _ _ _ Hs) Hh) as (_ & [Hok _] & Hs' & _).
    eexists. split; [by apply sim_delete|]. by eapply forgets; [| |apply Hdue].
  - exists a. split; [|by left]. assert ((redisRemove id (rDB r)).1 = rDB r) as ->; [|by destruct r].
    unfold redisRemove. simpl. rewrite Hh. simpl. pose proof (sim_ok _ _ _ Hs) as Hok.
    rewrite with_expiry_gone.
    + unfold with_removal. rewrite delete_id; [by destruct (rDB r)|]. by rewrite (ok_removal _ _ Hok), lookup_omap, Hh.
    + apply (no_expiry g (rDB r)); [done|]. congruence.
Qed.

Lemma evict_sim g t id h r a :
  sim g r a → rdSlots (rDB r) !! id = Some h → hash_live h = false → hExpires h + g <= t →
  ∃ a', sim g (set_db (with_removal (delete id) (evict id (rDB r))) r) a' ∧ tidied (time_UnixMilli t) a a'.
Proof.
  intros Hsim Hh Hl Hdue. pose proof Hsim as [Ho Hg Hs]. destruct (sim_good _ _ _ Hs) as [Hok Hc].
  eexists. split; [|by eapply forgets]. apply sim_delete; [done| |done].
  apply (remove_ok g (rDB r) _ id h); try done; simpl.
  - symmetry. apply delete_id, (no_expiry g); [done|]. intros h' Hh'. by replace h' with h by congruence.
  - unfold hash_occupied. rewrite Hl. lia.
  - rewrite (Hc _ _ Hh Hl). lia.
Qed.

(** ... each of them on the database with the removals that matter. *)
Lemma expire_tidy at_ id r :
  tidy (set_db (redisExpire at_ id (rDB r)).1 r) = set_db (redisExpire at_ id (rDB (tidy r))).1 (tidy r).
Proof.
  unfold tidy, tidy_db, set_db. simpl. rewrite (held_steady _ _ (steady_expire at_ id (rDB r))). f_equal.
  unfold redisExpire, set_removal. simpl. repeat case_match; try done.
  unfold tombstone_slot, release, ct_length. simpl. by destruct (0 <? _).
Qed.

Lemma held_delete id db db' :
  rdSlots db' = delete id (rdSlots db) → delete id (rdRemoval db') = delete id (rdRemoval db) → held_removal db' = delete id (held_removal db).
Proof.
  intros Hs Hr. apply map_eq. intros j. apply option_eq. intros v. rewrite lookup_delete_Some, !held_lookup, Hs.
  destruct (decide (j = id)) as [->|Hj]; [rewrite lookup_delete_eq; naive_solver|].
  rewrite lookup_delete_ne by done. assert (rdRemoval db' !! j = rdRemoval db !! j) as ->; [|naive_solver].
  by rewrite <- (lookup_delete_ne _ id j), Hr, lookup_delete_ne.
Qed.

Lemma remove_removal id db : rdRemoval (redisRemove id db).1 = delete id (rdRemoval db).
Proof. unfold redisRemove, release. simpl. repeat case_match; done. Qed.

Lemma remove_ttl id db : rdTtl (redisRemove id db).1 ⊆ rdTtl db.
Proof. unfold redisRemove, release. simpl. repeat case_match; simpl; done || apply delete_subseteq. Qed.

Lemma remove_tidy id r :
  tidy (set_db (redisRemove id (rDB r)).1 r) = set_db (redisRemove id (rDB (tidy r))).1 (tidy r).
Proof.
  unfold tidy, tidy_db, set_db. simpl. rewrite (held_delete id (rDB r)).
  - f_equal. unfold redisRemove, set_removal. simpl. repeat case_match; try done.
    unfold release, ct_length. simpl. by destruct (0 <? _).
  - apply remove_slots.
  - by rewrite remove_removal, delete_delete_eq.
Qed.

Lemma evict_tidy id r :
  tidy (set_db (evict id (rDB r)) r) = set_db (with_removal (delete id) (evict id (rDB (tidy r)))) (tidy r).
Proof. unfold tidy, tidy_db, set_db. simpl. by rewrite (held_delete id (rDB r)). Qed.

Lemma script_sim g set at_ id r a :
  sim g (tidy r) a → (set = Removing → ∀ h, rdSlots (rDB r) !! id = Some h → hExpires h + g <= at_) →
  ∃ a', sim g (tidy (set_db (script_of set at_ id (rDB r)).1 r)) a' ∧ tidied (time_UnixMilli at_) a a'.
Proof.
  intros Hs Hdue. destruct set; simpl.
  - rewrite expire_tidy. by apply expire_sim.
  - rewrite remove_tidy. apply remove_sim; [done|]. by apply Hdue.
Qed.

Lemma script_outlived g seen set at_ id db :
  (∀ id h, rdSlots db !! id = Some h → id ∈ seen) →
  outlived g seen db (script_of set at_ id db).1 ∧ rdRemoval (script_of set at_ id db).1 ⊆ rdRemoval db.
Proof.
  intros Hseen. destruct set; simpl.
  - pose proof (steady_expire at_ id db) as Hst. split; [by apply steady_outlived|]. by rewrite (st_removal _ _ Hst).
  - split; [|rewrite remove_removal; apply delete_subseteq].
    by eapply deleted_outlived; [done|apply remove_slots|apply remove_ttl].
Qed.

Lemma set_done_ok g seen db touched sw sw' : set_done touched sw = inl sw' → sweeper_ok g seen db sw'.
Proof. unfold set_done. by destruct (sw_set sw); intros [= <-]. Qed.

Lemma zrange_due set max n id : id ∈ zrange set max n → ∃ v, set !! id = Some v ∧ v <= max.
Proof.
  change (zrange set max n) with (take n (named max set)). intros Hid.
  assert (id ∈ named max set) as [v Hv%due_lookup]%named_due; [|by exists v].
  rewrite <- (take_drop n). apply elem_of_app. by left.
Qed.

(** What a sweep asks for next is due by its clock. *)
Lemma asked_ok g seen s a sw first ids full touched :
  sys_sim g seen s a → ids = zrange (set_of (sw_set sw) (rDB (rp_redis s))) (sw_now sw) sweep_batch →
  sweeper_ok g seen (rDB (rp_redis s)) (mkSweeper (sw_now sw) (sw_set sw) (RunScripts first ids full) touched).
Proof.
  intros Hs ->. unfold sweeper_ok. cbn [sw_set sw_todo sw_now]. destruct (sw_set sw); [done|].
  intros id (v & Hv & Hle)%zrange_due. simpl in Hv. split; [apply (sys_seen _ _ _ _ Hs); by eexists|].
  intros h Hh. destruct (slot_seen _ _ _ _ _ _ Hs Hh) as [_ Hr]. congruence.
Qed.

Lemma update_sweeps {P : Sweeper → Prop} (sweeps : gmap nat Sweeper) i (next : Sweeper + Z) :
  (∀ sw', next = inl sw' → P sw') →
  ∀ j sw, match next with inl sw' => <[i := sw']> sweeps | inr _ => delete i sweeps end !! j = Some sw → sweeps !! j = Some sw ∨ P sw.
Proof.
  intros Hn j sw. destruct next as [sw'|n].
  - intros [[-> ->]|[_ ?]]%lookup_insert_Some; [right; by apply Hn|by left].
  - intros [_ ?]%lookup_delete_Some. by left.
Qed.

Section replicas.
Context (g : Z) (Hg : 0 <= g).

Lemma called_sim seen ck p s a :
  redis_ok ck p → match p with OpCreate d => ID d ∉ seen | OpSweep => False | _ => True end → sys_sim g seen s a →
  ∃ a', run_op (ms_clock ck) (ms_op p) a = (a', (run_op ck p (rp_redis s)).2) ∧
    sys_sim g (now_seen (Called Answered ck p) seen) (mkReplicas (run_op ck p (rp_redis s)).1 (rp_sweeps s)) a'.
Proof using Hg.
  intros Hok Hp Hs. destruct (redis_step g Hg ck p _ _ Hok (sys_store _ _ _ _ Hs)) as [Hr Hs'].
  assert (∀ id h, rdSlots (rDB (rp_redis s)) !! id = Some h → id ∈ seen) as Hseen by (intros; by eapply slot_seen).
  assert (run_op ck p (tidy (rp_redis s)) = (tidy (run_op ck p (rp_redis s)).1, (run_op ck p (rp_redis s)).2)) as Htidy
    by (destruct p; try done; first [by apply create_tidy | by apply op_tidy]).
  rewrite Htidy in Hr, Hs'. eexists. split; [rewrite (surjective_pairing (run_op (ms_clock ck) _ _)); f_equal; by symmetry|].
  assert (match p with OpCreate _ => False | _ => True end → steady (rDB (rp_redis s)) (rDB (run_op ck p (rp_redis s)).1)) as Hst
    by (destruct p; try done; intros _; by apply op_tidy).
  destruct p as [d| | | | | |]; try done.
  2-6: eapply sys_step; [exact Hs|done|exact Hs'|apply steady_outlived; auto| |by left];
    intros j; rewrite (st_removal _ _ (Hst I)); apply (sys_seen _ _ _ _ Hs).
  destruct (proj2 (create_tidy ck d (rp_redis s))) as [E|[Hn (h & Hsl & He) (t & Ht & Hle) Hrem]].
  - eapply sys_step; [exact Hs|simpl; set_solver|exact Hs'|rewrite E; by apply steady_outlived| |by left].
    intros id. rewrite E. intros Hid%(sys_seen _ _ _ _ Hs). simpl. set_solver.
  - assert (hExpires h + g <= t) as Htime.
    { rewrite He. destruct (sys_store _ _ _ _ Hs) as [_ Hgr _]. change (TombstoneGrace (rOpts (rp_redis s)) = g * Millisecond) in Hgr.
      rewrite Hgr, removal_time in Hle by (apply Hok || done). done. }
    eapply sys_step; [exact Hs|simpl; set_solver|exact Hs'| | |by left].
    + split; intros id; rewrite Hsl; [intros h'|rewrite Ht; intros h' t']; destruct (decide (id = ID d)) as [->|Hid];
        rewrite ?lookup_insert_eq, ?lookup_insert_ne by done; [by left|by right; eauto|intros [= <-] [= <-]; by right|].
      intros Hh' Ht'. left. split; [done|by eapply Hseen].
    + intros id. rewrite Hrem, lookup_insert_is_Some'. simpl. intros [->|Hid%(sys_seen _ _ _ _ Hs)]; set_solver.
Qed.

Lemma swept_sim seen i w at_ s a :
  step_ok seen (SweepCalled i w at_) s → sys_sim g seen s a →
  ∃ a', tidied (time_UnixMilli at_) a a' ∧ sys_sim g seen (serve (SweepCalled i w at_) s).1 a'.
Proof.
  intros Hclock Hs. simpl in *. destruct (rp_sweeps s !! i) as [sw|] eqn:Esw; [|exists a; split; [by left|done]].
  specialize (Hclock sw eq_refl). pose proof (sys_sweeps _ _ _ _ Hs i sw Esw) as Hsw.
  assert (∀ id h, rdSlots (rDB (rp_redis s)) !! id = Some h → id ∈ seen) as Hseen by (intros; by eapply slot_seen).
  assert (∀ next : Sweeper + Z, (∀ sw', next = inl sw' → sweeper_ok g seen (rDB (rp_redis s)) sw') →
    sys_sim g seen (mkReplicas (set_db (rDB (rp_redis s)) (rp_redis s))
      match next with inl sw' => <[i := sw']> (rp_sweeps s) | inr _ => delete i (rp_sweeps s) end) a) as Hidle.
  { intros next Hnext. assert (set_db (rDB (rp_redis s)) (rp_redis s) = rp_redis s) as -> by by destruct (rp_redis s).
    eapply sys_step; [exact Hs|done|apply Hs|by apply steady_outlived|apply (sys_seen _ _ _ _ Hs)|by apply update_sweeps]. }
  unfold sweep_call. destruct (sw_todo sw) as [last|first [|id ids] full] eqn:Etodo; cbn [fst].
  - exists a. split; [by left|]. apply Hidle. intros sw' Hn.
    destruct w; [|by eapply set_done_ok..]. destruct (zrange _ _ _) as [|first ids] eqn:Ez; [by eapply set_done_ok|].
    case_bool_decide; [by eapply set_done_ok|]. injection Hn as <-. eapply asked_ok; [done|by symmetry].
  - exists a. split; [by left|]. apply Hidle. intros sw' Hn. destruct full; [by injection Hn as <-; unfold sweeper_ok; simpl; case_match|by eapply set_done_ok].
  - destruct (script_sim g (sw_set sw) at_ id (rp_redis s) a (sys_store _ _ _ _ Hs)) as (a' & Hs' & Ht).
    { intros Eset h Hh. unfold sweeper_ok in Hsw. rewrite Eset, Etodo in Hsw.
      destruct (Hsw id ltac:(left)) as [_ Hdue]. specialize (Hdue h Hh). lia. }
    destruct (script_outlived g seen (sw_set sw) at_ id _ Hseen) as [Hout Hrem].
    assert (∀ next : Sweeper + Z, (∀ sw', next = inl sw' → sweeper_ok g seen (script_of (sw_set sw) at_ id (rDB (rp_redis s))).1 sw') →
      sys_sim g seen (mkReplicas (set_db (script_of (sw_set sw) at_ id (rDB (rp_redis s))).1 (rp_redis s))
        match next with inl sw' => <[i := sw']> (rp_sweeps s) | inr _ => delete i (rp_sweeps s) end) a') as Hmoved.
    { intros next Hnext. eapply sys_step; [exact Hs|done|exact Hs'|done| |by apply update_sweeps].
      intros j [v Hv]. apply (sys_seen _ _ _ _ Hs). exists v. by eapply lookup_weaken. }
    destruct (script_of _ _ _ _) as [db' one]. cbn [fst] in *.
    destruct w; [exists a'; split; [done|]; apply Hmoved|exists a; split; [by left|]; apply Hidle|exists a'; split; [done|]; apply Hmoved].
    2-3: intros sw'; by eapply set_done_ok.
    intros sw' [= <-]. eapply sweeper_outlived; [done|exact Hout|]. unfold sweeper_ok in *. rewrite Etodo in Hsw. cbn [sw_set sw_todo sw_now].
    destruct (sw_set sw); [done|]. intros j Hj. apply Hsw. by right.
Qed.

Lemma evicted_sim seen id t s a :
  step_ok seen (Evicted id t) s → sys_sim g seen s a →
  ∃ a', tidied (time_UnixMilli t) a a' ∧ sys_sim g seen (serve (Evicted id t) s).1 a'.
Proof.
  intros Hlive Hs. simpl in *. destruct (rdTtl (rDB (rp_redis s)) !! id) as [ttl|] eqn:Et; [|exists a; split; [by left|done]].
  destruct (Z.leb_spec ttl t) as [Hle|]; [|exists a; split; [by left|done]].
  assert (∀ id h, rdSlots (rDB (rp_redis s)) !! id = Some h → id ∈ seen) as Hseen by (intros; by eapply slot_seen).
  assert (outlived g seen (rDB (rp_redis s)) (evict id (rDB (rp_redis s)))) as Hout
    by (by eapply deleted_outlived; [done|reflexivity|apply delete_subseteq]).
  destruct (rdSlots (rDB (rp_redis s)) !! id) as [h|] eqn:Hh.
  - pose proof (sys_ttl _ _ _ _ Hs id h ttl Hh Et).
    destruct (evict_sim g t id h (tidy (rp_redis s)) a) as (a' & Hs' & Ht); [apply Hs|done|by apply Hlive|lia|].
    exists a'. split; [done|]. rewrite <- evict_tidy in Hs'.
    eapply sys_step; [exact Hs|done|exact Hs'|done|apply (sys_seen _ _ _ _ Hs)|by left].
  - exists a. split; [by left|]. eapply sys_step; [exact Hs|done| |done|apply (sys_seen _ _ _ _ Hs)|by left].
    destruct (sys_store _ _ _ _ Hs) as [H1 H2 H3].
    assert (tidy (set_db (evict id (rDB (rp_redis s))) (rp_redis s)) = set_db (mkRedisDB (rdSlots (rDB (rp_redis s))) (delete id (rdTtl (rDB (rp_redis s))))
      (rdExpiry (rDB (rp_redis s))) (held_removal (rDB (rp_redis s))) (rdLive (rDB (rp_redis s))) (rdBytes (rDB (rp_redis s)))) (rp_redis s)) as ->.
    { unfold tidy, tidy_db, set_db. simpl. rewrite (held_delete id (rDB (rp_redis s))) by done. unfold set_removal, with_removal, evict, del_slot. simpl.
      rewrite delete_id by done. rewrite (delete_id (held_removal _)); [done|]. apply eq_None_not_Some. intros [v [_ [h Hv]]%held_lookup]. congruence. }
    split; [done..|]. destruct H3 as [[E1 E2 E3 E4] H4]. split; [split|]; done.
Qed.

Lemma serve_sim seen c s a :
  step_ok seen c s → sys_sim g seen s a →
  ∃ a', spec_step c (serve c s).2 a a' ∧ sys_sim g (now_seen c seen) (serve c s).1 a'.
Proof using Hg.
  intros Hok Hs. destruct c as [w ck p|i now|i w at_|id t].
  - destruct Hok as [Hr Hp]. destruct (called_sim seen ck p s a Hr Hp Hs) as (a' & Hrun & Hs').
    destruct w; simpl.
    + exists a'. destruct (run_op ck p (rp_redis s)) as [r' x]. simpl in *. split; [by constructor|done].
    + exists a. split; [constructor|]. eapply sys_step; [exact Hs| |apply Hs| | |by left].
      * destruct p; simpl; set_solver.
      * apply steady_outlived; [intros; by eapply slot_seen|done].
      * intros id Hid%(sys_seen _ _ _ _ Hs). destruct p; simpl; set_solver.
    + exists a'. split; [by econstructor|done].
  - exists a. split; [constructor|]. eapply sys_step; [exact Hs|done|apply Hs| |apply (sys_seen _ _ _ _ Hs)|].
    + apply steady_outlived; [intros; by eapply slot_seen|done].
    + intros j sw [[-> <-]|[_ ?]]%lookup_insert_Some; [by right|by left].
  - destruct (swept_sim seen i w at_ s a Hok Hs) as (a' & Ht & Hs'). exists a'. split; [|done].
    simpl. destruct (rp_sweeps s !! i) as [sw|]; [destruct (sweep_call _ _ _ _)|]; by constructor.
  - destruct (evicted_sim seen id t s a Hok Hs) as (a' & Ht & Hs'). exists a'. split; [|done].
    simpl. destruct (rdTtl (rDB (rp_redis s)) !! id) as [ttl|]; [destruct (ttl <=? t)|]; by constructor.
Qed.

Lemma serve_all_sim seen steps s a :
  steps_ok seen steps s → sys_sim g seen s a →
  ∃ a' seen', spec_steps steps (serve_all steps s).1 a a' ∧ sys_sim g seen' (serve_all steps s).2 a'.
Proof using Hg.
  revert seen s a. induction steps as [|c steps IH]; intros seen s a Hok Hs; simpl.
  - exists a, seen. split; [constructor|done].
  - destruct Hok as [Hc Hok]. destruct (serve_sim seen c s a Hc Hs) as (a1 & Hst & Hs1).
    destruct (IH _ _ _ Hok Hs1) as (a2 & seen2 & Hrest & Hs2). exists a2, seen2.
    destruct (serve c s) as [s1 x]. simpl in *. destruct (serve_all steps s1) as [l s2]. simpl in *.
    split; [by econstructor|done].
Qed.

(** C19. Several replicas at one Redis are one store.  Whatever they call, with
    calls and answers that get lost, with sweeps that run call by call between
    the calls of requests and of other sweeps, and with keys that Redis drops
    once their time is up: every answer is the one that the abstract store gives
    to the same calls with times in whole milliseconds, where between the calls,
    at a sweep's or at the drop's reading of the clock, slots past their expiry
    expire and slots past their grace period are forgotten and nothing else
    happens.  The counters of live slots and of bytes are those of its slots.
    This holds as long as Redis drops no slot that is still live, which would
    leave the counters wrong for good; an identifier must not be used twice, a
    clock must stand after the epoch and not run backwards during a call or a
    sweep, and the grace period is a whole number of milliseconds. *)
Theorem redis_refines_spec o steps :
  TombstoneGrace (withDefaults o) = g * Millisecond → steps_ok ∅ steps (newReplicas o) →
  let '(answers, s) := serve_all steps (newReplicas o) in
  ∃ a, spec_steps steps answers (spec_init o) a ∧
    Live (StatsOf (rp_redis s)) = live_count (slots a) ∧ sBytes (StatsOf (rp_redis s)) = held_bytes (slots a).
Proof using Hg.
  intros Hgrace Hok. destruct (serve_all_sim ∅ steps (newReplicas o) (spec_init o) Hok) as (a & seen & Hst & Hs).
  { split; [by apply newRedis_sim|..]; simpl; intros *; rewrite ?lookup_empty; done. }
  destruct (serve_all steps (newReplicas o)) as [answers s]. exists a. split; [done|].
  destruct (sys_store _ _ _ _ Hs) as [_ _ Hd]. split; [exact (sim_live _ _ _ Hd)|exact (sim_bytes _ _ _ Hd)].
Qed.
End replicas.

(** ** A sweep that nothing falls into

    One call after the other, with nothing in between, a sweep does what
    [redis_Sweep] does. *)
Inductive undisturbed (ck : Clock) : nat → Sweeper → RedisDB → RedisDB * Z → Prop :=
  | ud_end k sw db db' n : sweep_call Answered (UnixMilli (ck k)) sw db = (db', inr n) → undisturbed ck k sw db (db', n)
  | ud_next k sw sw' db db' res :
      sweep_call Answered (UnixMilli (ck k)) sw db = (db', inl sw') →
      undisturbed ck (match sw_todo sw with RunScripts _ (_ :: _) _ => S k | _ => k end) sw' db' res → undisturbed ck k sw db res.

Section undisturbed.
Context (ck : Clock) (now : Z) (set : sweep_set).

(** The sweep goes on after its loop over the set. *)
Definition goes_on (k : nat) (touched : Z) (db : RedisDB) (res : RedisDB * Z) : Prop :=
  match set_done touched (mkSweeper now set (AskMembers None) touched) with
  | inl sw' => undisturbed ck k sw' db res
  | inr n => res = (db, n)
  end.

Lemma goes_on_done k touched todo db db0 res at_ :
  goes_on k touched db res → sweep_call Answered at_ (mkSweeper now set todo touched) db0 = (db, set_done touched (mkSweeper now set todo touched)) →
  at_ = UnixMilli (ck k) → (match todo with RunScripts _ (_ :: _) _ => False | _ => True end) →
  undisturbed ck k (mkSweeper now set todo touched) db0 res.
Proof.
  unfold goes_on, set_done. cbn [sw_set sw_now]. intros Hgo Hc -> Ht. destruct set.
  - eapply ud_next; [exact Hc|]. simpl. by destruct todo as [|? []].
  - subst res. by apply ud_end.
Qed.

Lemma scripts_undisturbed k first ids full touched db res :
  undisturbed ck (k + length ids) (mkSweeper now set (RunScripts first [] full) (run_scripts ck k (script_of set) ids touched db).2)
    (run_scripts ck k (script_of set) ids touched db).1 res →
  undisturbed ck k (mkSweeper now set (RunScripts first ids full) touched) db res.
Proof.
  revert k touched db. induction ids as [|id ids IH]; intros k touched db; simpl; [by rewrite Nat.add_0_r|].
  destruct (script_of set (UnixMilli (ck k)) id db) as [db1 one] eqn:E. intros Hrest.
  eapply ud_next; [unfold sweep_call; cbn [sw_todo sw_set]; by rewrite E|]. simpl. apply IH.
  by rewrite Nat.add_succ_l, <- Nat.add_succ_r.
Qed.

Context (good : RedisDB → Prop) (Hscript : ∀ at_ id db, now <= at_ → good db → is_Some (due_set now (set_of set db) !! id) →
  ∃ db', script_of set at_ id db = (db', true) ∧ good db' ∧ tt = tt ∧ set_of set db' = delete id (set_of set db)).
Context (Hck : ∀ k, now <= UnixMilli (ck k)).

Lemma sweepSet_undisturbed fuel k last touched db res :
  (size (due_set now (set_of set db)) < fuel)%nat → good db →
  (let '(db', t', k') := sweepSet fuel ck k (set_of set) now (script_of set) last touched db in goes_on k' t' db' res) →
  undisturbed ck k (mkSweeper now set (AskMembers last) touched) db res.
Proof using Hscript Hck.
  revert k last touched db. induction fuel as [|fuel IH]; intros k last touched db Hf Hgood; [lia|]. cbn [sweepSet].
  set (ids := zrange (set_of set db) now sweep_batch).
  assert (∀ at_, sweep_call Answered at_ (mkSweeper now set (AskMembers last) touched) db =
    (db, match ids with
         | [] => set_done touched (mkSweeper now set (AskMembers last) touched)
         | first :: _ => if bool_decide (Some first = last) then set_done touched (mkSweeper now set (AskMembers last) touched)
             else go_on (RunScripts first ids (negb (length ids <? sweep_batch)%nat)) touched (mkSweeper now set (AskMembers last) touched)
         end)) as Hask.
  { intros at_. unfold sweep_call. cbn [sw_todo sw_set sw_now sw_touched]. fold ids. by destruct ids. }
  assert (∀ id, id ∈ ids → is_Some (due_set now (set_of set db) !! id)) as Hdue.
  { intros id (v & Hv & Hle)%zrange_due. exists v. by apply due_lookup. }
  assert (NoDup ids) as Hnd by (eapply sublist_NoDup; [apply (named_NoDup now (set_of set db))|apply sublist_take]).
  clearbody ids. destruct ids as [|first ids']; [intros Hgo; by eapply goes_on_done; [exact Hgo|apply Hask|..]|].
  cbv beta iota in Hask. rewrite (bool_decide_false (first :: ids' = [])) by done. cbn [orb head]. case_bool_decide as Hlast.
  { intros Hgo. by eapply goes_on_done; [exact Hgo|apply Hask|..]. }
  destruct (run_scripts_due (set_of set) now (script_of set) good (λ _, tt) Hscript ck Hck k (first :: ids') touched db Hgood Hnd Hdue)
    as (db1 & E & Hg1 & _ & Hsize & _). rewrite E.
  intros Hrest. eapply ud_next; [apply Hask|]. cbn [sw_todo]. apply scripts_undisturbed. rewrite E. cbn [fst snd].
  destruct (length (first :: ids') <? sweep_batch)%nat.
  - by eapply goes_on_done.
  - eapply ud_next; [reflexivity|]. cbn [sw_todo]. apply IH; [cbn [length] in Hsize; lia|done|exact Hrest].
Qed.
End undisturbed.

Lemma run_scripts_add ck k script ids touched n db :
  run_scripts ck k script ids (touched + n) db = ((run_scripts ck k script ids touched db).1, (run_scripts ck k script ids touched db).2 + n).
Proof.
  revert k touched db. induction ids as [|id ids IH]; intros k touched db; simpl; [done|]. destruct (script _ _ _) as [db1 one].
  rewrite <- IH. destruct one; [|done]. f_equal. lia.
Qed.

Lemma sweepSet_add fuel ck k which now script last touched n db :
  sweepSet fuel ck k which now script last (touched + n) db =
  (let '(db', t, k') := sweepSet fuel ck k which now script last touched db in (db', t + n, k')).
Proof.
  revert k last touched db. induction fuel as [|fuel IH]; intros k last touched db; [done|]. cbn [sweepSet].
  destruct (_ || _); [done|]. rewrite run_scripts_add. destruct (run_scripts _ _ _ _ touched _) as [db1 t1]. cbn [fst snd].
  destruct (_ <? _)%nat; [done|]. apply IH.
Qed.

Lemma sweep_undisturbed g ck r :
  (∀ j, UnixMilli (ck 0%nat) <= UnixMilli (ck j)) → good g (rDB r) →
  undisturbed ck 1 (sweep_begin (UnixMilli (ck 0%nat))) (rDB r) (rDB (redis_Sweep ck r).1, (redis_Sweep ck r).2).
Proof.
  intros Hck Hgood. set (now := UnixMilli (ck 0%nat)). unfold redis_Sweep. fold now.
  destruct (sweep_phase1 g ck 1 (rDB r) Hck Hgood) as (db1 & k1 & E1 & Hg1 & _). fold now in E1.
  pose proof (sweepSet_add (S (size (rdRemoval db1))) ck k1 rdRemoval now (λ _, redisRemove) None 0
    (Z.of_nat (size (due_set now (rdExpiry (rDB r))))) db1) as Hadd.
  assert (∀ (m : gmap string Z), (size (due_set now m) < S (size m))%nat) as Hfuel.
  { intros m. unfold due_set. pose proof (map_size_filter (λ x : string * Z, x.2 <= now) m). lia. }
  apply (sweepSet_undisturbed ck now Expiring (good g)) with (fuel := S (size (rdExpiry (rDB r)))); [|done|apply Hfuel|done|].
  { intros at_ id db Hat Hg Hd. destruct (expire_script g now at_ id db Hat Hg Hd) as (db' & ? & ? & _ & ?). by exists db'. }
  cbn [set_of script_of]. rewrite E1. unfold goes_on. cbn [set_done sw_set sw_now].
  apply (sweepSet_undisturbed ck now Removing (good g)) with (fuel := S (size (rdRemoval db1))); [|done|apply Hfuel|done|].
  { intros at_ id db Hat Hg Hd. destruct (remove_script g now at_ id db Hat Hg Hd) as (db' & ? & ? & _ & ?). by exists db'. }
  cbn [set_of script_of]. rewrite Z.add_0_l in Hadd. rewrite Hadd.
  destruct (sweepSet _ ck k1 _ _ _ _ 0 db1) as [[db2 m] k2]. unfold goes_on. cbn [set_done sw_set fst snd rDB]. f_equal. lia.
Qed.

(** * Concrete runs *)

(** The answer to the first fetch is lost; the secret is gone all the same. *)
Definition redis_lossy : list server_step :=
  [Called Answered (at_ms 1000) (OpCreate (redis_slot_of "d" KindDrop [])); Called Answered (at_ms 2000) demo_upload;
   Called LostBefore (at_ms 3000) demo_fetch; Called LostAfter (at_ms 3001) demo_fetch; Called Answered (at_ms 3002) demo_fetch].

Lemma redis_reads_once_witness :
  (ev_reply <$> (play_replicas redis_lossy [] [] (newReplicas demo_opts)).1.2 =
     [RRead (Err (StateError StateFetched (time_UnixMilli 3001))); RUnit (Ok tt); RUnit (Ok tt)]) ∧
  let '(carried, came, _) := play_replicas redis_lossy [] [] (newReplicas demo_opts) in
  (occurrences (read_in "d") came <= occurrences (created_in "d") carried)%nat.
Proof. split; [vm_compute; reflexivity|]. exact (redis_reads_once demo_opts redis_lossy "d"). Defined.

(** Two sweeps, a request between their calls, and a tombstone that Redis drops
    before a sweep removes it. *)
Definition redis_swept : list server_step :=
  [Called Answered (at_ms 1000) (OpCreate (redis_slot_of "d" KindDrop []));
   Called Answered (at_ms 1001) (OpCreate (redis_slot_of "r" KindReveal demo_ct));
   SweepBegun 0 9000; SweepBegun 1 9000; SweepCalled 0 Answered 9000; SweepCalled 1 Answered 9000;
   SweepCalled 0 Answered 9001; Called Answered (at_ms 9002) demo_open; SweepCalled 1 LostAfter 9003;
   SweepCalled 0 Answered 9004; Called Answered (at_ms 9005) (OpStatus "d");
   Evicted "d" 3609000; Called Answered (at_ms 3609000) (OpStatus "d")].

Lemma called_ok seen w n p s :
  1 <= n → op_ok (at_ms n) p →
  match p with OpCreate d => 1 <= UnixMilli (ExpiresAt d) ∧ ID d ∉ seen | OpSweep => False | _ => True end →
  step_ok seen (Called w (at_ms n) p) s.
Proof. intros Hn Hp Hc. split; [apply at_ms_ok; [done..|]|]; destruct p; try done; apply Hc. Qed.

Lemma swept_ok seen i w at_ s t :
  sw_now <$> rp_sweeps s !! i = Some t → t <= at_ → step_ok seen (SweepCalled i w at_) s.
Proof. intros Ht Hle sw Hsw. rewrite Hsw in Ht. injection Ht as <-. done. Qed.

Lemma evicted_ok seen id t s :
  hash_live <$> rdSlots (rDB (rp_redis s)) !! id = Some false → step_ok seen (Evicted id t) s.
Proof. intros Hl h Hh. rewrite Hh in Hl. by injection Hl. Qed.

Lemma redis_swept_ok : steps_ok ∅ redis_swept (newReplicas demo_opts).
Proof.
  unfold redis_swept.
  repeat match goal with
  | |- steps_ok _ [] _ => exact I
  | |- steps_ok _ (_ :: _) _ => split
  | |- step_ok _ (Called _ _ (OpCreate _)) _ => apply called_ok; [done|by split; [left|]|split; [done|by apply (bool_decide_unpack _)]]
  | |- step_ok _ (Called _ _ _) _ => by apply called_ok
  | |- step_ok _ (SweepBegun _ _) _ => exact I
  | |- step_ok _ (SweepCalled _ _ _) _ => eapply swept_ok; [vm_compute; reflexivity|done]
  | |- step_ok _ (Evicted _ _) _ => apply evicted_ok; vm_compute; reflexivity
  end.
Qed.

Lemma redis_refines_spec_witness :
  (serve_all redis_swept (newReplicas demo_opts)).1 =
    [Some (RUnit (Ok tt)); Some (RUnit (Ok tt)); None; None; None; None; None;
     Some (RRead (Err (StateError StateExpired (time_UnixMilli 9000)))); None; None;
     Some (RStatus (Ok (mkStatus "d" KindDrop StateExpired (time_UnixMilli 1000) (time_UnixMilli 9000) 0 0 0))); None;
     Some (RStatus (Err ErrNotFound))] ∧
  ∃ a, spec_steps redis_swept (serve_all redis_swept (newReplicas demo_opts)).1 (spec_init demo_opts) a.
Proof.
  split; [vm_compute; reflexivity|].
  pose proof (redis_refines_spec 3600000 ltac:(done) demo_opts redis_swept ltac:(reflexivity) redis_swept_ok) as H.
  destruct (serve_all _ _) as [answers s]. destruct H as (a & Ha & _). exists a. exact Ha.
Defined.

(** ** A live slot that Redis drops

    A slot that nobody touches and no sweep reaches before its PEXPIRE is
    dropped by the server while it is live.  The sweep after that finds no slot
    to release: the relay of one slot is full for good, though it holds none. *)
Definition one_slot : StoreOptions := mkOptions 1 0 Hour.

Definition leaked : Redis :=
  rp_redis (serve_all [Called Answered (at_ms 1000) (OpCreate (redis_slot_of "d" KindDrop [])); Evicted "d" 3609000;
                       Called Answered (at_ms 5000000) OpSweep] (newReplicas one_slot)).2.

Lemma redis_ttl_leaks :
  rdSlots (rDB leaked) = ∅ ∧ StatsOf leaked = mkStats 1 0 0 ∧
  ∀ ck d, (run_op ck (OpCreate d) leaked).2 = RUnit (Err ErrFull) ∧ (run_op ck OpSweep leaked).1 = leaked.
Proof.
  assert (rDB leaked = mkRedisDB ∅ ∅ ∅ ∅ 1 0) as Hdb by (vm_compute; reflexivity).
  assert (rOpts leaked = one_slot) as Ho by (vm_compute; reflexivity).
  split_and!; [by rewrite Hdb|simpl; unfold redis_Stats; by rewrite Hdb|].
  intros ck d. destruct leaked as [o db]. simpl in Hdb, Ho. subst. split; reflexivity.
Qed.
