(* ===== verification/Json.v ===== *)
(** Go's encoding/json as the program uses it: writing objects of strings and
    integers without HTML escaping, reading one value with a decoder that
    refuses unknown fields, and storing an object into a struct of string and
    integer fields. *)
From S2P Require Import Prelude GoStrings.
From Stdlib Require Import Strings.Byte.

(** * Writing *)

Definition quote : byte := x22.
Definition backslash : byte := x5c.

(** [appendString] with HTML escaping off: one character. *)
Definition escape_ascii (b : byte) : bytes :=
  if decide (b = quote) then [backslash; quote]
  else if decide (b = backslash) then [backslash; backslash]
  else if decide (b = x08) then [backslash; x62]
  else if decide (b = x0c) then [backslash; x66]
  else if decide (b = x0a) then [backslash; x6e]
  else if decide (b = x0d) then [backslash; x72]
  else if decide (b = x09) then [backslash; x74]
  else if b2z b <? 32 then
    B["\u00"] ++ [hex_lower (b2z b / 16); hex_lower (b2z b mod 16)]
  else [b].

Definition escape_char (c : option rune * bytes) : bytes :=
  match c with
  | (None, _) => B["\ufffd"]
  | (Some r, s) =>
      if r =? 8232 then B["\u2028"]
      else if r =? 8233 then B["\u2029"]
      else match s with [b] => escape_ascii b | _ => s end
  end.

Definition write_string (s : bytes) : bytes :=
  quote :: mjoin (escape_char <$> chars s) ++ [quote].

(** The values of an object that is written. *)
Inductive wvalue := WStr (s : bytes) | WInt (n : Z).

Definition write_value (v : wvalue) : bytes :=
  match v with WStr s => write_string s | WInt n => Itoa n end.

Definition write_member (m : bytes * wvalue) : bytes := write_string m.1 ++ x3a :: write_value m.2.

Definition write_object (ms : list (bytes * wvalue)) : bytes :=
  x7b :: JoinByte (write_member <$> ms) x2c ++ [x7d].

(** * Reading *)

Inductive json :=
  | JNull
  | JBool (b : bool)
  | JNum (lexeme : bytes)
  | JStr (raw : bytes) (* the text between the quotes, as written *)
  | JArr (l : list json)
  | JObj (ms : list (bytes * json)).

(** The input ended inside a value, or does not follow the grammar. *)
Inductive syntax_error := UnexpectedEOF | SyntaxError.

Definition is_space (b : byte) : bool :=
  bool_decide (b = x20) || bool_decide (b = x09) || bool_decide (b = x0a) || bool_decide (b = x0d).

Fixpoint skip_space (s : bytes) : bytes :=
  match s with
  | b :: s' => if is_space b then skip_space s' else s
  | [] => []
  end.

Definition is_hex (b : byte) : bool := bool_decide (is_Some (hex_val b)).

(** The characters that may follow a backslash, other than u. *)
Definition simple_escape (b : byte) : option byte :=
  if decide (b = quote) then Some quote
  else if decide (b = backslash) then Some backslash
  else if decide (b = x2f) then Some x2f
  else if decide (b = x62) then Some x08
  else if decide (b = x66) then Some x0c
  else if decide (b = x6e) then Some x0a
  else if decide (b = x72) then Some x0d
  else if decide (b = x74) then Some x09
  else None.

(** After the opening quote: the raw text up to the closing quote. *)
Fixpoint scan_string (s : bytes) : result syntax_error (bytes * bytes) :=
  match s with
  | [] => Err UnexpectedEOF
  | b :: s1 =>
      if decide (b = quote) then Ok ([], s1)
      else if decide (b = backslash) then
        match s1 with
        | [] => Err UnexpectedEOF
        | c :: s2 =>
            if simple_escape c then '(raw, rest) ← scan_string s2; Ok (b :: c :: raw, rest)
            else if decide (c = x75) then
              match s2 with
              | h1 :: h2 :: h3 :: h4 :: s3 =>
                  if is_hex h1 && is_hex h2 && is_hex h3 && is_hex h4 then
                    '(raw, rest) ← scan_string s3; Ok (b :: c :: h1 :: h2 :: h3 :: h4 :: raw, rest)
                  else Err SyntaxError
              | _ => Err (if forallb is_hex s2 then UnexpectedEOF else SyntaxError)
              end
            else Err SyntaxError
        end
      else if b2z b <? 32 then Err SyntaxError
      else '(raw, rest) ← scan_string s1; Ok (b :: raw, rest)
  end.

(** [getu4]: the code unit of an escape at the front of the text. *)
Definition hex4 (h1 h2 h3 h4 : byte) : Z :=
  let v h := default 0 (hex_val h) in 4096 * v h1 + 256 * v h2 + 16 * v h3 + v h4.

Definition is_surrogate (r : Z) : bool := (55296 <=? r) && (r <? 57344).

(** [utf16.DecodeRune] *)
Definition decode_pair (r1 r2 : Z) : option rune :=
  if (55296 <=? r1) && (r1 <? 56320) && (56320 <=? r2) && (r2 <? 57344)
  then Some (Z.shiftl (r1 - 55296) 10 + (r2 - 56320) + 65536) else None.

(** [unquote]: the text a scanned string stands for. *)
Fixpoint unquote (s : bytes) : bytes :=
  match s with
  | [] => []
  | a :: s1 =>
      if decide (a = backslash) then
        match s1 with
        | [] => []
        | c :: s2 =>
            match simple_escape c with
            | Some b => b :: unquote s2
            | None =>
                match s2 with
                | h1 :: h2 :: h3 :: h4 :: s3 =>
                    let r := hex4 h1 h2 h3 h4 in
                    if is_surrogate r then
                      match s3 with
                      | e :: u :: k1 :: k2 :: k3 :: k4 :: s4 =>
                          match (if decide (e = backslash ∧ u = x75) then decode_pair r (hex4 k1 k2 k3 k4) else None) with
                          | Some r' => encode_rune r' ++ unquote s4
                          | None => encode_rune RuneError ++ unquote s3
                          end
                      | _ => encode_rune RuneError ++ unquote s3
                      end
                    else encode_rune r ++ unquote s3
                | _ => []
                end
            end
        end
      else if b2z a <? 128 then a :: unquote s1
      else
        match s1 with
        | b :: s2 =>
            if wf2 a b then a :: b :: unquote s2
            else
              match s2 with
              | c :: s3 =>
                  if wf3 a b c then a :: b :: c :: unquote s3
                  else
                    match s3 with
                    | d :: s4 =>
                        if wf4 a b c d then a :: b :: c :: d :: unquote s4
                        else encode_rune RuneError ++ unquote s1
                    | [] => encode_rune RuneError ++ unquote s1
                    end
              | [] => encode_rune RuneError ++ unquote s1
              end
        | [] => encode_rune RuneError ++ unquote s1
        end
  end.

Definition read_string (s : bytes) : result syntax_error (bytes * bytes) :=
  '(raw, rest) ← scan_string s; Ok (unquote raw, rest).

Fixpoint scan_digits (s : bytes) : bytes * bytes :=
  match s with
  | b :: s' => if is_digit b then let '(ds, rest) := scan_digits s' in (b :: ds, rest) else ([], s)
  | [] => ([], [])
  end.

Definition scan_digits1 (s : bytes) : result syntax_error (bytes * bytes) :=
  match s with
  | [] => Err UnexpectedEOF
  | b :: _ => if is_digit b then Ok (scan_digits s) else Err SyntaxError
  end.

(** The parts of a number: sign, integer, fraction, exponent. *)
Definition scan_sign (s : bytes) : bytes * bytes :=
  match s with
  | b :: s' => if decide (b = x2d) then ([b], s') else ([], s)
  | [] => ([], [])
  end.

Definition scan_int (s : bytes) : result syntax_error (bytes * bytes) :=
  match s with
  | [] => Err UnexpectedEOF
  | b :: s' => if decide (b = x30) then Ok ([b], s') else scan_digits1 s
  end.

Definition scan_frac (s : bytes) : result syntax_error (bytes * bytes) :=
  match s with
  | b :: s' => if decide (b = x2e) then '(ds, rest) ← scan_digits1 s'; Ok (b :: ds, rest) else Ok ([], s)
  | [] => Ok ([], s)
  end.

Definition scan_exp (s : bytes) : result syntax_error (bytes * bytes) :=
  match s with
  | b :: s' =>
      if decide (b = x65 ∨ b = x45) then
        match s' with
        | [] => Err UnexpectedEOF
        | c :: s'' =>
            if decide (c = x2b ∨ c = x2d) then '(ds, rest) ← scan_digits1 s''; Ok (b :: c :: ds, rest)
            else '(ds, rest) ← scan_digits1 s'; Ok (b :: ds, rest)
        end
      else Ok ([], s)
  | [] => Ok ([], s)
  end.

Definition scan_number (s : bytes) : result syntax_error (bytes * bytes) :=
  let '(sg, s1) := scan_sign s in
  '(i, s2) ← scan_int s1;
  '(f, s3) ← scan_frac s2;
  '(e, s4) ← scan_exp s3;
  Ok (sg ++ i ++ f ++ e, s4).

(** A word such as true, byte by byte. *)
Fixpoint scan_word (w s : bytes) : result syntax_error bytes :=
  match w, s with
  | [], _ => Ok s
  | _ :: _, [] => Err UnexpectedEOF
  | b :: w, c :: s => if decide (b = c) then scan_word w s else Err SyntaxError
  end.

Definition maxNestingDepth : Z := 10000.

(** One value from the front of the input.  Every nested call has taken a byte
    off the input, so its length plus one is fuel enough. *)
Fixpoint read_value (fuel : nat) (depth : Z) (s : bytes) : result syntax_error (json * bytes) :=
  match fuel with
  | O => Err SyntaxError
  | S fuel =>
      match skip_space s with
      | [] => Err UnexpectedEOF
      | b :: s1 =>
          if decide (b = quote) then '(raw, rest) ← scan_string s1; Ok (JStr raw, rest)
          else if decide (b = x7b) then
            if maxNestingDepth <? depth + 1 then Err SyntaxError
            else match skip_space s1 with
                 | [] => Err UnexpectedEOF
                 | c :: s2 =>
                     if decide (c = x7d) then Ok (JObj [], s2)
                     else '(ms, rest) ← read_members fuel (depth + 1) s1; Ok (JObj ms, rest)
                 end
          else if decide (b = x5b) then
            if maxNestingDepth <? depth + 1 then Err SyntaxError
            else match skip_space s1 with
                 | [] => Err UnexpectedEOF
                 | c :: s2 =>
                     if decide (c = x5d) then Ok (JArr [], s2)
                     else '(l, rest) ← read_elements fuel (depth + 1) s1; Ok (JArr l, rest)
                 end
          else if decide (b = x74) then rest ← scan_word B["rue"] s1; Ok (JBool true, rest)
          else if decide (b = x66) then rest ← scan_word B["alse"] s1; Ok (JBool false, rest)
          else if decide (b = x6e) then rest ← scan_word B["ull"] s1; Ok (JNull, rest)
          else if decide (b = x2d ∨ is_digit b = true) then
            '(lex, rest) ← scan_number (b :: s1); Ok (JNum lex, rest)
          else Err SyntaxError
      end
  end
with read_members (fuel : nat) (depth : Z) (s : bytes) : result syntax_error (list (bytes * json) * bytes) :=
  match fuel with
  | O => Err SyntaxError
  | S fuel =>
      match skip_space s with
      | [] => Err UnexpectedEOF
      | b :: s1 =>
          if decide (b = quote) then
            '(k, s2) ← read_string s1;
            match skip_space s2 with
            | [] => Err UnexpectedEOF
            | c :: s3 =>
                if decide (c = x3a) then
                  '(v, s4) ← read_value fuel depth s3;
                  match skip_space s4 with
                  | [] => Err UnexpectedEOF
                  | e :: s5 =>
                      if decide (e = x2c) then '(ms, rest) ← read_members fuel depth s5; Ok ((k, v) :: ms, rest)
                      else if decide (e = x7d) then Ok ([(k, v)], s5)
                      else Err SyntaxError
                  end
                else Err SyntaxError
            end
          else Err SyntaxError
      end
  end
with read_elements (fuel : nat) (depth : Z) (s : bytes) : result syntax_error (list json * bytes) :=
  match fuel with
  | O => Err SyntaxError
  | S fuel =>
      '(v, s1) ← read_value fuel depth s;
      match skip_space s1 with
      | [] => Err UnexpectedEOF
      | e :: s2 =>
          if decide (e = x2c) then '(l, rest) ← read_elements fuel depth s2; Ok (v :: l, rest)
          else if decide (e = x5d) then Ok ([v], s2)
          else Err SyntaxError
      end
  end.

(** * Storing into a struct *)

(** [strconv.ParseInt(s, 10, 64)] on a JSON number. *)
Definition int64_of (lex : bytes) : option Z :=
  let '(sg, ds) := scan_sign lex in
  if forallb is_digit ds && negb (bool_decide (ds = [])) then
    let n := digits_val 0 ds in
    let n := match sg with [] => n | _ => - n end in
    if (- 2 ^ 63 <=? n) && (n <? 2 ^ 63) then Some n else None
  else None.

(** How a field of a struct of type [R] is set. *)
Inductive setter (R : Type) := SetStr (f : bytes → R → R) | SetInt (f : Z → R → R).
Arguments SetStr {R} _.
Arguments SetInt {R} _.

Inductive decode_error :=
  | EmptyInput
  | BadSyntax
  | ShortInput
  | WrongType (field : bytes)
  | UnknownField (name : bytes).

Section struct.
Context {R : Type} (fields : list (bytes * setter R)).

(** The exact name first, then any spelling that differs in letter case only. *)
Definition find_field (k : bytes) : option (bytes * setter R) :=
  match list_find (λ f, f.1 = k) fields with
  | Some (_, f) => Some f
  | None => snd <$> list_find (λ f, EqualFold k f.1 = true) fields
  end.

Definition store_field (f : bytes * setter R) (v : json) (r : R) : R + decode_error :=
  match v, f.2 with
  | JNull, _ => inl r
  | JStr raw, SetStr g => inl (g (unquote raw) r)
  | JNum lex, SetInt g => match int64_of lex with Some n => inl (g n r) | None => inr (WrongType f.1) end
  | _, _ => inr (WrongType f.1)
  end.

(** Decoding goes on after an error; the first error is the one reported. *)
Fixpoint store_members (ms : list (bytes * json)) (r : R) : result decode_error R :=
  match ms with
  | [] => Ok r
  | (k, v) :: ms =>
      match find_field k with
      | None => Err (UnknownField k)
      | Some f =>
          match store_field f v r with
          | inl r' => store_members ms r'
          | inr e => Err e
          end
      end
  end.

(** [Decoder.Decode] with unknown fields disallowed; also what is left of the
    input, for [More]. *)
Definition Decode (r0 : R) (s : bytes) : result decode_error R * bytes :=
  match read_value (S (length s)) 0 s with
  | Err UnexpectedEOF => (Err (match skip_space s with [] => EmptyInput | _ => ShortInput end), [])
  | Err SyntaxError => (Err BadSyntax, [])
  | Ok (JObj ms, rest) => (store_members ms r0, rest)
  | Ok (JNull, rest) => (Ok r0, rest)
  | Ok (_, rest) => (Err (WrongType []), rest)
  end.
End struct.

(** [Decoder.More]: whether another value follows. *)
Definition More (rest : bytes) : bool :=
  match skip_space rest with
  | [] => false
  | c :: _ => negb (bool_decide (c = x5d) || bool_decide (c = x7d))
  end.

(** * Reading back

    Reading back what the JSON writer wrote: strings, integers, and objects of
    them. *)

(** * Strings *)

(** The text of a string between its quotes. *)
Definition escaped (s : bytes) : bytes := mjoin (escape_char <$> chars s).

Lemma escape_ascii_scan a t : b2z a < 128 →
  scan_string (escape_ascii a ++ t) = ('(raw, rest) ← scan_string t; Ok (escape_ascii a ++ raw, rest)).
Proof. intros Ha. destruct a; try reflexivity; vm_compute in Ha; discriminate. Qed.

Lemma escape_ascii_unquote a t : b2z a < 128 → unquote (escape_ascii a ++ t) = a :: unquote t.
Proof. intros Ha. destruct a; try reflexivity; vm_compute in Ha; discriminate. Qed.

Lemma scan_plain a t : 128 <= b2z a →
  scan_string (a :: t) = ('(raw, rest) ← scan_string t; Ok (a :: raw, rest)).
Proof.
  intros Ha. cbn [scan_string]. destruct (decide (a = quote)) as [->|]; [by vm_compute in Ha|].
  destruct (decide (a = backslash)) as [->|]; [by vm_compute in Ha|].
  by destruct (Z.ltb_spec (b2z a) 32); [lia|].
Qed.

Lemma bind_assoc {E A B C} (m : result E A) (f : A → result E B) (g : B → result E C) :
  (m ≫= f) ≫= g = m ≫= (λ x, f x ≫= g).
Proof. by destruct m. Qed.

Lemma scan_plain_all s t : Forall (λ a, 128 <= b2z a) s →
  scan_string (s ++ t) = ('(raw, rest) ← scan_string t; Ok (s ++ raw, rest)).
Proof.
  induction 1 as [|a s Ha Hs IH]; cbn [app]; [by destruct (scan_string t) as [[? ?]|]|].
  rewrite scan_plain, IH by done. by destruct (scan_string t) as [[? ?]|].
Qed.

(** Every character of the written form is scanned as it stands. *)
Lemma escape_char_scan c t : char_ok c →
  scan_string (escape_char c ++ t) = ('(raw, rest) ← scan_string t; Ok (escape_char c ++ raw, rest)).
Proof.
  destruct 1 as [a Ha|a b H2|a b c H3|a b c d H4|a Ha]; unfold escape_char.
  - destruct (Z.eqb_spec (b2z a) 8232), (Z.eqb_spec (b2z a) 8233); try lia. by apply escape_ascii_scan.
  - pose proof (rune2_range a b H2). apply wf2_range in H2.
    destruct (Z.eqb_spec (rune2 a b) 8232), (Z.eqb_spec (rune2 a b) 8233); try lia.
    apply scan_plain_all. repeat constructor; lia.
  - apply wf3_range in H3. do 2 (case_match; [reflexivity|]).
    apply scan_plain_all. repeat constructor; lia.
  - apply wf4_range in H4. do 2 (case_match; [reflexivity|]).
    apply scan_plain_all. repeat constructor; lia.
  - reflexivity.
Qed.

Lemma scan_escaped s t :
  scan_string (mjoin (escape_char <$> chars s) ++ quote :: t) = Ok (mjoin (escape_char <$> chars s), t).
Proof.
  induction s as [|c s Hc Heq IH] using chars_ind; [reflexivity|].
  rewrite Heq. csimpl. rewrite <- app_assoc, escape_char_scan by done. by rewrite IH.
Qed.

(** The two characters written as escapes although they are not ASCII. *)
Lemma rune3_separator a b c :
  wf3 a b c = true → rune3 a b c = 8232 ∨ rune3 a b c = 8233 → [a; b; c] = encode_rune (rune3 a b c).
Proof.
  intros H3 Hr. destruct (rune3_range a b c H3) as [Heq _]. apply wf3_range in H3.
  assert (b2z a = 226 ∧ b2z b = 128) as [Ha Hb] by lia.
  assert (b2z c = rune3 a b c - 8192 + 128) as Hc by lia.
  destruct Hr as [Hr|Hr]; rewrite Hr in *;
    rewrite <- (z2b_b2z a), <- (z2b_b2z b), <- (z2b_b2z c), Ha, Hb, Hc; reflexivity.
Qed.

Lemma escape_char_unquote c t : char_ok c → is_Some c.1 →
  unquote (escape_char c ++ t) = c.2 ++ unquote t.
Proof.
  destruct 1 as [a Ha|a b H2|a b c H3|a b c d H4|a Ha]; intros Hs; unfold escape_char; [..|by destruct Hs].
  - destruct (Z.eqb_spec (b2z a) 8232), (Z.eqb_spec (b2z a) 8233); try lia. by apply escape_ascii_unquote.
  - pose proof (rune2_range a b H2). apply wf2_range in H2 as Hr.
    destruct (Z.eqb_spec (rune2 a b) 8232), (Z.eqb_spec (rune2 a b) 8233); try lia.
    cbn [app unquote snd]. destruct (decide (a = backslash)) as [->|]; [by destruct Hr as [[]]|].
    destruct (Z.ltb_spec (b2z a) 128); [lia|]. by rewrite H2.
  - apply wf3_range in H3 as Hr. destruct (Z.eqb_spec (rune3 a b c) 8232) as [E|]; [|destruct (Z.eqb_spec (rune3 a b c) 8233) as [E|]].
    + cbn [snd]. rewrite (rune3_separator a b c H3), E by auto. reflexivity.
    + cbn [snd]. rewrite (rune3_separator a b c H3), E by auto. reflexivity.
    + cbn [app unquote snd]. destruct (decide (a = backslash)) as [->|]; [by destruct Hr as [[]]|].
      destruct (Z.ltb_spec (b2z a) 128); [lia|]. by rewrite wf2_false, H3 by lia.
  - apply wf4_range in H4 as Hr. pose proof (rune4_range a b c d H4).
    destruct (Z.eqb_spec (rune4 a b c d) 8232), (Z.eqb_spec (rune4 a b c d) 8233); try lia.
    cbn [app unquote snd]. destruct (decide (a = backslash)) as [->|]; [by destruct Hr as [[]]|].
    destruct (Z.ltb_spec (b2z a) 128); [lia|]. by rewrite wf2_false, wf3_false, H4 by lia.
Qed.

Lemma unquote_escaped s : ValidUtf8 s = true → unquote (escaped s) = s.
Proof.
  unfold escaped.
  induction s as [|c s Hc Heq IH] using chars_ind; [done|].
  unfold ValidUtf8. rewrite Heq. csimpl. intros [Hs Hv]%andb_prop.
  apply bool_decide_eq_true in Hs. rewrite escape_char_unquote by done. by rewrite IH.
Qed.

(** Name the escaped form of every valid text, so that evaluation does not
    look into it. *)
Ltac hide_escapes :=
  repeat match goal with
  | |- context [escaped ?s] =>
      let q := fresh "q" in let E := fresh "E" in
      pose proof (unquote_escaped s ltac:(assumption)) as E; revert E;
      generalize (escaped s); intros q E; rewrite <- E; clear E
  end.

Lemma read_write_string s t :
  ValidUtf8 s = true → read_string (mjoin (escape_char <$> chars s) ++ quote :: t) = Ok (s, t).
Proof. intros Hv. unfold read_string. rewrite scan_escaped. simpl. by rewrite <- (unquote_escaped s) at 2. Qed.

(** * Objects *)

(** What a written value is read back as. *)
Definition json_of (v : wvalue) : json := match v with WStr s => JStr (escaped s) | WInt n => JNum (Itoa n) end.

(** A value that reads back as itself before a comma or a closing brace: valid
    text, or a number whose notation the scanner stops after. *)
Definition stops (t : bytes) : Prop := ∃ c u, t = c :: u ∧ (c = x2c ∨ c = x7d).

Definition readable (v : wvalue) : Prop :=
  match v with
  | WStr s => ValidUtf8 s = true
  | WInt n => ∀ fuel d t, stops t → read_value (S fuel) d (Itoa n ++ t) = Ok (JNum (Itoa n), t)
  end.

Lemma skip_space_stop b s : is_space b = false → skip_space (b :: s) = b :: s.
Proof. simpl. by intros ->. Qed.

Lemma stops_skip t : stops t → skip_space t = t.
Proof. intros (c & u & -> & [->| ->]); reflexivity. Qed.

Lemma read_write_value fuel d v t :
  readable v → stops t → read_value (S fuel) d (write_value v ++ t) = Ok (json_of v, t).
Proof.
  destruct v as [s|n]; intros Hv Ht; [|by apply Hv].
  cbn [write_value write_string app]. cbn [read_value]. rewrite skip_space_stop by done.
  destruct (decide (quote = quote)) as [_|]; [|done]. unfold write_string.
  cbn [app]. rewrite <- app_assoc. cbn [app]. by rewrite scan_escaped.
Qed.

Lemma write_string_app s t : write_string s ++ t = quote :: mjoin (escape_char <$> chars s) ++ quote :: t.
Proof. unfold write_string. cbn [app]. by rewrite <- app_assoc. Qed.

(** The members of an object, from the first key to the closing brace. *)
Lemma read_write_members ms fuel d t :
  ms ≠ [] → Forall (λ m, ValidUtf8 m.1 = true ∧ readable m.2) ms → (length ms < fuel)%nat →
  read_members fuel d (JoinByte (write_member <$> ms) x2c ++ x7d :: t) =
  Ok ((λ m, (m.1, json_of m.2)) <$> ms, t).
Proof.
  revert fuel. induction ms as [|[k v] ms IH]; intros fuel Hne Hf Hlen; [done|].
  apply Forall_cons in Hf as [[Hk Hv] Hf]. destruct fuel as [|[|fuel]]; simpl in Hlen; [lia..|].
  assert (∀ u, stops u → read_members (S (S fuel)) d (write_member (k, v) ++ u) =
    match u with
    | [] => Err UnexpectedEOF
    | e :: s5 =>
        if decide (e = x2c) then '(ms, rest) ← read_members (S fuel) d s5; Ok ((k, json_of v) :: ms, rest)
        else if decide (e = x7d) then Ok ([(k, json_of v)], s5) else Err SyntaxError
    end) as Hone.
  { intros u Hu. unfold write_member. cbn [fst snd]. rewrite <- app_assoc, write_string_app.
    cbn [read_members]. rewrite skip_space_stop by done. destruct (decide (quote = quote)) as [_|]; [|done].
    rewrite read_write_string by done. cbn [mbind result_bind]. cbn [app]. rewrite skip_space_stop by done.
    destruct (decide (x3a = x3a)) as [_|]; [|done]. rewrite read_write_value by done.
    cbn [mbind result_bind]. by rewrite stops_skip. }
  destruct ms as [|m ms].
  - cbn [fmap list_fmap JoinByte]. rewrite Hone by (by eexists _, _; split; [|right]). done.
  - change (JoinByte (write_member <$> (k, v) :: m :: ms) x2c)
      with (write_member (k, v) ++ x2c :: JoinByte (write_member <$> m :: ms) x2c).
    rewrite <- app_assoc. rewrite Hone by (by eexists _, _; split; [|left]). cbn [app].
    destruct (decide (x2c = x2c)) as [_|]; [|done].
    rewrite IH by (done || simpl in *; lia). done.
Qed.

Lemma read_write_object ms fuel t :
  ms ≠ [] → Forall (λ m, ValidUtf8 m.1 = true ∧ readable m.2) ms → (S (length ms) < fuel)%nat →
  read_value fuel 0 (write_object ms ++ t) = Ok (JObj ((λ m, (m.1, json_of m.2)) <$> ms), t).
Proof.
  intros Hne Hf Hlen. destruct fuel as [|fuel]; [lia|]. unfold write_object. cbn [app].
  rewrite <- app_assoc. cbn [read_value app]. rewrite skip_space_stop by done.
  destruct (decide (x7b = quote)); [done|]. destruct (decide (x7b = x7b)) as [_|]; [|done].
  destruct (Z.ltb_spec maxNestingDepth (0 + 1)); [by vm_compute in H|].
  assert (∃ u, JoinByte (write_member <$> ms) x2c ++ x7d :: t = quote :: u) as [u Hu].
  { destruct ms as [|[k v] [|m ms]]; [done|..]; eexists; unfold write_member, write_string; simpl; done. }
  rewrite Hu, skip_space_stop by done. destruct (decide (quote = x7d)); [done|].
  rewrite <- Hu, read_write_members by (done || lia). done.
Qed.
