(* ===== verification/Crypto.v ===== *)
(** Padding, the two encryption paths and password-protected keys:
    internal/crypto/crypto.go and internal/crypto/password.go.

    The primitives of golang.org/x/crypto are not part of the repository: they
    are the operations of the class [Primitives], and what the code relies on
    is the class [PrimitivesOk], which states their documented behaviour. *)
From S2P Require Import Prelude Tokens.
From Stdlib Require Import Strings.Byte.

Definition NonceSize : Z := 24.
Definition TagSize : Z := 16.
Definition SealedOverhead : Z := 48.
Definition AEADOverhead : Z := NonceSize + TagSize.
Definition PadBlock : Z := 256.
Definition MaxPlaintext : Z := 64 * 1024.

(** [io.Reader] as a source of randomness: the outcome of [io.ReadFull] for
    each number of bytes. *)
Abbreviation reader := (Z → option bytes).

(** * The primitives *)

Class Primitives := {
  (** nacl/box: key generation, sealing and opening of anonymous boxes *)
  box_GenerateKey : reader → option (bytes * bytes);
  box_SealAnonymous : bytes → bytes → reader → option bytes;
  box_OpenAnonymous : bytes → bytes → bytes → option bytes;
  (** chacha20poly1305, extended nonce: key, nonce, text, additional data *)
  aead_Seal : bytes → bytes → bytes → bytes → bytes;
  aead_Open : bytes → bytes → bytes → bytes → option bytes;
  (** argon2id: password, salt, time, memory, threads, length; blake2b-256 *)
  argon2_IDKey : bytes → bytes → Z → Z → Z → Z → bytes;
  blake2b_Sum256 : bytes → bytes;
  (** which private key belongs to which public key *)
  is_keypair : bytes → bytes → Prop;
}.

Class PrimitivesOk `{Primitives} : Prop := {
  generated_keypair read pub priv : box_GenerateKey read = Some (pub, priv) → is_keypair pub priv;
  generated_lengths read pub priv : box_GenerateKey read = Some (pub, priv) → zlen pub = KeySize ∧ zlen priv = KeySize;
  box_open_seal read pub priv m c :
    is_keypair pub priv → box_SealAnonymous pub m read = Some c → box_OpenAnonymous pub priv c = Some m;
  box_seal_length read pub m c : box_SealAnonymous pub m read = Some c → zlen c = zlen m + SealedOverhead;
  aead_open_seal k n m a : aead_Open k n (aead_Seal k n m a) a = Some m;
  aead_seal_open k n c a m : aead_Open k n c a = Some m → c = aead_Seal k n m a;
  aead_seal_length k n m a : zlen (aead_Seal k n m a) = zlen m + TagSize;
}.

(** * crypto.go *)

Section crypto.
Context `{P : Primitives}.

Definition GenerateKeyPair (random : reader) : result crypto_error (bytes * bytes) :=
  match box_GenerateKey random with Some kp => Ok kp | None => Err ErrRandom end.

Definition Seal (recipientPub plaintext : bytes) (random : reader) : result crypto_error bytes :=
  match box_SealAnonymous recipientPub plaintext random with Some c => Ok c | None => Err ErrRandom end.

Definition OpenSealed (pub priv sealed : bytes) : result crypto_error bytes :=
  if zlen sealed <? SealedOverhead then Err ErrDecrypt
  else match box_OpenAnonymous pub priv sealed with Some out => Ok out | None => Err ErrDecrypt end.

Definition NewSymmetricKey (random : reader) : result crypto_error bytes :=
  match random KeySize with Some key => Ok key | None => Err ErrRandom end.

Definition EncryptAEAD (key plaintext aad : bytes) (random : reader) : result crypto_error bytes :=
  match random NonceSize with
  | Some nonce => Ok (nonce ++ aead_Seal key nonce plaintext aad)
  | None => Err ErrRandom
  end.

Definition DecryptAEAD (key blob aad : bytes) : result crypto_error bytes :=
  if zlen blob <? AEADOverhead then Err ErrDecrypt
  else
    let n := Z.to_nat NonceSize in
    match aead_Open key (take n blob) (drop n blob) aad with
    | Some out => Ok out
    | None => Err ErrDecrypt
    end.

(** * password.go *)

Definition SaltSize : Z := 16.
Definition PasswordOpsLimit : Z := 2.
Definition PasswordMemLimitKiB : Z := 64 * 1024.
Definition MinPasswordLen : Z := 8.
Definition passwordDomain : bytes := bs "burndrop/reveal-password/v1".

Definition NewSalt (random : reader) : result crypto_error bytes :=
  match random SaltSize with Some salt => Ok salt | None => Err ErrRandom end.

Definition PasswordKey (password salt : bytes) : result crypto_error bytes :=
  if (zlen password =? 0) || negb (zlen salt =? SaltSize) then Err ErrPassword
  else Ok (argon2_IDKey password salt PasswordOpsLimit PasswordMemLimitKiB 1 KeySize).

Definition combineKeys (linkKey passwordKey : bytes) : bytes :=
  blake2b_Sum256 (passwordDomain ++ linkKey ++ passwordKey).

Definition RevealKeyWithPassword (linkKey password salt : bytes) : result crypto_error bytes :=
  pw ← PasswordKey password salt;
  Ok (combineKeys linkKey pw).
End crypto.

(** * Padding *)

Definition Pad (data : bytes) (block : Z) : bytes :=
  let padLen := block - zlen data mod block in
  let out := data ++ replicate (Z.to_nat padLen) x00 in
  <[length data := x80]> out.

(** The scan back from index [i], at most [k] bytes. *)
Fixpoint unpad_scan (k : nat) (i : nat) (data : bytes) : result crypto_error bytes :=
  match k with
  | O => Err ErrPadding
  | S k =>
      match data !! i with
      | Some x80 => Ok (take i data)
      | Some x00 => unpad_scan k (i - 1) data
      | _ => Err ErrPadding
      end
  end.

Definition Unpad (data : bytes) (block : Z) : result crypto_error bytes :=
  if (zlen data =? 0) || negb (zlen data mod block =? 0) then Err ErrPadding
  else unpad_scan (Z.to_nat block) (length data - 1) data.

Definition Zero (b : bytes) : bytes := replicate (length b) x00.

Definition KeyFromBytes (b : bytes) : result crypto_error bytes :=
  if zlen b =? KeySize then Ok b else Err ErrLength.

(** ** The padding is a bijection *)

Lemma Pad_eq data block :
  0 < block →
  Pad data block = data ++ x80 :: replicate (Z.to_nat (block - zlen data mod block - 1)) x00.
Proof.
  intros Hb. unfold Pad. assert (0 < block - zlen data mod block) as Hp by (pose proof (Z.mod_pos_bound (zlen data) block); lia).
  replace (Z.to_nat (block - zlen data mod block)) with (S (Z.to_nat (block - zlen data mod block - 1))) by lia.
  rewrite insert_app_r_alt by lia. by rewrite Nat.sub_diag.
Qed.

Lemma Pad_length data block : 0 < block → zlen (Pad data block) = zlen data + (block - zlen data mod block).
Proof.
  intros Hb. rewrite Pad_eq by done. pose proof (Z.mod_pos_bound (zlen data) block Hb).
  rewrite zlen_app, zlen_cons. unfold zlen at 2. rewrite length_replicate. lia.
Qed.

Lemma Pad_aligned data block : 0 < block → zlen (Pad data block) mod block = 0.
Proof.
  intros Hb. rewrite Pad_length by done. pose proof (Z.div_mod (zlen data) block ltac:(lia)) as Hdm.
  replace (zlen data + (block - zlen data mod block)) with ((zlen data / block + 1) * block) by lia.
  by apply Z.mod_mul; lia.
Qed.

Lemma unpad_scan_zeros k j data :
  (j < k)%nat → unpad_scan k (length data + j) (data ++ x80 :: replicate j x00) = Ok data.
Proof.
  assert (∀ i t, (j - i <= j)%nat → (i <= j)%nat →
    ∀ k, (i < k)%nat → t = data ++ x80 :: replicate j x00 → unpad_scan k (length data + i) t = Ok data) as Hgen.
  { induction i as [|i IH]; intros t _ Hi [|k'] Hk ->; try lia; cbn [unpad_scan].
    - rewrite Nat.add_0_r. rewrite list_lookup_middle by done. by rewrite take_app_length.
    - rewrite lookup_app_r by lia. replace (length data + S i - length data)%nat with (S i) by lia. simpl.
      rewrite lookup_replicate_2 by lia. replace (length data + S i - 1)%nat with (length data + i)%nat by lia.
      by apply IH; try lia. }
  intros Hj. by apply Hgen; try lia.
Qed.

Lemma Unpad_Pad_ok data block : 0 < block → Unpad (Pad data block) block = Ok data.
Proof.
  intros Hb. unfold Unpad. rewrite Pad_aligned by done.
  pose proof (Pad_length data block Hb) as Hl. pose proof (Z.mod_pos_bound (zlen data) block Hb).
  destruct (Z.eqb_spec (zlen (Pad data block)) 0); [pose proof (zlen_nonneg data); lia|]. simpl.
  set (j := Z.to_nat (block - zlen data mod block - 1)).
  replace (length (Pad data block) - 1)%nat with (length data + j)%nat by (unfold zlen in *; lia).
  rewrite Pad_eq by done. apply unpad_scan_zeros. lia.
Qed.

Lemma unpad_scan_inv k i data d :
  (i < length data)%nat → (∀ j, (i < j < length data)%nat → data !! j = Some x00) →
  unpad_scan k i data = Ok d →
  ∃ j, (j <= i)%nat ∧ (i < j + k)%nat ∧ data = d ++ x80 :: replicate (length data - S j) x00 ∧ length d = j.
Proof.
  revert i. induction k as [|k IH]; intros i Hi Hz; simpl; [done|].
  destruct (lookup_lt_is_Some_2 data i Hi) as [b Hb]. rewrite Hb.
  destruct b; try done; intros Hs.
  - destruct i as [|i].
    + destruct k as [|k]; [done|]. simpl in Hs. rewrite Hb in Hs. exfalso.
      clear IH. induction k as [|k IHk]; simpl in Hs; [done|]. rewrite Hb in Hs. auto.
    + simpl in Hs. rewrite Nat.sub_0_r in Hs. apply IH in Hs as (j & ? & ? & ? & ?); [|lia|].
      * exists j. split_and!; [lia|lia|done|done].
      * intros j Hj. destruct (decide (j = S i)) as [->|]; [done|]. apply Hz. lia.
  - injection Hs as <-. exists i. split_and!; [lia|lia| |rewrite length_take; lia].
    rewrite <- (take_drop_middle data i x80 Hb) at 1. f_equal. f_equal.
    apply list_eq. intros j. destruct (decide (j < length data - S i)%nat) as [Hj|Hj].
    + rewrite lookup_drop, lookup_replicate_2 by done. apply Hz. lia.
    + rewrite !lookup_ge_None_2; [done|rewrite length_replicate; lia|rewrite length_drop; lia].
Qed.

Lemma Unpad_inv data block d : 0 < block → Unpad data block = Ok d → data = Pad d block.
Proof.
  intros Hb. unfold Unpad. case_match eqn:Hc; [done|]. breflect. intros Hs.
  assert (length data ≠ 0%nat) as Hne by (unfold zlen in *; lia).
  apply unpad_scan_inv in Hs as (j & Hj & Hk & Heq & Hd); [|lia|intros; lia].
  rewrite Pad_eq by done. rewrite Heq at 1. do 3 f_equal.
  assert (zlen data = zlen d + Z.of_nat (length data - j)) as Hlen by (unfold zlen; lia).
  assert (zlen d mod block = block - Z.of_nat (length data - j)) as Hmod; [|lia].
  symmetry. apply (Z.mod_unique_pos _ _ (zlen data / block - 1)); [lia|].
  pose proof (Z.div_mod (zlen data) block ltac:(lia)). lia.
Qed.

#[export] Hint Resolve Unpad_Pad_ok : burndrop.
