(* ===== verification/Envelope.v ===== *)
(** The plaintext envelope and its encryption: internal/crypto/envelope.go and
    the envelope functions of internal/crypto/crypto.go.  The text fields are
    byte sequences. *)
From S2P Require Import Prelude Base64 Tokens GoStrings Json GoTime Crypto.
From Stdlib Require Import Strings.Byte.

Definition MaxNameLen : Z := 100.
Definition MaxTextLen : Z := 200.

Definition TypeDrop : bytes := B["drop"].
Definition TypeReveal : bytes := B["reveal"].
Definition FormatText : bytes := B["text"].
Definition FormatBase64 : bytes := B["base64"].
Definition RetentionSession : bytes := B["session"].
Definition RetentionUntilRevoked : bytes := B["until-revoked"].
Definition RetentionUntilPrefix : bytes := B["until:"].

Record Envelope := mkEnvelope {
  eV : Z;
  eType : bytes;
  eName : bytes;
  ePurpose : bytes;
  eStorage : bytes;
  eRetention : bytes;
  eFingerprint : bytes;
  eFormat : bytes;
  eSecret : bytes;
}.

Definition zero_envelope : Envelope := mkEnvelope 0 [] [] [] [] [] [] [] [].

(** * Validation *)


Definition ValidateName (name : bytes) : result crypto_error unit :=
  if is_empty name || (MaxNameLen <? RuneCount name) then Err ErrEnvelope
  else if negb (beq (TrimSpace name) name) then Err ErrEnvelope
  else if existsb (λ r, (r <? 32) || (r =? 127)) (runes name) then Err ErrEnvelope
  else Ok tt.

Definition ValidateText (s : bytes) : result crypto_error unit :=
  if MaxTextLen <? RuneCount s then Err ErrEnvelope
  else if negb (ValidUtf8 s) then Err ErrEnvelope
  else if existsb (λ r, ((r <? 32) && negb (r =? 10)) || (r =? 127)) (runes s) then Err ErrEnvelope
  else Ok tt.

Definition ValidateRetention (r : bytes) : result crypto_error unit :=
  if beq r RetentionSession || beq r RetentionUntilRevoked then Ok tt
  else if HasPrefix r RetentionUntilPrefix then
    match Parse_RFC3339 (TrimPrefix r RetentionUntilPrefix) with
    | Some _ => Ok tt
    | None => Err ErrEnvelope
    end
  else Err ErrEnvelope.

(** [fingerprintRe]: four groups of four lower-case hexadecimal digits. *)
Definition is_lower_hex (b : byte) : bool := is_digit b || in_range 97 102 b.

Fixpoint match_groups (pattern : list bool) (s : bytes) : bool :=
  match pattern, s with
  | [], [] => true
  | true :: p, b :: s => is_lower_hex b && match_groups p s
  | false :: p, b :: s => bool_decide (b = x2d) && match_groups p s
  | _, _ => false
  end.

Definition fingerprintRe (s : bytes) : bool :=
  match_groups [true; true; true; true; false; true; true; true; true; false;
                true; true; true; true; false; true; true; true; true] s.

Definition Validate (e : Envelope) : result crypto_error unit :=
  _ ← guard_err (eV e =? 1) ErrEnvelope;
  _ ← guard_err (beq (eType e) TypeDrop || beq (eType e) TypeReveal) ErrEnvelope;
  _ ← guard_err (beq (eFormat e) FormatText || beq (eFormat e) FormatBase64) ErrEnvelope;
  _ ← ValidateName (eName e);
  _ ← ValidateText (ePurpose e);
  _ ← ValidateText (eStorage e);
  _ ← (if beq (eType e) TypeDrop then
         _ ← ValidateRetention (eRetention e);
         guard_err (fingerprintRe (eFingerprint e)) ErrEnvelope
       else
         guard_err (is_empty (eRetention e) && is_empty (eFingerprint e) && is_empty (ePurpose e) && is_empty (eStorage e))
           ErrEnvelope);
  if beq (eFormat e) FormatBase64 then
    match decode (eSecret e) with Some _ => Ok tt | None => Err ErrEnvelope end
  else guard_err (ValidUtf8 (eSecret e)) ErrEnvelope.

(** * Serialization *)

(** The struct tags: names, order and omitted empty fields. *)
Definition omitempty (k v : bytes) : list (bytes * wvalue) := if is_empty v then [] else [(k, WStr v)].

Definition envelope_members (e : Envelope) : list (bytes * wvalue) :=
  [(B["v"], WInt (eV e)); (B["type"], WStr (eType e)); (B["name"], WStr (eName e))] ++
  omitempty B["purpose"] (ePurpose e) ++ omitempty B["storage"] (eStorage e) ++
  omitempty B["retention"] (eRetention e) ++ omitempty B["fingerprint"] (eFingerprint e) ++
  [(B["format"], WStr (eFormat e)); (B["secret"], WStr (eSecret e))].

(** [TrimRight] removes the newline the encoder ends with. *)
Definition Encode (e : Envelope) : result crypto_error bytes :=
  _ ← Validate e;
  Ok (write_object (envelope_members e)).

Definition envelope_fields : list (bytes * setter Envelope) :=
  [(B["v"], SetInt (λ n e, mkEnvelope n (eType e) (eName e) (ePurpose e) (eStorage e) (eRetention e) (eFingerprint e) (eFormat e) (eSecret e)));
   (B["type"], SetStr (λ s e, mkEnvelope (eV e) s (eName e) (ePurpose e) (eStorage e) (eRetention e) (eFingerprint e) (eFormat e) (eSecret e)));
   (B["name"], SetStr (λ s e, mkEnvelope (eV e) (eType e) s (ePurpose e) (eStorage e) (eRetention e) (eFingerprint e) (eFormat e) (eSecret e)));
   (B["purpose"], SetStr (λ s e, mkEnvelope (eV e) (eType e) (eName e) s (eStorage e) (eRetention e) (eFingerprint e) (eFormat e) (eSecret e)));
   (B["storage"], SetStr (λ s e, mkEnvelope (eV e) (eType e) (eName e) (ePurpose e) s (eRetention e) (eFingerprint e) (eFormat e) (eSecret e)));
   (B["retention"], SetStr (λ s e, mkEnvelope (eV e) (eType e) (eName e) (ePurpose e) (eStorage e) s (eFingerprint e) (eFormat e) (eSecret e)));
   (B["fingerprint"], SetStr (λ s e, mkEnvelope (eV e) (eType e) (eName e) (ePurpose e) (eStorage e) (eRetention e) s (eFormat e) (eSecret e)));
   (B["format"], SetStr (λ s e, mkEnvelope (eV e) (eType e) (eName e) (ePurpose e) (eStorage e) (eRetention e) (eFingerprint e) s (eSecret e)));
   (B["secret"], SetStr (λ s e, mkEnvelope (eV e) (eType e) (eName e) (ePurpose e) (eStorage e) (eRetention e) (eFingerprint e) (eFormat e) s))].

Definition DecodeEnvelope (b : bytes) : result crypto_error Envelope :=
  match Decode envelope_fields zero_envelope b with
  | (Err _, _) => Err ErrEnvelope
  | (Ok e, rest) =>
      if More rest then Err ErrEnvelope
      else _ ← Validate e; Ok e
  end.

(** * The secret *)

Definition SecretBytes (e : Envelope) : option bytes :=
  if beq (eFormat e) FormatBase64 then decode (eSecret e) else Some (eSecret e).

Definition hasBinaryControl (b : bytes) : bool :=
  existsb (λ c, (b2z c <? 32) && negb (bool_decide (c = x09)) && negb (bool_decide (c = x0a)) && negb (bool_decide (c = x0d))) b.

Definition SetSecret (value : bytes) (e : Envelope) : Envelope :=
  let set f s := mkEnvelope (eV e) (eType e) (eName e) (ePurpose e) (eStorage e) (eRetention e) (eFingerprint e) f s in
  if ValidUtf8 value && negb (hasBinaryControl value) then set FormatText value
  else set FormatBase64 (encode value).

Definition RevealAAD (name : bytes) (keepsCopy : bool) : bytes :=
  B["burndrop/reveal/v1"] ++ x0a :: name ++ x0a :: (if keepsCopy then B["1"] else B["0"]).

(** * Encrypted envelopes (crypto.go) *)

Section sealing.
Context `{P : Primitives}.

Definition padded_plain (env : Envelope) : result crypto_error bytes :=
  plain ← Encode env;
  if MaxPlaintext <? zlen plain then Err ErrSize else Ok (Pad plain PadBlock).

Definition SealEnvelope (recipientPub : bytes) (env : Envelope) (random : reader) : result crypto_error bytes :=
  padded ← padded_plain env;
  Seal recipientPub padded random.

Definition OpenEnvelope (pub priv sealed : bytes) : result crypto_error Envelope :=
  if MaxPlaintext + PadBlock + SealedOverhead <? zlen sealed then Err ErrSize
  else
    padded ← OpenSealed pub priv sealed;
    plain ← Unpad padded PadBlock;
    DecodeEnvelope plain.

Definition EncryptEnvelope (key : bytes) (env : Envelope) (aad : bytes) (random : reader) : result crypto_error bytes :=
  padded ← padded_plain env;
  EncryptAEAD key padded aad random.

Definition DecryptEnvelope (key blob aad : bytes) : result crypto_error Envelope :=
  if MaxPlaintext + PadBlock + AEADOverhead <? zlen blob then Err ErrSize
  else
    padded ← DecryptAEAD key blob aad;
    plain ← Unpad padded PadBlock;
    DecodeEnvelope plain.
End sealing.
