(* ===== verification/EnvelopeProps.v ===== *)
(** Envelopes survive the trip through JSON, padding and encryption; secrets
    survive their text or base64 form; the additional data of a reveal
    determines what it shows. *)
From S2P Require Import Prelude Base64 Tokens GoStrings Json GoTime Crypto Envelope.
From Stdlib Require Import Strings.Byte.

(** * Validated fields are valid UTF-8 *)

Lemma match_groups_ascii p s : match_groups p s = true → ascii s.
Proof.
  revert s. induction p as [|[] p IH]; intros [|b s]; simpl; try done; try (intros; by constructor);
    intros [Hb Hs]%andb_prop.
  - apply Forall_cons. split; [|by apply IH]. unfold is_lower_hex in Hb.
    apply orb_true_iff in Hb as [Hb|Hb]; [by apply digit_ascii|]. apply in_range_iff in Hb. lia.
  - apply bool_decide_eq_true in Hb as ->. apply Forall_cons. split; [done|by apply IH].
Qed.

Lemma HasPrefix_app s p : HasPrefix s p = true → s = p ++ drop (length p) s.
Proof.
  revert s. induction p as [|b p IH]; intros [|c s]; simpl; try done.
  intros [Hb Hs]%andb_prop. apply bool_decide_eq_true in Hb as ->. by rewrite <- IH.
Qed.

Lemma ValidateRetention_ascii r u : ValidateRetention r = Ok u → ascii r.
Proof.
  unfold ValidateRetention. destruct (beq r RetentionSession || _) eqn:E.
  { intros _. unfold beq in E. breflect. destruct E as [E|E]; breflect; subst; by repeat constructor. }
  destruct (HasPrefix r RetentionUntilPrefix) eqn:Hp; [|done]. unfold TrimPrefix. rewrite Hp.
  destruct (Parse_RFC3339 _) eqn:Ht; [|done]. intros _. apply Parse_RFC3339_ascii in Ht.
  rewrite (HasPrefix_app _ _ Hp). apply Forall_app. split; [by repeat constructor|done].
Qed.

Lemma alphabet_ascii : ascii alphabet.
Proof. by repeat constructor. Qed.

Lemma enc_char_ascii v : 0 <= v < 64 → b2z (enc_char v) < 128.
Proof.
  intros Hv. unfold enc_char. pose proof alphabet_ascii as Ha. unfold ascii in Ha. rewrite Forall_forall in Ha.
  apply Ha. apply list_elem_of_In. apply nth_In. change (length alphabet) with 64%nat. lia.
Qed.

Lemma encode_ascii l : ascii (encode l).
Proof.
  unfold encode. apply Forall_fmap. eapply Forall_impl; [apply sextets_range|]. apply enc_char_ascii.
Qed.

Lemma decode_ascii s l : decode s = Some l → ascii s.
Proof.
  intros Hd%encode_decode. pose proof (encode_ascii l) as Ha. rewrite Hd in Ha. clear Hd.
  induction s as [|b s IH]; [constructor|]. rewrite filter_cons in Ha. case_decide as Hn.
  - apply Forall_cons in Ha as [??]. apply Forall_cons. split; [done|by apply IH].
  - apply Forall_cons. split; [|by apply IH]. unfold is_newline in Hn.
    destruct (decide (b = x0a)) as [->|]; [done|]. destruct (decide (b = x0d)) as [->|]; [done|].
    exfalso. apply Hn. by rewrite !bool_decide_eq_false_2.
Qed.

Lemma ValidateText_utf8 s u : ValidateText s = Ok u → ValidUtf8 s = true.
Proof. unfold ValidateText. intros H. split_match H. by breflect. Qed.

#[export] Hint Resolve ValidUtf8_ascii ValidateRetention_ascii match_groups_ascii decode_ascii ValidateText_utf8
  : burndrop.

Lemma Validate_utf8 e u :
  Validate e = Ok u →
  eV e = 1 ∧ ValidUtf8 (eType e) = true ∧ ValidUtf8 (ePurpose e) = true ∧ ValidUtf8 (eStorage e) = true ∧
  ValidUtf8 (eRetention e) = true ∧ ValidUtf8 (eFingerprint e) = true ∧ ValidUtf8 (eFormat e) = true ∧
  ValidUtf8 (eSecret e) = true.
Proof.
  intros H. unfold Validate in H.
  apply result_bind_ok in H as (? & Hv%guard_err_ok & H). apply result_bind_ok in H as (? & Ht%guard_err_ok & H).
  apply result_bind_ok in H as (? & Hf%guard_err_ok & H). apply result_bind_ok in H as (? & _ & H).
  apply result_bind_ok in H as (? & Hp%ValidateText_utf8 & H). apply result_bind_ok in H as (? & Hs%ValidateText_utf8 & H).
  apply result_bind_ok in H as (? & Hd & H). unfold beq, is_empty in *.
  assert (ValidUtf8 (eRetention e) = true ∧ ValidUtf8 (eFingerprint e) = true) as [Hr Hfp].
  { destruct (bool_decide (eType e = TypeDrop)) eqn:Et.
    - apply result_bind_ok in Hd as (? & Hr%ValidateRetention_ascii & Hg%guard_err_ok).
      split; apply ValidUtf8_ascii; [done|]. by eapply match_groups_ascii.
    - apply guard_err_ok in Hd. breflect. by repeat match goal with E : _ = [] |- _ => rewrite E; clear E end. }
  split_and!; try done.
  - by breflect.
  - apply orb_true_iff in Ht as [Ht|Ht]; apply bool_decide_eq_true in Ht as ->; reflexivity.
  - apply orb_true_iff in Hf as [Hf|Hf]; apply bool_decide_eq_true in Hf as ->; reflexivity.
  - destruct (bool_decide (eFormat e = FormatBase64)).
    + destruct (decode (eSecret e)) eqn:E; [|done]. apply ValidUtf8_ascii. by eapply decode_ascii.
    + by apply guard_err_ok in H.
Qed.

(** * Through JSON *)

Lemma readable_one : readable (WInt 1).
Proof. intros fuel d t (c & u & -> & [->| ->]); reflexivity. Qed.

Lemma omitempty_readable k v :
  ValidUtf8 k = true → ValidUtf8 v = true → Forall (λ m, ValidUtf8 m.1 = true ∧ readable m.2) (omitempty k v).
Proof. intros Hk Hv. unfold omitempty. case_match; repeat constructor; done. Qed.

Lemma envelope_members_readable e :
  eV e = 1 → ValidUtf8 (eType e) = true → ValidUtf8 (eName e) = true → ValidUtf8 (ePurpose e) = true →
  ValidUtf8 (eStorage e) = true → ValidUtf8 (eRetention e) = true → ValidUtf8 (eFingerprint e) = true →
  ValidUtf8 (eFormat e) = true → ValidUtf8 (eSecret e) = true →
  Forall (λ m, ValidUtf8 m.1 = true ∧ readable m.2) (envelope_members e).
Proof.
  intros Hv ????????. unfold envelope_members. rewrite Hv.
  repeat first [apply Forall_app; split|apply omitempty_readable; [done|done]|constructor; [split; [done|]|]]; try done.
  apply readable_one.
Qed.

Lemma store_envelope e :
  eV e = 1 → ValidUtf8 (eType e) = true → ValidUtf8 (eName e) = true → ValidUtf8 (ePurpose e) = true →
  ValidUtf8 (eStorage e) = true → ValidUtf8 (eRetention e) = true → ValidUtf8 (eFingerprint e) = true →
  ValidUtf8 (eFormat e) = true → ValidUtf8 (eSecret e) = true →
  store_members envelope_fields ((λ m, (m.1, json_of m.2)) <$> envelope_members e) zero_envelope = Ok e.
Proof.
  destruct e as [v ty n p s r f fm sec]. cbn [eV eType eName ePurpose eStorage eRetention eFingerprint eFormat eSecret].
  intros ->. unfold envelope_members, omitempty, is_empty.
  cbn [eV eType eName ePurpose eStorage eRetention eFingerprint eFormat eSecret].
  destruct (bool_decide (p = [])) eqn:Ep, (bool_decide (s = [])) eqn:Es, (bool_decide (r = [])) eqn:Er, (bool_decide (f = [])) eqn:Ef;
    breflect; subst; cbn [app fmap list_fmap fst snd json_of]; intros; hide_escapes; reflexivity.
Qed.

Lemma JoinByte_length (ps : list bytes) c : Forall (λ p, p ≠ []) ps → (length ps <= length (JoinByte ps c))%nat.
Proof.
  induction ps as [|p [|q ps] IH]; intros Hf; [done|..].
  - apply Forall_cons in Hf as [Hp _]. destruct p; [done|simpl; lia].
  - apply Forall_cons in Hf as [Hp Hf]. specialize (IH Hf). cbn [JoinByte length] in *.
    rewrite length_app. cbn [length]. lia.
Qed.

Lemma write_object_length ms : (S (length ms) < S (length (write_object ms)))%nat.
Proof.
  unfold write_object. simpl. rewrite length_app. pose proof (JoinByte_length (write_member <$> ms) x2c) as H.
  rewrite length_fmap in H. simpl. cut (length ms <= length (JoinByte (write_member <$> ms) x2c))%nat; [lia|].
  apply H. apply Forall_fmap, Forall_true. intros m. unfold write_member, write_string. simpl. done.
Qed.

Lemma decode_encoded e u :
  Validate e = Ok u → ValidUtf8 (eName e) = true → DecodeEnvelope (write_object (envelope_members e)) = Ok e.
Proof.
  intros Hval Hn. destruct (Validate_utf8 e u Hval) as (Hv & Ht & Hp & Hs & Hr & Hf & Hfm & Hsec).
  unfold DecodeEnvelope, Decode. set (s := write_object (envelope_members e)).
  assert (read_value (S (length s)) 0 s = Ok (JObj ((λ m, (m.1, json_of m.2)) <$> envelope_members e), [])) as ->.
  { rewrite <- (app_nil_r s) at 2. apply read_write_object; [done| |apply write_object_length].
    by apply envelope_members_readable. }
  rewrite store_envelope by done. simpl. by rewrite Hval.
Qed.

(** C25. An envelope that passes validation and whose name is valid UTF-8 is
    written as one JSON object that decodes, validated again, to the same
    envelope. *)
Theorem envelope_roundtrip e :
  Validate e = Ok tt → ValidUtf8 (eName e) = true → ∃ b, Encode e = Ok b ∧ DecodeEnvelope b = Ok e.
Proof.
  intros Hval Hn. eexists. unfold Encode. rewrite Hval. split; [done|]. by eapply decode_encoded.
Qed.

Lemma Encode_ok e b : Encode e = Ok b → ValidUtf8 (eName e) = true → DecodeEnvelope b = Ok e.
Proof.
  unfold Encode. intros (u & Hv & [= <-])%result_bind_ok Hn. by eapply decode_encoded.
Qed.

(** * Through encryption *)

Section sealing.
Context `{PrimitivesOk}.

Lemma padded_plain_ok e p :
  padded_plain e = Ok p → ∃ plain, Encode e = Ok plain ∧ zlen plain <= MaxPlaintext ∧ p = Pad plain PadBlock.
Proof.
  unfold padded_plain. intros (plain & He & Hp)%result_bind_ok. case_match eqn:E; simplify_eq. breflect. eauto.
Qed.

Lemma Pad_max plain : zlen plain <= MaxPlaintext → zlen (Pad plain PadBlock) <= MaxPlaintext + PadBlock.
Proof.
  intros Hl. rewrite Pad_length by done. pose proof (Z.mod_pos_bound (zlen plain) PadBlock).
  unfold PadBlock, MaxPlaintext in *. lia.
Qed.

(** What is sealed to a public key is opened by its key pair as the same
    envelope; no sealed envelope is refused for its size. *)
Theorem open_seal_envelope pub priv e random c :
  is_keypair pub priv → ValidUtf8 (eName e) = true → SealEnvelope pub e random = Ok c →
  OpenEnvelope pub priv c = Ok e.
Proof.
  intros Hkp Hn (p & Hp & Hc)%result_bind_ok. apply padded_plain_ok in Hp as (plain & He & Hl & ->).
  unfold Seal in Hc. destruct (box_SealAnonymous _ _ _) as [c'|] eqn:Es; simplify_eq.
  pose proof (box_seal_length _ _ _ _ Es) as Hlen. pose proof (Pad_max plain Hl).
  unfold OpenEnvelope, OpenSealed. destruct (Z.ltb_spec (MaxPlaintext + PadBlock + SealedOverhead) (zlen c)); [lia|].
  pose proof (zlen_nonneg (Pad plain PadBlock)).
  destruct (Z.ltb_spec (zlen c) SealedOverhead); [lia|].
  rewrite (box_open_seal _ _ _ _ _ Hkp Es). cbn [mbind result_bind].
  rewrite Unpad_Pad_ok by done. by apply Encode_ok.
Qed.

(** What is encrypted for a reveal is decrypted under the same key and
    additional data as the same envelope. *)
Theorem decrypt_encrypt_envelope key e aad random blob :
  (∀ b, random NonceSize = Some b → zlen b = NonceSize) → ValidUtf8 (eName e) = true →
  EncryptEnvelope key e aad random = Ok blob → DecryptEnvelope key blob aad = Ok e.
Proof.
  intros Hrand Hn (p & Hp & Hc)%result_bind_ok. apply padded_plain_ok in Hp as (plain & He & Hl & ->).
  unfold EncryptAEAD in Hc. destruct (random NonceSize) as [nonce|] eqn:Er; simplify_eq.
  pose proof (Hrand nonce eq_refl) as Hnl0. pose proof (Pad_max plain Hl). pose proof (zlen_nonneg (Pad plain PadBlock)).
  assert (zlen (nonce ++ aead_Seal key nonce (Pad plain PadBlock) aad) = zlen (Pad plain PadBlock) + AEADOverhead) as Hlen.
  { rewrite zlen_app, aead_seal_length. unfold AEADOverhead. lia. }
  unfold DecryptEnvelope, DecryptAEAD. rewrite Hlen.
  destruct (Z.ltb_spec (MaxPlaintext + PadBlock + AEADOverhead) (zlen (Pad plain PadBlock) + AEADOverhead)); [lia|].
  destruct (Z.ltb_spec (zlen (Pad plain PadBlock) + AEADOverhead) AEADOverhead); [lia|].
  assert (length nonce = Z.to_nat NonceSize) as Hnl by (unfold zlen in Hnl0; lia).
  rewrite <- Hnl, take_app_length, drop_app_length, aead_open_seal. cbn [mbind result_bind].
  rewrite Unpad_Pad_ok by done. by apply Encode_ok.
Qed.

(** A reveal that decrypts was encrypted under the same key and the same
    additional data: the blob is a nonce followed by the sealing, under that
    additional data, of the one padding of a plaintext that decodes to the
    envelope. *)
Theorem decrypt_envelope_authentic key blob aad e :
  DecryptEnvelope key blob aad = Ok e →
  ∃ nonce plain, zlen nonce = NonceSize ∧
    blob = nonce ++ aead_Seal key nonce (Pad plain PadBlock) aad ∧ DecodeEnvelope plain = Ok e.
Proof.
  unfold DecryptEnvelope. case_match; [done|]. intros (padded & Hp & (plain & Hu & Hd)%result_bind_ok)%result_bind_ok.
  unfold DecryptAEAD in Hp. destruct (Z.ltb_spec (zlen blob) AEADOverhead); [done|].
  destruct (aead_Open _ _ _ _) as [out|] eqn:Eo; simplify_eq.
  apply aead_seal_open in Eo. apply Unpad_inv in Hu; [|done]. subst padded.
  exists (take (Z.to_nat NonceSize) blob), plain. split_and!; [|by rewrite <- Eo, take_drop|done].
  unfold zlen in *. rewrite length_take. unfold AEADOverhead, NonceSize, TagSize in *. lia.
Qed.
End sealing.

(** * Secrets and additional data *)

(** Whatever bytes a secret has, text or binary, the envelope gives them
    back. *)
Theorem secret_roundtrip value e : SecretBytes (SetSecret value e) = Some value.
Proof.
  unfold SetSecret, SecretBytes, beq. destruct (ValidUtf8 value && _); [done|].
  cbn -[decode encode]. apply decode_encode.
Qed.

(** Setting the secret leaves a valid envelope valid. *)
Lemma SetSecret_valid value e u : Validate e = Ok u → Validate (SetSecret value e) = Ok tt.
Proof.
  destruct e as [v ty n p s r f fm sec]. unfold Validate, SetSecret.
  cbn [eV eType eName ePurpose eStorage eRetention eFingerprint eFormat eSecret]. intros H.
  destruct (ValidUtf8 value && negb (hasBinaryControl value)) eqn:E;
    cbn [eV eType eName ePurpose eStorage eRetention eFingerprint eFormat eSecret].
  all: do 2 (apply result_bind_ok in H as ([] & -> & H); cbn [mbind result_bind]).
  all: apply result_bind_ok in H as ([] & _ & H); cbn [mbind result_bind].
  all: do 4 (apply result_bind_ok in H as ([] & Hx & H); rewrite Hx; clear Hx; cbn [mbind result_bind]).
  - apply andb_prop in E as [Hv _]. cbn. by rewrite Hv.
  - cbn -[decode encode]. by rewrite decode_encode.
Qed.

(** The additional data of a reveal determines the name and the
    keeps-a-copy flag the page shows, so a link with either of them altered
    never presents the additional data the reveal was encrypted under. *)
Theorem RevealAAD_inj name keeps name' keeps' :
  RevealAAD name keeps = RevealAAD name' keeps' → name = name' ∧ keeps = keeps'.
Proof.
  unfold RevealAAD. intros [= H]%app_inv_head.
  assert (∀ n k, n ++ x0a :: (if k : bool then B["1"] else B["0"]) = (n ++ [x0a]) ++ [if k then x31 else x30]) as Hs.
  { intros n k. rewrite <- app_assoc. by destruct k. }
  rewrite !Hs in H. apply app_inj_2 in H as [Hn [= Hk]]; [|done].
  apply app_inj_2 in Hn as [-> _]; [|done]. split; [done|]. by destruct keeps, keeps'.
Qed.

(** * Concrete instances *)

(** Primitives without secrecy that satisfy the laws: a box is zeros and the
    text, a tag is zeros. *)
Definition toy_primitives : Primitives := {|
  box_GenerateKey read := p ← read KeySize; if decide (zlen p = KeySize) then Some (p, p) else None;
  box_SealAnonymous pub m read := Some (replicate 48 x00 ++ m);
  box_OpenAnonymous pub priv c := if decide (pub = priv) then Some (drop 48 c) else None;
  aead_Seal k n m a := replicate 16 x00 ++ m;
  aead_Open k n c a := if decide (take 16 c = replicate 16 x00) then Some (drop 16 c) else None;
  argon2_IDKey p s t m th n := replicate (Z.to_nat n) x00;
  blake2b_Sum256 m := replicate 32 x00;
  is_keypair pub priv := pub = priv;
|}.

Lemma toy_primitives_ok : @PrimitivesOk toy_primitives.
Proof.
  split; simpl.
  - intros read pub priv (p & _ & Hp)%bind_Some. case_decide; by simplify_eq.
  - intros read pub priv (p & _ & Hp)%bind_Some. case_decide; by simplify_eq.
  - intros read pub priv m c -> [= <-]. by rewrite decide_True.
  - intros read pub m c [= <-]. unfold SealedOverhead, zlen. simpl. lia.
  - done.
  - intros k n c a m. case_decide as Hc; [|done]. intros [= <-].
    rewrite <- (take_drop 16 c) at 1. by rewrite Hc.
  - intros k n m a. unfold TagSize, zlen. simpl. lia.
Qed.

(** A name with a quote and a non-ASCII letter, a secret with a newline, a
    backslash and a line separator. *)
Definition sample_envelope : Envelope :=
  mkEnvelope 1 TypeDrop (B["db "] ++ [x22; xc3; xa9]) B["deploy"] [] RetentionUntilRevoked B["7f4e-3996-5f9b-d725"]
    FormatText (B["line"] ++ [x0a; x5c; xe2; x80; xa8]).

Definition sample_random : reader := λ n, Some (replicate (Z.to_nat n) x07).

Lemma envelope_roundtrip_witness :
  ∃ b, Encode sample_envelope = Ok b ∧ DecodeEnvelope b = Ok sample_envelope.
Proof. apply envelope_roundtrip; vm_compute; reflexivity. Defined.

Definition sample_key : bytes := replicate 32 x01.

Lemma open_seal_envelope_witness :
  ∃ c, @SealEnvelope toy_primitives sample_key sample_envelope sample_random = Ok c ∧
    @OpenEnvelope toy_primitives sample_key sample_key c = Ok sample_envelope.
Proof.
  eexists. split; [vm_compute; reflexivity|].
  apply (@open_seal_envelope toy_primitives toy_primitives_ok _ _ _ sample_random); vm_compute; reflexivity.
Defined.

Lemma decrypt_encrypt_envelope_witness :
  ∃ blob, @EncryptEnvelope toy_primitives sample_key sample_envelope B["aad"] sample_random = Ok blob ∧
    @DecryptEnvelope toy_primitives sample_key blob B["aad"] = Ok sample_envelope.
Proof.
  eexists. split; [vm_compute; reflexivity|].
  apply (@decrypt_encrypt_envelope toy_primitives toy_primitives_ok _ _ _ sample_random);
    [intros b [= <-]; reflexivity|vm_compute; reflexivity|vm_compute; reflexivity].
Defined.

Lemma decrypt_envelope_authentic_witness :
  ∃ blob nonce plain, zlen nonce = NonceSize ∧
    blob = nonce ++ @aead_Seal toy_primitives sample_key nonce (Pad plain PadBlock) B["aad"] ∧
    DecodeEnvelope plain = Ok sample_envelope.
Proof.
  eexists.
  apply (@decrypt_envelope_authentic toy_primitives toy_primitives_ok sample_key
    (match @EncryptEnvelope toy_primitives sample_key sample_envelope B["aad"] sample_random with Ok b => b | Err _ => [] end)).
  vm_compute. reflexivity.
Defined.

Lemma RevealAAD_inj_witness : B["k"] = B["k"] ∧ true = true.
Proof. apply RevealAAD_inj. reflexivity. Defined.
