(* ===== verification/GoNet.v ===== *)
(** IP addresses as Go's net and net/netip parse, print and match them, and
    URLs (net/url). *)
From S2P Require Import Prelude GoStrings.
From Stdlib Require Import Strings.Byte.

(** * Parsing *)

(** A decimal octet without a leading zero. *)
Definition parse_octet (s : bytes) : option Z :=
  match s with
  | [] => None
  | b :: s' =>
      if forallb is_digit s && (negb (bool_decide (b = x30)) || bool_decide (s' = [])) && (zlen s <=? 3) then
        let v := digits_val 0 s in if v <=? 255 then Some v else None
      else None
  end.

Definition parse_ipv4 (s : bytes) : option (list Z) :=
  let ps := Split s x2e in
  if zlen ps =? 4 then mapM parse_octet ps else None.

(** A hexadecimal group: at most four digits, then the rest. *)
Fixpoint scan_hex (acc : Z) (n : nat) (s : bytes) : option (Z * nat * bytes) :=
  match s with
  | b :: s' =>
      match hex_val b with
      | Some v => if (3 <? n)%nat then None else scan_hex (16 * acc + v) (S n) s'
      | None => Some (acc, n, s)
      end
  | [] => Some (acc, n, [])
  end.

(** [parseIPv6]'s loop: groups read so far, the position of the ellipsis among
    them.  A round reads at least one byte. *)
Fixpoint ipv6_loop (fuel : nat) (ip : list Z) (ellipsis : option nat) (s : bytes) : option (list Z * option nat * bytes) :=
  match fuel with
  | O => None
  | S fuel =>
      if (16 <=? length ip)%nat then Some (ip, ellipsis, s)
      else
        '(acc, off, rest) ← scan_hex 0 0%nat s;
        if (off =? 0)%nat then None
        else
          match rest with
          | x2e :: _ =>
              if bool_decide (ellipsis = None) && negb (length ip =? 12)%nat then None
              else if (16 <? length ip + 4)%nat then None
              else v4 ← parse_ipv4 s; Some (ip ++ v4, ellipsis, [])
          | [] => Some (ip ++ [acc / 256; acc mod 256], ellipsis, [])
          | x3a :: rest' =>
              let ip := ip ++ [acc / 256; acc mod 256] in
              match rest' with
              | [] => None
              | x3a :: rest'' =>
                  match ellipsis with
                  | Some _ => None
                  | None =>
                      match rest'' with
                      | [] => Some (ip, Some (length ip), [])
                      | _ => ipv6_loop fuel ip (Some (length ip)) rest''
                      end
                  end
              | _ => ipv6_loop fuel ip ellipsis rest'
              end
          | _ => None
          end
  end.

Definition parse_ipv6 (s : bytes) : option (list Z) :=
  let '(s, zone, zoned) := Cut s x25 in
  if zoned && bool_decide (zone = []) then None
  else
    let '(ellipsis, s) := match s with x3a :: x3a :: s' => (Some 0%nat, s') | _ => (None, s) end in
    if bool_decide (ellipsis = Some 0%nat) && bool_decide (s = []) then Some (replicate 16 0)
    else
      '(ip, ellipsis, rest) ← ipv6_loop (S (length s)) [] ellipsis s;
      if negb (bool_decide (rest = [])) then None
      else if (length ip <? 16)%nat then
        e ← ellipsis;
        Some (take e ip ++ replicate (16 - length ip) 0 ++ drop e ip)
      else match ellipsis with Some _ => None | None => Some ip end.

(** [netip.ParseAddr]: the first of a period, a colon or a percent sign
    decides. *)
Inductive addr := IPv4 (octets : list Z) | IPv6 (octets : list Z) (zoned : bool).

Fixpoint addr_kind (s : bytes) : option bool :=
  match s with
  | x2e :: _ => Some true
  | x3a :: _ => Some false
  | x25 :: _ => None
  | _ :: s => addr_kind s
  | [] => None
  end.

Definition ParseAddr (s : bytes) : option addr :=
  k ← addr_kind s;
  if k : bool then ip ← parse_ipv4 s; Some (IPv4 ip)
  else ip ← parse_ipv6 s; Some (IPv6 ip (ContainsByte s x25)).

(** [net.ParseIP]: 16 bytes, an IPv4 address in its mapped form; no zones. *)
Definition v4_prefix : list Z := replicate 10 0 ++ [255; 255].

Definition ParseIP (s : bytes) : option (list Z) :=
  a ← ParseAddr s;
  match a with
  | IPv4 ip => Some (v4_prefix ++ ip)
  | IPv6 ip zoned => if zoned then None else Some ip
  end.

Definition To4 (ip : list Z) : option (list Z) :=
  if bool_decide (length ip = 4%nat) then Some ip
  else if bool_decide (length ip = 16%nat ∧ take 12 ip = v4_prefix) then Some (drop 12 ip)
  else None.

(** * Printing *)

Definition dotted (ip : list Z) : bytes := JoinByte (Itoa <$> ip) x2e.

Fixpoint groups (ip : list Z) : list Z :=
  match ip with a :: b :: r => 256 * a + b :: groups r | _ => [] end.

(** Hexadecimal without leading zeros. *)
Definition hex_group (v : Z) : bytes :=
  let ds := [v / 4096; v / 256 mod 16; v / 16 mod 16; v mod 16] in
  hex_lower <$> (if v <? 16 then drop 3 ds else if v <? 256 then drop 2 ds else if v <? 4096 then drop 1 ds else ds).

Fixpoint zero_run (gs : list Z) : nat :=
  match gs with 0 :: gs => S (zero_run gs) | _ => 0%nat end.

(** The first of the longest runs of two or more zero groups. *)
Fixpoint longest_run (i : nat) (gs : list Z) (best : nat * nat) : nat * nat :=
  match gs with
  | [] => best
  | _ :: rest =>
      let l := zero_run gs in
      longest_run (S i) rest (if (1 <? l)%nat && (best.2 <? l)%nat then (i, l) else best)
  end.

Definition hex_groups (gs : list Z) : bytes := JoinByte (hex_group <$> gs) x3a.

(** [IP.String] *)
Definition IP_String (ip : list Z) : bytes :=
  match To4 ip with
  | Some ip4 => dotted ip4
  | None =>
      let gs := groups ip in
      let '(i, l) := longest_run 0 gs (0%nat, 0%nat) in
      if (l =? 0)%nat then hex_groups gs
      else hex_groups (take i gs) ++ B["::"] ++ hex_groups (drop (i + l) gs)
  end.

(** * Networks *)

(** A network: its address and mask, both of 4 or of 16 bytes. *)
Record IPNet := mkIPNet { net_ip : list Z; net_mask : list Z }.

Definition Contains (n : IPNet) (ip : list Z) : bool :=
  let ip := default ip (To4 ip) in
  let nip := default (net_ip n) (To4 (net_ip n)) in
  let mask := if bool_decide (length (net_mask n) = 16%nat ∧ length nip = 4%nat) then drop 12 (net_mask n) else net_mask n in
  bool_decide (length nip = length mask) && bool_decide (length ip = length nip) &&
  bool_decide (zip_with Z.land nip mask = zip_with Z.land ip mask).

(** A mask of [ones] leading one bits in [n] bytes. *)
Fixpoint cidr_mask (n : nat) (ones : Z) : list Z :=
  match n with
  | O => []
  | S n => (if 8 <=? ones then 255 else if ones <=? 0 then 0 else 256 - 2 ^ (8 - ones)) :: cidr_mask n (ones - 8)
  end.

(** [net.ParseCIDR] *)
Definition ParseCIDR (s : bytes) : option IPNet :=
  let '(a, p, found) := Cut s x2f in
  if negb found then None
  else
    ip ← ParseAddr a;
    let '(octets, zoned) := match ip with IPv4 o => (o, false) | IPv6 o z => (o, z) end in
    if zoned then None
    else if negb (forallb is_digit p) || bool_decide (p = []) then None
    else
      let n := digits_val 0 p in
      if 8 * zlen octets <? n then None
      else let m := cidr_mask (length octets) n in Some (mkIPNet (zip_with Z.land octets m) m).

(** * Examples *)

Example parse_ip_examples :
  (λ s, IP_String <$> ParseIP s) <$>
    [B["192.0.2.7"]; B["2001:DB8::1"]; B["::ffff:1.2.3.4"]; B["fe80::1%eth0"]; B["1.2.3"]; B["01.2.3.4"];
     B["1:2:3:4:5:6:7:8"]; B["1::0:0:2:0"]; B["::"]; B["1:2:3:4:5:6:7::"]; B["12345::"]; B["example"]] =
  [Some B["192.0.2.7"]; Some B["2001:db8::1"]; Some B["1.2.3.4"]; None; None; None;
   Some B["1:2:3:4:5:6:7:8"]; Some B["1::2:0"]; Some B["::"]; Some B["1:2:3:4:5:6:7:0"]; None; None].
Proof. vm_compute. reflexivity. Qed.

Example contains_examples :
  (λ s, n ← ParseCIDR B["10.1.0.0/16"]; Contains n <$> ParseIP s) <$> [B["10.1.2.3"]; B["10.2.0.1"]; B["::1"]; B["::ffff:10.1.0.9"]] =
  [Some true; Some false; Some false; Some true].
Proof. vm_compute. reflexivity. Qed.

(** * net/url

    Go's net/url: splitting a URL into its parts, and query escaping. *)

(** * Escaping *)

Definition is_alnum (b : byte) : bool := is_digit b || is_upper b || is_lower b.

(** The characters a query component keeps as they are. *)
Definition unreserved (b : byte) : bool :=
  is_alnum b || bool_decide (b = x2d) || bool_decide (b = x5f) || bool_decide (b = x2e) || bool_decide (b = x7e).

Definition escape_byte (b : byte) : bytes :=
  if unreserved b then [b]
  else if decide (b = x20) then [x2b]
  else [x25; hex_upper (b2z b / 16); hex_upper (b2z b mod 16)].

Fixpoint QueryEscape (s : bytes) : bytes :=
  match s with [] => [] | b :: s => escape_byte b ++ QueryEscape s end.

(** [unescape] of a query component. *)
Fixpoint QueryUnescape (s : bytes) : option bytes :=
  match s with
  | [] => Some []
  | b :: s1 =>
      if decide (b = x25) then
        match s1 with
        | h :: l :: s2 =>
            vh ← hex_val h; vl ← hex_val l;
            rest ← QueryUnescape s2;
            Some (z2b (16 * vh + vl) :: rest)
        | _ => None
        end
      else
        rest ← QueryUnescape s1;
        Some ((if decide (b = x2b) then x20 else b) :: rest)
  end.

(** [unescape] of a host: only non-ASCII bytes and the percent sign itself may
    be escaped, and the unescaped characters are limited. *)
Definition host_char (b : byte) : bool :=
  (128 <=? b2z b) || is_alnum b ||
  existsb (λ c, bool_decide (b = c)) B["-_.~!$&'()*+,;=:[]<>"] || bool_decide (b = x22).

Fixpoint unescape_host (s : bytes) : option bytes :=
  match s with
  | [] => Some []
  | b :: s1 =>
      if decide (b = x25) then
        match s1 with
        | h :: l :: s2 =>
            vh ← hex_val h; vl ← hex_val l;
            if (vh <? 8) && negb (bool_decide (h = x32 ∧ l = x35)) then None
            else rest ← unescape_host s2; Some (z2b (16 * vh + vl) :: rest)
        | _ => None
        end
      else if host_char b then rest ← unescape_host s1; Some (b :: rest)
      else None
  end.

(** [unescape] of a zone: what is escaped must be a percent sign, a space or a
    character hosts may hold. *)
Fixpoint unescape_zone (s : bytes) : option bytes :=
  match s with
  | [] => Some []
  | b :: s1 =>
      if decide (b = x25) then
        match s1 with
        | h :: l :: s2 =>
            vh ← hex_val h; vl ← hex_val l;
            let v := z2b (16 * vh + vl) in
            if bool_decide (h = x32 ∧ l = x35) || bool_decide (v = x20) || ((b2z v <? 128) && host_char v) then
              rest ← unescape_zone s2; Some (v :: rest)
            else None
        | _ => None
        end
      else if host_char b then rest ← unescape_zone s1; Some (b :: rest)
      else None
  end.

(** [unescape] of a path: every escape is decoded. *)
Fixpoint unescape_path (s : bytes) : option bytes :=
  match s with
  | [] => Some []
  | b :: s1 =>
      if decide (b = x25) then
        match s1 with
        | h :: l :: s2 =>
            vh ← hex_val h; vl ← hex_val l;
            rest ← unescape_path s2;
            Some (z2b (16 * vh + vl) :: rest)
        | _ => None
        end
      else rest ← unescape_path s1; Some (b :: rest)
  end.

(** * Parsing *)

(** The parts the program looks at; [User] only says whether there is any
    user information. *)
Record URL := mkURL {
  Scheme : bytes;
  Opaque : bytes;
  User : bool;
  Host : bytes;
  Path : bytes;
  RawQuery : bytes;
  Fragment : bytes;
}.

(** [getScheme]: a colon after a letter and letters, digits and [+-.]. *)
Fixpoint scheme_from (first : bool) (s : bytes) : option (option (bytes * bytes)) :=
  match s with
  | [] => Some None
  | b :: s' =>
      if is_upper b || is_lower b then
        r ← scheme_from false s'; Some ('(sc, rest) ← r; Some (b :: sc, rest))
      else if is_digit b || bool_decide (b = x2b) || bool_decide (b = x2d) || bool_decide (b = x2e) then
        if first then Some None
        else r ← scheme_from false s'; Some ('(sc, rest) ← r; Some (b :: sc, rest))
      else if decide (b = x3a) then
        if first then None else Some (Some ([], s'))
      else Some None
  end.

(** The scheme, if any, and the rest; [None] is a missing scheme. *)
Definition getScheme (s : bytes) : option (bytes * bytes) :=
  r ← scheme_from true s;
  Some (default ([], s) r).

Definition validOptionalPort (p : bytes) : bool :=
  match p with
  | [] => true
  | b :: ds => bool_decide (b = x3a) && forallb is_digit ds
  end.

(** [strings.Index] of [%25]. *)
Fixpoint index_zone (s : bytes) : option nat :=
  if HasPrefix s B["%25"] then Some 0%nat
  else match s with [] => None | _ :: s' => S <$> index_zone s' end.

Definition parseHost (host : bytes) : option bytes :=
  match LastIndexByte host x5b with
  | Some i =>
      j ← LastIndexByte host x5d;
      let port := drop (S j) host in
      if negb (validOptionalPort port) then None
      else
        port ← unescape_host port;
        let name := drop (S i) (take j host) in
        name ← match index_zone name with
               | Some z => h ← unescape_host (take z name); zn ← unescape_zone (drop z name); Some (h ++ zn)
               | None => unescape_host name
               end;
        match ParseAddr name with
        | Some (IPv6 _ _) => Some (B["["] ++ name ++ B["]"] ++ port)
        | _ => None
        end
  | None =>
      match IndexByte host x3a with
      | Some i => if validOptionalPort (drop i host) then unescape_host host else None
      | None => unescape_host host
      end
  end.

Definition valid_userinfo (s : bytes) : bool :=
  forallb (λ b, is_alnum b || existsb (λ c, bool_decide (b = c)) B["-._:~!$&'()*+,;=%@"]) s.

Definition parseAuthority (a : bytes) : option (bool * bytes) :=
  match LastIndexByte a x40 with
  | None => h ← parseHost a; Some (false, h)
  | Some i =>
      h ← parseHost (drop (S i) a);
      let ui := take i a in
      if negb (valid_userinfo ui) then None
      else _ ← unescape_path ui; Some (true, h)
  end.

(** [parse] of what precedes the fragment. *)
Definition parse_base (raw : bytes) : option URL :=
  if existsb (λ b, (b2z b <? 32) || bool_decide (b = x7f)) raw then None
  else if decide (raw = [x2a]) then Some (mkURL [] [] false [] [x2a] [] [])
  else
    '(sc, rest) ← getScheme raw;
    let sc := lower_byte <$> sc in
    let '(rest, query) :=
      if HasSuffix rest [x3f] && (zlen (filter (λ b, b = x3f) rest) =? 1) then (take (length rest - 1) rest, [])
      else let '(r, q, _) := Cut rest x3f in (r, q) in
    if negb (HasPrefix rest [x2f]) && negb (bool_decide (sc = [])) then
      Some (mkURL sc rest false [] [] query [])
    else if negb (HasPrefix rest [x2f]) && ContainsByte (Cut rest x2f).1.1 x3a then None
    else
      '(user, host, rest) ←
        (if (negb (bool_decide (sc = [])) || negb (HasPrefix rest B["///"])) && HasPrefix rest B["//"] then
           let a := drop 2 rest in
           let '(authority, rest) :=
             match IndexByte a x2f with Some i => (take i a, drop i a) | None => (a, []) end in
           '(u, h) ← parseAuthority authority; Some (u, h, rest)
         else Some (false, [], rest));
      path ← unescape_path rest;
      Some (mkURL sc [] user host path query []).

(** [url.Parse] *)
Definition url_Parse (raw : bytes) : option URL :=
  let '(u, frag, _) := Cut raw x23 in
  url ← parse_base u;
  if decide (frag = []) then Some url
  else
    f ← unescape_path frag;
    Some (mkURL (Scheme url) (Opaque url) (User url) (Host url) (Path url) (RawQuery url) f).

(** [splitHostPort], behind [Hostname] and [Port]. *)
Definition splitHostPort (hostport : bytes) : bytes * bytes :=
  let '(host, port) :=
    match LastIndexByte hostport x3a with
    | Some i => if validOptionalPort (drop i hostport) then (take i hostport, drop (S i) hostport) else (hostport, [])
    | None => (hostport, [])
    end in
  if HasPrefix host [x5b] && HasSuffix host [x5d] then (take (length host - 2) (drop 1 host), port)
  else (host, port).

Definition Hostname (u : URL) : bytes := (splitHostPort (Host u)).1.
Definition Port (u : URL) : bytes := (splitHostPort (Host u)).2.

(** * Query escaping is invertible *)

Lemma escape_byte_unescape b t :
  QueryUnescape (escape_byte b ++ t) = (rest ← QueryUnescape t; Some (b :: rest)).
Proof. destruct b; reflexivity. Qed.

Lemma QueryUnescape_QueryEscape s : QueryUnescape (QueryEscape s) = Some s.
Proof.
  induction s as [|b s IH]; [done|]. cbn [QueryEscape]. rewrite escape_byte_unescape. by rewrite IH.
Qed.

Lemma escape_byte_safe b : forallb (λ c, negb (bool_decide (c = x26 ∨ c = x3d ∨ c = x23))) (escape_byte b) = true.
Proof. destruct b; reflexivity. Qed.

(** Escaped text holds no separator of the fragment. *)
Lemma QueryEscape_safe s c : c ∈ QueryEscape s → c ≠ x26 ∧ c ≠ x3d ∧ c ≠ x23.
Proof.
  induction s as [|b s IH]; simpl; [by rewrite elem_of_nil|]. rewrite elem_of_app. intros [Hc|Hc]; [|auto].
  pose proof (escape_byte_safe b) as Hs. rewrite forallb_forall in Hs.
  specialize (Hs c (proj1 (list_elem_of_In _ _) Hc)). apply negb_true_iff, bool_decide_eq_false in Hs. tauto.
Qed.

Example url_examples :
  (λ s, (λ u, (Scheme u, Host u, Path u, Hostname u, Port u)) <$> url_Parse s) <$>
    [B["https://Relay.example:443/drop#v=1"]; B["http://[::1]:8080/"]; B["https://a@b/"]; B["https://a:80:80/"]; B["//h/p"]] =
  [Some (B["https"], B["Relay.example:443"], B["/drop"], B["Relay.example"], B["443"]);
   Some (B["http"], B["[::1]:8080"], B["/"], B["::1"], B["8080"]);
   Some (B["https"], B["b"], B["/"], B["b"], []); None;
   Some ([], B["h"], B["/p"], B["h"], [])].
Proof. vm_compute. reflexivity. Qed.
