(* ===== verification/Link.v ===== *)
(** Links: internal/link/link.go.  Everything a client needs is in the fragment
    of the link; parsing is strict.  The text fields are byte sequences. *)
From S2P Require Import Prelude Base64 Tokens GoStrings Crypto Envelope GoNet.
From Stdlib Require Import Strings.Byte.

Definition Version : bytes := B["1"].
Definition KindDrop : bytes := B["drop"].
Definition KindReveal : bytes := B["reveal"].
Definition PathDrop : bytes := B["/drop"].
Definition PathReveal : bytes := B["/reveal"].

(** Every error wraps [ErrLink]. *)
Inductive link_error := ErrLink.

Abbreviation res A := (result link_error A).

Record Drop := mkDrop {
  dRelay : bytes;
  dID : bytes;
  dUploadToken : bytes;
  dRecipientKey : bytes;
  dName : bytes;
  dPurpose : bytes;
  dStorage : bytes;
  dRetention : bytes;
}.

Record Reveal := mkReveal {
  rRelay : bytes;
  rID : bytes;
  rRevealToken : bytes;
  rKey : bytes;
  rName : bytes;
  rKeepsCopy : bool;
  rSalt : bytes;
}.

Definition PasswordProtected (r : Reveal) : bool := 0 <? zlen (rSalt r).

(** [Parsed]: the page origin and either link. *)
Inductive Parsed :=
  | ParsedDrop (page : bytes) (d : Drop)
  | ParsedReveal (page : bytes) (r : Reveal).

(** An error of the crypto package becomes an [ErrLink]. *)
Definition as_link {A} (r : result crypto_error A) : res A :=
  match r with Ok a => Ok a | Err _ => Err ErrLink end.

Section link.
Context `{Unicode}.

(** * Origins *)

Definition NormalizeOrigin (s : bytes) : res bytes :=
  if 512 <? zlen s then Err ErrLink
  else
    match url_Parse s with
    | None => Err ErrLink
    | Some u =>
        if negb (is_empty (Opaque u)) || User u || negb (is_empty (RawQuery u)) || negb (is_empty (Fragment u)) ||
           (negb (is_empty (Path u)) && negb (beq (Path u) B["/"])) then Err ErrLink
        else
          let host := ToLower (Host u) in
          if is_empty (Hostname u) then Err ErrLink
          else
            let scheme := ToLower (Scheme u) in
            _ ← (if beq scheme B["https"] then Ok tt
                 else if beq scheme B["http"] then
                   let h := ToLower (Hostname u) in
                   guard_err (beq h B["localhost"] || beq h B["127.0.0.1"] || beq h B["::1"]) ErrLink
                 else Err ErrLink);
            let port := Port u in
            let host :=
              if (beq scheme B["https"] && beq port B["443"]) || (beq scheme B["http"] && beq port B["80"])
              then TrimSuffix host (B[":"] ++ port) else host in
            Ok (scheme ++ B["://"] ++ host)
    end.

(** * Validation *)

Definition valid_relay (relay : bytes) : res unit :=
  if is_empty relay then Ok tt else _ ← NormalizeOrigin relay; Ok tt.

Definition Drop_Validate (d : Drop) : res unit :=
  _ ← valid_relay (dRelay d);
  _ ← guard_err (ValidToken (sb (dID d))) ErrLink;
  _ ← guard_err (ValidToken (sb (dUploadToken d))) ErrLink;
  _ ← guard_err (zlen (dRecipientKey d) =? KeySize) ErrLink;
  _ ← as_link (ValidateName (dName d));
  _ ← as_link (ValidateText (dPurpose d));
  _ ← as_link (ValidateText (dStorage d));
  as_link (ValidateRetention (dRetention d)).

Definition Reveal_Validate (r : Reveal) : res unit :=
  _ ← valid_relay (rRelay r);
  _ ← guard_err (ValidToken (sb (rID r))) ErrLink;
  _ ← guard_err (ValidToken (sb (rRevealToken r))) ErrLink;
  _ ← guard_err (zlen (rKey r) =? KeySize) ErrLink;
  _ ← as_link (ValidateName (rName r));
  guard_err ((zlen (rSalt r) =? 0) || (zlen (rSalt r) =? SaltSize)) ErrLink.

(** * Building *)

Abbreviation field := (bytes * bytes)%type.

Definition encode_field (f : field) : bytes := f.1 ++ x3d :: QueryEscape f.2.

Definition encodeFields (fields : list field) : bytes := JoinByte (encode_field <$> fields) x26.

(** [relay, _ := NormalizeOrigin(d.Relay)] *)
Definition relay_field (relay : bytes) : list field :=
  if is_empty relay then []
  else [(B["r"], match NormalizeOrigin relay with Ok o => o | Err _ => [] end)].

Definition drop_fields (d : Drop) : list field :=
  [(B["v"], Version); (B["i"], dID d); (B["u"], dUploadToken d); (B["k"], encode (dRecipientKey d));
   (B["n"], dName d); (B["p"], dPurpose d); (B["s"], dStorage d); (B["t"], dRetention d)] ++ relay_field (dRelay d).

Definition Drop_Build (d : Drop) (pageOrigin : bytes) : res bytes :=
  _ ← Drop_Validate d;
  origin ← NormalizeOrigin pageOrigin;
  Ok (origin ++ PathDrop ++ B["#"] ++ encodeFields (drop_fields d)).

Definition Drop_Fingerprint (d : Drop) : string := Fingerprint (dRecipientKey d).

Definition reveal_fields (r : Reveal) : list field :=
  [(B["v"], Version); (B["i"], rID r); (B["o"], rRevealToken r); (B["k"], encode (rKey r));
   (B["n"], rName r); (B["c"], if rKeepsCopy r then B["1"] else B["0"])] ++
  (if 0 <? zlen (rSalt r) then [(B["s"], encode (rSalt r))] else []) ++ relay_field (rRelay r).

Definition Reveal_Build (r : Reveal) (pageOrigin : bytes) : res bytes :=
  _ ← Reveal_Validate r;
  origin ← NormalizeOrigin pageOrigin;
  Ok (origin ++ PathReveal ++ B["#"] ++ encodeFields (reveal_fields r)).

Definition Reveal_AAD (r : Reveal) : bytes := RevealAAD (rName r) (rKeepsCopy r).

(** * Parsing *)

(** The page origin, the path and the raw fragment. *)
Definition split (raw : bytes) : res (bytes * bytes * bytes) :=
  if 8192 <? zlen raw then Err ErrLink
  else
    match IndexByte raw x23 with
    | None => Err ErrLink
    | Some hash =>
        let base := take hash raw in
        let frag := drop (S hash) raw in
        match url_Parse base with
        | None => Err ErrLink
        | Some u =>
            if negb (is_empty (RawQuery u)) || User u then Err ErrLink
            else
              origin ← NormalizeOrigin (Scheme u ++ B["://"] ++ Host u);
              Ok (origin, TrimSuffix (Path u) B["/"], frag)
        end
    end.

(** The map of fields, as an association list without duplicates. *)
Definition has_key (m : list field) (k : bytes) : bool := existsb (λ f, beq f.1 k) m.
Definition field_value (m : list field) (k : bytes) : bytes :=
  match list_find (λ f, f.1 = k) m with Some (_, f) => f.2 | None => [] end.

Fixpoint parse_parts (allowed : list bytes) (parts : list bytes) (out : list field) : res (list field) :=
  match parts with
  | [] => Ok out
  | part :: parts =>
      match IndexByte part x3d with
      | None | Some O => Err ErrLink
      | Some eq =>
          let key := take eq part in
          if negb (existsb (beq key) allowed) then Err ErrLink
          else if has_key out key then Err ErrLink
          else
            match QueryUnescape (drop (S eq) part) with
            | None => Err ErrLink
            | Some value => parse_parts allowed parts (out ++ [(key, value)])
            end
      end
  end.

Definition parseFields (frag : bytes) (allowed : list bytes) : res (list field) :=
  if is_empty frag then Err ErrLink
  else
    out ← parse_parts allowed (Split frag x26) [];
    if negb (beq (field_value out B["v"]) Version) then Err ErrLink else Ok out.

Definition require (m : list field) (keys : list bytes) : res unit :=
  guard_err (forallb (λ k, negb (is_empty (field_value m k))) keys) ErrLink.

(** [decodeKey] and [decodeSalt]: an exact number of characters and bytes. *)
Definition decode_exact (chars size : Z) (s : bytes) : res bytes :=
  if negb (zlen s =? chars) then Err ErrLink
  else match decode s with
       | Some b => if zlen b =? size then Ok b else Err ErrLink
       | None => Err ErrLink
       end.

Definition decodeKey (s : bytes) : res bytes := decode_exact 43 KeySize s.
Definition decodeSalt (s : bytes) : res bytes := decode_exact 22 SaltSize s.

Definition parse_relay (m : list field) : res bytes :=
  let r := field_value m B["r"] in
  if is_empty r then Ok [] else NormalizeOrigin r.

Definition drop_keys : list bytes :=
  [B["v"]; B["i"]; B["u"]; B["k"]; B["n"]; B["p"]; B["s"]; B["t"]; B["r"]].

Definition parseDrop (frag : bytes) : res Drop :=
  m ← parseFields frag drop_keys;
  _ ← require m [B["i"]; B["u"]; B["k"]; B["n"]; B["t"]];
  key ← decodeKey (field_value m B["k"]);
  relay ← parse_relay m;
  let d := mkDrop relay (field_value m B["i"]) (field_value m B["u"]) key (field_value m B["n"])
             (field_value m B["p"]) (field_value m B["s"]) (field_value m B["t"]) in
  _ ← Drop_Validate d;
  Ok d.

Definition reveal_keys : list bytes :=
  [B["v"]; B["i"]; B["o"]; B["k"]; B["n"]; B["c"]; B["s"]; B["r"]].

Definition parseReveal (frag : bytes) : res Reveal :=
  m ← parseFields frag reveal_keys;
  _ ← require m [B["i"]; B["o"]; B["k"]; B["n"]; B["c"]];
  key ← decodeKey (field_value m B["k"]);
  let c := field_value m B["c"] in
  keeps ← (if beq c B["0"] then Ok false else if beq c B["1"] then Ok true else Err ErrLink);
  salt ← (let s := field_value m B["s"] in if is_empty s then Ok [] else decodeSalt s);
  relay ← parse_relay m;
  let r := mkReveal relay (field_value m B["i"]) (field_value m B["o"]) key (field_value m B["n"]) keeps salt in
  _ ← Reveal_Validate r;
  Ok r.

Definition Parse (raw : bytes) : res Parsed :=
  '(origin, path, frag) ← split raw;
  if beq path PathDrop then d ← parseDrop frag; Ok (ParsedDrop origin d)
  else if beq path PathReveal then r ← parseReveal frag; Ok (ParsedReveal origin r)
  else Err ErrLink.

Definition ParseDrop (raw : bytes) : res (Drop * bytes) :=
  p ← Parse raw;
  match p with ParsedDrop page d => Ok (d, page) | ParsedReveal _ _ => Err ErrLink end.

Definition ParseReveal (raw : bytes) : res (Reveal * bytes) :=
  p ← Parse raw;
  match p with ParsedReveal page r => Ok (r, page) | ParsedDrop _ _ => Err ErrLink end.
End link.

(** * The relay to talk to *)

Definition Drop_RelayOrigin (d : Drop) (pageOrigin : bytes) : bytes :=
  if is_empty (dRelay d) then pageOrigin else dRelay d.

Definition Reveal_RelayOrigin (r : Reveal) (pageOrigin : bytes) : bytes :=
  if is_empty (rRelay r) then pageOrigin else rRelay r.

Definition Parsed_RelayOrigin (p : Parsed) : bytes :=
  match p with
  | ParsedDrop page d => Drop_RelayOrigin d page
  | ParsedReveal page r => Reveal_RelayOrigin r page
  end.
