(* ===== verification/LinkProps.v ===== *)
(** A link that is built parses to what it was built from, and whatever parses
    is complete, valid and without unknown or repeated fields. *)
From S2P Require Import Prelude Base64 Tokens GoStrings Crypto Envelope EnvelopeProps GoNet Link.
From Stdlib Require Import Strings.Byte.

(** * The fragment *)

Lemma has_key_iff (m : list (bytes * bytes)) k : has_key m k = true ↔ k ∈ m.*1.
Proof.
  unfold has_key. rewrite existsb_exists, list_elem_of_fmap. unfold beq. split.
  - intros (f & Hf & <-%bool_decide_eq_true). exists f. split; [done|by apply list_elem_of_In].
  - intros (f & -> & Hf). exists f. split; [by apply list_elem_of_In|]. by apply bool_decide_eq_true.
Qed.

Lemma existsb_beq k l : existsb (beq k) l = true ↔ k ∈ l.
Proof.
  rewrite existsb_exists. unfold beq. split.
  - intros (x & Hx & ->%bool_decide_eq_true). by apply list_elem_of_In.
  - intros Hk. exists k. split; [by apply list_elem_of_In|]. by apply bool_decide_eq_true.
Qed.

Definition key_ok (k : bytes) : Prop := k ≠ [] ∧ x3d ∉ k ∧ x26 ∉ k.

Lemma encode_field_index (f : bytes * bytes) : x3d ∉ f.1 → IndexByte (encode_field f) x3d = Some (length f.1).
Proof. apply IndexByte_app. Qed.

(** A part of a fragment that spells a field. *)
Definition field_part (part : bytes) (f : bytes * bytes) : Prop :=
  f.1 ≠ [] ∧ x3d ∉ f.1 ∧ ∃ raw, part = f.1 ++ x3d :: raw ∧ QueryUnescape raw = Some f.2.

Lemma IndexByte_Some s c i : IndexByte s c = Some i → c ∉ take i s ∧ s = take i s ++ c :: drop (S i) s.
Proof.
  revert i. induction s as [|b s IH]; intros i; [done|]. unfold IndexByte. simpl.
  case_decide as Hb; [intros [= <-]; subst b; split; [by apply not_elem_of_nil|done]|].
  fold (IndexByte s c). destruct (IndexByte s c) as [k|]; [|done]. intros [= <-].
  destruct (IH k eq_refl) as [Hn Hs]. simpl. split; [by rewrite not_elem_of_cons|]. by f_equal.
Qed.

(** The parts that are read are those that spell distinct known fields. *)
Lemma parse_parts_iff allowed parts out m :
  NoDup out.*1 →
  parse_parts allowed parts out = Ok m ↔
  ∃ fs, m = out ++ fs ∧ Forall2 field_part parts fs ∧ NoDup (out ++ fs).*1 ∧ Forall (λ k, k ∈ allowed) fs.*1.
Proof.
  revert out. induction parts as [|part parts IH]; intros out Hnd; simpl.
  { split; [intros [= <-]; exists []; by rewrite app_nil_r|].
    intros (fs & -> & Hf & _). inversion Hf. by rewrite app_nil_r. }
  assert (∀ k v, k ∉ out.*1 → NoDup (out ++ [(k, v)]).*1) as Hnd'.
  { intros k v Hk. rewrite fmap_app. apply NoDup_app. split_and!; [done| |apply NoDup_singleton].
    intros x Hx ->%list_elem_of_singleton. done. }
  split.
  - destruct (IndexByte part x3d) as [[|eq]|] eqn:Ei; [done| |done].
    destruct (existsb _ allowed) eqn:Ha; [|done]. destruct (has_key out _) eqn:Hk; [done|]. cbn [negb].
    destruct (QueryUnescape _) as [v|] eqn:Ev; [|done]. apply IndexByte_Some in Ei as [Hn Hs].
    assert (take (S eq) part ∉ out.*1) as Hout by (by rewrite <- has_key_iff, Hk).
    intros (fs & -> & Hf & Hnd2 & Hall)%IH; [|by apply Hnd']. exists ((take (S eq) part, v) :: fs).
    rewrite <- app_assoc in *. split_and!; [done| |done|].
    + constructor; [|done]. split_and!; simpl; [by destruct part|done|]. eauto.
    + constructor; [by apply existsb_beq|done].
  - intros (fs & -> & Hf & Hnd2 & Hall). inversion Hf as [|? [k v] ? fs' (Hne & Heq & raw & Hp & Hv) Hf']; subst. simpl in *.
    rewrite IndexByte_app by done. apply Forall_cons in Hall as [Ha Hall].
    destruct k as [|b k]; [done|]. cbn [length]. change (S (length k)) with (length (b :: k)). rewrite take_app_cons, drop_app_cons.
    rewrite (proj2 (existsb_beq _ _) Ha), Hv. cbn [negb].
    assert (b :: k ∉ out.*1) as Hout.
    { intros Hin. rewrite fmap_app in Hnd2. apply NoDup_app in Hnd2 as (_ & Hd & _). apply (Hd _ Hin). by left. }
    assert (has_key out (b :: k) = false) as -> by (apply not_true_iff_false; by rewrite has_key_iff).
    apply IH; [by apply Hnd'|]. exists fs'. rewrite <- app_assoc. done.
Qed.

Lemma parseFields_iff frag allowed m :
  parseFields frag allowed = Ok m ↔
  Forall2 field_part (Split frag x26) m ∧ NoDup m.*1 ∧ Forall (λ k, k ∈ allowed) m.*1 ∧ field_value m B["v"] = Version.
Proof.
  unfold parseFields. destruct (is_empty frag) eqn:Ee.
  { apply bool_decide_eq_true in Ee. subst. split; [done|]. intros (Hf & _). exfalso.
    inversion Hf as [|? f ? ? (Hne & _ & raw & Hp & _)]. by destruct f.1. }
  split.
  - intros (out & Hp & Hv)%result_bind_ok. case_match eqn:Ev; simplify_eq. apply negb_false_iff, bool_decide_eq_true in Ev.
    apply parse_parts_iff in Hp as (fs & -> & ? & ? & ?); [done|constructor].
  - intros (Hf & Hnd & Hall & Hv). rewrite (proj2 (parse_parts_iff allowed (Split frag x26) [] m (NoDup_nil_2))) by eauto.
    simpl. by rewrite Hv.
Qed.

Lemma encode_field_no_amp f : key_ok f.1 → x26 ∉ encode_field f.
Proof.
  intros (_ & _ & Ha). unfold encode_field. rewrite elem_of_app, elem_of_cons. intros [?|[?|Hq]]; [done|done|].
  by apply QueryEscape_safe in Hq as [? _].
Qed.

Lemma field_parts fs : Forall (λ f, key_ok f.1) fs → Forall2 field_part (encode_field <$> fs) fs.
Proof.
  induction 1 as [|f fs (Hne & Heq & _) _ IH]; simpl; constructor; [|done].
  split_and!; [done..|]. exists (QueryEscape f.2). split; [done|]. apply QueryUnescape_QueryEscape.
Qed.

Lemma parseFields_encodeFields allowed fs :
  fs ≠ [] → Forall (λ f, key_ok f.1 ∧ f.1 ∈ allowed) fs → NoDup fs.*1 → field_value fs B["v"] = Version →
  parseFields (encodeFields fs) allowed = Ok fs.
Proof.
  intros Hne Hf Hnd Hv. apply Forall_and in Hf as [Hk Hin]. apply parseFields_iff. unfold encodeFields. rewrite Split_JoinByte.
  - split_and!; [by apply field_parts|done|by apply Forall_fmap|done].
  - by destruct fs.
  - apply Forall_fmap. eapply Forall_impl; [exact Hk|]. apply encode_field_no_amp.
Qed.

(** * Origins in normal form *)

Section link.
Context `{Unicode}.

(** An origin as [NormalizeOrigin] writes it: a scheme and a host without
    separators or escapes, which normalization leaves alone. *)
Definition plain_host (h : bytes) : Prop :=
  x2f ∉ h ∧ x3f ∉ h ∧ x23 ∉ h ∧ x40 ∉ h ∧ parseHost h = Some h.

Definition canonical_origin (o : bytes) : Prop :=
  NormalizeOrigin o = Ok o ∧
  ∃ sc h, (sc = B["https"] ∨ sc = B["http"]) ∧ plain_host h ∧ o = sc ++ B["://"] ++ h.

Lemma LastIndexByte_None s c : c ∉ s → LastIndexByte s c = None.
Proof. intros Hc. unfold LastIndexByte. by rewrite IndexByte_None by (by rewrite elem_of_reverse). Qed.

Lemma no_query rest : x3f ∉ rest →
  (if HasSuffix rest [x3f] && (zlen (filter (λ b, b = x3f) rest) =? 1) then (take (length rest - 1) rest, [])
   else let '(r, q, _) := Cut rest x3f in (r, q)) = (rest, []).
Proof.
  intros Hq. assert (filter (λ b, b = x3f) rest = []) as Hf.
  { clear -Hq. induction rest as [|b rest IH]; [done|]. rewrite not_elem_of_cons in Hq. destruct Hq as [Hb Hq].
    rewrite filter_cons_False by congruence. auto. }
  rewrite Hf. change (zlen (@nil byte) =? 1) with false. rewrite andb_false_r. by rewrite Cut_None.
Qed.

(** Reading a page address: its scheme, host and path. *)
Lemma parse_page sc h p :
  (sc = B["https"] ∨ sc = B["http"]) → plain_host h → (p = PathDrop ∨ p = PathReveal) →
  existsb (λ b, (b2z b <? 32) || bool_decide (b = x7f)) h = false →
  url_Parse (sc ++ B["://"] ++ h ++ p) = Some (mkURL sc [] false h p [] []).
Proof.
  intros Hsc (Hs & Hq & Hh & Ha & Hhost) Hp Hctl.
  assert (x3f ∉ p ∧ x23 ∉ p) as [Hpq Hph] by (destruct Hp as [-> | ->]; split; decided).
  assert (∀ c, c ∉ B["//"] → c ∉ h → c ∉ p → c ∉ B["//"] ++ h ++ p) as Hnot.
  { intros c H1 H2 H3. rewrite !elem_of_app. tauto. }
  assert (x3f ∉ B["//"] ++ h ++ p) as Hq' by (apply Hnot; [decided|done|done]).
  assert (getScheme (sc ++ B["://"] ++ h ++ p) = Some (sc, B["//"] ++ h ++ p)) as Hgs.
  { destruct Hsc as [-> | ->]; reflexivity. }
  assert (existsb (λ b, (b2z b <? 32) || bool_decide (b = x7f)) (sc ++ B["://"] ++ h ++ p) = false) as Hc.
  { rewrite !existsb_app, Hctl. by destruct Hsc as [-> | ->], Hp as [-> | ->]. }
  assert (x23 ∉ sc ++ B["://"] ++ h ++ p) as Hfrag.
  { rewrite !elem_of_app. intros [E|[E|[E|E]]]; [|revert E; decided|done|done].
    destruct Hsc as [-> | ->]; revert E; decided. }
  unfold url_Parse. rewrite Cut_None by done.
  unfold parse_base. rewrite Hc. rewrite decide_False by (by destruct Hsc as [-> | ->]).
  rewrite Hgs. cbn [mbind option_bind]. rewrite no_query by done.
  assert (lower_byte <$> sc = sc) as -> by (by destruct Hsc as [-> | ->]).
  assert (bool_decide (sc = []) = false) as -> by (by destruct Hsc as [-> | ->]).
  change (HasPrefix (B["//"] ++ h ++ p) [x2f]) with true.
  rewrite HasPrefix_self.
  change (drop 2 (B["//"] ++ h ++ p)) with (h ++ p). cbn [negb andb orb].
  assert (IndexByte (h ++ p) x2f = Some (length h)) as ->.
  { destruct Hp as [-> | ->]; by apply IndexByte_app. }
  rewrite take_app_length, drop_app_length. unfold parseAuthority. rewrite LastIndexByte_None by done.
  rewrite Hhost. cbn [mbind option_bind].
  assert (unescape_path p = Some p) as -> by (by destruct Hp as [-> | ->]). cbn [mbind option_bind].
  by rewrite decide_True.
Qed.

(** An origin that parses has no control character. *)
Lemma url_Parse_no_ctl s u :
  url_Parse s = Some u → x23 ∉ s → existsb (λ b, (b2z b <? 32) || bool_decide (b = x7f)) s = false.
Proof.
  unfold url_Parse. intros Hp Hs. rewrite Cut_None in Hp by done. apply bind_Some in Hp as (u' & Hb & _).
  unfold parse_base in Hb. by destruct (existsb _ s).
Qed.

Lemma split_built o p frag :
  canonical_origin o → (p = PathDrop ∨ p = PathReveal) → zlen (o ++ p ++ B["#"] ++ frag) <= 8192 →
  split (o ++ p ++ B["#"] ++ frag) = Ok (o, p, frag).
Proof.
  intros (Hn & sc & h & Hsc & Hh & ->) Hp Hlen. unfold split. pose proof Hh as (_ & _ & Hh3 & _).
  destruct (Z.ltb_spec 8192 (zlen ((sc ++ B["://"] ++ h) ++ p ++ B["#"] ++ frag))); [lia|].
  assert (existsb (λ b, (b2z b <? 32) || bool_decide (b = x7f)) h = false) as Hctl.
  { unfold NormalizeOrigin in Hn. destruct (512 <? _); [done|]. destruct (url_Parse _) as [u|] eqn:Hu; [|done].
    apply url_Parse_no_ctl in Hu; [by rewrite !existsb_app, !orb_false_iff in Hu; destruct Hu as (_ & _ & ?)|].
    rewrite !elem_of_app. intros [E|[E|E]]; [destruct Hsc as [-> | ->]|..|by apply Hh3]; revert E; decided. }
  assert (x23 ∉ (sc ++ B["://"] ++ h) ++ p) as Hnf.
  { rewrite !elem_of_app. intros [[E|[E|E]]|E]; [destruct Hsc as [-> | ->]|..|by apply Hh3|destruct Hp as [-> | ->]];
      revert E; decided. }
  rewrite (app_assoc _ p). change (B["#"] ++ frag) with (x23 :: frag).
  rewrite IndexByte_app by done. rewrite take_app_length, drop_app_cons.
  rewrite <- (app_assoc _ _ p), <- (app_assoc _ h p). rewrite parse_page by done. cbn [RawQuery User Scheme Host Path].
  change (negb (is_empty []) || false) with false. cbv iota.
  rewrite Hn. cbn [mbind result_bind]. destruct Hp as [-> | ->]; reflexivity.
Qed.

(** * Round trips *)

Lemma ValidToken_nonempty s : ValidToken (sb s) = true → is_empty s = false.
Proof. intros Hv. unfold is_empty. apply bool_decide_eq_false. intros ->. vm_compute in Hv. done. Qed.

Lemma ValidateName_nonempty s u : as_link (ValidateName s) = Ok u → is_empty s = false.
Proof. unfold ValidateName. by destruct (is_empty s). Qed.

Lemma ValidateRetention_nonempty s u : as_link (ValidateRetention s) = Ok u → is_empty s = false.
Proof. unfold is_empty. intros Hr. apply bool_decide_eq_false. by intros ->. Qed.

Lemma decode_exact_encode chars size b :
  zlen b = size → chars = (4 * size + 2) / 3 → decode_exact chars size (encode b) = Ok b.
Proof.
  intros Hb ->. unfold decode_exact. rewrite encode_length, Hb, Z.eqb_refl. cbn [negb].
  rewrite decode_encode. by rewrite (proj2 (Z.eqb_eq _ _) Hb).
Qed.

(** A relay field is written only for a relay, and read back. *)
Definition relay_ok (relay : bytes) : Prop := relay = [] ∨ (is_empty relay = false ∧ NormalizeOrigin relay = Ok relay).

Lemma relay_field_ok relay :
  relay_ok relay → relay_field relay = if is_empty relay then [] else [(B["r"], relay)].
Proof. intros [-> | [He Hn]]; [done|]. unfold relay_field. by rewrite He, Hn. Qed.

Lemma Drop_fields_ok d :
  relay_ok (dRelay d) →
  Forall (λ f, key_ok f.1 ∧ f.1 ∈ drop_keys) (drop_fields d) ∧ NoDup (drop_fields d).*1.
Proof.
  intros Hr. unfold drop_fields. rewrite relay_field_ok by done. destruct (is_empty (dRelay d)).
  all: split; [repeat (apply Forall_cons; split; [split; [split_and!|]|]); try constructor|].
  all: cbn [fst]; try decided.
Qed.

Lemma drop_values d : relay_ok (dRelay d) →
  let m := drop_fields d in
  field_value m B["v"] = Version ∧ field_value m B["i"] = dID d ∧ field_value m B["u"] = dUploadToken d ∧
  field_value m B["k"] = encode (dRecipientKey d) ∧ field_value m B["n"] = dName d ∧ field_value m B["p"] = dPurpose d ∧
  field_value m B["s"] = dStorage d ∧ field_value m B["t"] = dRetention d ∧ field_value m B["r"] = dRelay d.
Proof.
  intros Hr. unfold drop_fields. rewrite relay_field_ok by done. destruct (is_empty (dRelay d)) eqn:E.
  - apply bool_decide_eq_true in E. rewrite E. split_and!; reflexivity.
  - split_and!; reflexivity.
Qed.

Lemma parse_relay_ok m relay : field_value m B["r"] = relay → relay_ok relay → parse_relay m = Ok relay.
Proof. unfold parse_relay. intros -> [-> | [He Hn]]; [done|]. by rewrite He. Qed.

(** The fields that a drop is read from. *)
Record drop_spelled (m : list (bytes * bytes)) (d : Drop) : Prop := {
  ds_i : field_value m B["i"] = dID d;
  ds_u : field_value m B["u"] = dUploadToken d;
  ds_k : field_value m B["k"] = encode (dRecipientKey d);
  ds_n : field_value m B["n"] = dName d;
  ds_p : field_value m B["p"] = dPurpose d;
  ds_s : field_value m B["s"] = dStorage d;
  ds_t : field_value m B["t"] = dRetention d;
  ds_r : parse_relay m = Ok (dRelay d);
}.

Lemma parseDrop_spelled frag m d :
  parseFields frag drop_keys = Ok m → drop_spelled m d → Drop_Validate d = Ok tt → parseDrop frag = Ok d.
Proof.
  intros Hm [Ei Eu Ek En Ep Es Et Er] Hv. unfold parseDrop. rewrite Hm. cbn [mbind result_bind].
  rewrite Er, Ei, Eu, Ek, En, Ep, Es, Et. unfold require. cbn [forallb]. rewrite Ei, Eu, Ek, En, Et.
  pose proof Hv as Hv'. unfold Drop_Validate in Hv'.
  apply result_bind_ok in Hv' as (? & _ & Hv'). apply result_bind_ok in Hv' as (? & Hi%guard_err_ok & Hv').
  apply result_bind_ok in Hv' as (? & Hu%guard_err_ok & Hv'). apply result_bind_ok in Hv' as (? & Hk%guard_err_ok & Hv').
  apply result_bind_ok in Hv' as (? & Hn & Hv'). apply result_bind_ok in Hv' as (? & _ & Hv').
  apply result_bind_ok in Hv' as (? & _ & Ht). apply Z.eqb_eq in Hk.
  rewrite (ValidToken_nonempty _ Hi), (ValidToken_nonempty _ Hu), (ValidateName_nonempty _ _ Hn),
    (ValidateRetention_nonempty _ _ Ht).
  assert (decodeKey (encode (dRecipientKey d)) = Ok (dRecipientKey d)) as Hdk by (by apply decode_exact_encode).
  assert (is_empty (encode (dRecipientKey d)) = false) as ->.
  { unfold is_empty. apply bool_decide_eq_false. intros E. by rewrite E in Hdk. }
  rewrite Hdk. destruct d. cbn in Hv |- *. by rewrite Hv.
Qed.

Lemma parseDrop_built d :
  Drop_Validate d = Ok tt → relay_ok (dRelay d) → parseDrop (encodeFields (drop_fields d)) = Ok d.
Proof.
  intros Hv Hr. destruct (Drop_fields_ok d Hr) as [Hf Hnd].
  destruct (drop_values d Hr) as (Ev & Ei & Eu & Ek & En & Ep & Es & Et & Er).
  apply (parseDrop_spelled _ (drop_fields d)); [by apply parseFields_encodeFields|split; try done|done].
  by apply parse_relay_ok.
Qed.

Lemma Reveal_fields_ok r :
  relay_ok (rRelay r) →
  Forall (λ f, key_ok f.1 ∧ f.1 ∈ reveal_keys) (reveal_fields r) ∧ NoDup (reveal_fields r).*1.
Proof.
  intros Hr. unfold reveal_fields. rewrite relay_field_ok by done.
  destruct (is_empty (rRelay r)), (0 <? zlen (rSalt r)).
  all: split; [repeat (apply Forall_cons; split; [split; [split_and!|]|]); try constructor|].
  all: cbn [fst]; try decided.
Qed.

Lemma reveal_values r : relay_ok (rRelay r) →
  let m := reveal_fields r in
  field_value m B["v"] = Version ∧ field_value m B["i"] = rID r ∧ field_value m B["o"] = rRevealToken r ∧
  field_value m B["k"] = encode (rKey r) ∧ field_value m B["n"] = rName r ∧
  field_value m B["c"] = (if rKeepsCopy r then B["1"] else B["0"]) ∧
  field_value m B["s"] = encode (rSalt r) ∧ field_value m B["r"] = rRelay r.
Proof.
  intros Hr. unfold reveal_fields. rewrite relay_field_ok by done.
  destruct (rSalt r) as [|b l] eqn:Es; destruct (is_empty (rRelay r)) eqn:E;
    try (apply bool_decide_eq_true in E; rewrite E); try (split_and!; reflexivity).
  all: destruct (Z.ltb_spec 0 (zlen (b :: l))); [split_and!; reflexivity|rewrite zlen_cons in *; pose proof (zlen_nonneg l); lia].
Qed.

Lemma parseReveal_built r :
  Reveal_Validate r = Ok tt → relay_ok (rRelay r) → parseReveal (encodeFields (reveal_fields r)) = Ok r.
Proof.
  intros Hv Hr. destruct (Reveal_fields_ok r Hr) as [Hf Hnd].
  destruct (reveal_values r Hr) as (Ev & Ei & Eo & Ek & En & Ec & Es & Er). unfold parseReveal.
  rewrite parseFields_encodeFields by done. cbn [mbind result_bind].
  rewrite (parse_relay_ok _ _ Er Hr), Ei, Eo, Ek, En, Ec, Es. unfold require. cbn [forallb].
  rewrite Ei, Eo, Ek, En, Ec.
  pose proof Hv as Hv'. unfold Reveal_Validate in Hv'.
  apply result_bind_ok in Hv' as (? & _ & Hv'). apply result_bind_ok in Hv' as (? & Hi%guard_err_ok & Hv').
  apply result_bind_ok in Hv' as (? & Ho%guard_err_ok & Hv'). apply result_bind_ok in Hv' as (? & Hk%guard_err_ok & Hv').
  apply result_bind_ok in Hv' as (? & Hn & Hs%guard_err_ok). apply Z.eqb_eq in Hk.
  rewrite (ValidToken_nonempty _ Hi), (ValidToken_nonempty _ Ho), (ValidateName_nonempty _ _ Hn).
  assert (decodeKey (encode (rKey r)) = Ok (rKey r)) as Hdk by (by apply decode_exact_encode).
  assert (is_empty (encode (rKey r)) = false) as ->.
  { unfold is_empty. apply bool_decide_eq_false. intros E. by rewrite E in Hdk. }
  assert ((if is_empty (encode (rSalt r)) then Ok [] else decodeSalt (encode (rSalt r))) = Ok (rSalt r)) as Hds.
  { apply orb_true_iff in Hs as [Hs|Hs]; apply Z.eqb_eq in Hs.
    - destruct (rSalt r) as [|b l]; [done|]. rewrite zlen_cons in Hs. pose proof (zlen_nonneg l). lia.
    - destruct (is_empty (encode (rSalt r))) eqn:E; [|by apply decode_exact_encode].
      apply bool_decide_eq_true in E. pose proof (encode_length (rSalt r)) as Hl. rewrite E, Hs in Hl. done. }
  assert (∀ k : bool, (let c := if k then B["1"] else B["0"] in
    if beq c B["0"] then @Ok link_error _ false else if beq c B["1"] then Ok true else Err ErrLink) = Ok k) as Hc by (by intros []).
  rewrite Hdk. cbn [mbind result_bind]. specialize (Hc (rKeepsCopy r)). cbv zeta in Hc |- *.
  rewrite Hc. cbn [mbind result_bind]. rewrite Hds. cbn [mbind result_bind].
  assert (mkReveal (rRelay r) (rID r) (rRevealToken r) (rKey r) (rName r) (rKeepsCopy r) (rSalt r) = r) as -> by (by destruct r).
  assert (is_empty (if rKeepsCopy r then B["1"] else B["0"]) = false) as -> by (by destruct (rKeepsCopy r)).
  cbn. by rewrite Hv.
Qed.

(** A drop link that is built within the length limit parses to the drop it
    was built from and the page it was built for. *)
Theorem drop_link_roundtrip d page raw :
  canonical_origin page → relay_ok (dRelay d) → Drop_Build d page = Ok raw → zlen raw <= 8192 →
  ParseDrop raw = Ok (d, page).
Proof.
  intros Hp Hr (u & Hv & (o & Ho & Heq)%result_bind_ok)%result_bind_ok Hlen.
  rewrite (proj1 Hp) in Ho. simplify_eq Ho. intros <-. destruct u.
  assert (raw = page ++ PathDrop ++ B["#"] ++ encodeFields (drop_fields d)) as -> by congruence. unfold ParseDrop, Parse.
  rewrite split_built by auto. cbn [mbind result_bind]. change (beq PathDrop PathDrop) with true. cbv iota.
  rewrite parseDrop_built by done. done.
Qed.

(** A reveal link that is built within the length limit parses to the
    reveal it was built from and the page it was built for. *)
Theorem reveal_link_roundtrip r page raw :
  canonical_origin page → relay_ok (rRelay r) → Reveal_Build r page = Ok raw → zlen raw <= 8192 →
  ParseReveal raw = Ok (r, page).
Proof.
  intros Hp Hr (u & Hv & (o & Ho & Heq)%result_bind_ok)%result_bind_ok Hlen.
  rewrite (proj1 Hp) in Ho. simplify_eq Ho. intros <-. destruct u.
  assert (raw = page ++ PathReveal ++ B["#"] ++ encodeFields (reveal_fields r)) as -> by congruence. unfold ParseReveal, Parse.
  rewrite split_built by auto. cbn [mbind result_bind].
  change (beq PathReveal PathDrop) with false. change (beq PathReveal PathReveal) with true. cbv iota.
  rewrite parseReveal_built by done. done.
Qed.

(** C26. A fragment parses as a drop exactly when its parts between the
    ampersands each spell a field, with a key before the first equals sign and
    the query escape of the value after it; the keys are known and none occurs
    twice; the version is 1; the fields hold exactly the drop's values, the key
    in its one encoding and the relay, when it is there, as an origin whose
    normal form the drop has; and the drop passes validation. *)
Theorem parseDrop_strict frag d :
  parseDrop frag = Ok d ↔
  Drop_Validate d = Ok tt ∧
  ∃ m, Forall2 field_part (Split frag x26) m ∧ NoDup m.*1 ∧ Forall (λ k, k ∈ drop_keys) m.*1 ∧
    field_value m B["v"] = Version ∧ field_value m B["i"] = dID d ∧ field_value m B["u"] = dUploadToken d ∧
    field_value m B["k"] = encode (dRecipientKey d) ∧ field_value m B["n"] = dName d ∧
    field_value m B["p"] = dPurpose d ∧ field_value m B["s"] = dStorage d ∧ field_value m B["t"] = dRetention d ∧
    (if decide (field_value m B["r"] = []) then dRelay d = [] else NormalizeOrigin (field_value m B["r"]) = Ok (dRelay d)).
Proof.
  assert (∀ m, parse_relay m = Ok (dRelay d) ↔
    if decide (field_value m B["r"] = []) then dRelay d = [] else NormalizeOrigin (field_value m B["r"]) = Ok (dRelay d)) as Hrelay.
  { intros m. unfold parse_relay, is_empty. rewrite <- decide_bool_decide. case_decide; [|done]. split; [by intros [= ->]|by intros ->]. }
  split.
  - unfold parseDrop. intros (m & Hm & Hd)%result_bind_ok.
    apply result_bind_ok in Hd as (? & _ & Hd). apply result_bind_ok in Hd as (key & Hk & Hd).
    apply result_bind_ok in Hd as (relay & Hr & Hd). apply result_bind_ok in Hd as ([] & Hv & [= <-]).
    split; [done|]. apply parseFields_iff in Hm as (Hf & Hnd & Hall & Hver).
    exists m. split_and!; try done; [|by apply Hrelay]. simpl. unfold decodeKey, decode_exact in Hk.
    case_match eqn:El; [done|]. destruct (decode _) as [b|] eqn:Ed; [|done]. case_match eqn:Eb; simplify_eq. breflect.
    apply decode_full; [done|]. rewrite Eb. by rewrite El.
  - intros (Hv & m & Hf & Hnd & Hall & Hver & Hi & Hu & Hk & Hn & Hp & Hs & Ht & Hr).
    apply (parseDrop_spelled frag m); [by apply parseFields_iff|split; try done; by apply Hrelay|done].
Qed.
End link.

(** * Concrete links *)

(** A case table that leaves every character beyond ASCII alone. *)
Definition ascii_only : Unicode := {| lower_rune r := r |}.

Definition sample_page : bytes := B["https://relay.example:8443"].
Definition sample_drop : Drop :=
  mkDrop B["http://localhost:8080"] B["AAAAAAAAAAAAAAAAAAAAAA"] B["MTIzNDU2Nzg5MGFiY2RlZg"] (replicate 32 x2a)
    (B["db &"] ++ [xc3; xa9]) B["why? a=b"] [] B["until:2030-01-01T00:00:00Z"].
Definition sample_reveal : Reveal :=
  mkReveal [] B["AAAAAAAAAAAAAAAAAAAAAA"] B["MTIzNDU2Nzg5MGFiY2RlZg"] (replicate 32 x2a) B["db"] true (replicate 16 x0f).

Lemma sample_page_canonical : @canonical_origin ascii_only sample_page.
Proof.
  split; [vm_compute; reflexivity|]. exists B["https"], B["relay.example:8443"].
  split; [by left|]. split; [|reflexivity]. repeat split; decided || reflexivity.
Qed.

Definition built (r : res bytes) : bytes := match r with Ok raw => raw | Err _ => [] end.

Lemma drop_link_roundtrip_witness :
  @ParseDrop ascii_only (built (@Drop_Build ascii_only sample_drop sample_page)) = Ok (sample_drop, sample_page).
Proof.
  apply drop_link_roundtrip.
  - apply sample_page_canonical.
  - right. split; vm_compute; reflexivity.
  - vm_compute. reflexivity.
  - apply Z.leb_le. vm_compute. reflexivity.
Defined.

Lemma reveal_link_roundtrip_witness :
  @ParseReveal ascii_only (built (@Reveal_Build ascii_only sample_reveal sample_page)) = Ok (sample_reveal, sample_page).
Proof.
  apply reveal_link_roundtrip.
  - apply sample_page_canonical.
  - by left.
  - vm_compute. reflexivity.
  - apply Z.leb_le. vm_compute. reflexivity.
Defined.

Lemma parseDrop_strict_witness :
  parseDrop (H := ascii_only) (encodeFields (@drop_fields ascii_only sample_drop) ++ B["&v=1"]) ≠ Ok sample_drop ∧
  ∃ m, Forall2 field_part (Split (encodeFields (@drop_fields ascii_only sample_drop)) x26) m ∧ NoDup m.*1.
Proof.
  split; [vm_compute; discriminate|].
  destruct (proj1 (@parseDrop_strict ascii_only (encodeFields (@drop_fields ascii_only sample_drop)) sample_drop))
    as (Hv & m & Hm & Hnd & _); [vm_compute; reflexivity|]. exists m. split; [exact Hm|exact Hnd].
Defined.
