(* ===== verification/GoFloat.v ===== *)
(** Go's float64, as the IEEE formats of the Standard Library's specification
    of floating-point numbers, and the durations parsed with it. *)
From S2P Require Import Prelude GoStrings GoTime.
From Stdlib Require Import SpecFloat.
From Stdlib Require Import Strings.Byte.

Abbreviation float64 := spec_float.

Definition fdiv (x y : float64) : float64 := SFdiv 53 1024 x y.
Definition fmul (x y : float64) : float64 := SFmul 53 1024 x y.
Definition of_int (n : Z) : float64 := binary_normalize 53 1024 n 0 false.

(** [x <= 0]: false of a NaN. *)
Definition fle0 (x : float64) : bool := SFleb x (of_int 0).

(** [int(x)]: truncation; what does not fit becomes the least integer, as the
    conversion of amd64 has it. *)
Definition to_int (x : float64) : Z :=
  match x with
  | S754_zero _ => 0
  | S754_finite s m e =>
      let a := if 0 <=? e then Z.pos m * 2 ^ e else Z.pos m / 2 ^ (- e) in
      let v := if s then - a else a in
      if (- 2 ^ 63 <=? v) && (v <? 2 ^ 63) then v else - 2 ^ 63
  | _ => - 2 ^ 63
  end.

Example float_examples :
  (to_int (fdiv (of_int 60) (of_int 3)), to_int (fmul (fdiv (of_int 1) (of_int 2)) (of_int 2)), fle0 S754_nan, fle0 (of_int (-1))) =
  (20, 1, false, true).
Proof. vm_compute. reflexivity. Qed.

(** * Durations

    Go's [time.ParseDuration]. *)

(** [leadingInt]: an error when the number passes 1<<63. *)
Fixpoint leadingInt (x : Z) (s : bytes) : option (Z * bytes) :=
  match s with
  | c :: s' =>
      if is_digit c then
        if 2 ^ 63 / 10 <? x then None
        else
          let x := x * 10 + digit_val c in
          if 2 ^ 63 <? x then None else leadingInt x s'
      else Some (x, s)
  | [] => Some (x, [])
  end.

(** [leadingFraction]: the digits after the point, with the power of ten they
    are counted in; digits that no longer fit are skipped. *)
Fixpoint leadingFraction (x : Z) (scale : float64) (overflow : bool) (s : bytes) : Z * float64 * bytes :=
  match s with
  | c :: s' =>
      if is_digit c then
        if overflow then leadingFraction x scale true s'
        else if (2 ^ 63 - 1) / 10 <? x then leadingFraction x scale true s'
        else
          let y := x * 10 + digit_val c in
          if 2 ^ 63 <? y then leadingFraction x scale true s'
          else leadingFraction y (fmul scale (of_int 10)) false s'
      else (x, scale, s)
  | [] => (x, scale, [])
  end.

(** [unitMap]; the micro sign and the Greek letter. *)
Definition unitMap : list (bytes * Duration) :=
  [(B["ns"], Nanosecond); (B["us"], 1000); ([xc2; xb5; x73], 1000); ([xce; xbc; x73], 1000);
   (B["ms"], Millisecond); (B["s"], Second); (B["m"], Minute); (B["h"], Hour)].

(** The unit: up to the next digit or point. *)
Fixpoint take_unit (s : bytes) : bytes * bytes :=
  match s with
  | c :: s' => if bool_decide (c = x2e) || is_digit c then ([], s) else let '(u, r) := take_unit s' in (c :: u, r)
  | [] => ([], [])
  end.

(** One number with its unit. *)
Definition parse_term (s : bytes) : option (Z * bytes) :=
  match s with
  | [] => None
  | c :: _ =>
      if negb (bool_decide (c = x2e) || is_digit c) then None
      else
        '(v, s1) ← leadingInt 0 s;
        let pre := negb (zlen s1 =? zlen s) in
        let '(f, scale, s2, post) :=
          match s1 with
          | c :: s1' =>
              if decide (c = x2e) then
                let '(f, scale, s2) := leadingFraction 0 (of_int 1) false s1' in (f, scale, s2, negb (zlen s2 =? zlen s1'))
              else (0, of_int 1, s1, false)
          | [] => (0, of_int 1, s1, false)
          end in
        if negb pre && negb post then None
        else
          let '(u, s3) := take_unit s2 in
          if is_empty u then None
          else
            unit ← snd <$> (snd <$> list_find (λ x, x.1 = u) unitMap);
            if 2 ^ 63 / unit <? v then None
            else
              let v := v * unit in
              if 0 <? f then
                let v := v + to_int (fmul (of_int f) (fdiv (of_int unit) scale)) in
                if 2 ^ 63 <? v then None else Some (v, s3)
              else Some (v, s3)
  end.

(** The terms; each takes a byte, so the length is fuel enough. *)
Fixpoint parse_terms (fuel : nat) (d : Z) (s : bytes) : option Z :=
  match s with
  | [] => Some d
  | _ =>
      match fuel with
      | O => None
      | S fuel =>
          '(v, s) ← parse_term s;
          let d := d + v in
          if 2 ^ 63 <? d then None else parse_terms fuel d s
      end
  end.

Definition ParseDuration (s : bytes) : option Duration :=
  let '(neg, s) :=
    match s with
    | c :: s' => if decide (c = x2d) then (true, s') else if decide (c = x2b) then (false, s') else (false, s)
    | [] => (false, [])
    end in
  if beq s B["0"] then Some 0
  else if is_empty s then None
  else
    d ← parse_terms (length s) 0 s;
    if neg then Some (wrap64 (- d)) else if 2 ^ 63 - 1 <? d then None else Some d.

Example parse_duration_examples :
  ParseDuration <$> [B["1h30m"]; B["-1.5s"]; B["0"]; B[".5ms"]; B["30"]; B["1d"]; B["9223372036854775807ns"]; B["9223372036854775808ns"]; B["-9223372036854775808ns"]; B[""]] =
  [Some (90 * Minute); Some (-1500000000); Some 0; Some 500000; None; None; Some (2 ^ 63 - 1); None; Some (- 2 ^ 63); None].
Proof. vm_compute. reflexivity. Qed.

Lemma parse_term_range s v s' : parse_term s = Some (v, s') → v <= 2 ^ 63.
Proof.
  unfold parse_term. intros H. destruct s as [|c s]; [done|]. destruct (negb _); [done|].
  apply bind_Some in H as ([v0 s1] & _ & H).
  destruct (match s1 with [] => _ | _ => _ end) as [[[f scale] s2] post].
  destruct (_ && _); [done|]. destruct (take_unit s2) as [u s3]. destruct (is_empty u); [done|].
  apply bind_Some in H as (unit & Hu & H).
  assert (0 < unit) as Hpos.
  { destruct (list_find _ unitMap) as [[i [k d]]|] eqn:E; [|done]. apply list_find_Some in E as (Hi & _). simpl in Hu.
    injection Hu as <-. apply list_elem_of_lookup_2 in Hi. revert Hi. unfold unitMap.
    rewrite !elem_of_cons, elem_of_nil. intros Hi.
    repeat (destruct Hi as [[= _ ->]|Hi]; [by vm_compute|]). done. }
  destruct (Z.ltb_spec (2 ^ 63 / unit) v0); [done|].
  assert (v0 * unit <= 2 ^ 63) by (pose proof (Z.mul_div_le (2 ^ 63) unit Hpos); nia).
  destruct (0 <? f); [|congruence]. destruct (Z.ltb_spec (2 ^ 63) (v0 * unit + to_int (fmul (of_int f) (fdiv (of_int unit) scale)))); [done|].
  congruence.
Qed.

Lemma parse_terms_range fuel d s v : d <= 2 ^ 63 → parse_terms fuel d s = Some v → v <= 2 ^ 63.
Proof.
  revert d s. induction fuel as [|fuel IH]; intros d s Hd H; destruct s as [|c s]; simpl in H; try (by injection H as <-); [done|].
  apply bind_Some in H as ([t s'] & _ & H). destruct (Z.ltb_spec (2 ^ 63) (d + t)); [done|]. by apply IH in H.
Qed.

(** A parsed duration is an [int64]. *)
Lemma ParseDuration_range s d : ParseDuration s = Some d → 0 < d → d < 2 ^ 63.
Proof.
  unfold ParseDuration. destruct (match s with [] => _ | _ => _ end) as [neg s'].
  destruct (beq s' _); [intros [= <-]; lia|]. destruct (is_empty s'); [done|].
  intros (v & _ & H)%bind_Some Hd. destruct neg.
  - injection H as <-. pose proof (wrap64_range (- v)). lia.
  - destruct (Z.ltb_spec (2 ^ 63 - 1) v); [done|]. injection H as <-. lia.
Qed.

(** * [Duration.String] *)

(** The zeros at the front of a text, and the rest. *)
Fixpoint span_zeros (s : bytes) : bytes * bytes :=
  match s with
  | b :: rest => if decide (b = x30) then let '(z, t) := span_zeros rest in (b :: z, t) else ([], s)
  | [] => ([], [])
  end.

(** [fmtFrac]: the fraction without the zeros at its end, and the rest. *)
Definition fmtFrac (v : Z) (prec : nat) : bytes * Z :=
  let unit := 10 ^ Z.of_nat prec in
  let ds := Itoa (v mod unit) in
  let ds := replicate (prec - length ds) x30 ++ ds in
  let ds := reverse (snd (span_zeros (reverse ds))) in
  (if is_empty ds then [] else x2e :: ds, v / unit).

Definition Duration_String (d : Duration) : bytes :=
  let u := Z.abs d in
  let text :=
    if u =? 0 then B["0s"]
    else if u <? Second then
      let '(prec, unit) := if u <? 1000 then (0%nat, B["ns"]) else if u <? Millisecond then (3%nat, [xc2; xb5; x73]) else (6%nat, B["ms"]) in
      let '(frac, u) := fmtFrac u prec in Itoa u ++ frac ++ unit
    else
      let '(frac, u) := fmtFrac u 9 in
      let secs := Itoa (u mod 60) ++ frac ++ B["s"] in
      let m := u / 60 in
      if m =? 0 then secs
      else
        let mins := Itoa (m mod 60) ++ B["m"] ++ secs in
        let h := m / 60 in
        if h =? 0 then mins else Itoa h ++ B["h"] ++ mins in
  if d <? 0 then x2d :: text else text.

Example duration_strings :
  Duration_String <$> [120 * Second; Hour; 0; 1500 * Millisecond; 90 * Second + 50; 1; 1500; 250 * Millisecond; - 61 * Second] =
  [B["2m0s"]; B["1h0m0s"]; B["0s"]; B["1.5s"]; B["1m30.00000005s"]; B["1ns"]; B["1.5"] ++ [xc2; xb5; x73]; B["250ms"]; B["-1m1s"]].
Proof. vm_compute. reflexivity. Qed.
