(* ===== verification/GoOs.v ===== *)
(** The operating system as the program uses it: path/filepath on Unix
    (patterns, the parents of a directory) and os/exec.

    An absolute, clean path is the list of its elements, the last one first;
    the root is the empty list. *)
From S2P Require Import Prelude GoStrings GoTime.
From Stdlib Require Import Strings.Byte.

Definition Separator : byte := x2f.
Definition esc : byte := x5c.

(** * [filepath.Match] *)

(** The star before a chunk of a pattern, the chunk, and what follows it. *)
Fixpoint skip_stars (p : bytes) : bool * bytes :=
  match p with
  | b :: rest => if decide (b = x2a) then (true, (skip_stars rest).2) else (false, p)
  | [] => (false, [])
  end.

Fixpoint chunk_end (inrange : bool) (p : bytes) : bytes * bytes :=
  match p with
  | [] => ([], [])
  | b :: rest =>
      let go r := let '(c, t) := chunk_end r rest in (b :: c, t) in
      if decide (b = esc) then
        match rest with
        | [] => ([b], [])
        | e :: rest => let '(c, t) := chunk_end inrange rest in (b :: e :: c, t)
        end
      else if decide (b = x5b) then go true
      else if decide (b = x5d) then go false
      else if decide (b = x2a) then (if inrange then go inrange else ([], p))
      else go inrange
  end.

Definition scanChunk (p : bytes) : bool * bytes * bytes :=
  let '(star, p) := skip_stars p in let '(chunk, rest) := chunk_end false p in (star, chunk, rest).

(** A character of a range; [None] is [ErrBadPattern]. *)
Definition getEsc (chunk : bytes) : option (rune * bytes) :=
  match chunk with
  | [] => None
  | c :: rest =>
      if decide (c = x2d ∨ c = x5d) then None
      else
        let chunk := if decide (c = esc) then rest else chunk in
        match chars chunk with
        | (Some r, enc) :: _ =>
            match drop (length enc) chunk with [] => None | rest => Some (r, rest) end
        | _ => None
        end
  end.

Fixpoint ranges (fuel : nat) (first : bool) (r : rune) (found : bool) (chunk : bytes) : option (bool * bytes) :=
  match fuel with
  | O => None
  | S fuel =>
      if negb first && bool_decide (head chunk = Some x5d) then Some (found, drop 1 chunk)
      else
        '(lo, chunk) ← getEsc chunk;
        '(hi, chunk) ← (if decide (head chunk = Some x2d) then getEsc (drop 1 chunk) else Some (lo, chunk));
        ranges fuel false r (found || ((lo <=? r) && (r <=? hi))) chunk
  end.

(** The first character of a name, and the rest. *)
Definition next_char (s : bytes) : rune * bytes :=
  match chars s with
  | c :: _ => (default RuneError c.1, drop (length c.2) s)
  | [] => (RuneError, [])
  end.

Inductive chunk_match := BadPattern | NoMatch | Matches (rest : bytes).

(** [matchChunk]; [None] for the name once the match has failed, when only the
    pattern is still checked. *)
Fixpoint matchChunk (fuel : nat) (chunk : bytes) (s : option bytes) : chunk_match :=
  match fuel with
  | O => BadPattern
  | S fuel =>
      match chunk with
      | [] => match s with Some s => Matches s | None => NoMatch end
      | c :: rest =>
          let s := match s with Some [] => None | _ => s end in
          let literal d rest :=
            matchChunk fuel rest (match s with Some (b :: t) => if decide (d = b) then Some t else None | _ => None end) in
          if decide (c = x5b) then
            let '(r, t) := match s with Some n => next_char n | None => (0, []) end in
            let '(negated, rest) := if decide (head rest = Some x5e) then (true, drop 1 rest) else (false, rest) in
            match ranges (S (length rest)) true r false rest with
            | None => BadPattern
            | Some (found, rest) =>
                matchChunk fuel rest (match s with Some _ => if Bool.eqb found negated then None else Some t | None => None end)
            end
          else if decide (c = x3f) then
            matchChunk fuel rest
              (match s with
               | Some n => if decide (head n = Some Separator) then None else Some (next_char n).2
               | None => None
               end)
          else if decide (c = esc) then
            match rest with [] => BadPattern | d :: rest => literal d rest end
          else literal c rest
      end
  end.

Definition match_chunk (chunk s : bytes) : chunk_match := matchChunk (S (length chunk)) chunk (Some s).

(** The positions a star may skip to: past one or more characters that are not
    the separator. *)
Fixpoint skips (name : bytes) : list bytes :=
  match name with
  | [] => []
  | b :: rest => if decide (b = Separator) then [] else rest :: skips rest
  end.

(** The first of them at which the chunk matches; [None] is an error. *)
Fixpoint star_match (chunk : bytes) (last : bool) (names : list bytes) : option (option bytes) :=
  match names with
  | [] => Some None
  | n :: names =>
      match match_chunk chunk n with
      | Matches t => if last && negb (is_empty t) then star_match chunk last names else Some (Some t)
      | NoMatch => star_match chunk last names
      | BadPattern => None
      end
  end.

(** Whether the name matches the whole pattern; a bad pattern does not. *)
Fixpoint Match_loop (fuel : nat) (pattern name : bytes) : bool :=
  match fuel with
  | O => false
  | S fuel =>
      match pattern with
      | [] => is_empty name
      | _ =>
          let '(star, chunk, rest) := scanChunk pattern in
          if star && is_empty chunk then negb (ContainsByte name Separator)
          else
            let skip := match (if star then star_match chunk (is_empty rest) (skips name) else None) with
                        | Some (Some t) => Match_loop fuel rest t
                        | _ => false
                        end in
            match match_chunk chunk name with
            | Matches t => if is_empty t || negb (is_empty rest) then Match_loop fuel rest t else skip
            | NoMatch => skip
            | BadPattern => false
            end
      end
  end.

Definition Match (pattern name : bytes) : bool := Match_loop (S (length pattern)) pattern name.

Example matches :
  (λ x, Match x.1 x.2) <$>
    [(B["*.env"], B["prod.env"]); (B["*.env"], B["prod.envx"]); (B[".e?v"], B[".env"]); (B["[.-0]env"], B[".env"]);
     (B["[^a]env"], B[".env"]); (B[".env[0-9]"], B[".envx"]); (B["*e*v"], B["a.env"]); (B["a/*"], B["a/b"]); (B["*"], B["a/b"]);
     (B["\.env"], B[".env"]); (B["[.env"], B[".env"]); (B["*b"], B["abab"])] =
    [true; false; true; true; true; false; true; true; false; true; false; true].
Proof. vm_compute. reflexivity. Qed.

(** * Parents *)

Abbreviation dirpath := (list bytes).

(** The directory and its parents up to the root: the first in which [found]. *)
Fixpoint search_up (found : dirpath → bool) (dir : dirpath) : option dirpath :=
  if found dir then Some dir
  else match dir with
       | [] => None
       | _ :: parent => search_up found parent
       end.

(** * Names of files *)

Fixpoint strip_slashes (rev : bytes) : bytes :=
  match rev with
  | b :: rest => if decide (b = Separator) then strip_slashes rest else rev
  | [] => []
  end.

(** [filepath.Base] *)
Definition Base (path : bytes) : bytes :=
  match path with
  | [] => B["."]
  | _ =>
      match reverse (strip_slashes (reverse path)) with
      | [] => [Separator]
      | path => match LastIndexByte path Separator with Some i => drop (S i) path | None => path end
      end
  end.

(** [filepath.Ext]: from the last dot of the last element on. *)
Definition Ext (path : bytes) : bytes :=
  match LastIndexByte path x2e with
  | Some i => let ext := drop i path in if ContainsByte ext Separator then [] else ext
  | None => []
  end.

Example file_names :
  (λ p, (Base p, Ext (Base p))) <$> [B["/usr/bin/aws.exe"]; B["aws"]; B["/"]; B[""]; B["a/b/"]; B["x.tar.gz"]; B["a.b/c"]] =
  [(B["aws.exe"], B[".exe"]); (B["aws"], []); (B["/"], []); (B["."], B["."]); (B["b"], []); (B["x.tar.gz"], B[".gz"]); (B["c"], [])].
Proof. vm_compute. reflexivity. Qed.

(** * os/exec

    Go's os/exec as the program uses it: a command with its arguments, its
    environment and its input, and what comes back from it. *)

(** What [exec.CommandContext] is set up with. *)
Record command := mkCommand {
  cmd_Args : list bytes;
  cmd_Env : list bytes;
  cmd_Dir : bytes;
  cmd_Stdin : bytes;
  cmd_Timeout : Duration;
}.

(** [RunExit]: it ran and its exit code is not 0; [RunOther]: another error,
    with its text. *)
Inductive run_error := RunExit (code : Z) | RunOther (text : bytes).

(** The pieces the program wrote, the error of [cmd.Run], and whether the
    deadline has passed. *)
Record run_result := mkRunResult {
  res_stdout : list bytes;
  res_stderr : list bytes;
  res_error : option run_error;
  res_deadline : bool;
}.

Class Programs (N : Type) := {
  Environ : N → list bytes;
  run_program : command → N → N * run_result;
}.
