(* ===== verification/GoStrconv.v ===== *)
(** Go's strconv as the program uses it: booleans, integers in every base, and
    floating-point numbers, decimal and hexadecimal. *)
From S2P Require Import Prelude GoStrings GoFloat.
From Stdlib Require Import SpecFloat.
From Stdlib Require Import Strings.Byte.

Definition ParseBool (s : bytes) : option bool :=
  if existsb (beq s) [B["1"]; B["t"]; B["T"]; B["TRUE"]; B["true"]; B["True"]] then Some true
  else if existsb (beq s) [B["0"]; B["f"]; B["F"]; B["FALSE"]; B["false"]; B["False"]] then Some false
  else None.

(** * Integers *)

(** The letters of a number in either case. *)
Definition lower (b : byte) : byte := z2b (Z.lor (b2z b) 32).

Definition is_underscore (b : byte) : bool := bool_decide (b = x5f).
Definition is_sign (b : byte) : bool := bool_decide (b = x2b) || bool_decide (b = x2d).

(** The base that a prefix stands for. *)
Definition prefix_base (b : byte) : option Z :=
  if bool_decide (lower b = x62) then Some 2
  else if bool_decide (lower b = x6f) then Some 8
  else if bool_decide (lower b = x78) then Some 16
  else None.

(** What [underscoreOK] saw last. *)
Inductive seen := SawBegin | SawDigit | SawUnderscore | SawOther.

Fixpoint underscores (hex : bool) (saw : seen) (s : bytes) : bool :=
  match s with
  | [] => match saw with SawUnderscore => false | _ => true end
  | c :: s =>
      if is_digit c || (hex && in_range 97 102 (lower c)) then underscores hex SawDigit s
      else if is_underscore c then match saw with SawDigit => underscores hex SawUnderscore s | _ => false end
      else match saw with SawUnderscore => false | _ => underscores hex SawOther s end
  end.

Definition without_sign (s : bytes) : bytes := match s with c :: s' => if is_sign c then s' else s | [] => [] end.

Definition underscoreOK (s : bytes) : bool :=
  match without_sign s with
  | x30 :: p :: rest =>
      match prefix_base p with
      | Some base => underscores (base =? 16) SawDigit rest
      | None => underscores false SawBegin (without_sign s)
      end
  | s => underscores false SawBegin s
  end.

Definition digit_of (b : byte) : option Z :=
  if is_digit b then Some (digit_val b)
  else if in_range 97 122 (lower b) then Some (b2z (lower b) - 97 + 10)
  else None.

(** The digits in a base; with [base0] underscores are skipped. *)
Fixpoint scan_int (base0 : bool) (base acc : Z) (s : bytes) : option Z :=
  match s with
  | [] => Some acc
  | c :: s =>
      if base0 && is_underscore c then scan_int base0 base acc s
      else d ← digit_of c; if base <=? d then None else scan_int base0 base (acc * base + d) s
  end.

(** [ParseUint] for 64 bits; base 0 reads the base off the prefix.  An overflow
    is an error wherever the number ends. *)
Definition ParseUint (s : bytes) (base : Z) : option Z :=
  if is_empty s then None
  else
    let '(b, body) :=
      if base =? 0 then
        match s with
        | x30 :: rest =>
            match rest with
            | p :: _ :: _ => match prefix_base p with Some b => (b, drop 1 rest) | None => (8, rest) end
            | _ => (8, rest)
            end
        | _ => (10, s)
        end
      else (base, s) in
    n ← scan_int (base =? 0) b 0 body;
    if 2 ^ 64 <=? n then None
    else if (base =? 0) && existsb is_underscore body && negb (underscoreOK s) then None
    else Some n.

Definition ParseInt (s : bytes) (base : Z) : option Z :=
  match s with
  | [] => None
  | c :: rest =>
      let neg := bool_decide (c = x2d) in
      n ← ParseUint (if is_sign c then rest else s) base;
      if negb neg && (2 ^ 63 <=? n) then None
      else if neg && (2 ^ 63 <? n) then None
      else Some (if neg then - n else n)
  end.

Definition Atoi (s : bytes) : option Z := ParseInt s 10.

Example parse_int_examples :
  (λ s, ParseInt s 0) <$> [B["42"]; B["-0x_fF"]; B["0b101"]; B["010"]; B["0"]; B["1_000"]; B["1__0"]; B["0x"]; B["+9223372036854775807"]; B["9223372036854775808"]; B["-9223372036854775808"]; B["_1"]; B["08"]] =
  [Some 42; Some (-255); Some 5; Some 8; Some 0; Some 1000; None; None; Some (2 ^ 63 - 1); None; Some (- 2 ^ 63); None; None].
Proof. vm_compute. reflexivity. Qed.

Example atoi_examples :
  Atoi <$> [B["007"]; B["-1"]; B["1_0"]; B[""]; B["+"]; B["12a"]; B["9223372036854775808"]] = [Some 7; Some (-1); None; None; None; None; None].
Proof. vm_compute. reflexivity. Qed.

(** * Floating-point numbers *)

(** [special]: infinities and not a number. *)
Definition special (s : bytes) : option float64 :=
  let word := lower <$> without_sign s in
  if beq word B["inf"] || beq word B["infinity"] then Some (S754_infinity (match s with c :: _ => bool_decide (c = x2d) | [] => false end))
  else if beq (lower <$> s) B["nan"] then Some S754_nan
  else None.

(** [readFloat]: the digits, how many there are, and where the point is. *)
Record mantissa := mkMantissa {
  mt_value : Z;
  mt_digits : Z; (* not counting leading zeros *)
  mt_point : Z;
  mt_dot : bool;
  mt_any : bool;
}.

Definition mantissa_step (base : Z) (m : mantissa) (d : Z) : mantissa :=
  if (d =? 0) && (mt_digits m =? 0) then mkMantissa (mt_value m) 0 (mt_point m - 1) (mt_dot m) true
  else mkMantissa (mt_value m * base + d) (mt_digits m + 1) (mt_point m) (mt_dot m) true.

Fixpoint read_mantissa (base : Z) (m : mantissa) (s : bytes) : mantissa * bytes :=
  match s with
  | [] => (m, [])
  | c :: s' =>
      if is_underscore c then read_mantissa base m s'
      else if bool_decide (c = x2e) then
        if mt_dot m then (m, s)
        else read_mantissa base (mkMantissa (mt_value m) (mt_digits m) (mt_digits m) true (mt_any m)) s'
      else match digit_of c with
           | Some d => if d <? base then read_mantissa base (mantissa_step base m d) s' else (m, s)
           | None => (m, s)
           end
  end.

(** The digits of an exponent; past 10000 they no longer count. *)
Fixpoint read_exponent (e : Z) (s : bytes) : option Z :=
  match s with
  | [] => Some e
  | c :: s =>
      if is_underscore c then read_exponent e s
      else if is_digit c then read_exponent (if e <? 10000 then e * 10 + digit_val c else e) s
      else None
  end.

(** After the letter: a sign, and a digit first. *)
Definition exponent (s : bytes) : option Z :=
  match without_sign s with
  | c :: _ =>
      if is_digit c then (λ e, match s with x2d :: _ => - e | _ => e end) <$> read_exponent 0 (without_sign s) else None
  | [] => None
  end.

(** The nearest number to [m * 10 ^ e], ties to even; none past the largest. *)
Definition in_bounds (f : float64) : option float64 := match f with S754_infinity _ => None | _ => Some f end.

Definition decimal_float (neg : bool) (m point digits : Z) : option float64 :=
  match m with
  | Z.pos p =>
      if 310 <? point then None
      else if point <? - 330 then Some (S754_zero neg)
      else
        let e := point - digits in
        in_bounds (if 0 <=? e then binary_normalize 53 1024 (if neg then - (m * 10 ^ e) else m * 10 ^ e) 0 neg
                   else fdiv (S754_finite neg p 0) (S754_finite false (Z.to_pos (10 ^ (- e))) 0))
  | _ => Some (S754_zero neg)
  end.

Definition hex_float (neg : bool) (m e : Z) : option float64 :=
  if m =? 0 then Some (S754_zero neg) else in_bounds (binary_normalize 53 1024 (if neg then - m else m) e neg).

Definition ParseFloat (s : bytes) : option float64 :=
  match special s with
  | Some f => Some f
  | None =>
      let neg := match s with x2d :: _ => true | _ => false end in
      let body := without_sign s in
      let '(base, body) := match body with
                           | x30 :: p :: rest => if bool_decide (lower p = x78) && negb (is_empty rest) then (16, rest) else (10, body)
                           | _ => (10, body)
                           end in
      let '(m, rest) := read_mantissa base (mkMantissa 0 0 0 false false) body in
      if negb (mt_any m) then None
      else
        let point := if mt_dot m then mt_point m else mt_digits m in
        e ← match rest with
            | [] => if base =? 16 then None else Some 0
            | c :: rest => if bool_decide (lower c = (if base =? 16 then x70 else x65)) then exponent rest else None
            end;
        if existsb is_underscore s && negb (underscoreOK s) then None
        else if base =? 16 then hex_float neg (mt_value m) (4 * (point - mt_digits m) + e)
        else decimal_float neg (mt_value m) (point + e) (mt_digits m)
  end.

Example parse_float_examples :
  ParseFloat <$> [B["60"]; B["0.1"]; B["-00.50e1"]; B["1e309"]; B["1e-400"]; B["0x1p-2"]; B["0x10"]; B["NaN"]; B["-Inf"]; B["+nan"]; B["1."]; B["."]; B["1_0.5"]; B["5e-324"]; B["9007199254740993"]; B["1e"]] =
  [Some (of_int 60); Some (S754_finite false 7205759403792794 (-56)); Some (of_int (-5)); None; Some (S754_zero false);
   Some (S754_finite false 4503599627370496 (-54)); None; Some S754_nan; Some (S754_infinity true); None; Some (of_int 1); None;
   Some (S754_finite false 5910974510923776 (-49)); Some (S754_finite false 1 (-1074)); Some (of_int 9007199254740992); None].
Proof. vm_compute. reflexivity. Qed.
