(* ===== verification/Flags.v ===== *)
(** Command lines: Go's flag package, and the helpers of cmd/burndrop/app.go
    that let flags stand after positional arguments. *)
From S2P Require Import Prelude GoStrings GoStrconv.
From Stdlib Require Import Strings.Byte.

(** * Go's flag package *)

(** A flag's value; the kind of the flag is that of its value.  [VPairs] is the
    value of app.go's [envFlags], in the order in which keys were first set. *)
Inductive flag_value :=
  | VBool (b : bool)
  | VString (s : bytes)
  | VInt (n : Z)
  | VPairs (l : list (bytes * bytes)).

Abbreviation FlagSet := (gmap bytes flag_value).

Inductive flag_error :=
  | ErrHelp
  | BadSyntax (arg : bytes)
  | NotDefined (name : bytes)
  | NeedsArgument (name : bytes)
  | InvalidValue (name value : bytes).

Definition IsBoolFlag (v : flag_value) : bool := match v with VBool _ => true | _ => false end.

(** A later entry of the same key replaces the value. *)
Fixpoint set_pair (k x : bytes) (l : list (bytes * bytes)) : list (bytes * bytes) :=
  match l with
  | [] => [(k, x)]
  | (k', x') :: l => if beq k k' then (k, x) :: l else (k', x') :: set_pair k x l
  end.

(** [envFlags.Set] *)
Definition envFlags_Set (l : list (bytes * bytes)) (v : bytes) : option (list (bytes * bytes)) :=
  let '(k, name, ok) := Cut v x3d in
  if negb ok || is_empty k || is_empty name then None else Some (set_pair k name l).

(** [flag.Value.Set] *)
Definition Set_value (v : flag_value) (raw : bytes) : option flag_value :=
  match v with
  | VBool _ => VBool <$> ParseBool raw
  | VString _ => Some (VString raw)
  | VInt _ => VInt <$> ParseInt raw 0
  | VPairs l => VPairs <$> envFlags_Set l raw
  end.

(** What [parseOne] takes an argument for. *)
Inductive arg_syntax :=
  | Positional
  | Terminator
  | Malformed
  | AFlag (name : bytes) (value : option bytes).

Definition is_dash (b : byte) : bool := bool_decide (b = x2d).

Definition flag_syntax (name : bytes) : arg_syntax :=
  match name with
  | [] => Malformed
  | c :: _ =>
      if is_dash c || bool_decide (c = x3d) then Malformed
      else let '(n, v, has) := Cut name x3d in AFlag n (if has : bool then Some v else None)
  end.

Definition syntax_of (s : bytes) : arg_syntax :=
  match s with
  | c :: d :: name =>
      if negb (is_dash c) then Positional
      else if is_dash d then if is_empty name then Terminator else flag_syntax name
      else flag_syntax (d :: name)
  | _ => Positional
  end.

(** The value that comes with the flag itself. *)
Definition inline_value (v : flag_value) (value : option bytes) : option bytes :=
  if IsBoolFlag v then Some (default B["true"] value) else value.

Definition undefined_flag (name : bytes) : flag_error :=
  if beq name B["help"] || beq name B["h"] then ErrHelp else NotDefined name.

Definition set_flag (fs : FlagSet) (name : bytes) (v : flag_value) (raw : bytes) : result flag_error FlagSet :=
  match Set_value v raw with
  | Some v' => Ok (<[name := v']> fs)
  | None => Err (InvalidValue name raw)
  end.

(** [FlagSet.Parse]: the values set, and the remaining arguments. *)
Fixpoint Parse (fs : FlagSet) (args : list bytes) : result flag_error (FlagSet * list bytes) :=
  match args with
  | [] => Ok (fs, [])
  | s :: rest =>
      match syntax_of s with
      | Positional => Ok (fs, args)
      | Terminator => Ok (fs, rest)
      | Malformed => Err (BadSyntax s)
      | AFlag name value =>
          match fs !! name with
          | None => Err (undefined_flag name)
          | Some v =>
              match inline_value v value with
              | Some raw =>
                  match set_flag fs name v raw with Ok fs => Parse fs rest | Err e => Err e end
              | None =>
                  match rest with
                  | [] => Err (NeedsArgument name)
                  | raw :: rest =>
                      match set_flag fs name v raw with Ok fs => Parse fs rest | Err e => Err e end
                  end
              end
          end
      end
  end.

(** * app.go *)

(** [strings.TrimLeft(arg, "-")] *)
Fixpoint trim_dashes (s : bytes) : bytes :=
  match s with c :: s' => if is_dash c then trim_dashes s' else s | [] => [] end.

(** The loop of [permute]. *)
Fixpoint permute_loop (fs : FlagSet) (stop : bool) (flags positional : list bytes) (args : list bytes) : list bytes * list bytes :=
  match args with
  | [] => (flags, positional)
  | arg :: rest =>
      if beq arg B["--"] then (flags, positional ++ rest)
      else if (zlen arg <? 2) || negb (HasPrefix arg B["-"]) || (stop && negb (bool_decide (length positional = 0%nat))) then
        if stop then (flags, positional ++ arg :: rest) else permute_loop fs stop flags (positional ++ [arg]) rest
      else
        let '(name, _, hasValue) := Cut (trim_dashes arg) x3d in
        match fs !! name with
        | Some v =>
            if negb hasValue && negb (IsBoolFlag v) then
              match rest with
              | x :: rest => permute_loop fs stop (flags ++ [arg; x]) positional rest
              | [] => permute_loop fs stop (flags ++ [arg]) positional rest
              end
            else permute_loop fs stop (flags ++ [arg]) positional rest
        | None => permute_loop fs stop (flags ++ [arg]) positional rest
        end
  end.

Definition permute (fs : FlagSet) (args : list bytes) (stop : bool) : list bytes :=
  let '(flags, positional) := permute_loop fs stop [] [] args in
  match positional with [] => flags | _ => flags ++ B["--"] :: positional end.

(** [parse] and [parseCommand]. *)
Definition parseWith (fs : FlagSet) (args : list bytes) (stop : bool) : result flag_error (FlagSet * list bytes) :=
  Parse fs (permute fs args stop).

(** * What a command line means

    Read from left to right: a flag sets its value wherever it stands, and what
    is not a flag is positional. *)
Fixpoint read_line (fs : FlagSet) (args : list bytes) : result flag_error (FlagSet * list bytes) :=
  match args with
  | [] => Ok (fs, [])
  | s :: rest =>
      match syntax_of s with
      | Positional => '(fs, positional) ← read_line fs rest; Ok (fs, s :: positional)
      | Terminator => Ok (fs, rest)
      | Malformed => Err (BadSyntax s)
      | AFlag name value =>
          match fs !! name with
          | None => Err (undefined_flag name)
          | Some v =>
              match inline_value v value with
              | Some raw =>
                  match set_flag fs name v raw with Ok fs => read_line fs rest | Err e => Err e end
              | None =>
                  match rest with
                  | [] => Err (NeedsArgument name)
                  | raw :: rest =>
                      match set_flag fs name v raw with Ok fs => read_line fs rest | Err e => Err e end
                  end
              end
          end
      end
  end.

(** ** The kinds of the flags stay as they are *)

Definition kind_of (v : flag_value) : Z := match v with VBool _ => 0 | VString _ => 1 | VInt _ => 2 | VPairs _ => 3 end.

Definition same_kinds (fs fs' : FlagSet) : Prop := ∀ name, kind_of <$> fs !! name = kind_of <$> fs' !! name.

#[local] Instance same_kinds_preorder : PreOrder same_kinds.
Proof. split; [done|]. intros x y z Hxy Hyz n. by rewrite Hxy. Qed.

Lemma Set_value_kind v raw v' : Set_value v raw = Some v' → kind_of v' = kind_of v.
Proof. destruct v; simpl; [intros (? & _ & ->)%fmap_Some|intros [= <-]|intros (? & _ & ->)%fmap_Some|intros (? & _ & ->)%fmap_Some]; done. Qed.

Lemma set_flag_kinds fs name v raw fs' : fs !! name = Some v → set_flag fs name v raw = Ok fs' → same_kinds fs fs'.
Proof.
  unfold set_flag. intros Hv. destruct (Set_value v raw) as [v'|] eqn:E; [|done]. intros [= <-] n.
  destruct (decide (name = n)) as [<-|Hn]; [|by rewrite lookup_insert_ne].
  rewrite lookup_insert_eq, Hv. simpl. f_equal. symmetry. by eapply Set_value_kind.
Qed.

Lemma IsBoolFlag_kind v : IsBoolFlag v = (kind_of v =? 0).
Proof. by destruct v. Qed.

(** ** What an argument is taken for *)

Definition not_a_flag (s : bytes) : bool := (zlen s <? 2) || negb (HasPrefix s B["-"]).

Lemma trim_dashes_name name :
  match name with c :: _ => is_dash c = false | [] => True end → trim_dashes name = name.
Proof. destruct name as [|c name]; [done|]. simpl. by intros ->. Qed.

Lemma flag_syntax_spec name :
  match flag_syntax name with
  | AFlag n v => trim_dashes name = name ∧ Cut name x3d = (n, default [] v, bool_decide (is_Some v))
  | Malformed => True
  | _ => False
  end.
Proof.
  destruct name as [|c name]; [done|]. unfold flag_syntax. destruct (is_dash c) eqn:Ec; [done|]. destruct (bool_decide (c = x3d)); [done|].
  cbn [orb]. destruct (Cut (c :: name) x3d) as [[n v] has] eqn:E. split; [by apply trim_dashes_name|].
  unfold Cut in E. destruct (IndexByte _ _); injection E as <- <- <-; done.
Qed.

Lemma syntax_spec s :
  match syntax_of s with
  | Terminator => s = B["--"]
  | Positional => s ≠ B["--"] ∧ not_a_flag s = true
  | Malformed => s ≠ B["--"] ∧ not_a_flag s = false
  | AFlag n v => s ≠ B["--"] ∧ not_a_flag s = false ∧ Cut (trim_dashes s) x3d = (n, default [] v, bool_decide (is_Some v))
  end.
Proof.
  destruct s as [|c [|d name]]; [done..|]. unfold syntax_of, not_a_flag, is_dash at 1.
  case_bool_decide as Hc; cbn [negb]; [subst c|].
  2:{ split; [by intros [= -> _]|]. simpl. rewrite bool_decide_eq_false_2 by congruence. apply orb_true_r. }
  assert (zlen (x2d :: d :: name) <? 2 = false) as Hlen by (unfold zlen; cbn [length]; apply Z.ltb_ge; lia).
  rewrite Hlen. change (negb (HasPrefix (x2d :: d :: name) B["-"])) with false. cbn [orb].
  unfold is_dash at 1. case_bool_decide as Hd.
  - subst d. unfold is_empty. case_bool_decide as Hn; [by subst name|].
    pose proof (flag_syntax_spec name) as Hs. destruct (flag_syntax name) as [| | |n v]; [done..| |].
    + split; [|done]. by intros [= ->].
    + split; [by intros [= ->]|]. split; [done|]. destruct Hs as [Ht <-].
      change (trim_dashes (x2d :: x2d :: name)) with (trim_dashes name). by rewrite Ht.
  - pose proof (flag_syntax_spec (d :: name)) as Hs. destruct (flag_syntax (d :: name)) as [| | |n v]; [done..| |].
    + split; [|done]. intros [= -> _]. done.
    + split; [by intros [= -> _]|]. split; [done|]. destruct Hs as [Ht <-].
      change (trim_dashes (x2d :: d :: name)) with (trim_dashes (d :: name)). by rewrite Ht.
Qed.

(** ** The loop of [permute] *)

Lemma permute_loop_app fs stop flags positional args :
  stop = false ∨ positional = [] →
  permute_loop fs stop flags positional args =
  (flags ++ (permute_loop fs stop [] [] args).1, positional ++ (permute_loop fs stop [] [] args).2).
Proof.
  revert flags positional. induction (Nat.lt_wf_0_projected length args) as [args _ IH]. intros flags positional Hstop.
  destruct args as [|arg rest]; [simpl; by rewrite !app_nil_r|].
  cbn [permute_loop]. destruct (beq arg B["--"]); [simpl; by rewrite app_nil_r|].
  assert (stop && negb (bool_decide (length positional = 0%nat)) = false) as -> by (by destruct Hstop as [-> | ->]; [|destruct stop]).
  assert (stop && negb (bool_decide (length (@nil bytes) = 0%nat)) = false) as -> by (by destruct stop).
  rewrite !orb_false_r. destruct (_ || _).
  - destruct stop; [simpl; by rewrite app_nil_r|]. cbn [app].
    rewrite (IH rest ltac:(simpl; lia) flags), (IH rest ltac:(simpl; lia) [] [arg]) by auto. simpl. by rewrite <- app_assoc.
  - destruct (Cut _ _) as [[name v] has].
    assert (∀ fl, permute_loop fs stop (flags ++ fl) positional rest =
      (flags ++ (permute_loop fs stop fl [] rest).1, positional ++ (permute_loop fs stop fl [] rest).2)) as Hone.
    { intros fl. rewrite (IH rest ltac:(simpl; lia) (flags ++ fl)), (IH rest ltac:(simpl; lia) fl) by auto. simpl. by rewrite <- app_assoc. }
    destruct (fs !! name) as [x|]; [|apply Hone]. destruct (_ && _); [|apply Hone]. destruct rest as [|y rest]; [apply Hone|].
    rewrite (IH rest ltac:(simpl; lia) (flags ++ [arg; y])), (IH rest ltac:(simpl; lia) [arg; y]) by auto. simpl. by rewrite <- app_assoc.
Qed.

(** What the loop makes of a line, one argument after the other. *)
Definition sorted (fs : FlagSet) (stop : bool) (args : list bytes) : list bytes * list bytes := permute_loop fs stop [] [] args.

(** The flag takes the next argument as its value. *)
Definition takes_next (fs : FlagSet) (name : bytes) (has : bool) : bool :=
  match fs !! name with Some v => negb has && negb (IsBoolFlag v) | None => false end.

Lemma sorted_cons fs stop arg rest :
  sorted fs stop (arg :: rest) =
  match syntax_of arg with
  | Terminator => ([], rest)
  | Positional => if stop then ([], arg :: rest) else ((sorted fs stop rest).1, arg :: (sorted fs stop rest).2)
  | _ =>
      let '(name, _, has) := Cut (trim_dashes arg) x3d in
      match takes_next fs name has, rest with
      | true, x :: rest' => (arg :: x :: (sorted fs stop rest').1, (sorted fs stop rest').2)
      | _, _ => (arg :: (sorted fs stop rest).1, (sorted fs stop rest).2)
      end
  end.
Proof.
  unfold sorted. cbn [permute_loop]. pose proof (syntax_spec arg) as Hs. unfold not_a_flag in Hs.
  assert (∀ s t : bytes, s ≠ t → beq s t = false) as Hne by (intros; by apply bool_decide_eq_false_2).
  assert (stop && negb (bool_decide (length (@nil bytes) = 0%nat)) = false) as -> by (by destruct stop). rewrite orb_false_r.
  assert (syntax_of arg = Terminator ∨ beq arg B["--"] = false) as [E|E].
  { destruct (syntax_of arg); [right; apply Hne, Hs|by left|right; apply Hne, Hs|right; apply Hne, Hs]. }
  - rewrite E in *. subst arg. done.
  - rewrite E. destruct (syntax_of arg) as [| | |name value] eqn:Es.
    + destruct Hs as [_ ->]. destruct stop; [done|]. by rewrite permute_loop_app by auto.
    + subst arg. done.
    + destruct Hs as [_ ->]. destruct (Cut _ _) as [[name v] has]. unfold takes_next.
      destruct (fs !! name) as [x|]; [destruct (_ && _); [destruct rest|]|]; rewrite permute_loop_app by auto; done.
    + destruct Hs as (_ & -> & _). destruct (Cut _ _) as [[name' v] has]. unfold takes_next.
      destruct (fs !! name') as [x|]; [destruct (_ && _); [destruct rest|]|]; rewrite permute_loop_app by auto; done.
Qed.

Lemma sorted_kinds fs fs' stop args : same_kinds fs fs' → sorted fs stop args = sorted fs' stop args.
Proof.
  intros Hk. induction (Nat.lt_wf_0_projected length args) as [args _ IH]. destruct args as [|arg rest]; [done|].
  rewrite !sorted_cons, (IH rest) by (simpl; lia).
  assert (∀ name has, takes_next fs name has = takes_next fs' name has) as Hsame.
  { intros name has. unfold takes_next. specialize (Hk name). destruct (fs !! name) as [v|], (fs' !! name) as [v'|]; try done.
    injection Hk as Hk. by rewrite !IsBoolFlag_kind, Hk. }
  destruct (syntax_of arg); [done..| |]; destruct (Cut _ _) as [[n v] has]; rewrite Hsame; destruct (takes_next _ _ _); try done;
    (destruct rest as [|x rest]; [done|]); rewrite (IH rest) by (simpl; lia); done.
Qed.

Lemma inline_value_has v value :
  negb (bool_decide (is_Some value)) && negb (IsBoolFlag v) = bool_decide (inline_value v value = None).
Proof. unfold inline_value. destruct (IsBoolFlag v), value; done. Qed.

(** The flags of a line, and then what is positional in it: [tail] is what
    [permute] puts after the flags. *)
Lemma Parse_sorted fs args before tail :
  (∀ fs', Parse fs' tail = Ok (fs', before ++ (sorted fs false args).2)) →
  (∀ name, read_line fs args ≠ Err (NeedsArgument name)) →
  Parse fs ((sorted fs false args).1 ++ tail) = ('(fs', positional) ← read_line fs args; Ok (fs', before ++ positional)).
Proof.
  revert fs before. induction (Nat.lt_wf_0_projected length args) as [args _ IH]. intros fs before Htail Hneeds.
  destruct args as [|arg rest]; [apply Htail|]. rewrite sorted_cons in *. pose proof (syntax_spec arg) as Hs. cbn [read_line] in *.
  destruct (syntax_of arg) as [| | |name value] eqn:Es.
  - cbn [fst snd] in *. rewrite (IH rest ltac:(simpl; lia) fs (before ++ [arg])).
    + destruct (read_line fs rest) as [[fs' pos]|e]; [|done]. simpl. by rewrite <- app_assoc.
    + intros fs'. by rewrite Htail, <- app_assoc.
    + intros n E. apply (Hneeds n). by rewrite E.
  - apply Htail.
  - destruct (Cut _ _) as [[n v] has]. destruct (takes_next _ _ _); [destruct rest|]; cbn [fst app Parse]; by rewrite Es.
  - destruct Hs as (_ & _ & Hcut). rewrite Hcut in *. unfold takes_next in *. destruct (fs !! name) as [v|] eqn:Ef.
    2:{ cbn [fst app Parse]. by rewrite Es, Ef. }
    rewrite inline_value_has in *. destruct (inline_value v value) as [raw|] eqn:Ei; cbn [bool_decide] in *.
    + rewrite bool_decide_eq_false_2 in * by done. cbn [fst app Parse]. rewrite Es, Ef, Ei.
      destruct (set_flag fs name v raw) as [fs1|e] eqn:Eset; [|done].
      rewrite (sorted_kinds fs fs1 false rest) in * by (by eapply set_flag_kinds). by apply IH; [simpl; lia|..].
    + rewrite bool_decide_eq_true_2 in * by done. destruct rest as [|raw rest]; [by destruct (Hneeds name)|].
      cbn [fst app Parse]. rewrite Es, Ef, Ei. destruct (set_flag fs name v raw) as [fs1|e] eqn:Eset; [|done].
      rewrite (sorted_kinds fs fs1 false rest) in * by (by eapply set_flag_kinds). by apply IH; [simpl; lia|..].
Qed.

(** C15. Flags may stand anywhere: what the commands read from a command line is
    what it says from left to right, every flag with its value and the rest as
    positional arguments in their order, errors included.  The one exception is
    a line that ends in a flag without the value it needs. *)
Theorem flags_anywhere fs args :
  (∀ name, read_line fs args ≠ Err (NeedsArgument name)) → parseWith fs args false = read_line fs args.
Proof.
  intros Hneeds. unfold parseWith, permute. destruct (permute_loop fs false [] [] args) as [flags positional] eqn:E.
  change (sorted fs false args = (flags, positional)) in E.
  assert (∀ tail, (∀ fs', Parse fs' tail = Ok (fs', positional)) → Parse fs (flags ++ tail) = read_line fs args) as Hp.
  { intros tail Ht. pose proof (Parse_sorted fs args [] tail) as Hps. rewrite E in Hps. cbn [fst snd app] in Hps. rewrite Hps; [|exact Ht|done].
    by destruct (read_line fs args) as [[fs' pos]|e]. }
  destruct positional as [|p positional]; [|by apply Hp].
  rewrite <- (Hp []), app_nil_r; done.
Qed.

(** The same where the flags end at the first positional argument. *)
Lemma Parse_sorted_stop fs args tail :
  (∀ fs', Parse fs' tail = Ok (fs', (sorted fs true args).2)) → (sorted fs true args).2 ≠ [] ∨ tail = [] →
  Parse fs ((sorted fs true args).1 ++ tail) = Parse fs args.
Proof.
  revert fs. induction (Nat.lt_wf_0_projected length args) as [args _ IH]. intros fs Htail Hne.
  destruct args as [|arg rest]; [apply Htail|]. rewrite sorted_cons in *. pose proof (syntax_spec arg) as Hs.
  destruct (syntax_of arg) as [| | |name value] eqn:Es.
  - cbn [fst snd app Parse] in *. by rewrite Es, Htail.
  - cbn [fst snd app Parse] in *. by rewrite Es, Htail.
  - destruct (Cut _ _) as [[n v] has]. destruct (takes_next _ _ _); [destruct rest|]; cbn [fst app Parse]; by rewrite Es.
  - destruct Hs as (_ & _ & Hcut). rewrite Hcut in *. unfold takes_next in *. destruct (fs !! name) as [v|] eqn:Ef.
    2:{ cbn [fst app Parse]. by rewrite Es, Ef. }
    rewrite inline_value_has in *. destruct (inline_value v value) as [raw|] eqn:Ei.
    + rewrite bool_decide_eq_false_2 in * by done. cbn [fst snd app Parse] in *. rewrite Es, Ef, Ei.
      destruct (set_flag fs name v raw) as [fs1|e] eqn:Eset; [|done].
      rewrite (sorted_kinds fs fs1 true rest) in * by (by eapply set_flag_kinds). by apply IH; [simpl; lia|..].
    + rewrite bool_decide_eq_true_2 in * by done. destruct rest as [|raw rest].
      { cbn [fst snd app Parse] in *. destruct Hne as [Hne| ->]; [by destruct Hne|]. by rewrite Es, Ef, Ei. }
      cbn [fst snd app Parse] in *. rewrite Es, Ef, Ei. destruct (set_flag fs name v raw) as [fs1|e] eqn:Eset; [|done].
      rewrite (sorted_kinds fs fs1 true rest) in * by (by eapply set_flag_kinds). by apply IH; [simpl; lia|..].
Qed.

(** The arguments of the program that [run] starts are left alone: the flags
    of the command end where the flag package says they do, at the first
    argument that is not a flag or at the terminator, and everything after that
    is the program with its arguments. *)
Lemma command_untouched fs args : parseWith fs args true = Parse fs args.
Proof.
  unfold parseWith, permute. destruct (permute_loop fs true [] [] args) as [flags positional] eqn:E.
  change (sorted fs true args = (flags, positional)) in E.
  pose proof (Parse_sorted_stop fs args) as Hp. rewrite E in Hp. cbn [fst snd] in Hp.
  destruct positional as [|p positional].
  - rewrite <- (Hp []), app_nil_r; [done..|by right].
  - apply (Hp (B["--"] :: p :: positional)); [done|by left].
Qed.

(** What follows flags that are complete is parsed on its own. *)
Lemma Parse_app fs flags fs' rest :
  Parse fs flags = Ok (fs', []) → B["--"] ∉ flags → Parse fs (flags ++ rest) = Parse fs' rest.
Proof.
  revert fs. induction (Nat.lt_wf_0_projected length flags) as [flags _ IH]. intros fs Hp Hno.
  destruct flags as [|s flags]; [by injection Hp as ->|]. apply not_elem_of_cons in Hno as [Hs Hno]. pose proof (syntax_spec s) as Hspec.
  cbn [app Parse] in *. destruct (syntax_of s) as [| | |name value]; [done|by destruct Hs|done|].
  destruct (fs !! name) as [v|]; [|done]. destruct (inline_value v value) as [raw|].
  - destruct (set_flag fs name v raw) as [fs1|]; [|done]. apply IH; [simpl; lia|done..].
  - destruct flags as [|raw flags]; [done|]. apply not_elem_of_cons in Hno as [_ Hno]. cbn [app].
    destruct (set_flag fs name v raw) as [fs1|]; [|done]. apply IH; [simpl; lia|done..].
Qed.

(** * Concrete lines *)

Definition send_flags : FlagSet :=
  {[ B["ttl"] := VString []; B["delete-after"] := VBool false; B["yes"] := VBool false; B["json"] := VBool false ]}.

Definition summary (r : result flag_error (FlagSet * list bytes)) : result flag_error (option flag_value * option flag_value * list bytes) :=
  '(fs, rest) ← r; Ok (fs !! B["ttl"], fs !! B["yes"], rest).

Definition send_line : list bytes := [B["db"]; B["-ttl=5m"]; B["x"]; B["--yes"]; B["-ttl"]; B["-1h"]; B["--"]; B["-json"]].

Lemma flags_anywhere_witness :
  summary (parseWith send_flags send_line false) = Ok (Some (VString B["-1h"]), Some (VBool true), [B["db"]; B["x"]; B["-json"]]).
Proof.
  rewrite flags_anywhere; [vm_compute; reflexivity|]. intros name.
  assert (is_ok (read_line send_flags send_line) = true) as Hok by (vm_compute; reflexivity).
  intros E. rewrite E in Hok. discriminate Hok.
Defined.

(** A flag at the end that lacks its value takes the terminator that [permute]
    puts behind it, where the flag package would refuse the line. *)
Example last_flag_swallows_terminator :
  summary (parseWith send_flags [B["db"]; B["-ttl"]] false) = Ok (Some (VString B["--"]), Some (VBool false), [B["db"]]) ∧
  read_line send_flags [B["db"]; B["-ttl"]] = Err (NeedsArgument B["ttl"]).
Proof. split; vm_compute; reflexivity. Qed.

Example run_line :
  (λ r : FlagSet * list bytes, (r.1 !! B["env"], r.2)) <$>
    match parseWith {[ B["env"] := VPairs []; B["consume"] := VBool false ]}
      [B["-env"]; B["A=a"]; B["--env=B=b"]; B["-env=A=c"]; B["curl"]; B["-consume"]; B["--"]; B["x"]] true with Ok r => Some r | Err _ => None end =
  Some (Some (VPairs [(B["A"], B["c"]); (B["B"], B["b"])]), [B["curl"]; B["-consume"]; B["--"]; B["x"]]).
Proof. vm_compute. reflexivity. Qed.
