(* ===== verification/RateLimit.v ===== *)
(** Rate limits and client addresses: internal/relay/ratelimit.go.

    The token bucket itself is golang.org/x/time/rate, outside the repository:
    a class with its two operations. *)
From S2P Require Import Prelude GoStrings GoTime GoFloat GoNet.
From Stdlib Require Import Strings.Byte.

(** * Token buckets *)

Class Buckets := {
  lim : Type;
  rate_NewLimiter : float64 → Z → lim;
  AllowN : Time → Z → lim → lim * bool;
}.

Section limiter.
Context `{Buckets}.

Record bucket := mkBucket { b_lim : lim; b_seen : Time }.

Record Limiter := mkLimiter {
  buckets : gmap string bucket;
  l_limit : float64;
  l_burst : Z;
  lastGC : Time;
  idleTTL : Duration;
}.

(** [now] is the reading of the limiter's clock. *)
Definition NewLimiter (perMinute : float64) (burst : Z) (now : Time) : Limiter :=
  mkLimiter ∅ (fdiv perMinute (of_int 60)) (if burst <? 1 then 1 else burst) now (10 * Minute).

Definition gc (now : Time) (l : Limiter) : Limiter :=
  mkLimiter (filter (λ p, ¬ (idleTTL l < now - b_seen p.2)) (buckets l)) (l_limit l) (l_burst l) now (idleTTL l).

Definition set_bucket (key : string) (b : bucket) (l : Limiter) : Limiter :=
  mkLimiter (<[key := b]> (buckets l)) (l_limit l) (l_burst l) (lastGC l) (idleTTL l).

Definition Allow (now : Time) (key : string) (l : Limiter) : Limiter * bool :=
  let b := match buckets l !! key with
           | Some b => mkBucket (b_lim b) now
           | None => mkBucket (rate_NewLimiter (l_limit l) (l_burst l)) now
           end in
  let l := set_bucket key b l in
  let l := if idleTTL l <? now - lastGC l then gc now l else l in
  let '(lm, ok) := AllowN now 1 (b_lim b) in
  (* the bucket is shared with the map: it is updated there if it is still there *)
  (match buckets l !! key with Some _ => set_bucket key (mkBucket lm now) l | None => l end, ok).

(** The single bucket of the whole relay. *)
Definition NewGlobal (perSecond : float64) : lim :=
  let burst := to_int (fmul perSecond (of_int 2)) in
  rate_NewLimiter perSecond (if burst <? 1 then 1 else burst).

Definition Global_Allow (now : Time) (g : lim) : lim * bool := AllowN now 1 g.
End limiter.

(** * Client addresses *)

(** [net.SplitHostPort]: the host. *)
Definition split_host (s : bytes) : option bytes :=
  i ← LastIndexByte s x3a;
  match s with
  | x5b :: _ =>
      e ← IndexByte s x5d;
      if negb (S e =? i)%nat then None
      else if ContainsByte (drop 1 s) x5b || ContainsByte (drop (S e) s) x5d then None
      else Some (drop 1 (take e s))
  | _ =>
      let host := take i s in
      if ContainsByte host x3a || ContainsByte s x5b || ContainsByte s x5d then None else Some host
  end.

Definition ipIn (ip : list Z) (nets : list IPNet) : bool := existsb (λ n, Contains n ip) nets.

(** The entries of the header from the last to the first: [None] when every
    one is a trusted proxy, [Some None] when one that is not an address comes
    first. *)
Fixpoint forwarded (trusted : list IPNet) (parts : list bytes) : option (option bytes) :=
  match parts with
  | [] => None
  | p :: parts =>
      match ParseIP (TrimSpace p) with
      | None => Some None
      | Some ip => if negb (ipIn ip trusted) then Some (Some (IP_String ip)) else forwarded trusted parts
      end
  end.

Definition ClientIP (remoteAddr xff : bytes) (trusted : list IPNet) : bytes :=
  let peer := default remoteAddr (split_host remoteAddr) in
  match ParseIP peer with
  | None => peer
  | Some peerIP =>
      if negb (ipIn peerIP trusted) then peer
      else if decide (xff = []) then peer
      else default peer (default None (forwarded trusted (reverse (Split xff x2c))))
  end.

(** * Properties *)

Section props.
Context `{Buckets}.

Lemma lookup_gc now l k b : buckets (gc now l) !! k = Some b ↔ buckets l !! k = Some b ∧ now - b_seen b <= idleTTL l.
Proof. unfold gc. simpl. rewrite (map_lookup_filter_Some _ (buckets l) k b). simpl. by rewrite Z.nlt_ge. Qed.

(** Everything [Allow] leaves in the map under another key was there, and was
    used recently if a collection ran. *)
Lemma Allow_other now key l k b :
  k ≠ key → buckets (Allow now key l).1 !! k = Some b →
  buckets l !! k = Some b ∧ (idleTTL l < now - lastGC l → now - b_seen b <= idleTTL l).
Proof.
  intros Hne. unfold Allow. destruct (AllowN _ _ _) as [lm ok]. simpl.
  assert (∀ x m, buckets (set_bucket key x m) !! k = buckets m !! k) as Hset.
  { intros x m. simpl. by rewrite lookup_insert_ne. }
  assert (∀ m, buckets (match buckets m !! key with Some _ => set_bucket key (mkBucket lm now) m | None => m end) !! k = buckets m !! k) as Hm.
  { intros m. by case_match. }
  rewrite Hm. case_match eqn:Et; breflect.
  - rewrite lookup_gc, Hset. simpl. intros [? ?]. auto.
  - rewrite Hset. intros Hk. split; [done|lia].
Qed.

(** A call for one key answers as that key's own token bucket does, and
    leaves every other key's bucket alone, except that it may drop buckets
    that were idle for longer than the limiter's time to live. *)
Theorem Allow_independent now key l :
  0 <= idleTTL l →
  let b := default (rate_NewLimiter (l_limit l) (l_burst l)) (b_lim <$> buckets l !! key) in
  let '(l', ok) := Allow now key l in
  ok = (AllowN now 1 b).2 ∧ buckets l' !! key = Some (mkBucket (AllowN now 1 b).1 now) ∧
  ∀ k, k ≠ key → buckets l' !! k = buckets l !! k ∨
    (buckets l' !! k = None ∧ ∃ x, buckets l !! k = Some x ∧ idleTTL l < now - b_seen x).
Proof.
  intros Hidle b. unfold Allow.
  set (x := match buckets l !! key with Some y => mkBucket (b_lim y) now | None => _ end).
  assert (b_lim x = b ∧ b_seen x = now) as [Hx Hn] by (unfold x, b; by destruct (buckets l !! key)).
  rewrite Hx. destruct (AllowN now 1 b) as [lm ok]. simpl.
  set (l1 := set_bucket key x l).
  set (l2 := if idleTTL l <? now - lastGC l then gc now l1 else l1).
  assert (buckets l2 !! key = Some x) as Hkey.
  { unfold l2. case_match; [apply lookup_gc|]; simpl; rewrite lookup_insert_eq; [|done].
    split; [done|]. simpl. lia. }
  rewrite Hkey. split_and!; [done|simpl; by rewrite lookup_insert_eq|].
  intros k Hk. simpl. rewrite lookup_insert_ne by done. unfold l2. case_match; [|left; simpl; by rewrite lookup_insert_ne].
  destruct (buckets (gc now l1) !! k) as [y|] eqn:Ey.
  - left. apply lookup_gc in Ey as [Ey _]. simpl in Ey. rewrite lookup_insert_ne in Ey by done. by rewrite Ey.
  - destruct (buckets l !! k) as [y|] eqn:Ek; [|by left]. right. split; [done|]. exists y. split; [done|].
    apply Znot_ge_lt. intros Hge. apply eq_None_not_Some in Ey. apply Ey. exists y. apply lookup_gc.
    simpl. rewrite lookup_insert_ne by done. split; [done|]. simpl. lia.
Qed.

(** The states of a limiter whose clock does not run backwards. *)
Inductive limiter_reaches (perMinute : float64) (burst : Z) (t0 : Time) : Time → Limiter → Prop :=
  | lr_new : limiter_reaches perMinute burst t0 t0 (NewLimiter perMinute burst t0)
  | lr_allow t l now key :
      limiter_reaches perMinute burst t0 t l → t <= now →
      limiter_reaches perMinute burst t0 now (Allow now key l).1.

Lemma Allow_static now key l : idleTTL (Allow now key l).1 = idleTTL l.
Proof. unfold Allow. destruct (AllowN _ _ _). simpl. repeat case_match; done. Qed.

Lemma Allow_lastGC now key l :
  lastGC (Allow now key l).1 = if idleTTL l <? now - lastGC l then now else lastGC l.
Proof. unfold Allow. destruct (AllowN _ _ _). simpl. repeat case_match; done. Qed.

(** The limiter's memory stays bounded: right after any call at time [t], every
    bucket it holds was used within the last twenty minutes. *)
Theorem limiter_bounded perMinute burst t0 t l :
  limiter_reaches perMinute burst t0 t l →
  ∀ k b, buckets l !! k = Some b → t - 2 * (10 * Minute) <= b_seen b <= t.
Proof.
  intros Hr. cut (idleTTL l = 10 * Minute ∧ (lastGC l <= t ∧ t - lastGC l <= 10 * Minute) ∧
    ∀ k b, buckets l !! k = Some b → lastGC l - 10 * Minute <= b_seen b <= t).
  { intros (_ & Hgc & Hb) k b Hk. specialize (Hb k b Hk). lia. }
  induction Hr as [|t l now key Hr (Hidle & Hgc & IH) Hle].
  - split; [done|]. split; [unfold Minute, Second; simpl; lia|]. intros k b. simpl. by rewrite lookup_empty.
  - split; [by rewrite Allow_static|]. rewrite Allow_lastGC, Hidle.
    split; [destruct (Z.ltb_spec (10 * Minute) (now - lastGC l)); unfold Minute, Second in *; lia|].
    intros k b Hk. destruct (decide (k = key)) as [->|Hne].
    + pose proof (Allow_independent now key l) as Hind. rewrite Hidle in Hind.
      specialize (Hind ltac:(done)). simpl in Hind.
      destruct (Allow now key l) as [l' ok]. destruct Hind as (_ & Hkey & _). simpl in Hk. rewrite Hkey in Hk.
      simplify_eq. simpl. case_match; breflect; unfold Minute, Second in *; lia.
    + destruct (Allow_other _ _ _ _ _ Hne Hk) as [Hold Hrec]. specialize (IH k b Hold). rewrite Hidle in Hrec.
      case_match eqn:Et; breflect; lia.
Qed.
End props.

(** ** Forged addresses *)

Lemma Split_app_all a s c : Split (a ++ c :: s) c = Split a c ++ Split s c.
Proof.
  induction a as [|b a IH]; simpl; [by destruct (decide (c = c))|].
  destruct (decide (b = c)); [by rewrite IH|]. rewrite IH.
  assert (Split a c ≠ []) as Hne.
  { destruct a as [|x a]; [done|]. simpl. destruct (decide (x = c)); [done|]. by destruct (Split a c). }
  by destruct (Split a c).
Qed.

Lemma forwarded_app trusted p q :
  forwarded trusted (p ++ q) = match forwarded trusted p with None => forwarded trusted q | Some r => Some r end.
Proof. induction p as [|x p IH]; simpl; [done|]. repeat case_match; done. Qed.

(** The direct peer is a configured proxy. *)
Definition trusted_peer (remoteAddr : bytes) (trusted : list IPNet) : bool :=
  match ParseIP (default remoteAddr (split_host remoteAddr)) with Some ip => ipIn ip trusted | None => false end.

(** An entry of the header that names a trusted proxy. *)
Definition trusted_entry (trusted : list IPNet) (entry : bytes) : Prop :=
  ∃ ip, ParseIP (TrimSpace entry) = Some ip ∧ ipIn ip trusted = true.

Lemma forwarded_trusted trusted p q :
  Forall (trusted_entry trusted) p → forwarded trusted (p ++ q) = forwarded trusted q.
Proof.
  intros Hp. rewrite forwarded_app.
  assert (forwarded trusted p = None) as ->; [|done].
  induction Hp as [|e p (ip & Hip & Ht) _ IH]; [done|]. simpl. by rewrite Hip, Ht.
Qed.

(** C28. A client cannot choose the address it is known by.  A peer that is not
    a trusted proxy is known by its own address, whatever header it sends.
    Behind a trusted proxy it is the last entry of the header that is not itself
    a trusted proxy that counts, whatever stands in front of it: the client is
    known by that address, or by the proxy's when the entry is no address or
    when every entry is a trusted proxy. *)
Theorem ClientIP_unforgeable remoteAddr xff trusted :
  let peer := default remoteAddr (split_host remoteAddr) in
  (trusted_peer remoteAddr trusted = false → ClientIP remoteAddr xff trusted = peer) ∧
  (trusted_peer remoteAddr trusted = true →
    (∀ before entry proxies, Split xff x2c = before ++ entry :: proxies → Forall (trusted_entry trusted) proxies →
      match ParseIP (TrimSpace entry) with
      | Some ip => ipIn ip trusted = false → ClientIP remoteAddr xff trusted = IP_String ip
      | None => ClientIP remoteAddr xff trusted = peer
      end) ∧
    (Forall (trusted_entry trusted) (Split xff x2c) → ClientIP remoteAddr xff trusted = peer)).
Proof.
  unfold ClientIP, trusted_peer. destruct (ParseIP (default _ _)) as [ip|]; [|done].
  destruct (ipIn ip trusted); [|done]. split; [done|intros _]. cbn [negb]. split.
  - intros before entry proxies Hs Hp. apply (Forall_reverse _ proxies) in Hp.
    rewrite Hs, reverse_app, reverse_cons, <- app_assoc, (forwarded_trusted _ _ _ Hp). simpl.
    destruct (ParseIP (TrimSpace entry)) as [a|] eqn:Ea; [|by case_decide].
    intros Ha. rewrite Ha. simpl. case_decide as Hx; [|done]. subst xff. exfalso.
    assert (entry = []) as ->; [|by vm_compute in Ea]. destruct before as [|? [|]]; by simplify_eq Hs.
  - intros Hall. case_decide; [done|]. apply (Forall_reverse _ (Split xff x2c)) in Hall.
    rewrite <- (app_nil_r (reverse _)), (forwarded_trusted _ _ _ Hall). done.
Qed.

(** * Concrete instances *)

(** A bucket that counts down from its burst and never refills. *)
Definition countdown : Buckets :=
  {| lim := Z; rate_NewLimiter l b := b; AllowN t n k := if n <=? k then (k - n, true) else (k, false) |}.

Lemma Allow_independent_witness :
  let l := @NewLimiter countdown (of_int 30) 1 0 in
  let '(l', ok) := @Allow countdown Second "a" l in
  ok = true ∧ @buckets countdown l' !! "a" = Some (@mkBucket countdown 0 Second).
Proof.
  intros l. pose proof (@Allow_independent countdown Second "a" l ltac:(discriminate)) as Hind.
  simpl in Hind. destruct (@Allow countdown Second "a" l) as [l' ok]. destruct Hind as (-> & -> & _).
  split; reflexivity.
Defined.

Definition two_calls : @Limiter countdown :=
  (@Allow countdown Hour "b" (@Allow countdown Second "a" (@NewLimiter countdown (of_int 30) 1 0)).1).1.

Lemma limiter_bounded_witness :
  @buckets countdown two_calls !! "a" = None ∧
  ∃ b, @buckets countdown two_calls !! "b" = Some b ∧
    Hour - 2 * (10 * Minute) <= @b_seen countdown b <= Hour.
Proof.
  split; [reflexivity|]. eexists. split; [reflexivity|].
  apply (@limiter_bounded countdown (of_int 30) 1 0 Hour two_calls) with (k := "b"); [|reflexivity].
  apply lr_allow with (t := Second); [apply lr_allow with (t := 0); [apply lr_new|discriminate]|discriminate].
Defined.

Definition sample_trusted : list IPNet :=
  match ParseCIDR B["10.0.0.0/8"] with Some n => [n] | None => [] end.

Lemma ClientIP_unforgeable_witness :
  ClientIP B["198.51.100.7:5000"] B["1.2.3.4"] sample_trusted = B["198.51.100.7"] ∧
  ClientIP B["10.0.0.1:443"] B["1.2.3.4, 203.0.113.9, 10.0.0.7"] sample_trusted = B["203.0.113.9"].
Proof.
  assert (trusted_peer B["198.51.100.7:5000"] sample_trusted = false) as Hout by (vm_compute; reflexivity).
  assert (trusted_peer B["10.0.0.1:443"] sample_trusted = true) as Hin by (vm_compute; reflexivity).
  assert (Split B["1.2.3.4, 203.0.113.9, 10.0.0.7"] x2c = [B["1.2.3.4"]] ++ B[" 203.0.113.9"] :: [B[" 10.0.0.7"]]) as Hsplit
    by (vm_compute; reflexivity).
  assert (Forall (trusted_entry sample_trusted) [B[" 10.0.0.7"]]) as Hproxy.
  { apply Forall_singleton. eexists. split; vm_compute; reflexivity. }
  split.
  - etrans; [exact (proj1 (ClientIP_unforgeable B["198.51.100.7:5000"] B["1.2.3.4"] sample_trusted) Hout)|].
    vm_compute. reflexivity.
  - destruct (ClientIP_unforgeable B["10.0.0.1:443"] B["1.2.3.4, 203.0.113.9, 10.0.0.7"] sample_trusted) as [_ Ht].
    pose proof (proj1 (Ht Hin) _ _ _ Hsplit Hproxy) as H.
    destruct (ParseIP (TrimSpace B[" 203.0.113.9"])) as [ip|] eqn:E; vm_compute in E; [|discriminate E].
    injection E as <-. etrans; [apply H; vm_compute; reflexivity|]. vm_compute. reflexivity.
Defined.
