(* ===== verification/Config.v ===== *)
(** The relay's configuration: internal/relay/config.go.  [LoadConfig], which
    reads the environment, is in [RelayMain]. *)
From S2P Require Import Prelude Base64 Sha256 Tokens GoStrings GoTime GoFloat Crypto Envelope GoNet Link RelayTypes.
From Stdlib Require Import Strings.Byte.

Definition EnvPrefix : bytes := B["BURNDROP_"].

Definition AbsoluteMaxTTL : Duration := 7 * 24 * Hour.
Definition AbsoluteMaxBody : Z := 4 * 2 ^ 20.
Definition MinTTL : Duration := 60 * Second.
Definition MaxLongPoll : Duration := 30 * Second.
Definition DefaultCiphertext : Z := MaxPlaintext + PadBlock + SealedOverhead.
Definition DefaultMaxLive : Z := 10000.
Definition DefaultMaxBytes : Z := 256 * 2 ^ 20.
Definition DefaultMaxWaiters : Z := 1000.
Definition DefaultShutdownTTL : Duration := 10 * Second.

Record AgentKey := mkAgentKey { ak_ID : string; ak_Hash : Hash }.

Record Config := mkConfig {
  Listen : bytes;
  PublicOrigin : bytes;
  PageOrigins : list bytes;
  ServePage : bool;
  DefaultTTL : Duration;
  MaxTTL : Duration;
  MaxCiphertextBytes : Z;
  MaxLiveDrops : Z;
  MaxTotalBytes : Z;
  MaxWaiters : Z;
  cStore : bytes;
  RedisURL : bytes;
  AgentAuth : bytes;
  AgentKeys : list AgentKey;
  RatePagePerMin : float64;
  RateAgentPerMin : float64;
  RateGlobalPerSec : float64;
  TrustedProxies : list IPNet;
  LogLevel : bytes;
  LogFormat : bytes;
  LogClientIP : bool;
  ShutdownTimeout : Duration;
}.

Definition DefaultConfig : Config :=
  mkConfig B[":8080"] [] [] true Hour (24 * Hour) DefaultCiphertext DefaultMaxLive DefaultMaxBytes DefaultMaxWaiters
    B["memory"] [] B["required"] [] (of_int 60) (of_int 30) (of_int 500) [] B["info"] B["text"] false DefaultShutdownTTL.

(** Assignment to the two origin fields. *)
Definition set_origins (origin : bytes) (pages : list bytes) (c : Config) : Config :=
  mkConfig (Listen c) origin pages (ServePage c) (DefaultTTL c) (MaxTTL c) (MaxCiphertextBytes c) (MaxLiveDrops c)
    (MaxTotalBytes c) (MaxWaiters c) (cStore c) (RedisURL c) (AgentAuth c) (AgentKeys c) (RatePagePerMin c)
    (RateAgentPerMin c) (RateGlobalPerSec c) (TrustedProxies c) (LogLevel c) (LogFormat c) (LogClientIP c)
    (ShutdownTimeout c).

(** What a configuration can be refused for. *)
Inductive config_error :=
  | OriginRequired | BadPublicOrigin | BadPageOrigin | TTLTooShort | MaxTTLTooLong | DefaultAboveMax
  | BadCiphertextLimit | BadCapacity | RedisURLRequired | UnknownStore | AgentKeysRequired | BadAgentAuth
  | BadRates | BadLogFormat | BadLogLevel
  | BadKeyEntry (entry : bytes) | DuplicateKey (id : bytes) | BadKeyHash (id : bytes) | BadProxy (p : bytes).

Definition AuthRequired (c : Config) : bool := beq (AgentAuth c) B["required"].

Section validate.
Context `{Unicode}.

(** The loop over the page origins, each normalized in place. *)
Fixpoint normalize_all (os : list bytes) : result config_error (list bytes) :=
  match os with
  | [] => Ok []
  | o :: os =>
      match NormalizeOrigin o with
      | Err _ => Err BadPageOrigin
      | Ok n => rest ← normalize_all os; Ok (n :: rest)
      end
  end.

Definition Config_Validate (c : Config) : result config_error Config :=
  if is_empty (PublicOrigin c) then Err OriginRequired
  else
    match NormalizeOrigin (PublicOrigin c) with
    | Err _ => Err BadPublicOrigin
    | Ok origin =>
        pages ← normalize_all (match PageOrigins c with [] => [origin] | os => os end);
        let c := set_origins origin pages c in
        _ ← guard_err (negb ((DefaultTTL c <? MinTTL) || (MaxTTL c <? MinTTL))) TTLTooShort;
        _ ← guard_err (negb (AbsoluteMaxTTL <? MaxTTL c)) MaxTTLTooLong;
        _ ← guard_err (negb (MaxTTL c <? DefaultTTL c)) DefaultAboveMax;
        _ ← guard_err (negb ((MaxCiphertextBytes c <? 1024) || (AbsoluteMaxBody <? MaxCiphertextBytes c))) BadCiphertextLimit;
        _ ← guard_err (negb ((MaxLiveDrops c <? 1) || (MaxTotalBytes c <? MaxCiphertextBytes c) || (MaxWaiters c <? 1))) BadCapacity;
        _ ← (if beq (cStore c) B["memory"] then Ok tt
             else if beq (cStore c) B["redis"] then guard_err (negb (is_empty (RedisURL c))) RedisURLRequired
             else Err UnknownStore);
        _ ← (if beq (AgentAuth c) B["required"] then guard_err (negb (bool_decide (length (AgentKeys c) = 0%nat))) AgentKeysRequired
             else guard_err (beq (AgentAuth c) B["off"]) BadAgentAuth);
        _ ← guard_err (negb (fle0 (RatePagePerMin c) || fle0 (RateAgentPerMin c) || fle0 (RateGlobalPerSec c))) BadRates;
        _ ← guard_err (beq (LogFormat c) B["text"] || beq (LogFormat c) B["json"]) BadLogFormat;
        _ ← guard_err (existsb (beq (ToLower (LogLevel c))) [B["debug"]; B["info"]; B["warn"]; B["error"]]) BadLogLevel;
        Ok c
    end.
End validate.

(** [time.Duration(seconds) * time.Second] wraps around. *)
Definition ClampTTL (c : Config) (secs : Z) : Duration :=
  if secs <=? 0 then DefaultTTL c
  else
    let ttl := seconds secs in
    if ttl <? MinTTL then MinTTL
    else if MaxTTL c <? ttl then MaxTTL c
    else ttl.

Definition splitList (s : bytes) : list bytes :=
  filter (λ p, p ≠ []) (TrimSpace <$> Split s x2c).

(** The loop of [ParseAgentKeys]: the keys so far in order, their identifiers
    in [seen]. *)
Fixpoint parse_keys (entries : list bytes) (seen : list bytes) : result config_error (list AgentKey) :=
  match entries with
  | [] => Ok []
  | entry :: entries =>
      match SplitN 3 entry x3a with
      | [id; alg; hash] =>
          if negb (beq alg B["sha256"]) || is_empty id then Err (BadKeyEntry entry)
          else if existsb (beq id) seen then Err (DuplicateKey id)
          else
            match ParseHash (sb hash) with
            | Err _ => Err (BadKeyHash id)
            | Ok h => keys ← parse_keys entries (id :: seen); Ok (mkAgentKey (sb id) h :: keys)
            end
      | _ => Err (BadKeyEntry entry)
      end
  end.

Definition ParseAgentKeys (s : bytes) : result config_error (list AgentKey) := parse_keys (splitList s) [].

Definition FormatAgentKey (id key : bytes) : bytes :=
  id ++ B[":sha256:"] ++ bs (hash_Encode (HashToken (sb key))).

Definition parse_cidr (p : bytes) : result config_error IPNet :=
  let q := if ContainsByte p x2f then p else if ContainsByte p x3a then p ++ B["/128"] else p ++ B["/32"] in
  match ParseCIDR q with Some n => Ok n | None => Err (BadProxy q) end.

Fixpoint parse_cidrs (ps : list bytes) : result config_error (list IPNet) :=
  match ps with
  | [] => Ok []
  | p :: ps => n ← parse_cidr p; ns ← parse_cidrs ps; Ok (n :: ns)
  end.

Definition parseCIDRs (s : bytes) : result config_error (list IPNet) := parse_cidrs (splitList s).

(** * Properties *)

(** What a validated configuration guarantees. *)
Lemma Config_Validate_ok `{Unicode} c c' :
  Config_Validate c = Ok c' →
  MinTTL <= DefaultTTL c' <= MaxTTL c' ∧ MaxTTL c' <= AbsoluteMaxTTL ∧
  1024 <= MaxCiphertextBytes c' <= AbsoluteMaxBody ∧ 1 <= MaxLiveDrops c' ∧
  MaxCiphertextBytes c' <= MaxTotalBytes c' ∧ 1 <= MaxWaiters c' ∧
  (AuthRequired c' = true → AgentKeys c' ≠ []).
Proof.
  unfold Config_Validate. destruct (is_empty _); [done|]. destruct (NormalizeOrigin _) as [o|]; [|done].
  intros (pages & _ & Hc)%result_bind_ok.
  apply result_bind_ok in Hc as (? & H1%guard_err_ok & Hc). apply result_bind_ok in Hc as (? & H2%guard_err_ok & Hc).
  apply result_bind_ok in Hc as (? & H3%guard_err_ok & Hc). apply result_bind_ok in Hc as (? & H4%guard_err_ok & Hc).
  apply result_bind_ok in Hc as (? & H5%guard_err_ok & Hc). apply result_bind_ok in Hc as (? & _ & Hc).
  apply result_bind_ok in Hc as (? & Ha & Hc). apply result_bind_ok in Hc as (? & _ & Hc).
  apply result_bind_ok in Hc as (? & _ & Hc). apply result_bind_ok in Hc as (? & _ & [= <-]).
  breflect. split_and!; try lia. unfold AuthRequired. intros Hr. rewrite Hr in Ha.
  apply guard_err_ok, negb_true_iff, bool_decide_eq_false in Ha. intros E. by rewrite E in Ha.
Qed.

(** C29. Under a validated configuration every requested time to live, whatever 64-bit
    integer it is, overflow included, becomes one between a minute and the
    configured maximum, and so at most a week; a value that is within the
    bounds is kept. *)
Theorem ClampTTL_bounds `{Unicode} c0 c secs :
  Config_Validate c0 = Ok c → - 2 ^ 63 <= secs < 2 ^ 63 →
  MinTTL <= ClampTTL c secs <= MaxTTL c ∧ ClampTTL c secs <= AbsoluteMaxTTL ∧
  (MinTTL <= secs * Second <= MaxTTL c → ClampTTL c secs = secs * Second).
Proof.
  intros Hc Hs. apply Config_Validate_ok in Hc as (Hd & Hm & _). unfold ClampTTL.
  assert (MinTTL <= MaxTTL c) by lia. split_and!.
  1-3: destruct (Z.leb_spec secs 0); [lia|]; destruct (Z.ltb_spec (seconds secs) MinTTL); [lia|];
    destruct (Z.ltb_spec (MaxTTL c) (seconds secs)); lia.
  - unfold MinTTL, AbsoluteMaxTTL, Hour, Minute, Second in *. intros [Hlo Hhi].
    destruct (Z.leb_spec secs 0); [lia|]. unfold seconds, Second. rewrite wrap64_id by lia.
    destruct (Z.ltb_spec (secs * 1000000000) (60 * 1000000000)); [lia|].
    destruct (Z.ltb_spec (MaxTTL c) (secs * 1000000000)); lia.
Qed.

(** The product of seconds and a second wraps around: a request for
    a little over 292 years gets the minimum, not the maximum. *)
Theorem ClampTTL_wraps c : ClampTTL c 9223372037 = MinTTL.
Proof. reflexivity. Qed.

(** The identifiers of parsed agent keys are not empty and pairwise
    different, and every key has a 32-byte hash. *)
Theorem ParseAgentKeys_ok s keys :
  ParseAgentKeys s = Ok keys →
  NoDup (ak_ID <$> keys) ∧ Forall (λ k, ak_ID k ≠ "" ∧ zlen (ak_Hash k) = sha256_Size) keys.
Proof.
  unfold ParseAgentKeys.
  assert (∀ entries seen, parse_keys entries seen = Ok keys →
    NoDup (ak_ID <$> keys) ∧ Forall (λ k, ak_ID k ≠ "" ∧ zlen (ak_Hash k) = sha256_Size) keys ∧
    ∀ k, k ∈ keys → bs (ak_ID k) ∉ seen) as Hgen; [|intros (?&?&?)%Hgen; done].
  intros entries. revert keys. induction entries as [|e entries IH]; intros keys seen; cbn [parse_keys].
  { intros [= <-]. split_and!; [constructor|constructor|]. intros k. by rewrite elem_of_nil. }
  destruct (SplitN 3 e x3a) as [|id [|alg [|hash [|? ?]]]]; try done.
  destruct (negb (beq alg B["sha256"]) || is_empty id) eqn:Eb; [done|].
  destruct (existsb (beq id) seen) eqn:Es; [done|]. destruct (ParseHash (sb hash)) as [h|] eqn:Eh; [|done].
  intros (ks & Hks & [= <-])%result_bind_ok. destruct (IH _ _ Hks) as (Hnd & Hall & Hfresh).
  assert (id ≠ []) as Hid.
  { apply orb_false_iff in Eb as [_ Eb]. by apply bool_decide_eq_false in Eb. }
  assert (id ∉ seen) as Hns.
  { intros Hin. assert (existsb (beq id) seen = true) as Ht; [|congruence].
    apply existsb_exists. exists id. split; [by apply list_elem_of_In|]. by apply bool_decide_eq_true. }
  split_and!.
  - rewrite fmap_cons. constructor; [|done]. simpl. intros (k & Heq & Hk)%list_elem_of_fmap.
    apply (Hfresh k Hk). rewrite <- Heq, bs_sb. by left.
  - constructor; [|done]. simpl. split; [|by eapply ParseHash_length].
    intros E. apply Hid. by rewrite <- (bs_sb id), E.
  - intros k [->|Hk]%elem_of_cons; [simpl; by rewrite bs_sb|]. intros Hin. apply (Hfresh k Hk). by right.
Qed.

(** * Concrete configurations *)

Definition config_ascii : Unicode := {| lower_rune r := r |}.

Definition sample_key_entry : bytes := FormatAgentKey B["laptop"] B["0123456789abcdef"].

Definition sample_agent_keys : list AgentKey :=
  match ParseAgentKeys (B[" "] ++ sample_key_entry ++ B[" ,, "]) with Ok ks => ks | Err _ => [] end.

(** A key that was formatted parses to the hash of that key. *)
Example format_parse_key : sample_agent_keys = [mkAgentKey "laptop" (HashToken "0123456789abcdef")].
Proof. vm_compute. reflexivity. Qed.

Definition with_keys (c : Config) (origin : bytes) (keys : list AgentKey) : Config :=
  mkConfig (Listen c) origin (PageOrigins c) (ServePage c) (DefaultTTL c) (MaxTTL c) (MaxCiphertextBytes c) (MaxLiveDrops c)
    (MaxTotalBytes c) (MaxWaiters c) (cStore c) (RedisURL c) (AgentAuth c) keys (RatePagePerMin c)
    (RateAgentPerMin c) (RateGlobalPerSec c) (TrustedProxies c) (LogLevel c) (LogFormat c) (LogClientIP c)
    (ShutdownTimeout c).

Definition sample_config0 : Config := with_keys DefaultConfig B["https://Drop.example.com:443"] sample_agent_keys.
Definition sample_config : Config :=
  set_origins B["https://drop.example.com"] [B["https://drop.example.com"]] sample_config0.

Lemma sample_config_valid : @Config_Validate config_ascii sample_config0 = Ok sample_config.
Proof. vm_compute. reflexivity. Qed.

Lemma ClampTTL_bounds_witness :
  MinTTL <= ClampTTL sample_config 3600 <= MaxTTL sample_config ∧ ClampTTL sample_config 3600 = 3600 * Second.
Proof.
  destruct (@ClampTTL_bounds config_ascii sample_config0 sample_config 3600 sample_config_valid) as (H1 & _ & H2).
  - split; [discriminate|reflexivity].
  - split; [exact H1|]. apply H2. split; discriminate.
Defined.

Lemma ParseAgentKeys_ok_witness :
  NoDup (ak_ID <$> sample_agent_keys) ∧ Forall (λ k, ak_ID k ≠ "" ∧ zlen (ak_Hash k) = sha256_Size) sample_agent_keys.
Proof. apply (ParseAgentKeys_ok sample_key_entry). vm_compute. reflexivity. Defined.
