(* ===== verification/Server.v ===== *)
(** The relay's HTTP layer: internal/relay/server.go and
    internal/relay/auth.go.  A handler is a function of the server's state to a
    new state and either a response or a result for the code that follows; a
    response ends the handler, as [return] does in the source.

    Logging and request identifiers are not modelled. *)
From S2P Require Import Prelude Base64 Tokens GoStrings GoTime GoFloat Json Crypto Envelope GoNet RelayTypes RateLimit.
From S2P Require Import Config.
From Stdlib Require Import Strings.Byte.

(** * Requests and responses *)

(** What the handlers look at: [r_Header] is [Header.Get] on canonical names. *)
Record Request := mkRequest {
  r_Method : bytes;
  r_Scheme : bytes;
  r_Path : bytes;
  r_TLS : bool;
  r_RemoteAddr : bytes;
  r_Header : bytes → bytes;
  r_Body : bytes;
}.

(** Values of response bodies; [VUnknownField] is the decoder's message about a
    field name, which it quotes. *)
Inductive rval := VStr (s : bytes) | VInt (n : Z) | VBool (b : bool) | VUnknownField (name : bytes).

Inductive rbody :=
  | JsonBody (members : list (bytes * rval))
  | TextBody (s : bytes)
  | HtmlBody (s : bytes)
  | NoBody.

Record Response := mkResponse {
  w_status : Z;
  w_header : list (bytes * bytes);
  w_body : rbody;
}.

Definition StatusOK : Z := 200.
Definition StatusCreated : Z := 201.
Definition StatusNoContent : Z := 204.
Definition StatusBadRequest : Z := 400.
Definition StatusUnauthorized : Z := 401.
Definition StatusForbidden : Z := 403.
Definition StatusNotFound : Z := 404.
Definition StatusConflict : Z := 409.
Definition StatusGone : Z := 410.
Definition StatusRequestEntityTooLarge : Z := 413.
Definition StatusUnsupportedMediaType : Z := 415.
Definition StatusUnprocessableEntity : Z := 422.
Definition StatusTooManyRequests : Z := 429.
Definition StatusInternalServerError : Z := 500.
Definition StatusServiceUnavailable : Z := 503.

(** [w.Header().Set] before the response is written. *)
Definition with_header (k v : bytes) (w : Response) : Response :=
  mkResponse (w_status w) ((k, v) :: w_header w) (w_body w).

Definition writeJSON (status : Z) (members : list (bytes * rval)) : Response :=
  mkResponse status [(B["Content-Type"], B["application/json; charset=utf-8"])] (JsonBody members).

Definition www_authenticate : bytes := B["Bearer realm="] ++ x22 :: B["burndrop"] ++ [x22].

Definition writeError (status : Z) (code : bytes) (extra : list (bytes * rval)) : Response :=
  let w := writeJSON status ((B["error"], VStr code) :: extra) in
  if status =? StatusUnauthorized then with_header B["WWW-Authenticate"] www_authenticate w else w.

Definition bad_request (detail : bytes) : Response :=
  writeError StatusBadRequest B["bad_request"] [(B["detail"], VStr detail)].

Definition rfc3339 (t : Time) : bytes := if IsZero t then [] else Format_RFC3339 t.

Definition ClientHeader : bytes := B["X-Client"].
Definition anonymousAgent : string := "anonymous".

(** * The server *)

(** The embedded page, of which the server only hands parts out. *)
Record Page := mkPage { page_CSP : bytes; page_Version : bytes; page_SHA256 : bytes; page_HTML : bytes }.

(** A store one can wait on: [Wait] in its two halves, around the time it does
    not hold the store. *)
Class StoreWait (T : Type) `{Store T} := {
  WaitBegin : Clock → string → State → Duration → T → T * (result store_error Status + nat);
  WaitEnd : Clock → string → nat → T → T * result store_error Status;
}.

(** The readings of the clock and of the random source during one request: by
    the global limiter, by the limiter of the endpoint, by [s.now] when a slot
    is created, by the store's calls in order; the three random tokens. *)
Record Env := mkEnv {
  e_global : Time;
  e_limit : Time;
  e_now : Time;
  e_store : nat → Clock;
  e_random : nat → reader;
}.

Section server.
Context {T : Type} `{Buckets} `{Unicode}.

Record Server := mkServer {
  cfg : Config;
  store : T;
  page : option Page;
  version : bytes;
  pageLim : Limiter;
  agentLim : Limiter;
  global : lim;
  waiters : Z;
}.

Definition New (c : Config) (st : T) (pg : option Page) (v : bytes) (now : Time) : Server :=
  mkServer c st pg (if is_empty v then B["dev"] else v)
    (NewLimiter (RatePagePerMin c) (to_int (fdiv (RatePagePerMin c) (of_int 3)) + 1) now)
    (NewLimiter (RateAgentPerMin c) (to_int (fdiv (RateAgentPerMin c) (of_int 3)) + 1) now)
    (NewGlobal (RateGlobalPerSec c)) 0.

(** Assignments to the mutable fields. *)
Definition set_store (st : T) (s : Server) : Server :=
  mkServer (cfg s) st (page s) (version s) (pageLim s) (agentLim s) (global s) (waiters s).
Definition set_pageLim (l : Limiter) (s : Server) : Server :=
  mkServer (cfg s) (store s) (page s) (version s) l (agentLim s) (global s) (waiters s).
Definition set_agentLim (l : Limiter) (s : Server) : Server :=
  mkServer (cfg s) (store s) (page s) (version s) (pageLim s) l (global s) (waiters s).
Definition set_global (g : lim) (s : Server) : Server :=
  mkServer (cfg s) (store s) (page s) (version s) (pageLim s) (agentLim s) g (waiters s).
Definition add_waiters (n : Z) (s : Server) : Server :=
  mkServer (cfg s) (store s) (page s) (version s) (pageLim s) (agentLim s) (global s) (waiters s + n).

(** ** Handlers *)

Definition handler (A : Type) : Type := Server → Server * (Response + A).

#[global] Instance handler_ret : MRet handler := λ A a s, (s, inr a).
#[global] Instance handler_bind : MBind handler := λ A B f m s,
  match m s with
  | (s', inr a) => f a s'
  | (s', inl w) => (s', inl w)
  end.

(** [write...; return] *)
Definition respond {A} (w : Response) : handler A := λ s, (s, inl w).
Definition config : handler Config := λ s, (s, inr (cfg s)).
Definition get_server : handler Server := λ s, (s, inr s).

(** One call of the store. *)
Definition call_store {A} (f : T → T * A) : handler A :=
  λ s, let '(st, a) := f (store s) in (set_store st s, inr a).

Definition reject_unless (ok : bool) (w : Response) : handler unit :=
  if ok then mret tt else respond w.

(** ** Authentication (auth.go) *)

Definition bearer_prefix : bytes := B["Bearer "].

(** The loop over the keys: every hash is compared, the last match counts. *)
Definition matching_key (presented : Hash) (keys : list AgentKey) : string :=
  foldl (λ matched k, if HashEqual (ak_Hash k) presented then ak_ID k else matched) "" keys.

Definition bearerID (c : Config) (r : Request) : string * bool :=
  let h := r_Header r B["Authorization"] in
  if (zlen h <=? zlen bearer_prefix) || negb (EqualFold (take (length bearer_prefix) h) bearer_prefix) then ("", false)
  else
    let token := TrimSpace (drop (length bearer_prefix) h) in
    if (zlen token <? 16) || (256 <? zlen token) then ("", false)
    else
      let presented := HashToken (sb token) in
      let matched := matching_key presented (AgentKeys c) in
      (matched, negb (bool_decide (matched = ""))).

Definition authenticate (c : Config) (r : Request) : string * bool :=
  if negb (AuthRequired c) then
    let '(id, ok) := bearerID c r in
    if ok then (id, true) else (anonymousAgent, true)
  else bearerID c r.

(** ** Limits *)

Definition client_ip (c : Config) (r : Request) : bytes :=
  ClientIP (r_RemoteAddr r) (r_Header r B["X-Forwarded-For"]) (TrustedProxies c).

Definition rate_limited (retry : bytes) : Response :=
  with_header B["Retry-After"] retry (writeError StatusTooManyRequests B["rate_limited"] []).

Definition limitPage (e : Env) (r : Request) : handler unit := λ s,
  let '(l, ok) := Allow (e_limit e) (sb (client_ip (cfg s) r)) (pageLim s) in
  (set_pageLim l s, if ok then inr tt else inl (rate_limited B["10"])).

Definition limitAgent (e : Env) (r : Request) (keyID : string) : handler unit := λ s,
  let bucket :=
    if decide (keyID = anonymousAgent) then sb (B["addr:"] ++ client_ip (cfg s) r) else keyID in
  let '(l, ok) := Allow (e_limit e) bucket (agentLim s) in
  (set_agentLim l s, if ok then inr tt else inl (rate_limited B["10"])).

(** ** Request bodies *)

Definition too_large (c : Config) : Response :=
  writeError StatusRequestEntityTooLarge B["too_large"] [(B["max_bytes"], VInt (MaxCiphertextBytes c))].

Definition sanitizeJSONError (e : decode_error) : rval :=
  match e with
  | BadSyntax => VStr B["malformed JSON"]
  | WrongType field => VStr (B["wrong type for field "] ++ field)
  | UnknownField name => VUnknownField name
  | EmptyInput => VStr B["empty body"]
  | ShortInput => VStr B["invalid body"]
  end.

(** The media type in front of the parameters; [strings.ToLower] before the
    comparison. *)
Definition media_type (r : Request) : bytes :=
  TrimSpace (ToLower (Cut (r_Header r B["Content-Type"]) x3b).1.1).

Definition body_limit (c : Config) : Z := MaxCiphertextBytes c * 4 / 3 + 4096.

(** [MaxBytesReader] hands out the body up to the limit, then fails: a decoder
    that would need more reports that. *)
Definition decodeJSON {R} (fields : list (bytes * setter R)) (zero : R) (r : Request) : handler R :=
  c ← config;
  if is_empty (r_Header r ClientHeader) then
    respond (writeError StatusBadRequest B["missing_client_header"] [(B["header"], VStr ClientHeader)])
  else if negb (beq (media_type r) B["application/json"]) then
    respond (writeError StatusUnsupportedMediaType B["unsupported_media_type"] [])
  else
    let limit := body_limit c in
    let over := limit <? zlen (r_Body r) in
    let body := take (Z.to_nat limit) (r_Body r) in
    match Decode fields zero body with
    | (Err e, rest) =>
        match e with
        | EmptyInput | ShortInput => if over then respond (too_large c) else respond (writeError StatusBadRequest B["bad_request"] [(B["detail"], sanitizeJSONError e)])
        | _ => respond (writeError StatusBadRequest B["bad_request"] [(B["detail"], sanitizeJSONError e)])
        end
    | (Ok req, rest) =>
        if More rest then respond (bad_request B["trailing data"]) else mret req
    end.

(** ** Cross-origin requests and the middleware *)

Definition isExtensionOrigin (origin : bytes) : bool :=
  let lower := ToLower origin in
  let check id :=
    negb (is_empty id) && (zlen id <=? 64) &&
    forallb (λ c, ((97 <=? c) && (c <=? 122)) || ((48 <=? c) && (c <=? 57)) || (c =? 45)) (runes id) in
  if HasPrefix lower B["chrome-extension://"] then check (drop (length B["chrome-extension://"]) lower)
  else if HasPrefix lower B["moz-extension://"] then check (drop (length B["moz-extension://"]) lower)
  else false.

Definition allow_headers (allowed : bytes) : list (bytes * bytes) :=
  [(B["Access-Control-Allow-Origin"], allowed);
   (B["Access-Control-Allow-Methods"], B["POST, GET, OPTIONS"]);
   (B["Access-Control-Allow-Headers"], B["Content-Type, "] ++ ClientHeader ++ B[", Authorization"]);
   (B["Access-Control-Max-Age"], B["600"])].

(** The headers [cors] sets and whether the request goes on. *)
Definition cors (c : Config) (r : Request) : list (bytes * bytes) * bool :=
  let origin := r_Header r B["Origin"] in
  if is_empty origin then ([], true)
  else
    let vary := (B["Vary"], B["Origin"]) in
    match list_find (λ allowed, EqualFold origin allowed = true) (PageOrigins c) with
    | Some (_, allowed) => (vary :: allow_headers allowed, true)
    | None => if isExtensionOrigin origin then (vary :: allow_headers origin, true) else ([vary], false)
    end.

Definition security_headers (r : Request) : list (bytes * bytes) :=
  [(B["Cache-Control"], B["no-store"]);
   (B["X-Content-Type-Options"], B["nosniff"]);
   (B["Referrer-Policy"], B["no-referrer"]);
   (B["Cross-Origin-Resource-Policy"], B["same-origin"]);
   (B["Cross-Origin-Opener-Policy"], B["same-origin"]);
   (B["Permissions-Policy"], B["accelerometer=(), camera=(), geolocation=(), gyroscope=(), magnetometer=(), microphone=(), payment=(), usb=(), interest-cohort=()"])] ++
  (if EqualFold (r_Scheme r) B["https"] || EqualFold (r_Header r B["X-Forwarded-Proto"]) B["https"] || r_TLS r
   then [(B["Strict-Transport-Security"], B["max-age=31536000; includeSubDomains"])] else []).

Definition add_headers (hs : list (bytes * bytes)) (w : Response) : Response :=
  mkResponse (w_status w) (hs ++ w_header w) (w_body w).

(** What comes before the router: [inr] goes on to it, with the headers set so
    far. *)
Definition middleware (e : Env) (r : Request) : handler (list (bytes * bytes)) := λ s,
  let hs := security_headers r in
  let '(g, ok) := Global_Allow (e_global e) (global s) in
  let s := set_global g s in
  if negb ok then (s, inl (add_headers hs (rate_limited B["1"])))
  else if HasPrefix (r_Path r) B["/api/"] then
    let '(ch, allowed) := cors (cfg s) r in
    if negb allowed then (s, inl (add_headers (hs ++ ch) (writeError StatusForbidden B["origin_not_allowed"] [])))
    else (s, inr (hs ++ ch))
  else (s, inr hs).

(** ** The endpoints without state *)

Definition preflight : Response := mkResponse StatusNoContent [] NoBody.

Definition healthz : Response :=
  mkResponse StatusOK [(B["Content-Type"], B["text/plain; charset=utf-8"])] (TextBody (B["ok"] ++ [x0a])).

Definition servePage (s : Server) (r : Request) : Response :=
  match page s with
  | None =>
      mkResponse StatusServiceUnavailable [(B["Content-Type"], B["text/plain; charset=utf-8"])]
        (TextBody (B["The drop page is not built into this relay. Use the CLI or the browser extension, or rebuild the relay with the page."] ++ [x0a]))
  | Some p =>
      mkResponse StatusOK
        [(B["Content-Type"], B["text/html; charset=utf-8"]); (B["Content-Security-Policy"], page_CSP p);
         (B["X-Frame-Options"], B["DENY"]); (B["X-Drop-Page-Version"], page_Version p); (B["X-Drop-Page-SHA256"], page_SHA256 p)]
        (if beq (r_Method r) B["HEAD"] then NoBody else HtmlBody (page_HTML p))
  end.

Definition info (s : Server) : Response :=
  let c := cfg s in
  writeJSON StatusOK
    [(B["version"], VStr (version s)); (B["api"], VStr B["v1"]);
     (B["default_ttl_seconds"], VInt (Z.quot (DefaultTTL c) Second)); (B["max_ttl_seconds"], VInt (Z.quot (MaxTTL c) Second));
     (B["max_ciphertext_bytes"], VInt (MaxCiphertextBytes c)); (B["long_poll_max_seconds"], VInt (Z.quot MaxLongPoll Second));
     (B["agent_auth"], VStr (AgentAuth c)); (B["page_served"], VBool (bool_decide (is_Some (page s))));
     (B["page_version"], VStr (match page s with Some p => page_Version p | None => [] end));
     (B["page_sha256"], VStr (match page s with Some p => page_SHA256 p | None => [] end))].

End server.

Arguments Server T {_}.
Arguments handler T {_} A.
