(* ===== verification/Handlers.v ===== *)
(** The relay's API handlers: internal/relay/handlers.go, and the table of
    routes of internal/relay/server.go. *)
From S2P Require Import Prelude Base64 Tokens GoStrings GoTime Json Crypto Envelope RelayTypes RateLimit Config Server.
From Stdlib Require Import Strings.Byte.

(** * Request bodies *)

Record createDropRequest := mkCreateDrop { cd_TTLSeconds : Z; cd_Commitment : bytes }.
Record uploadRequest := mkUpload { up_DropID : bytes; up_UploadToken : bytes; up_Commitment : bytes; up_Ciphertext : bytes }.
Record tokenRequest := mkToken { tk_DropID : bytes; tk_Token : bytes }.
Record fetchRequest := mkFetch { fe_DropID : bytes; fe_FetchToken : bytes }.
Record openRequest := mkOpen { op_DropID : bytes; op_RevealToken : bytes }.
Record statusRequest := mkStatusReq { st_DropID : bytes; st_WaitSeconds : Z; st_WaitWhile : bytes }.
Record createRevealRequest := mkCreateReveal { cr_TTLSeconds : Z; cr_Ciphertext : bytes }.

Definition createDrop_fields : list (bytes * setter createDropRequest) :=
  [(B["ttl_seconds"], SetInt (λ n q, mkCreateDrop n (cd_Commitment q)));
   (B["commitment"], SetStr (λ s q, mkCreateDrop (cd_TTLSeconds q) s))].
Definition upload_fields : list (bytes * setter uploadRequest) :=
  [(B["drop_id"], SetStr (λ s q, mkUpload s (up_UploadToken q) (up_Commitment q) (up_Ciphertext q)));
   (B["upload_token"], SetStr (λ s q, mkUpload (up_DropID q) s (up_Commitment q) (up_Ciphertext q)));
   (B["commitment"], SetStr (λ s q, mkUpload (up_DropID q) (up_UploadToken q) s (up_Ciphertext q)));
   (B["ciphertext"], SetStr (λ s q, mkUpload (up_DropID q) (up_UploadToken q) (up_Commitment q) s))].
Definition token_fields : list (bytes * setter tokenRequest) :=
  [(B["drop_id"], SetStr (λ s q, mkToken s (tk_Token q))); (B["token"], SetStr (λ s q, mkToken (tk_DropID q) s))].
Definition fetch_fields : list (bytes * setter fetchRequest) :=
  [(B["drop_id"], SetStr (λ s q, mkFetch s (fe_FetchToken q))); (B["fetch_token"], SetStr (λ s q, mkFetch (fe_DropID q) s))].
Definition open_fields : list (bytes * setter openRequest) :=
  [(B["drop_id"], SetStr (λ s q, mkOpen s (op_RevealToken q))); (B["reveal_token"], SetStr (λ s q, mkOpen (op_DropID q) s))].
Definition status_fields : list (bytes * setter statusRequest) :=
  [(B["drop_id"], SetStr (λ s q, mkStatusReq s (st_WaitSeconds q) (st_WaitWhile q)));
   (B["wait_seconds"], SetInt (λ n q, mkStatusReq (st_DropID q) n (st_WaitWhile q)));
   (B["wait_while"], SetStr (λ s q, mkStatusReq (st_DropID q) (st_WaitSeconds q) s))].
Definition createReveal_fields : list (bytes * setter createRevealRequest) :=
  [(B["ttl_seconds"], SetInt (λ n q, mkCreateReveal n (cr_Ciphertext q)));
   (B["ciphertext"], SetStr (λ s q, mkCreateReveal (cr_TTLSeconds q) s))].

(** The operations named to [storeError]. *)
Inductive hop := HCreate | HUpload | HFetch | HOpen | HStatus | HRevoke.

#[export] Instance hop_eq_dec : EqDecision hop.
Proof. solve_decision. Defined.

(** [storeError]: the documented response of every store error. *)
Definition storeError (err : store_error) (op : hop) : Response :=
  match err with
  | ErrNotFound | ErrWrongKind => writeError StatusNotFound B["not_found"] []
  | ErrBadToken => writeError StatusForbidden B["bad_token"] []
  | ErrCommitment =>
      writeError StatusUnprocessableEntity B["commitment_mismatch"]
        [(B["detail"], VStr B["the public key in this link does not match the key the agent registered"])]
  | ErrFull => with_header B["Retry-After"] B["30"] (writeError StatusServiceUnavailable B["store_full"] [])
  | StateError st at_ =>
      let extra := (B["state"], VStr (bs (State_string st))) ::
        (if IsZero at_ then [] else [(B["at"], VStr (rfc3339 at_))]) in
      if bool_decide (op = HUpload ∧ st = StateUploaded) then writeError StatusConflict B["already_uploaded"] extra
      else if bool_decide (op = HFetch ∧ st = StateCreated) then writeError StatusNotFound B["not_uploaded"] extra
      else writeError StatusGone B["gone"] extra
  end.

Definition statusBody (st : Status) : list (bytes * rval) :=
  [(B["state"], VStr (bs (State_string (sState st)))); (B["kind"], VStr (bs (Kind_string (sKind st))));
   (B["created_at"], VStr (rfc3339 (sCreatedAt st))); (B["expires_at"], VStr (rfc3339 (sExpiresAt st)))] ++
  (if IsZero (sUploadedAt st) then [] else [(B["uploaded_at"], VStr (rfc3339 (sUploadedAt st)))]) ++
  (if IsZero (sFetchedAt st) then []
   else [(if decide (sKind st = KindReveal) then B["opened_at"] else B["fetched_at"], VStr (rfc3339 (sFetchedAt st)))]) ++
  (if IsZero (sRevokedAt st) then [] else [(B["revoked_at"], VStr (rfc3339 (sRevokedAt st)))]).

Definition valid_token (s : bytes) : bool := ValidToken (sb s).

Section handlers.
Context {T : Type} `{Store T} `{!StoreWait T} `{Buckets} `{Unicode}.

Abbreviation handler := (Server.handler T).
Abbreviation unauthorized := (writeError StatusUnauthorized B["unauthorized"] []).
Abbreviation internal_error := (writeError StatusInternalServerError B["internal_error"] []).

(** The preamble of the agent's endpoints: the key, then its rate limit. *)
Definition agent (e : Env) (r : Request) : handler string :=
  c ← config;
  let '(keyID, ok) := authenticate c r in
  _ ← reject_unless ok unauthorized;
  _ ← limitAgent e r keyID;
  mret keyID.

Definition decodeCiphertext (encoded : bytes) (minLen : Z) : handler bytes :=
  c ← config;
  if is_empty encoded then respond (bad_request B["ciphertext is required"])
  else if MaxCiphertextBytes c * 4 / 3 + 4 <? zlen encoded then respond (too_large c)
  else
    match decode encoded with
    | None => respond (bad_request B["ciphertext must be base64url without padding"])
    | Some ct =>
        if MaxCiphertextBytes c <? zlen ct then respond (too_large c)
        else if zlen ct <? minLen then respond (bad_request B["ciphertext is too short to be valid"])
        else mret ct
    end.

(** [newTokens]: three draws; the first failure ends it. *)
Definition newTokens (e : Env) : result crypto_error (string * string * string) :=
  id ← RandomToken (e_random e 0%nat);
  a ← RandomToken (e_random e 1%nat);
  b ← RandomToken (e_random e 2%nat);
  Ok (id, a, b).

(** The result of a store call, or the response of its error. *)
Definition or_store_error {A} (op : hop) (res : result store_error A) : handler A :=
  match res with Ok a => mret a | Err err => respond (storeError err op) end.

Definition or_internal_error {A} (res : result crypto_error A) : handler A :=
  match res with Ok a => mret a | Err _ => respond internal_error end.

Definition createDrop (e : Env) (r : Request) : handler Response :=
  keyID ← agent e r;
  req ← decodeJSON createDrop_fields (mkCreateDrop 0 []) r;
  _ ← reject_unless (ValidCommitment (sb (cd_Commitment req)))
        (bad_request B["commitment must be the base64url SHA-256 of the recipient public key"]);
  '(id, uploadTok, fetchTok) ← or_internal_error (newTokens e);
  c ← config;
  let now := e_now e in
  let d := mkDrop id KindDrop StateCreated [] (sb (cd_Commitment req)) (HashToken uploadTok) (HashToken fetchTok)
             keyID now (Add now (ClampTTL c (cd_TTLSeconds req))) 0 0 0 in
  res ← call_store (Create (e_store e 0%nat) d);
  _ ← or_store_error HCreate res;
  mret (writeJSON StatusCreated
    [(B["drop_id"], VStr (bs id)); (B["upload_token"], VStr (bs uploadTok)); (B["fetch_token"], VStr (bs fetchTok));
     (B["expires_at"], VStr (rfc3339 (ExpiresAt d)))]).

Definition upload (e : Env) (r : Request) : handler Response :=
  _ ← limitPage e r;
  req ← decodeJSON upload_fields (mkUpload [] [] [] []) r;
  _ ← reject_unless (valid_token (up_DropID req) && valid_token (up_UploadToken req))
        (bad_request B["drop_id and upload_token must be 22 base64url characters"]);
  _ ← reject_unless (ValidCommitment (sb (up_Commitment req))) (bad_request B["malformed commitment"]);
  ct ← decodeCiphertext (up_Ciphertext req) (SealedOverhead + PadBlock);
  res ← call_store (Upload (e_store e 0%nat) (sb (up_DropID req)) (HashToken (sb (up_UploadToken req))) (sb (up_Commitment req)) ct);
  _ ← or_store_error HUpload res;
  mret (writeJSON StatusOK [(B["state"], VStr (bs (State_string StateUploaded)))]).

Definition fetch (e : Env) (r : Request) : handler Response :=
  keyID ← agent e r;
  req ← decodeJSON fetch_fields (mkFetch [] []) r;
  _ ← reject_unless (valid_token (fe_DropID req) && valid_token (fe_FetchToken req))
        (bad_request B["drop_id and fetch_token must be 22 base64url characters"]);
  res ← call_store (Fetch (e_store e 0%nat) (sb (fe_DropID req)) (HashToken (sb (fe_FetchToken req))));
  '(ct, uploadedAt) ← or_store_error HFetch res;
  mret (writeJSON StatusOK [(B["ciphertext"], VStr (encode ct)); (B["uploaded_at"], VStr (rfc3339 uploadedAt))]).

Definition createReveal (e : Env) (r : Request) : handler Response :=
  keyID ← agent e r;
  req ← decodeJSON createReveal_fields (mkCreateReveal 0 []) r;
  ct ← decodeCiphertext (cr_Ciphertext req) (AEADOverhead + PadBlock);
  '(id, revealTok, revokeTok) ← or_internal_error (newTokens e);
  c ← config;
  let now := e_now e in
  let d := mkDrop id KindReveal StateCreated ct "" (HashToken revealTok) (HashToken revokeTok)
             keyID now (Add now (ClampTTL c (cr_TTLSeconds req))) 0 0 0 in
  res ← call_store (Create (e_store e 0%nat) d);
  _ ← or_store_error HCreate res;
  mret (writeJSON StatusCreated
    [(B["drop_id"], VStr (bs id)); (B["reveal_token"], VStr (bs revealTok)); (B["revoke_token"], VStr (bs revokeTok));
     (B["expires_at"], VStr (rfc3339 (ExpiresAt d)))]).

Definition open (e : Env) (r : Request) : handler Response :=
  _ ← limitPage e r;
  req ← decodeJSON open_fields (mkOpen [] []) r;
  _ ← reject_unless (valid_token (op_DropID req) && valid_token (op_RevealToken req))
        (bad_request B["drop_id and reveal_token must be 22 base64url characters"]);
  res ← call_store (Open (e_store e 0%nat) (sb (op_DropID req)) (HashToken (sb (op_RevealToken req))));
  '(ct, createdAt) ← or_store_error HOpen res;
  mret (writeJSON StatusOK [(B["ciphertext"], VStr (encode ct)); (B["created_at"], VStr (rfc3339 createdAt))]).

(** ** Handlers that use the store more than once

    Between two calls of the store other requests may run: what is left of the
    handler is a [phase]. *)

Inductive phase :=
  | PRevoke (id : string) (token : Hash)
      (* the slot was looked up, it is revoked next *)
  | PPoll (id : string) (current : State) (timeout : Duration)
      (* the waiters were counted, the wait begins next *)
  | PWait (id : string) (ch : nat)
      (* in the wait *)
  | PAnswered (res : result store_error Status)
      (* the wait is over *).

Definition too_many_waiters : Response :=
  with_header B["Retry-After"] B["5"] (writeError StatusServiceUnavailable B["too_many_waiters"] []).

Definition count_waiters (n : Z) : handler unit := λ s, (add_waiters n s, inr tt).

Definition current_waiters : handler Z := λ s, (s, inr (waiters s)).

Definition statusHandler (kind : Kind) (e : Env) (r : Request) : handler (Response + phase) :=
  _ ← limitPage e r;
  req ← decodeJSON status_fields (mkStatusReq [] 0 []) r;
  _ ← reject_unless (valid_token (st_DropID req)) (bad_request B["drop_id must be 22 base64url characters"]);
  _ ← reject_unless (negb ((st_WaitSeconds req <? 0) || (MaxLongPoll <? seconds (st_WaitSeconds req))))
        (bad_request B["wait_seconds must be between 0 and 30"]);
  let id := sb (st_DropID req) in
  res ← call_store (StatusOf (e_store e 0%nat) id);
  st ← or_store_error HStatus res;
  _ ← reject_unless (bool_decide (sKind st = kind)) (writeError StatusNotFound B["not_found"] []);
  if (0 <? st_WaitSeconds req) && negb (Terminal (sState st)) &&
     (is_empty (st_WaitWhile req) || beq (st_WaitWhile req) (bs (State_string (sState st))))
  then
    n ← current_waiters;
    c ← config;
    _ ← reject_unless (negb (MaxWaiters c <=? n)) too_many_waiters;
    mret (inr (PPoll id (sState st) (seconds (st_WaitSeconds req))))
  else mret (inl (writeJSON StatusOK (statusBody st))).

Definition revokeHandler (kind : Kind) (e : Env) (r : Request) : handler (Response + phase) :=
  _ ← limitPage e r;
  req ← decodeJSON token_fields (mkToken [] []) r;
  _ ← reject_unless (valid_token (tk_DropID req) && valid_token (tk_Token req))
        (bad_request B["drop_id and token must be 22 base64url characters"]);
  let id := sb (tk_DropID req) in
  res ← call_store (StatusOf (e_store e 0%nat) id);
  st ← or_store_error HRevoke res;
  _ ← reject_unless (bool_decide (sKind st = kind)) (writeError StatusNotFound B["not_found"] []);
  mret (inr (PRevoke id (HashToken (sb (tk_Token req))))).

(** The next phase of a handler. *)
Definition proceed (p : phase) (e : Env) : handler (Response + phase) :=
  match p with
  | PRevoke id token =>
      res ← call_store (Revoke (e_store e 0%nat) id token);
      _ ← or_store_error HRevoke res;
      mret (inl (writeJSON StatusOK [(B["state"], VStr (bs (State_string StateRevoked)))]))
  | PPoll id current timeout =>
      _ ← count_waiters 1;
      w ← call_store (WaitBegin (e_store e 0%nat) id current timeout);
      mret (inr (match w with inl res => PAnswered res | inr ch => PWait id ch end))
  | PWait id ch =>
      res ← call_store (WaitEnd (e_store e 0%nat) id ch);
      mret (inr (PAnswered res))
  | PAnswered res =>
      _ ← count_waiters (-1);
      st ← or_store_error HStatus res;
      mret (inl (writeJSON StatusOK (statusBody st)))
  end.

(** ** Routes *)

Inductive route :=
  | RCreateDrop | RUpload | RStatus (k : Kind) | RFetch | RRevoke (k : Kind) | RCreateReveal | ROpen
  | RPreflight | RInfo | RHealthz | RPage.

(** The table of [routes]; a GET pattern also serves HEAD. *)
Definition route_of (servePage : bool) (method path : bytes) : option route :=
  let get := beq method B["GET"] || beq method B["HEAD"] in
  if beq method B["POST"] then
    if beq path B["/api/v1/drops"] then Some RCreateDrop
    else if beq path B["/api/v1/drops/upload"] then Some RUpload
    else if beq path B["/api/v1/drops/status"] then Some (RStatus KindDrop)
    else if beq path B["/api/v1/drops/fetch"] then Some RFetch
    else if beq path B["/api/v1/drops/revoke"] then Some (RRevoke KindDrop)
    else if beq path B["/api/v1/reveals"] then Some RCreateReveal
    else if beq path B["/api/v1/reveals/open"] then Some ROpen
    else if beq path B["/api/v1/reveals/status"] then Some (RStatus KindReveal)
    else if beq path B["/api/v1/reveals/revoke"] then Some (RRevoke KindReveal)
    else None
  else if beq method B["OPTIONS"] then (if HasPrefix path B["/api/v1/"] then Some RPreflight else None)
  else if get then
    if beq path B["/api/v1/info"] then Some RInfo
    else if beq path B["/healthz"] then Some RHealthz
    else if servePage && existsb (beq path) [B["/"]; B["/drop"]; B["/reveal"]] then Some RPage
    else None
  else None.

(** A route, up to its response or its second use of the store. *)
Definition run_route (rt : route) (e : Env) (r : Request) : handler (Response + phase) :=
  match rt with
  | RCreateDrop => w ← createDrop e r; mret (inl w)
  | RUpload => w ← upload e r; mret (inl w)
  | RStatus k => statusHandler k e r
  | RFetch => w ← fetch e r; mret (inl w)
  | RRevoke k => revokeHandler k e r
  | RCreateReveal => w ← createReveal e r; mret (inl w)
  | ROpen => w ← open e r; mret (inl w)
  | RPreflight => mret (inl preflight)
  | RInfo => s ← get_server; mret (inl (info s))
  | RHealthz => mret (inl healthz)
  | RPage => s ← get_server; mret (inl (Server.servePage s r))
  end.

(** What a handler has come to: either way out is a response. *)
Definition outcome {A} (out : Response + (Response + A)) : Response + A :=
  match out with inl w => inl w | inr x => x end.

Definition serve (rt : route) (e : Env) (r : Request) (s : Server T) : Server T * (Response + phase) :=
  let '(s, out) := run_route rt e r s in (s, outcome out).

Definition resume (p : phase) (e : Env) (s : Server T) : Server T * (Response + phase) :=
  let '(s, out) := proceed p e s in (s, outcome out).

(** A request under way: the headers set so far, what is left to do. *)
Record job := mkJob { job_header : list (bytes * bytes); job_phase : phase }.

Definition under_way (hs : list (bytes * bytes)) (out : Response + phase) : Response + job :=
  match out with inl w => inl (add_headers hs w) | inr p => inr (mkJob hs p) end.

(** [Handler]: the middleware around the router; [None] is a path the router
    answers itself. *)
Definition Handler (e : Env) (r : Request) (s : Server T) : Server T * option (Response + job) :=
  match middleware e r s with
  | (s, inl w) => (s, Some (inl w))
  | (s, inr hs) =>
      match route_of (ServePage (cfg s)) (r_Method r) (r_Path r) with
      | None => (s, None)
      | Some rt => let '(s, out) := serve rt e r s in (s, Some (under_way hs out))
      end
  end.

(** The same request, on to its next phase. *)
Definition Handler_resume (e : Env) (j : job) (s : Server T) : Server T * (Response + job) :=
  let '(s, out) := resume (job_phase j) e s in (s, under_way (job_header j) out).

(** [Sweeper]: one tick. *)
Definition sweep_tick (e : Env) (s : Server T) : Server T :=
  set_store (Sweep (e_store e 0%nat) (store s)).1 s.
End handlers.
