(* ===== verification/HandlersInv.v ===== *)
(** The relay as a whole: requests, waits in progress and sweeps, in any order,
    on a server whose store refines the abstract one.  What the responses say
    is what the store's history says. *)
From S2P Require Import Prelude Base64 Tokens GoStrings GoTime Json Crypto Envelope RelayTypes StoreSpec StoreHistory RateLimit.
From S2P Require Import Config Server Handlers.
From Stdlib Require Import Strings.Byte.

(** * The store the server relies on *)

(** What a store promises to the server: every call, and either half of a wait,
    is a step of the abstract store. *)
Class StoreOk (T : Type) `{StoreWait T} := {
  st_inv : T → Prop;
  st_abs : T → SpecStore;
  st_op ck o t : op_ok ck o → st_inv t →
    st_inv (run_op ck o t).1 ∧ run_op ck o (st_abs t) = (st_abs (run_op ck o t).1, (run_op ck o t).2);
  st_begin ck id cur timeout t : st_inv t →
    st_inv (WaitBegin ck id cur timeout t).1 ∧
    ∃ r, run_op ck (OpStatus id) (st_abs t) = (st_abs (WaitBegin ck id cur timeout t).1, r);
  st_end ck id ch t : st_inv t →
    st_inv (WaitEnd ck id ch t).1 ∧
    ∃ ck' r, run_op ck' (OpStatus id) (st_abs t) = (st_abs (WaitEnd ck id ch t).1, r);
}.

Section server.
Context {T : Type} `{StoreOk T} `{Buckets} `{Unicode}.

Abbreviation handler := (Server.handler T).

(** * The history behind a store *)

Definition store_at (o : StoreOptions) (h : list event) (t : T) : Prop :=
  st_inv t ∧ reaches op_ok (spec_init o) h (st_abs t).

(** [extends t t' P]: from [t] to [t'] the store made some steps, with events
    that satisfy [P]. *)
Definition extends (t t' : T) (P : list event → Prop) : Prop :=
  ∀ o h, store_at o h t → ∃ new, store_at o (new ++ h) t' ∧ P new.

Lemma extends_refl t (P : list event → Prop) : P [] → extends t t P.
Proof. intros HP o h Hst. by exists []. Qed.

Lemma extends_op ck p t : op_ok ck p → extends t (run_op ck p t).1 (λ new, new = [mkEvent ck p (run_op ck p t).2]).
Proof.
  intros Hok o h [Hi Hr]. destruct (st_op ck p t Hok Hi) as [Hi' Hrun].
  exists [mkEvent ck p (run_op ck p t).2]. split; [|done]. split; [done|]. by eapply reaches_step.
Qed.

Lemma extends_trans t1 t2 t3 (P Q R : list event → Prop) :
  extends t1 t2 P → extends t2 t3 Q → (∀ n1 n2, P n1 → Q n2 → R (n2 ++ n1)) → extends t1 t3 R.
Proof.
  intros Hx Hy HR o h Hst. destruct (Hx o h Hst) as (n1 & Hs1 & HP). destruct (Hy o _ Hs1) as (n2 & Hs2 & HQ).
  exists (n2 ++ n1). rewrite <- app_assoc. auto.
Qed.

Lemma extends_mono t t' (P Q : list event → Prop) : extends t t' P → (∀ n, P n → Q n) → extends t t' Q.
Proof. intros He HPQ o h Hst. destruct (He o h Hst) as (n & ? & ?). eauto. Qed.

(** Events that put nothing into a slot. *)
Definition mute (e : event) : bool :=
  match ev_op e, ev_reply e with
  | OpCreate _, RUnit (Ok _) | OpUpload _ _ _ _, RUnit (Ok _) => false
  | _, _ => true
  end.

Definition quiet (new : list event) : Prop := ∀ e, e ∈ new → mute e = true.

Lemma quiet_nil : quiet [].
Proof. intros e He. by apply elem_of_nil in He. Qed.

Lemma quiet_one e : mute e = true → quiet [e].
Proof. by intros He f ->%list_elem_of_singleton. Qed.

Lemma quiet_app n1 n2 : quiet n1 → quiet n2 → quiet (n2 ++ n1).
Proof. intros H1' H2' e [?|?]%elem_of_app; auto. Qed.

Lemma quiet_created new id : quiet new → occurrences (created_in id) new = 0%nat.
Proof.
  induction new as [|e new IH]; [done|]. intros Hq. rewrite occurrences_cons, IH by (intros f Hf; apply Hq; by right).
  specialize (Hq e ltac:(by left)). destruct e as [ck [] r]; try done. by destruct r as [[]| | |].
Qed.

Lemma extends_status ck id t : extends t (StatusOf ck id t).1 quiet.
Proof. eapply extends_mono; [apply (extends_op ck (OpStatus id) t I)|]. intros n ->. by apply quiet_one. Qed.

Lemma extends_begin ck id cur timeout t : extends t (WaitBegin ck id cur timeout t).1 quiet.
Proof.
  intros o h [Hi Hr]. destruct (st_begin ck id cur timeout t Hi) as (Hi' & r & Hrun).
  exists [mkEvent ck (OpStatus id) r]. split; [split; [done|by eapply reaches_step]|by apply quiet_one].
Qed.

Lemma extends_end ck id ch t : extends t (WaitEnd ck id ch t).1 quiet.
Proof.
  intros o h [Hi Hr]. destruct (st_end ck id ch t Hi) as (Hi' & ck' & r & Hrun).
  exists [mkEvent ck' (OpStatus id) r]. split; [split; [done|by eapply reaches_step]|by apply quiet_one].
Qed.

(** * Handlers as relations on the store *)

(** [post c n m Φ]: under configuration [c], the handler relates the store
    before and after it and its outcome by [Φ], and the number of waiters
    grows by what [n] says of the outcome. *)
Definition post {A} (c : Config) (m : handler A) (Φ : T → T → Response + A → Prop) : Prop :=
  ∀ s, cfg s = c → cfg (m s).1 = c ∧ Φ (store s) (store (m s).1) (m s).2.

(** Handlers that leave the store alone. *)
Definition silent {A} (c : Config) (m : handler A) (Ψ : Response + A → Prop) : Prop :=
  post c m (λ t t' out, t' = t ∧ Ψ out).

Lemma post_bind {A B} c (m : handler A) (f : A → handler B) Ψ Φ :
  silent c m Ψ → (∀ w t, Ψ (inl w) → Φ t t (inl w)) → (∀ a, Ψ (inr a) → post c (f a) Φ) → post c (m ≫= f) Φ.
Proof.
  intros Hm Hw Hf s Hc. destruct (Hm s Hc) as (Hc' & Ht & HΨ). unfold mbind, handler_bind.
  destruct (m s) as [s' [w|a]]; simpl in *; [rewrite Ht; auto|].
  destruct (Hf a HΨ s' Hc') as [? HΦ]. rewrite Ht in HΦ. auto.
Qed.

Lemma post_call {A B} c (g : T → T * A) (f : A → handler B) Φ :
  (∀ t0, post c (f (g t0).2) (λ t1 t2 out, t1 = (g t0).1 → Φ t0 t2 out)) → post c (call_store g ≫= f) Φ.
Proof.
  intros Hf s Hc. unfold mbind, handler_bind, call_store. specialize (Hf (store s)).
  destruct (g (store s)) as [t a] eqn:E. simpl in *.
  destruct (Hf (set_store t s) Hc) as [? HΦ]. split; [done|]. by apply HΦ.
Qed.

Lemma post_ret {A} c (a : A) (Φ : T → T → Response + A → Prop) : (∀ t, Φ t t (inr a)) → post c (mret a) Φ.
Proof. intros HΦ s Hc. split; [done|]. apply HΦ. Qed.

Lemma post_respond {A} c w (Φ : T → T → Response + A → Prop) : (∀ t, Φ t t (inl w)) → post c (respond w) Φ.
Proof. intros HΦ s Hc. split; [done|]. apply HΦ. Qed.

Lemma post_mono {A} c (m : handler A) (Φ Φ' : T → T → Response + A → Prop) :
  post c m Φ → (∀ t t' out, Φ t t' out → Φ' t t' out) → post c m Φ'.
Proof. intros Hm HΦ s Hc. destruct (Hm s Hc) as [? ?]. auto. Qed.

(** A response that neither hands out a secret nor announces a slot. *)
Definition refused (w : Response) : Prop := w_status w ≠ StatusOK ∧ w_status w ≠ StatusCreated.

Definition refuses {A} (P : A → Prop) (out : Response + A) : Prop :=
  match out with inl w => refused w | inr a => P a end.

Lemma silent_config c : silent c config (λ out, out = inr c).
Proof. intros s Hc. unfold config. simpl. by rewrite Hc. Qed.

Lemma silent_reject c ok w : refused w → silent c (reject_unless ok w) (refuses (λ _, ok = true)).
Proof. intros Hw s Hc. unfold reject_unless. by destruct ok. Qed.

Lemma silent_limitPage c e r : silent c (limitPage e r) (refuses (λ _, True)).
Proof. intros s Hc. unfold limitPage. destruct (Allow _ _ _) as [l []]; done. Qed.

Lemma silent_limitAgent c e r k : silent c (limitAgent e r k) (refuses (λ _, True)).
Proof. intros s Hc. unfold limitAgent. destruct (Allow _ _ _) as [l []]; done. Qed.

Lemma silent_agent c e r : silent c (agent e r) (refuses (λ id, authenticate c r = (id, true))).
Proof.
  unfold agent. eapply post_bind; [apply silent_config|done|]. intros ? [= ->].
  destruct (authenticate c r) as [id ok]. eapply post_bind; [by apply silent_reject|by intros|].
  intros ? ->. eapply post_bind; [apply silent_limitAgent|by intros|]. intros _ _. by apply post_ret.
Qed.

(** What the decoder makes of the body, up to the limit. *)
Definition decoded {R} (fields : list (bytes * setter R)) (zero : R) (c : Config) (r : Request) : result decode_error R :=
  (Decode fields zero (take (Z.to_nat (body_limit c)) (r_Body r))).1.

Lemma silent_decodeJSON {R} c (fields : list (bytes * setter R)) zero r :
  silent c (decodeJSON fields zero r) (refuses (λ q, decoded fields zero c r = Ok q)).
Proof.
  unfold decodeJSON. eapply post_bind; [apply silent_config|done|]. intros ? [= ->].
  case_match; [by apply post_respond|]. case_match; [by apply post_respond|]. unfold decoded.
  destruct (Decode _ _ _) as [[q|err] rest]; simpl.
  - case_match; [by apply post_respond|by apply post_ret].
  - repeat case_match; by apply post_respond.
Qed.

Lemma silent_decodeCiphertext c enc n : silent c (decodeCiphertext enc n) (refuses (λ ct, decode enc = Some ct)).
Proof.
  unfold decodeCiphertext. eapply post_bind; [apply silent_config|done|]. intros ? [= ->].
  repeat (case_match; [by apply post_respond|]). destruct (decode enc); [|by apply post_respond].
  repeat (case_match; [by apply post_respond|]). by apply post_ret.
Qed.

Lemma storeError_refused err op : refused (storeError err op).
Proof. destruct err; simpl; try done. by repeat case_match. Qed.

Lemma silent_or_store_error {A} c op (res : result store_error A) :
  silent c (or_store_error op res) (refuses (λ a, res = Ok a)).
Proof. destruct res; [by apply post_ret|apply post_respond; intros; split; [done|apply storeError_refused]]. Qed.

Lemma silent_or_internal_error {A} c (res : result crypto_error A) :
  silent c (or_internal_error res) (refuses (λ a, res = Ok a)).
Proof. destruct res; [by apply post_ret|by apply post_respond]. Qed.

(** * What a response says *)

(** The slot a request asks to read. *)
Definition read_id (c : Config) (rt : route) (r : Request) : option string :=
  match rt with
  | RFetch => match decoded fetch_fields (mkFetch [] []) c r with Ok q => Some (sb (fe_DropID q)) | Err _ => None end
  | ROpen => match decoded open_fields (mkOpen [] []) c r with Ok q => Some (sb (op_DropID q)) | Err _ => None end
  | _ => None
  end.

(** The response hands out the secret of slot [id]. *)
Definition serves_secret (c : Config) (rt : route) (r : Request) (w : Response) (id : string) : bool :=
  (w_status w =? StatusOK) && bool_decide (read_id c rt r = Some id).

(** The response announces the new slot [id]. *)
Definition announced (w : Response) : option rval :=
  match w_body w with
  | JsonBody ms => match list_find (λ m, m.1 = B["drop_id"]) ms with Some (_, m) => Some m.2 | None => None end
  | _ => None
  end.

Definition announces (w : Response) (id : string) : bool :=
  (w_status w =? StatusCreated) && match announced w with Some (VStr s) => bool_decide (s = bs id) | _ => false end.

(** The body of the two answers that announce a slot: its first three members. *)
Definition slot_body (d : RelayTypes.Drop) (nameA nameB : bytes) (w : Response) : Prop :=
  ∃ a b expires, w_body w = JsonBody
    [(B["drop_id"], VStr (bs (ID d))); (nameA, VStr (bs a)); (nameB, VStr (bs b)); (B["expires_at"], VStr expires)] ∧
    TokenA d = HashToken a ∧ TokenB d = HashToken b.

(** A request to create slot [d] and its answer. *)
Definition creates (c : Config) (rt : route) (r : Request) (w : Response) (d : RelayTypes.Drop) : Prop :=
  w_status w = StatusCreated ∧
  match dKind d with
  | KindDrop => rt = RCreateDrop ∧ slot_body d B["upload_token"] B["fetch_token"] w ∧
      ∃ q, decoded createDrop_fields (mkCreateDrop 0 []) c r = Ok q ∧ dCommitment d = sb (cd_Commitment q)
  | KindReveal => rt = RCreateReveal ∧ slot_body d B["reveal_token"] B["revoke_token"] w ∧
      ∃ q, decoded createReveal_fields (mkCreateReveal 0 []) c r = Ok q ∧ decode (cr_Ciphertext q) = Some (Ciphertext d)
  end.

(** An accepted upload. *)
Definition uploads (c : Config) (rt : route) (r : Request) (w : Response) (id : string) (tok : Hash) (com : string)
    (ct : bytes) : Prop :=
  w_status w = StatusOK ∧ rt = RUpload ∧
  ∃ q, decoded upload_fields (mkUpload [] [] [] []) c r = Ok q ∧ sb (up_DropID q) = id ∧
    HashToken (sb (up_UploadToken q)) = tok ∧ sb (up_Commitment q) = com ∧ decode (up_Ciphertext q) = Some ct.

(** An answer that hands a ciphertext out. *)
Definition hands_out (c : Config) (rt : route) (r : Request) (w : Response) (id : string) (tok : Hash) (ct : bytes) : Prop :=
  match rt with
  | RFetch => ∃ q, decoded fetch_fields (mkFetch [] []) c r = Ok q ∧ sb (fe_DropID q) = id ∧
      HashToken (sb (fe_FetchToken q)) = tok
  | ROpen => ∃ q, decoded open_fields (mkOpen [] []) c r = Ok q ∧ sb (op_DropID q) = id ∧
      HashToken (sb (op_RevealToken q)) = tok
  | _ => False
  end ∧
  ∃ u, w_body w = JsonBody [(B["ciphertext"], VStr (encode ct));
    (match rt with RFetch => B["uploaded_at"] | _ => B["created_at"] end, VStr (rfc3339 u))].

(** The read behind it. *)
Definition read_event (rt : route) (ck : Clock) (id : string) (tok : Hash) (ct : bytes) (u : Time) : event :=
  mkEvent ck (match rt with RFetch => OpFetch id tok | _ => OpOpen id tok end) (RRead (Ok (ct, u))).

(** What the answer [w] to [r] says of the events [new] behind it: every secret
    served was read from the store just then; every slot created is announced,
    every upload acknowledged. *)
Record accounts (c : Config) (rt : route) (r : Request) (w : Response) (new : list event) : Prop := {
  acc_reads id : (b2n (serves_secret c rt r w id) <= occurrences (read_in id) new)%nat;
  acc_announced id : (occurrences (created_in id) new <= b2n (announces w id))%nat;
  acc_creates ck d u : mkEvent ck (OpCreate d) (RUnit (Ok u)) ∈ new → creates c rt r w d;
  acc_uploads ck id tok com ct u : mkEvent ck (OpUpload id tok com ct) (RUnit (Ok u)) ∈ new → uploads c rt r w id tok com ct;
  acc_serves id : serves_secret c rt r w id = true →
    ∃ ck tok ct u, new = [read_event rt ck id tok ct u] ∧ hands_out c rt r w id tok ct;
}.

Lemma accounts_quiet c rt r w new : (∀ id, serves_secret c rt r w id = false) → quiet new → accounts c rt r w new.
Proof.
  intros Hs Hq. split.
  - intros id. rewrite Hs. simpl. lia.
  - intros id. rewrite quiet_created by done. lia.
  - intros ck d u He. by specialize (Hq _ He).
  - intros ck id tok com ct u He. by specialize (Hq _ He).
  - intros id He. by rewrite Hs in He.
Qed.

Lemma accounts_refused c rt r w new : refused w → quiet new → accounts c rt r w new.
Proof.
  intros [Hok Hcr] Hnew. apply accounts_quiet; [|done]. intros id. unfold serves_secret.
  by destruct (Z.eqb_spec (w_status w) StatusOK).
Qed.

Lemma no_secret c rt r w id : read_id c rt r = None → serves_secret c rt r w id = false.
Proof. intros Hid. unfold serves_secret. by rewrite Hid, bool_decide_eq_false_2, andb_false_r. Qed.

Lemma accounts_other c rt r w new : read_id c rt r = None → quiet new → accounts c rt r w new.
Proof. intros Hid. apply accounts_quiet. intros id. by apply no_secret. Qed.

Lemma read_event_in rt ck id tok ct u i : read_in i (read_event rt ck id tok ct u) = bool_decide (id = i).
Proof. by destruct rt. Qed.

(** The response to a read that the store granted. *)
Lemma accounts_read c rt r w ck id tok ct u :
  read_id c rt r = Some id → hands_out c rt r w id tok ct →
  accounts c rt r w [read_event rt ck id tok ct u].
Proof.
  intros Hid Hout. assert (∀ i, created_in i (read_event rt ck id tok ct u) = false) as Hcr by by destruct rt.
  split.
  - intros i. rewrite !occurrences_cons, read_event_in. unfold serves_secret. rewrite Hid.
    assert (bool_decide (Some id = Some i) = bool_decide (id = i)) as -> by (apply bool_decide_ext; naive_solver).
    change (occurrences _ []) with 0%nat. destruct (w_status w =? StatusOK), (bool_decide (id = i)); simpl; lia.
  - intros i. rewrite occurrences_cons, Hcr. change (occurrences _ []) with 0%nat. simpl. lia.
  - intros ck' d u' He%list_elem_of_singleton. by destruct rt.
  - intros ck' i tok' com ct' u' He%list_elem_of_singleton. by destruct rt.
  - intros i. unfold serves_secret. rewrite Hid, andb_true_iff, bool_decide_eq_true. intros [_ [= <-]]. eauto 10.
Qed.

(** The outcome of a route, before it is told apart into response and wait. *)
Definition settled (c : Config) (rt : route) (r : Request) (t t' : T) (out : Response + (Response + phase)) : Prop :=
  extends t t' (λ new,
    match out with inl w | inr (inl w) => accounts c rt r w new | inr (inr _) => quiet new end).

Definition settled1 (c : Config) (rt : route) (r : Request) (t t' : T) (out : Response + Response) : Prop :=
  extends t t' (λ new, match out with inl w | inr w => accounts c rt r w new end).

Lemma settled_refused c rt r w t : refused w → settled1 c rt r t t (inl w).
Proof. intros Hw. apply extends_refl. apply accounts_refused; [done|apply quiet_nil]. Qed.

Lemma settled_inl c rt r (m : handler Response) :
  post c m (settled1 c rt r) → post c (w ← m; mret (inl w)) (settled c rt r).
Proof.
  intros Hm s Hc. destruct (Hm s Hc) as [Hc' HΦ]. unfold mbind, handler_bind.
  destruct (m s) as [s' [w|w]]; simpl in *; split; done.
Qed.

(** A refusal after some events that create nothing. *)
Lemma settled_after {P : list event → Prop} c rt r t t' w :
  extends t t' P → (∀ new, P new → quiet new) → refused w →
  settled1 c rt r t t' (inl w).
Proof. intros He Hn Hw. eapply extends_mono; [exact He|]. intros new HP. apply accounts_refused; auto. Qed.

Ltac silent_step L :=
  eapply post_bind; [apply L; try done|intros w t Hw; by apply settled_refused|].

Lemma upload_settled c e r : post c (upload e r) (settled1 c RUpload r).
Proof.
  unfold upload. silent_step @silent_limitPage. intros _ _. silent_step @silent_decodeJSON. intros q Hq.
  silent_step @silent_reject. intros _ _. silent_step @silent_reject. intros _ _.
  silent_step @silent_decodeCiphertext. intros ct Hct. apply post_call. intros t0.
  set (id := sb (up_DropID q)). set (tok := HashToken (sb (up_UploadToken q))). set (com := sb (up_Commitment q)).
  pose proof (extends_op (e_store e 0%nat) (OpUpload id tok com ct) t0 I) as He. simpl in He. unfold mapr in He. simpl in He.
  destruct (Upload (e_store e 0%nat) id tok com ct t0) as [t1 res]. simpl in *.
  destruct res as [u|err]; simpl.
  - apply post_ret. intros t ->. eapply extends_mono; [exact He|]. intros new ->. split.
    + intros i. by rewrite no_secret.
    + intros i. rewrite occurrences_cons. simpl. change (occurrences _ []) with 0%nat. lia.
    + by intros ck d v Hev%list_elem_of_singleton.
    + intros ck i tok' com' ct' v [= -> -> -> -> -> _]%list_elem_of_singleton. split; [done|]. split; [done|].
      exists q. by rewrite Hq.
    + intros i. by rewrite no_secret.
  - apply post_respond. intros t ->. eapply settled_after; [exact He| |apply storeError_refused].
    intros new ->. by apply quiet_one.
Qed.

Lemma fetch_settled c e r : post c (fetch e r) (settled1 c RFetch r).
Proof.
  unfold fetch. silent_step @silent_agent. intros k _. silent_step @silent_decodeJSON. intros q Hq.
  silent_step @silent_reject. intros _ _. apply post_call. intros t0.
  set (id := sb (fe_DropID q)). set (tok := HashToken (sb (fe_FetchToken q))).
  pose proof (extends_op (e_store e 0%nat) (OpFetch id tok) t0 I) as He. simpl in He. unfold mapr in He. simpl in He.
  destruct (Fetch (e_store e 0%nat) id tok t0) as [t1 res]. simpl in *.
  eapply post_bind; [apply silent_or_store_error|..].
  - intros w t Hw ->. eapply settled_after; [exact He| |done]. intros new ->. destruct res as [[]|]; by apply quiet_one.
  - intros [ct u] ->. apply post_ret. intros t ->. eapply extends_mono; [exact He|]. intros new ->.
    apply (accounts_read c RFetch r _ (e_store e 0%nat) id tok ct u); [simpl; by rewrite Hq|].
    split; [by exists q; rewrite Hq|eauto].
Qed.

Lemma open_settled c e r : post c (open e r) (settled1 c ROpen r).
Proof.
  unfold open. silent_step @silent_limitPage. intros _ _. silent_step @silent_decodeJSON. intros q Hq.
  silent_step @silent_reject. intros _ _. apply post_call. intros t0.
  set (id := sb (op_DropID q)). set (tok := HashToken (sb (op_RevealToken q))).
  pose proof (extends_op (e_store e 0%nat) (OpOpen id tok) t0 I) as He. simpl in He. unfold mapr in He. simpl in He.
  destruct (Open (e_store e 0%nat) id tok t0) as [t1 res]. simpl in *.
  eapply post_bind; [apply silent_or_store_error|..].
  - intros w t Hw ->. eapply settled_after; [exact He| |done]. intros new ->. destruct res as [[]|]; by apply quiet_one.
  - intros [ct u] ->. apply post_ret. intros t ->. eapply extends_mono; [exact He|]. intros new ->.
    apply (accounts_read c ROpen r _ (e_store e 0%nat) id tok ct u); [simpl; by rewrite Hq|].
    split; [by exists q; rewrite Hq|eauto].
Qed.

(** The end of both creating handlers: the store's answer, then the response
    that announces the slot. *)
Lemma created_settled c e r rt (d : RelayTypes.Drop) (w : Response) :
  read_id c rt r = None → create_ok d → creates c rt r w d → announces w (ID d) = true →
  post c (res ← call_store (Create (e_store e 0%nat) d); _ ← or_store_error HCreate res; mret w) (settled1 c rt r).
Proof.
  intros Hid Hok Hcr Hann. apply post_call. intros t0.
  pose proof (extends_op (e_store e 0%nat) (OpCreate d) t0 Hok) as He. simpl in He. unfold mapr in He. simpl in He.
  destruct (Create (e_store e 0%nat) d t0) as [t1 res]. simpl in *.
  destruct res as [u|err]; simpl.
  - apply post_ret. intros t ->. eapply extends_mono; [exact He|]. intros new ->. split.
    + intros i. by rewrite no_secret.
    + intros i. rewrite occurrences_cons. change (occurrences _ []) with 0%nat. unfold created_in. simpl.
      case_bool_decide as Hi; [subst i; rewrite Hann; simpl; lia|simpl; lia].
    + by intros ck d' v [= -> -> _]%list_elem_of_singleton.
    + by intros ck i tok com ct v Hev%list_elem_of_singleton.
    + intros i. by rewrite no_secret.
  - apply post_respond. intros t ->. eapply settled_after; [exact He| |apply storeError_refused].
    intros new ->. by apply quiet_one.
Qed.

Lemma slot_announced d A B w : w_status w = StatusCreated → slot_body d A B w → announces w (ID d) = true.
Proof.
  intros Hw (a & b & x & Hb & _). unfold announces, announced. rewrite Hw, Hb. simpl. by apply bool_decide_eq_true.
Qed.

Lemma createDrop_settled c e r : post c (createDrop e r) (settled1 c RCreateDrop r).
Proof.
  unfold createDrop. silent_step @silent_agent. intros k _. silent_step @silent_decodeJSON. intros q Hq.
  silent_step @silent_reject. intros _ _. silent_step @silent_or_internal_error. intros [[id a] b] _.
  eapply post_bind; [apply silent_config|done|]. intros ? [= ->].
  set (d := mkDrop _ _ _ _ _ _ _ _ _ _ _ _ _). set (w := writeJSON _ _).
  assert (slot_body d B["upload_token"] B["fetch_token"] w) as Hb by by exists a, b; eexists.
  apply created_settled; [done|split; [by left|done]| |by eapply slot_announced].
  split; [done|]. split; [done|]. split; [done|]. eauto.
Qed.

Lemma createReveal_settled c e r : post c (createReveal e r) (settled1 c RCreateReveal r).
Proof.
  unfold createReveal. silent_step @silent_agent. intros k _. silent_step @silent_decodeJSON. intros q Hq.
  silent_step @silent_decodeCiphertext. intros ct Hct. silent_step @silent_or_internal_error. intros [[id a] b] _.
  eapply post_bind; [apply silent_config|done|]. intros ? [= ->].
  set (d := mkDrop _ _ _ _ _ _ _ _ _ _ _ _ _). set (w := writeJSON _ _).
  assert (slot_body d B["reveal_token"] B["revoke_token"] w) as Hb by by exists a, b; eexists.
  apply created_settled; [done|split; [by left|done]| |by eapply slot_announced].
  split; [done|]. split; [done|]. split; [done|]. eauto.
Qed.

Lemma settled_quiet c rt r t t' out :
  read_id c rt r = None → extends t t' quiet → settled c rt r t t' out.
Proof.
  intros Hid He. eapply extends_mono; [exact He|]. intros n Hn. destruct out as [w|[w|p]]; try done; by apply accounts_other.
Qed.

Lemma extends_none t : extends t t quiet.
Proof. apply extends_refl, quiet_nil. Qed.

Ltac silent_part L := eapply post_bind; [apply L; try done|intros; by apply settled_quiet, extends_none|].

(** Status and revoke requests begin with a look at the slot. *)
Lemma revoke_settled c e r k : post c (revokeHandler k e r) (settled c (RRevoke k) r).
Proof.
  unfold revokeHandler. silent_part @silent_limitPage. intros _ _. silent_part @silent_decodeJSON. intros q _.
  silent_part @silent_reject. intros _ _. apply post_call. intros t0.
  pose proof (extends_status (e_store e 0%nat) (sb (tk_DropID q)) t0) as Hs.
  eapply post_bind; [apply silent_or_store_error|intros w t _ ->; by apply settled_quiet|]. intros st _.
  eapply post_bind; [by apply silent_reject|intros w t _ ->; by apply settled_quiet|]. intros _ _.
  apply post_ret. intros t ->. by apply settled_quiet.
Qed.

Lemma status_settled c e r k : post c (statusHandler k e r) (settled c (RStatus k) r).
Proof.
  unfold statusHandler. silent_part @silent_limitPage. intros _ _. silent_part @silent_decodeJSON. intros q _.
  silent_part @silent_reject. intros _ _. silent_part @silent_reject. intros _ _. apply post_call. intros t0.
  pose proof (extends_status (e_store e 0%nat) (sb (st_DropID q)) t0) as Hs.
  eapply post_bind; [apply silent_or_store_error|intros w t _ ->; by apply settled_quiet|]. intros st _.
  eapply post_bind; [by apply silent_reject|intros w t _ ->; by apply settled_quiet|]. intros _ _.
  case_match; [|apply post_ret; intros t ->; by apply settled_quiet].
  eapply post_bind with (Ψ := λ _, True); [by intros ?|intros w t _ ->; by apply settled_quiet|]. intros n _.
  eapply post_bind; [apply silent_config|intros w t _ ->; by apply settled_quiet|]. intros ? [= ->].
  eapply post_bind; [by apply silent_reject|intros w t _ ->; by apply settled_quiet|]. intros _ _.
  apply post_ret. intros t ->. by apply settled_quiet.
Qed.

Lemma run_route_settled c rt e r : post c (run_route rt e r) (settled c rt r).
Proof.
  destruct rt; simpl; try (apply settled_inl).
  - apply createDrop_settled.
  - apply upload_settled.
  - apply status_settled.
  - apply fetch_settled.
  - apply revoke_settled.
  - apply createReveal_settled.
  - apply open_settled.
  - apply post_ret. intros t. by apply settled_quiet, extends_none.
  - intros s Hc. split; [done|]. by apply settled_quiet, extends_none.
  - apply post_ret. intros t. by apply settled_quiet, extends_none.
  - intros s Hc. split; [done|]. by apply settled_quiet, extends_none.
Qed.

(** No later phase puts anything into a slot or reads it. *)
Lemma proceed_quiet c p e : post c (proceed p e) (λ t t' _, extends t t' quiet).
Proof.
  destruct p as [id tok|id cur timeout|id ch|res]; simpl.
  - apply post_call. intros t0.
    assert (extends t0 (Revoke (e_store e 0%nat) id tok t0).1 quiet) as He.
    { eapply extends_mono; [apply (extends_op (e_store e 0%nat) (OpRevoke id tok) t0 I)|]. intros n ->. by apply quiet_one. }
    eapply post_bind; [apply silent_or_store_error|intros ? t _ ->; exact He|]. intros u _.
    apply post_ret. by intros t ->.
  - eapply post_bind with (Ψ := λ _, True); [by intros ?|intros; apply extends_none|]. intros _ _.
    apply post_call. intros t0. apply post_ret. intros t ->. apply extends_begin.
  - apply post_call. intros t0. apply post_ret. intros t ->. apply extends_end.
  - eapply post_bind with (Ψ := λ _, True); [by intros ?|intros; apply extends_none|]. intros _ _.
    eapply post_bind; [apply silent_or_store_error|intros; apply extends_none|]. intros st _.
    apply post_ret. intros t. apply extends_none.
Qed.
End server.
