(* ===== verification/System.v ===== *)
(** The relay at work: requests, waits in progress and sweeps in any order, on
    any store that keeps the promises of [StoreOk].  What the relay's answers
    say is compared with what the store did. *)
From S2P Require Import Prelude Base64 Tokens GoStrings GoTime Json Crypto Envelope RelayTypes StoreSpec StoreHistory RateLimit.
From S2P Require Import Config Server Handlers HandlersInv.
From Stdlib Require Import Strings.Byte.

Section system.
Context {T : Type} `{StoreOk T} `{Buckets} `{Unicode}.
Context (c : Config) (o : StoreOptions).

Abbreviation handler := (Server.handler T).

(** * Runs *)

(** An answered request. *)
Record answer := mkAnswer { a_request : Request; a_response : Response }.

(** The server, the requests under way, the requests answered so far (the
    latest first). *)
Record System := mkSystem { server : Server T; jobs : list (Request * job); answers : list answer }.

(** A request that has reached an answer or its next phase. *)
Definition record (r : Request) (s : Server T) (out : Response + job) (js : list (Request * job)) (l : list answer) : System :=
  match out with
  | inl w => mkSystem s js (mkAnswer r w :: l)
  | inr j => mkSystem s ((r, j) :: js) l
  end.

Inductive system_step : System → System → Prop :=
  | sys_request e r s s' out js l :
      Handler e r s = (s', Some out) → system_step (mkSystem s js l) (record r s' out js l)
  | sys_unrouted e r s s' js l :
      Handler e r s = (s', None) → system_step (mkSystem s js l) (mkSystem s' js l)
  | sys_resume e r j s s' out js js' l :
      js ≡ₚ (r, j) :: js' → Handler_resume e j s = (s', out) →
      system_step (mkSystem s js l) (record r s' out js' l)
  | sys_sweep e s js l :
      system_step (mkSystem s js l) (mkSystem (sweep_tick e s) js l).

Definition starts (a : System) : Prop :=
  jobs a = [] ∧ answers a = [] ∧
  ∃ st pg v now, server a = New c st pg v now ∧ st_inv st ∧ st_abs st = spec_init o.

Inductive system_reaches : System → Prop :=
  | sr_start a : starts a → system_reaches a
  | sr_step a b : system_reaches a → system_step a b → system_reaches b.

(** * What the answers say *)

Definition route_for (r : Request) : option route := route_of (ServePage c) (r_Method r) (r_Path r).

(** The answer hands out the secret of slot [id]. *)
Definition serves (id : string) (a : answer) : bool :=
  match route_for (a_request a) with
  | Some rt => serves_secret c rt (a_request a) (a_response a) id
  | None => false
  end.

Definition count (P : answer → bool) (l : list answer) : nat := length (filter (λ a, P a = true) l).

(** The answer announces slot [d] / acknowledges an upload. *)
Definition created_by (d : RelayTypes.Drop) (a : answer) : Prop :=
  ∃ rt, route_for (a_request a) = Some rt ∧ creates c rt (a_request a) (a_response a) d.

Definition uploaded_by (id : string) (tok : Hash) (com : string) (ct : bytes) (a : answer) : Prop :=
  ∃ rt, route_for (a_request a) = Some rt ∧ uploads c rt (a_request a) (a_response a) id tok com ct.

(** Where a ciphertext that was handed out comes from. *)
Definition sourced (l : list answer) (a : answer) (id : string) : Prop :=
  ∃ rt tok ct d, route_for (a_request a) = Some rt ∧
    hands_out c rt (a_request a) (a_response a) id tok ct ∧
    ID d = id ∧ Exists (created_by d) l ∧
    match rt with
    | RFetch => dKind d = KindDrop ∧ TokenB d = tok ∧ Exists (uploaded_by id (TokenA d) (dCommitment d) ct) l
    | _ => dKind d = KindReveal ∧ TokenA d = tok ∧ Ciphertext d = ct
    end.

(** * The invariant *)

(** The answers [l] account for the history [h] of the store. *)
Record explains (h : list event) (l : list answer) : Prop := {
  ex_reads id : (count (serves id) l <= occurrences (read_in id) h)%nat;
  ex_created id : (occurrences (created_in id) h <= count (λ a, announces (a_response a) id) l)%nat;
  ex_creates ck d u : mkEvent ck (OpCreate d) (RUnit (Ok u)) ∈ h → Exists (created_by d) l;
  ex_uploads ck id tok com ct u :
    mkEvent ck (OpUpload id tok com ct) (RUnit (Ok u)) ∈ h → Exists (uploaded_by id tok com ct) l;
  ex_sourced a id : a ∈ l → serves id a = true → sourced l a id;
}.

Lemma explains_nil : explains [] [].
Proof.
  split; [done|done|..].
  - intros ck d u Hd. by apply elem_of_nil in Hd.
  - intros ck id tok com ct u Hd. by apply elem_of_nil in Hd.
  - intros a id Ha. by apply elem_of_nil in Ha.
Qed.

Lemma count_cons P a l : count P (a :: l) = (b2n (P a) + count P l)%nat.
Proof. unfold count. rewrite filter_cons. by destruct (P a). Qed.

Lemma explains_quiet h new l : quiet new → explains h l → explains (new ++ h) l.
Proof.
  intros Hq [Hr Hc Hcr Hup Hs]. split; [|..|done].
  - intros id. rewrite occurrences_app. specialize (Hr id). lia.
  - intros id. rewrite occurrences_app, quiet_created by done. apply Hc.
  - intros ck d u [Hin|Hin]%elem_of_app; [by specialize (Hq _ Hin)|eauto].
  - intros ck id tok com ct u [Hin|Hin]%elem_of_app; [by specialize (Hq _ Hin)|eauto].
Qed.

Lemma sourced_mono a' l a id : sourced l a id → sourced (a' :: l) a id.
Proof.
  intros (rt & tok & ct & d & Hrt & Hout & Hid & Hcr & Hrest). exists rt, tok, ct, d.
  split_and!; try done; [by right|]. destruct rt; try done. destruct Hrest as (? & ? & ?). split_and!; try done. by right.
Qed.

(** An answer that tells of nothing. *)
Lemma explains_refused h l a :
  (∀ id, serves id a = false) → explains h l → explains h (a :: l).
Proof.
  intros Ha [Hr Hc Hcr Hup Hs]. split.
  - intros id. rewrite count_cons, Ha. apply Hr.
  - intros id. rewrite count_cons. specialize (Hc id). lia.
  - intros ck d u Hin. right. eauto.
  - intros ck id tok com ct u Hin. right. eauto.
  - intros b id [->|Hb]%elem_of_cons Hserve; [by rewrite Ha in Hserve|]. by apply sourced_mono, Hs.
Qed.

Lemma no_route_no_secret r w id : route_for r = None → serves id (mkAnswer r w) = false.
Proof. intros Hr. unfold serves. simpl. by rewrite Hr. Qed.

(** The answer of a route, with the events behind it. *)
Lemma explains_accounts h new l rt r w s :
  route_for r = Some rt → accounts c rt r w new → reaches op_ok (spec_init o) (new ++ h) s →
  explains h l → explains (new ++ h) (mkAnswer r w :: l).
Proof.
  intros Hrt [Ar Ac Acr Aup As] Hrun Hex.
  assert (∀ id, serves id (mkAnswer r w) = serves_secret c rt r w id) as Hserves.
  { intros id. unfold serves. simpl. by rewrite Hrt. }
  pose proof Hex as [Hr Hc Hcr Hup Hs]. split.
  - intros id. rewrite count_cons, occurrences_app, Hserves. specialize (Ar id). specialize (Hr id). lia.
  - intros id. rewrite count_cons, occurrences_app. simpl. specialize (Ac id). specialize (Hc id). lia.
  - intros ck d u [Hin|Hin]%elem_of_app; [left; exists rt; eauto|right; eauto].
  - intros ck id tok com ct u [Hin|Hin]%elem_of_app; [left; exists rt; eauto|right; eauto].
  - intros a id [->|Ha]%elem_of_cons Hsv; [|by apply sourced_mono, Hs].
    apply sourced_mono. rewrite Hserves in Hsv. destruct (As id Hsv) as (ck & tok & ct & u & -> & Hout).
    destruct rt; try by destruct Hout.
    + destruct (run_fetch o _ _ _ _ _ _ _ Hrun) as (d & ck0 & ck1 & Hd & Hid & Hk & Ht & _ & Hu & _).
      exists RFetch, tok, ct, d. split_and!; eauto.
    + destruct (run_open o _ _ _ _ _ _ _ Hrun) as (d & ck0 & Hd & Hid & Hk & Ht & _ & Hu & _).
      exists ROpen, tok, ct, d. split_and!; eauto.
Qed.

(** Headers change nothing of that. *)
Lemma slot_body_headers d A B hs w : slot_body d A B w → slot_body d A B (add_headers hs w).
Proof. done. Qed.

Lemma accounts_headers rt r hs w new : accounts c rt r w new → accounts c rt r (add_headers hs w) new.
Proof. intros [Hr Ha Hc Hu Hs]. by split. Qed.

(** * Waiters *)

(** A handler that leaves the count of waiters and the configuration alone. *)
Definition steady {A} (m : handler A) : Prop :=
  ∀ s, cfg (m s).1 = cfg s ∧ waiters (m s).1 = waiters s.

(** The phases that the counter counts. *)
Definition counts (p : phase) : Z := match p with PWait _ _ | PAnswered _ => 1 | _ => 0 end.

Definition counts_out (out : Response + phase) : Z := match out with inl _ => 0 | inr p => counts p end.

(** A handler after which the counter has gone up by what counts. *)
Definition counted (m : handler (Response + phase)) : Prop :=
  ∀ s, waiters (m s).1 = waiters s + counts_out (outcome (m s).2).

Lemma steady_bind {A B} (m : handler A) (f : A → handler B) :
  steady m → (∀ a, steady (f a)) → steady (m ≫= f).
Proof.
  intros Hm Hf s. destruct (Hm s) as [Hc Hw]. unfold mbind, handler_bind.
  destruct (m s) as [s' [w|a]]; [done|]. destruct (Hf a s') as [Hc' Hw']. simpl in *. by rewrite Hc', Hw'.
Qed.

Lemma counted_bind {A} (m : handler A) (f : A → handler (Response + phase)) :
  steady m → (∀ a, counted (f a)) → counted (m ≫= f).
Proof.
  intros Hm Hf s. destruct (Hm s) as [Hc Hw]. unfold mbind, handler_bind.
  destruct (m s) as [s' [w|a]]; simpl in *; [lia|]. specialize (Hf a s'). by rewrite Hw in Hf.
Qed.

Lemma counted_answer w : counted (mret (inl w)).
Proof. intros s. simpl. lia. Qed.

Lemma steady_ret {A} (a : A) : steady (mret a).
Proof. done. Qed.
Lemma steady_respond {A} w : steady (respond (A := A) w).
Proof. done. Qed.
Lemma steady_config : steady config.
Proof. done. Qed.
Lemma steady_reject ok w : steady (reject_unless ok w).
Proof. by destruct ok. Qed.
Lemma steady_call {A} (f : T → T * A) : steady (call_store f).
Proof. intros s. unfold call_store. by destruct (f (store s)). Qed.
Lemma steady_store_error {A} op (res : result store_error A) : steady (or_store_error op res).
Proof. by destruct res. Qed.
Lemma steady_internal_error {A} (res : result crypto_error A) : steady (or_internal_error res).
Proof. by destruct res. Qed.
Lemma steady_limitPage e r : steady (limitPage e r).
Proof. intros s. unfold limitPage. by destruct (Allow _ _ _). Qed.
Lemma steady_limitAgent e r k : steady (limitAgent e r k).
Proof. intros s. unfold limitAgent. by destruct (Allow _ _ _). Qed.
Lemma steady_decodeJSON {R} (fields : list (bytes * setter R)) zero r : steady (decodeJSON fields zero r).
Proof. intros s. unfold decodeJSON. apply steady_bind; [apply steady_config|]. intros a. clear s. by repeat case_match. Qed.
Lemma steady_decodeCiphertext enc n : steady (decodeCiphertext enc n).
Proof. apply steady_bind; [apply steady_config|]. intros a. by repeat case_match. Qed.

Hint Resolve steady_ret steady_respond steady_config steady_reject steady_call steady_store_error
  steady_internal_error steady_limitPage steady_limitAgent steady_decodeJSON steady_decodeCiphertext : steady.

Lemma steady_agent e r : steady (agent e r).
Proof.
  apply steady_bind; [auto with steady|]. intros a. destruct (authenticate a r).
  repeat (apply steady_bind; [auto with steady|intros ?]). auto with steady.
Qed.
Hint Resolve steady_agent : steady.

Ltac steadily := repeat (apply steady_bind; [auto with steady|intros ?]); auto with steady.

Lemma steady_created e r : steady (createDrop e r) ∧ steady (createReveal e r).
Proof.
  split; repeat (apply steady_bind; [auto with steady|intros ?]); repeat case_match; steadily.
Qed.

Lemma steady_upload e r : steady (upload e r).
Proof. unfold upload. steadily. Qed.

Lemma steady_reads e r : steady (fetch e r) ∧ steady (open e r).
Proof.
  split; repeat (apply steady_bind; [auto with steady|intros ?]); repeat case_match; steadily.
Qed.

Lemma counted_steady (m : handler Response) : steady m → counted (w ← m; mret (inl w)).
Proof. intros Hm. apply counted_bind; [done|]. intros a. apply counted_answer. Qed.

Lemma steady_waiters : steady current_waiters.
Proof. done. Qed.
Hint Resolve steady_waiters : steady.

Lemma counted_status k e r : counted (statusHandler k e r).
Proof.
  unfold statusHandler. repeat (apply counted_bind; [auto with steady|intros ?]).
  case_match; [|apply counted_answer].
  repeat (apply counted_bind; [auto with steady|intros ?]). intros s. simpl. lia.
Qed.

Lemma counted_revoke k e r : counted (revokeHandler k e r).
Proof. unfold revokeHandler. repeat (apply counted_bind; [auto with steady|intros ?]). intros s. simpl. lia. Qed.

Lemma counted_route rt e r : counted (run_route rt e r).
Proof.
  destruct rt; simpl; try (apply counted_steady); try apply counted_answer; try (intros s; simpl; lia).
  - apply steady_created.
  - apply steady_upload.
  - apply counted_status.
  - apply steady_reads.
  - apply counted_revoke.
  - apply steady_created.
  - apply steady_reads.
Qed.

Lemma proceed_counted p e s : waiters (proceed p e s).1 = waiters s + counts_out (outcome (proceed p e s).2) - counts p.
Proof.
  destruct p as [id tok|id cur timeout|id ch|res]; simpl; unfold mbind, handler_bind, call_store, count_waiters.
  - destruct (Revoke _ _ _ _) as [t [u|err]]; simpl; lia.
  - simpl. destruct (WaitBegin _ _ _ _ _) as [t [res|ch]]; simpl; lia.
  - destruct (WaitEnd _ _ _ _) as [t res]; simpl; lia.
  - destruct res; simpl; lia.
Qed.

(** * Every reachable system is accounted for *)

(** How many of the requests under way the counter counts. *)
Definition counted_jobs (js : list (Request * job)) : Z :=
  foldr (λ x n, counts (job_phase x.2) + n) 0 js.

Lemma counted_jobs_perm js js' : js ≡ₚ js' → counted_jobs js = counted_jobs js'.
Proof. unfold counted_jobs. induction 1; simpl in *; [done|lia|lia|congruence]. Qed.

Record system_ok (a : System) : Prop := {
  so_config : cfg (server a) = c;
  so_waiters : waiters (server a) = counted_jobs (jobs a);
  so_jobs r j : (r, j) ∈ jobs a → ∃ rt, route_for r = Some rt ∧ read_id c rt r = None;
  so_history : ∃ h, store_at o h (store (server a)) ∧ explains h (answers a);
}.

(** A middleware that stops a request refuses it. *)
Lemma middleware_ok e r (s s' : Server T) out :
  middleware e r s = (s', out) → cfg s' = cfg s ∧ waiters s' = waiters s ∧ store s' = store s ∧
  match out with inl w => refused w | inr _ => True end.
Proof. unfold middleware, cors. intros Hm. by repeat (case_match; simplify_eq/=). Qed.

Lemma middleware_status e r (s s' : Server T) w :
  middleware e r s = (s', inl w) →
  cfg s' = cfg s ∧ store s' = store s ∧ (w_status w = StatusTooManyRequests ∨ w_status w = StatusForbidden).
Proof. unfold middleware, cors. intros Hm. repeat (case_match; simplify_eq/=); auto. Qed.

Lemma serve_ok rt e r s s' out :
  cfg s = c → serve rt e r s = (s', out) →
  cfg s' = c ∧
  extends (store s) (store s') (λ new, match out with inl w => accounts c rt r w new | inr _ => quiet new end) ∧
  waiters s' = waiters s + counts_out out.
Proof.
  intros Hc. unfold serve. pose proof (run_route_settled c rt e r s Hc) as [Hc' Hset].
  pose proof (counted_route rt e r s) as Hn.
  destruct (run_route rt e r s) as [s1 [w|[w|p]]]; simpl in *; intros [= <- <-]; done.
Qed.

Lemma resume_ok p e s s' out :
  cfg s = c → resume p e s = (s', out) →
  cfg s' = c ∧ extends (store s) (store s') quiet ∧ waiters s' = waiters s + counts_out out - counts p.
Proof.
  intros Hc. unfold resume. pose proof (proceed_quiet c p e s Hc) as [Hc' Hq].
  pose proof (proceed_counted p e s) as Hn.
  destruct (proceed p e s) as [s1 out1]; simpl in *; intros [= <- <-]; done.
Qed.

(** Only status and revoke requests have a second phase. *)
Lemma phase_reads_nothing rt e r s s' p : run_route rt e r s = (s', inr (inr p)) → read_id c rt r = None.
Proof.
  assert (∀ m : handler Response, (w ← m; mret (inl w)) s ≠ (s', inr (inr p))) as Hm.
  { intros m. unfold mbind, handler_bind. by destruct (m s) as [? []]. }
  destruct rt; simpl; try done; intros Hr; by apply Hm in Hr.
Qed.

Lemma so_step_history (s s' : T) l l' (P : list event → Prop) :
  extends s s' P → (∀ h new st, P new → reaches op_ok (spec_init o) (new ++ h) st → explains h l → explains (new ++ h) l') →
  (∃ h, store_at o h s ∧ explains h l) → ∃ h, store_at o h s' ∧ explains h l'.
Proof. intros Hx Hl (h & Hst & Hex). destruct (Hx o h Hst) as (new & [Hi Hr] & HP). exists (new ++ h). split; [done|eauto]. Qed.

Lemma extends_sweep ck t : extends t (Sweep ck t).1 quiet.
Proof. eapply extends_mono; [apply (extends_op ck OpSweep t I)|]. intros n ->. by apply quiet_one. Qed.

Lemma refused_silent r w id : refused w → serves id (mkAnswer r w) = false.
Proof.
  intros [Hw _]. unfold serves. case_match; [|done]. unfold serves_secret. simpl.
  by destruct (Z.eqb_spec (w_status w) StatusOK).
Qed.

(** A request moves on from a consistent state. *)
Lemma record_ok r rt s s' hs out js l n :
  route_for r = Some rt → cfg s' = c →
  waiters s' = n + counts_out out → n = counted_jobs js →
  (∀ r j, (r, j) ∈ js → ∃ rt, route_for r = Some rt ∧ read_id c rt r = None) →
  (∃ h, store_at o h s ∧ explains h l) →
  extends s (store s') (λ new, match out with inl w => accounts c rt r w new | inr _ => quiet new end) →
  (∀ p, out = inr p → read_id c rt r = None) →
  system_ok (record r s' (under_way hs out) js l).
Proof.
  intros Hrt Hc Hw Hn Hjs Hh Hx Hp. destruct out as [w|p]; split; simpl in *; try done.
  - lia.
  - eapply so_step_history; [exact Hx| |done]. intros h new st Hacc Hrun Hex.
    eapply explains_accounts; [done|by apply accounts_headers|done|done].
  - unfold counted_jobs in *. simpl. lia.
  - intros r0 j0 [[= -> ->]|Hin]%elem_of_cons; [|by eapply Hjs]. exists rt. split; [done|]. by eapply Hp.
  - eapply so_step_history; [exact Hx| |done]. intros h new st Hq Hrun Hex. by apply explains_quiet.
Qed.

Lemma Handler_ok e r s s' out js l :
  Handler e r s = (s', out) → system_ok (mkSystem s js l) →
  system_ok match out with Some out => record r s' out js l | None => mkSystem s' js l end.
Proof.
  unfold Handler. intros Hh [Hc Hw Hjs Hh0]. simpl in *.
  destruct (middleware e r s) as [s1 [w|hs]] eqn:Em; apply middleware_ok in Em as (Hc1 & Hw1 & Hst1 & Hout).
  - injection Hh as <- <-. split; simpl; rewrite ?Hc1, ?Hw1, ?Hst1; try done.
    destruct Hh0 as (h & Hst & Hex). exists h. split; [done|]. apply explains_refused; [|done].
    intros id. by apply refused_silent.
  - rewrite Hc in Hc1. rewrite Hc1 in Hh. fold (route_for r) in Hh. destruct (route_for r) as [rt|] eqn:Hrt.
    2:{ injection Hh as <- <-. split; simpl; rewrite ?Hc1, ?Hw1, ?Hst1; done. }
    destruct (serve rt e r s1) as [s2 out2] eqn:Es. injection Hh as <- <-.
    pose proof (serve_ok rt e r s1 s2 out2 Hc1 Es) as (Hc2 & Hx & Hn). rewrite Hst1 in Hx. rewrite Hw1 in Hn.
    eapply record_ok; try done. intros p ->. unfold serve in Es.
    destruct (run_route rt e r s1) as [s3 [w|[w|x]]] eqn:Er; simplify_eq/=. by eapply phase_reads_nothing.
Qed.

Lemma Handler_resume_ok e r j s s' out js js' l :
  js ≡ₚ (r, j) :: js' → Handler_resume e j s = (s', out) → system_ok (mkSystem s js l) →
  system_ok (record r s' out js' l).
Proof.
  intros Hp Hr [Hc Hw Hjs Hh]. simpl in *. unfold Handler_resume in Hr.
  destruct (resume (job_phase j) e s) as [s1 out1] eqn:Er. simplify_eq/=.
  destruct (resume_ok (job_phase j) e s s' out1 Hc Er) as (Hc2 & Hx & Hn).
  destruct (Hjs r j) as (rt & Hrt & Hid); [by rewrite Hp; left|].
  apply (record_ok r rt (store s) s' _ out1 js' l (waiters s - counts (job_phase j))); try done.
  - lia.
  - rewrite Hw, (counted_jobs_perm _ _ Hp). unfold counted_jobs. simpl. lia.
  - intros r0 j0 Hin. apply (Hjs r0 j0). rewrite Hp. by right.
  - eapply extends_mono; [exact Hx|]. intros n Hq. destruct out1; [by apply accounts_other|done].
Qed.

Lemma system_step_ok a b : system_step a b → system_ok a → system_ok b.
Proof.
  destruct 1 as [e r s s' out js l Hh|e r s s' js l Hh|e r j s s' out js js' l Hp Hr|e s js l]; intros Hok.
  - exact (Handler_ok e r s s' (Some out) js l Hh Hok).
  - exact (Handler_ok e r s s' None js l Hh Hok).
  - by eapply Handler_resume_ok.
  - destruct Hok as [Hc Hw Hjs Hh]. split; try done. simpl in *.
    eapply so_step_history; [apply extends_sweep| |done]. intros h new st Hq Hrun Hex. by apply explains_quiet.
Qed.

Lemma system_reaches_ok a : system_reaches a → system_ok a.
Proof.
  induction 1 as [a (Hp & Hl & st & pg & v & now & Hs & Hi & Habs)|a b Ha IH Hst]; [|by eapply system_step_ok].
  split; rewrite ?Hp, ?Hl, ?Hs; simpl; try done; [by intros ? ? ?%elem_of_nil|].
  exists []. split; [|apply explains_nil]. split; [done|]. rewrite Habs. constructor.
Qed.
End system.
