(* ===== verification/SystemProps.v ===== *)
(** The relay with its memory store: what a client can conclude from the
    relay's answers, and what the relay refuses. *)
From S2P Require Import Prelude Base64 Tokens GoStrings GoTime Json Crypto Envelope RelayTypes StoreSpec StoreHistory Memory.
From S2P Require Import MemoryInv GoFloat RateLimit Config Server Handlers HandlersInv System.
From Stdlib Require Import Strings.Byte.

(** * The memory store keeps the promises *)

#[export] Instance memory_wait : StoreWait Memory := { WaitBegin := Wait_begin; WaitEnd := Wait_end }.

Lemma get_status ck id m :
  Inv m → Inv (get ck id m).1 ∧ ∃ r, run_op ck (OpStatus id) (abs m) = (abs (get ck id m).1, r).
Proof.
  intros HI. destruct (memory_step ck (OpStatus id) m (abs m) I (conj HI eq_refl)) as (_ & HI' & Habs).
  assert ((run_op ck (OpStatus id) m).1 = (get ck id m).1) as Heq.
  { simpl. unfold mapr, mem_Status. by destruct (get ck id m) as [m' []]. }
  rewrite Heq in HI', Habs. split; [done|]. exists (run_op ck (OpStatus id) (abs m)).2.
  rewrite <- Habs. by destruct (run_op _ _ _).
Qed.

(** The waiters are not part of what the store promises. *)
Lemma Inv_waiters m ws sg n :
  Inv m → Inv (mkMemory (opts m) (drops m) ws (timers m) (mlive m) (mbytes m) sg n).
Proof. by intros []. Qed.

#[export] Program Instance memory_ok : StoreOk Memory := { st_inv := Inv; st_abs := abs }.
Next Obligation.
  intros ck p m Hok HI. destruct (memory_step ck p m (abs m) Hok (conj HI eq_refl)) as (Hr & HI' & Habs).
  split; [done|]. rewrite <- Habs, Hr. by destruct (run_op ck p (abs m)).
Qed.
Next Obligation.
  intros ck id cur timeout m HI. pose proof (get_status ck id m HI) as [HI' Hr]. unfold WaitBegin, memory_wait, Wait_begin.
  destruct (get ck id m) as [m' [d|]]; simpl in *; [|done]. case_match; simpl; [done|].
  split; [by apply Inv_waiters|done].
Qed.
Next Obligation.
  intros ck id ch m HI. unfold WaitEnd, memory_wait, Wait_end.
  set (m0 := mkMemory (opts m) _ _ _ _ _ _ _).
  assert (Inv m0) as HI0 by by apply Inv_waiters.
  pose proof (get_status (λ k, ck (S k)) id m0 HI0) as [HI' [r Hr]].
  destruct (get _ id m0) as [m' [d|]]; simpl in *; eauto.
Qed.

Section props.
Context `{Buckets} `{Unicode}.

Section runs.
Context (c : Config) (o : StoreOptions) (a : System (T := Memory)).
Context (Hrun : system_reaches c o a).

(** C1. A secret is handed out at most once.  Whatever requests arrive, in whatever
    order, with waits and sweeps in between: the answers that hand out the
    secret of a slot are at most as many as the answers that announced a slot
    of that name, so a name that was drawn once is served once. *)
Theorem relay_serves_once id :
  (count (serves c id) (answers a) <= count (λ x, announces (a_response x) id) (answers a))%nat.
Proof using Hrun.
  destruct (so_history _ _ _ (system_reaches_ok c o a Hrun)) as (h & [_ Hst] & Hex).
  pose proof (ex_reads _ _ _ Hex id). pose proof (ex_created _ _ _ Hex id).
  pose proof (run_reads_live o h _ id Hst). lia.
Qed.

(** C2. A ciphertext that the relay hands out is the one that was put into the
    slot: a fetch returns the ciphertext of an acknowledged upload to that
    slot, which presented the upload token that the creating answer announced
    and the commitment that the creating request registered, to a caller with
    the announced fetch token; an open returns the ciphertext of the request
    that created the reveal, to a caller with the announced reveal token. *)
Theorem relay_serves_what_was_stored x id :
  x ∈ answers a → serves c id x = true → sourced c (answers a) x id.
Proof using Hrun.
  intros Hx Hs. destruct (so_history _ _ _ (system_reaches_ok c o a Hrun)) as (h & _ & Hex).
  by apply (ex_sourced _ _ _ Hex).
Qed.

(** The relay's counter of long polls is exact: it is the number of
    requests that have begun their wait and have not yet left it. *)
Theorem relay_counts_waiters : waiters (server a) = counted_jobs (jobs a).
Proof using Hrun. apply (so_waiters _ _ _ (system_reaches_ok c o a Hrun)). Qed.
End runs.

(** * Authentication *)

Lemma matching_key_snoc h keys k :
  matching_key h (keys ++ [k]) = if decide (ak_Hash k = h) then ak_ID k else matching_key h keys.
Proof. unfold matching_key. rewrite foldl_app. simpl. rewrite HashEqual_dec. by repeat case_decide. Qed.

Lemma matching_key_in h keys :
  matching_key h keys ≠ "" → ∃ k, k ∈ keys ∧ ak_Hash k = h ∧ ak_ID k = matching_key h keys.
Proof.
  induction keys as [|k keys IH] using rev_ind; [done|]. rewrite matching_key_snoc. case_decide as Hk.
  - intros _. exists k. split; [apply elem_of_app; right; by left|done].
  - intros (k' & ? & ? & ?)%IH. exists k'. split; [apply elem_of_app; by left|done].
Qed.

Lemma matching_key_found h keys k :
  Forall (λ k, ak_ID k ≠ "") keys → k ∈ keys → ak_Hash k = h → matching_key h keys ≠ "".
Proof.
  induction keys as [|k' keys IH] using rev_ind; [by intros _ ?%elem_of_nil|].
  rewrite matching_key_snoc. intros HF. apply Forall_app in HF as [Hks Hk']. apply Forall_cons in Hk' as [Hk' _]. case_decide; [done|].
  intros [Hin|Hin]%elem_of_app; [by apply IH|by apply list_elem_of_singleton in Hin as ->].
Qed.

(** The request presents a key with hash [h]. *)
Definition presents (r : Request) (h : Hash) : Prop :=
  let header := r_Header r B["Authorization"] in
  let token := TrimSpace (drop (length bearer_prefix) header) in
  zlen bearer_prefix < zlen header ∧ EqualFold (take (length bearer_prefix) header) bearer_prefix = true ∧
  16 <= zlen token <= 256 ∧ HashToken (sb token) = h.

(** A request is authenticated as agent [k] only if it presents, after
    "Bearer" in any case, a key of 16 to 256 bytes whose hash is the one
    configured for [k]; and whoever presents such a key is authenticated. *)
Theorem bearerID_ok c r :
  Forall (λ k, ak_ID k ≠ "") (AgentKeys c) →
  (∀ id, bearerID c r = (id, true) → ∃ k, k ∈ AgentKeys c ∧ ak_ID k = id ∧ presents r (ak_Hash k)) ∧
  (∀ k, k ∈ AgentKeys c → presents r (ak_Hash k) → (bearerID c r).2 = true).
Proof.
  intros Hids. unfold bearerID, presents. cbv zeta. set (header := r_Header r _).
  set (token := TrimSpace _). split.
  - intros id. case_match eqn:E1; [done|]. case_match eqn:E2; [done|]. intros [= Hid Hne]. breflect.
    apply matching_key_in in Hne as (k & Hk & Hh & Hkid). exists k. split_and!; try done; try lia; congruence.
  - intros k Hk (Hlen & Hb & Htok & Hh). rewrite Hb.
    destruct (Z.leb_spec (zlen header) (zlen bearer_prefix)); [lia|]. simpl.
    destruct (Z.ltb_spec (zlen token) 16); [lia|]. destruct (Z.ltb_spec 256 (zlen token)); [lia|]. simpl.
    apply negb_true_iff, bool_decide_eq_false. by eapply matching_key_found.
Qed.

(** The endpoints of the agent. *)
Definition agent_route (rt : route) : bool :=
  match rt with RCreateDrop | RFetch | RCreateReveal => true | _ => false end.

(** C27. Without authentication the agent's endpoints do nothing: a request to
    create or to fetch that does not authenticate is answered (401, or 429 or
    403 before it gets there), and the store is as it was. *)
Theorem unauthenticated_refused e r s rt id :
  route_of (ServePage (cfg s)) (r_Method r) (r_Path r) = Some rt → agent_route rt = true →
  authenticate (cfg s) r = (id, false) →
  ∃ s' w, Handler e r s = (s', Some (inl w)) ∧ store s' = store s ∧
    w_status w ∈ [StatusUnauthorized; StatusForbidden; StatusTooManyRequests].
Proof.
  intros Hrt Hag Hauth. unfold Handler. 
  destruct (middleware e r s) as [s1 [w|hs]] eqn:Em.
  - apply middleware_status in Em as (_ & Hst & Hw). exists s1, w. split_and!; [done|done|]. set_solver.
  - pose proof (middleware_ok e r s s1 _ Em) as (Hc & _ & Hst & _). rewrite Hc, Hrt.
    unfold serve. destruct rt; try done; simpl; unfold createDrop, fetch, createReveal, agent, mbind, handler_bind, config;
      simpl; rewrite Hc, Hauth; simpl; eexists _, _; split_and!; [done|done|left|done|done|left|done|done|left].
Qed.
End props.

(** * A concrete run: a drop is created, filled, and fetched twice *)

#[local] Existing Instance countdown.
#[local] Existing Instance config_ascii.

(** Requests one after the other, and the next phase of the one that came last. *)
Inductive move := Send (e : Env) (r : Request) | Next (e : Env) (i : nat).

Definition drive1 (a : System (T := Memory)) (x : move) : System :=
  match x with
  | Send e r =>
      match Handler e r (server a) with
      | (s, Some out) => record r s out (jobs a) (answers a)
      | (s, None) => mkSystem s (jobs a) (answers a)
      end
  | Next e i =>
      match jobs a !! i with
      | Some (r, j) =>
          let '(s, out) := Handler_resume e j (server a) in
          record r s out (delete i (jobs a)) (answers a)
      | None => a
      end
  end.

Lemma drive_reaches c o a xs : system_reaches c o a → system_reaches c o (foldl drive1 a xs).
Proof.
  revert a. induction xs as [|x xs IH]; intros a Ha; [done|]. apply IH.
  destruct a as [s ps l], x as [e r|e i]; simpl.
  - eapply sr_step; [exact Ha|]. destruct (Handler e r s) as [s' [out|]] eqn:E; [by eapply sys_request|by eapply sys_unrouted].
  - destruct (ps !! i) as [[r j]|] eqn:Ei; [|done]. eapply sr_step; [exact Ha|].
    destruct (Handler_resume e j s) as [s' out] eqn:E. eapply sys_resume; [|exact E]. by apply delete_Permutation.
Qed.

Definition sample_env (sec : Z) (b : byte) : Env :=
  mkEnv (sec * Second) (sec * Second) (sec * Second) (λ _ _, sec * Second)
    (λ k n, Some (replicate (Z.to_nat n) (if bool_decide (k = 0%nat) then b else if bool_decide (k = 1%nat) then x01 else x02))).

Definition sample_headers (key : bytes) (name : bytes) : bytes :=
  if beq name B["Authorization"] then (if is_empty key then [] else B["bearer "] ++ key)
  else if beq name B["Content-Type"] then B["application/json; charset=utf-8"]
  else if beq name ClientHeader then B["cli/1"] else [].

Definition sample_post (key path : bytes) (ms : list (bytes * wvalue)) : Request :=
  mkRequest B["POST"] [] path false B["192.0.2.1:4000"] (sample_headers key) (write_object ms).

Definition sample_tok (b : byte) : bytes := encode (replicate 16 b).
Definition sample_com : bytes := bs (Commitment (replicate 32 x07)).
Definition sample_ciphertext : bytes := replicate 304 x05.

Definition sample_agent : bytes := B["0123456789abcdef"].
Definition req_create : Request :=
  sample_post sample_agent B["/api/v1/drops"] [(B["ttl_seconds"], WInt 3600); (B["commitment"], WStr sample_com)].
Definition req_upload : Request :=
  sample_post [] B["/api/v1/drops/upload"]
    [(B["drop_id"], WStr (sample_tok x00)); (B["upload_token"], WStr (sample_tok x01)); (B["commitment"], WStr sample_com);
     (B["ciphertext"], WStr (encode sample_ciphertext))].
Definition req_fetch : Request :=
  sample_post sample_agent B["/api/v1/drops/fetch"]
    [(B["drop_id"], WStr (sample_tok x00)); (B["fetch_token"], WStr (sample_tok x02))].
Definition req_poll : Request :=
  sample_post [] B["/api/v1/drops/status"]
    [(B["drop_id"], WStr (sample_tok x00)); (B["wait_seconds"], WInt 20)].

Definition sample_options : StoreOptions := mkOptions 10 100000 Hour.
Definition sample_start : System :=
  mkSystem (New sample_config (NewMemory sample_options) None [] 0) [] [].

Lemma sample_starts : system_reaches sample_config sample_options sample_start.
Proof.
  apply sr_start. split; [done|]. split; [done|]. exists (NewMemory sample_options), None, [], 0.
  split; [done|]. split; [by apply NewMemory_Inv|done].
Qed.

Definition sample_run : System :=
  foldl drive1 sample_start
    [Send (sample_env 100 x00) req_create; Send (sample_env 101 x00) req_poll; Next (sample_env 101 x00) 0;
     Send (sample_env 102 x00) req_upload; Send (sample_env 103 x00) req_fetch; Send (sample_env 104 x00) req_fetch].

Example sample_run_answers : (λ x, w_status (a_response x)) <$> answers sample_run = [410; 200; 200; 201].
Proof. vm_compute. reflexivity. Qed.

Definition sample_id : string := sb (sample_tok x00).

Lemma relay_serves_once_witness :
  (count (serves sample_config sample_id) (answers sample_run) <= 1)%nat ∧
  count (serves sample_config sample_id) (answers sample_run) = 1%nat.
Proof.
  split; [|vm_compute; reflexivity].
  assert (count (λ x, announces (a_response x) sample_id) (answers sample_run) = 1%nat) as H1 by (vm_compute; reflexivity).
  rewrite <- H1. apply (relay_serves_once sample_config sample_options sample_run).
  apply drive_reaches, sample_starts.
Defined.

Lemma relay_serves_what_was_stored_witness :
  ∃ x, x ∈ answers sample_run ∧ sourced sample_config (answers sample_run) x sample_id.
Proof.
  destruct (answers sample_run !! 1%nat) as [x|] eqn:Ex; [|vm_compute in Ex; discriminate].
  assert (x ∈ answers sample_run) as Hx by (eapply list_elem_of_lookup_2; exact Ex).
  exists x. split; [exact Hx|].
  apply (relay_serves_what_was_stored sample_config sample_options sample_run);
    [apply drive_reaches, sample_starts|exact Hx|].
  assert (serves sample_config sample_id <$> (answers sample_run !! 1%nat) = Some true) as Hs
    by (vm_compute; reflexivity).
  rewrite Ex in Hs. simpl in Hs. congruence.
Defined.

Lemma relay_counts_waiters_witness : waiters (server sample_run) = 1 ∧ length (jobs sample_run) = 1%nat.
Proof.
  rewrite (relay_counts_waiters sample_config sample_options sample_run)
    by (apply drive_reaches, sample_starts).
  split; vm_compute; reflexivity.
Defined.

Lemma bearerID_ok_witness : (bearerID sample_config req_fetch).2 = true.
Proof.
  destruct (bearerID_ok sample_config req_fetch) as [_ Hok]; [vm_compute; repeat constructor; discriminate|].
  apply (Hok (mkAgentKey "laptop" (HashToken "0123456789abcdef"))).
  - change (AgentKeys sample_config) with sample_agent_keys. rewrite format_parse_key. left.
  - split; [reflexivity|]. split; [vm_compute; reflexivity|]. split; [split; vm_compute; discriminate|vm_compute; reflexivity].
Defined.

Definition req_fetch_unkeyed : Request :=
  sample_post [] B["/api/v1/drops/fetch"]
    [(B["drop_id"], WStr (sample_tok x00)); (B["fetch_token"], WStr (sample_tok x02))].

Lemma unauthenticated_refused_witness :
  ∃ s' w, Handler (sample_env 110 x00) req_fetch_unkeyed (server sample_start) = (s', Some (inl w)) ∧
    store s' = store (server sample_start) ∧
    w_status w ∈ [StatusUnauthorized; StatusForbidden; StatusTooManyRequests].
Proof.
  apply (unauthenticated_refused (sample_env 110 x00) req_fetch_unkeyed (server sample_start) RFetch "");
    [reflexivity|reflexivity|vm_compute; reflexivity].
Defined.

(** * The limit on waiters *)

Definition one_waiter : Config :=
  mkConfig (Listen sample_config) (PublicOrigin sample_config) (PageOrigins sample_config) true Hour (24 * Hour)
    DefaultCiphertext DefaultMaxLive DefaultMaxBytes 1 B["memory"] [] B["required"] sample_agent_keys
    (of_int 60) (of_int 30) (of_int 500) [] B["info"] B["text"] false DefaultShutdownTTL.

Definition crowded : System :=
  foldl drive1 (mkSystem (New one_waiter (NewMemory sample_options) None [] 0) [] [])
    [Send (sample_env 100 x00) req_create; Send (sample_env 101 x00) req_poll; Send (sample_env 101 x00) req_poll;
     Next (sample_env 102 x00) 0; Next (sample_env 102 x00) 1].

(** The limit on waiters is not strict: the counter is read and incremented in
    two steps, so two status requests that read it before either increments it
    both wait, with a limit of one. *)
Theorem waiters_limit_raced :
  system_reaches one_waiter sample_options crowded ∧
  MaxWaiters one_waiter = 1 ∧ waiters (server crowded) = 2 ∧ length (jobs crowded) = 2%nat.
Proof.
  split; [|split; [reflexivity|vm_compute; split; reflexivity]].
  apply drive_reaches. apply sr_start. split; [done|]. split; [done|].
  exists (NewMemory sample_options), None, [], 0. split; [done|]. split; [by apply NewMemory_Inv|done].
Qed.
