(* ===== verification/Secrets.v ===== *)
(** Stored secrets on the agent's side: internal/storage/backend.go (names,
    metadata, retention, the contract of a backend), internal/storage/memory.go
    (the backend in process memory) and internal/storage/registry.go (ranking
    the backends found on a machine). *)
From S2P Require Import Prelude GoSort GoStrings GoTime.
From Stdlib Require Import Strings.Byte Sorting.Sorted.

(** * Names, policies, metadata *)

Definition RetentionSession : bytes := B["session"].
Definition RetentionUntilRevoked : bytes := B["until-revoked"].
Definition RetentionUntilPrefix : bytes := B["until:"].

Definition SourceDrop : bytes := B["drop"].
Definition SourceCapture : bytes := B["capture"].
Definition SourceImport : bytes := B["import"].

Definition MaxValueBytes : Z := 64 * 1024.

Inductive storage_error :=
  | ErrNotFound | ErrUnavailable | ErrInvalidName | ErrTooLarge | ErrPermission | ErrRetention
  | ErrOther (* an error of the system underneath, passed on *).

#[export] Instance storage_error_eq_dec : EqDecision storage_error.
Proof. solve_decision. Defined.

Definition is_alnum (b : byte) : bool := is_upper b || is_lower b || is_digit b.

(** [nameRe]: a letter or digit, then at most 99 of letters, digits, and dot,
    underscore or dash. *)
Definition name_byte (b : byte) : bool :=
  is_alnum b || bool_decide (b = x2e) || bool_decide (b = x5f) || bool_decide (b = x2d).

Definition nameRe (s : bytes) : bool :=
  match s with
  | [] => false
  | b :: s' => is_alnum b && forallb name_byte s' && (zlen s' <=? 99)
  end.

Fixpoint double_dot (s : bytes) : bool :=
  match s with
  | a :: (b :: _) as s' => (bool_decide (a = x2e) && bool_decide (b = x2e)) || double_dot s'
  | _ => false
  end.

Definition ValidateName (name : string) : result storage_error unit :=
  _ ← guard_err (nameRe (bs name)) ErrInvalidName;
  guard_err (negb (double_dot (bs name))) ErrInvalidName.

Lemma alnum_ascii b : name_byte b = true → b2z b < 128.
Proof.
  unfold name_byte, is_alnum, is_upper, is_lower, is_digit, in_range. intros H. breflect.
  repeat match goal with H : _ ∨ _ |- _ => destruct H; breflect | H : _ ∧ _ |- _ => destruct H end; subst; try lia; done.
Qed.

(** The names of secrets are plain text. *)
Lemma ValidateName_ascii name : is_ok (ValidateName name) = true → ascii (bs name).
Proof.
  unfold ValidateName. destruct (nameRe (bs name)) eqn:E; [|done]. intros _. unfold nameRe in E.
  destruct (bs name) as [|b l]; [done|]. breflect. constructor.
  - apply alnum_ascii. unfold name_byte. match goal with H : is_alnum b = true |- _ => by rewrite H end.
  - apply Forall_forall. intros c Hc. apply alnum_ascii.
    match goal with H : forallb _ _ = true |- _ => rewrite forallb_forall in H; apply H end. by apply list_elem_of_In.
Qed.

Lemma name_length name : is_ok (ValidateName name) = true → zlen (bs name) <= 100.
Proof.
  unfold ValidateName. destruct (nameRe (bs name)) eqn:E; [|done]. intros _. unfold nameRe in E.
  destruct (bs name) as [|b l]; [done|]. breflect. rewrite zlen_cons. lia.
Qed.

Lemma name_nonempty name : is_ok (ValidateName name) = true → bs name ≠ [].
Proof. unfold ValidateName. by destruct (bs name). Qed.

Record Metadata := mkMetadata {
  Name : string;
  BackendName : bytes;
  Retention : bytes;
  CreatedAt : Time;
  ExpiresAt : Time;
  Purpose : bytes;
  Source : bytes;
  Sendable : bool;
  mFingerprint : bytes;
  SizeBytes : Z;
  mKind : bytes;
}.

Definition KindSecret : bytes := [].
Definition KindPending : bytes := B["pending"].
Definition KindSent : bytes := B["sent"].

(** [Metadata.Expired] *)
Definition Expired (m : Metadata) (now : Time) : bool := negb (IsZero (ExpiresAt m)) && negb (Before now (ExpiresAt m)).

(** The expiry a policy implies, the zero time for none. *)
Definition ParseRetention (policy : bytes) (now : Time) : result storage_error Time :=
  if beq policy RetentionSession || beq policy RetentionUntilRevoked then Ok zero_time
  else if HasPrefix policy RetentionUntilPrefix then
    match Parse_RFC3339 (TrimPrefix policy RetentionUntilPrefix) with
    | None => Err ErrRetention
    | Some t => if negb (After t now) then Err ErrRetention else Ok t
    end
  else Err ErrRetention.

(** [meta.Name = name; meta.Backend = ...; meta.SizeBytes = len(value)], as
    every backend does before it stores. *)
Definition stamp (backend : bytes) (name : string) (value : bytes) (m : Metadata) : Metadata :=
  mkMetadata name backend (Retention m) (CreatedAt m) (ExpiresAt m) (Purpose m) (Source m) (Sendable m)
    (mFingerprint m) (zlen value) (mKind m).

(** * Backends *)

Record Probe := mkProbe { Available : bool; Reason : bytes; Rank : Z }.

(** The interface; a backend that changes is a backend returned. *)
Class Backend (T : Type) := {
  b_Name : bytes;
  b_Probe : T → Probe;
  b_Put : string → bytes → Metadata → T → T * result storage_error unit;
  b_Get : string → T → T * result storage_error (bytes * Metadata);
  b_Delete : string → T → T * result storage_error unit;
  b_List : T → T * result storage_error (list Metadata);
}.

(** What the interface promises: values with their metadata by name, a value
    never without its metadata, [ErrNotFound] exactly for what is not there.
    An operation that fails may leave its own name in any state, no other.
    A backend keeps its promise as long as it can read what it stored:
    [healthy] says in which states, [accepts] what may be put into them. *)
Class BackendOk (T : Type) `{Backend T} := {
  healthy : T → Prop;
  accepts : string → bytes → Metadata → T → Prop;
  view : T → gmap string (bytes * Metadata);
  put_healthy n v m t : healthy t → accepts n v m t → healthy (b_Put n v m t).1;
  put_ok n v m t : healthy t → accepts n v m t → (b_Put n v m t).2 = Ok tt →
    view (b_Put n v m t).1 = <[n := (v, stamp b_Name n v m)]> (view t);
  put_other n v m t i : healthy t → accepts n v m t → i ≠ n → view (b_Put n v m t).1 !! i = view t !! i;
  get_healthy n t : healthy t → healthy (b_Get n t).1;
  get_view n t : healthy t → view (b_Get n t).1 = view t;
  get_ok n t x : healthy t → (b_Get n t).2 = Ok x → view t !! n = Some x;
  get_not_found n t : healthy t → (b_Get n t).2 = Err ErrNotFound → view t !! n = None;
  delete_healthy n t : healthy t → healthy (b_Delete n t).1;
  delete_ok n t : healthy t → (b_Delete n t).2 = Ok tt → view (b_Delete n t).1 = delete n (view t);
  delete_not_found n t : healthy t → (b_Delete n t).2 = Err ErrNotFound →
    view t !! n = None ∧ view (b_Delete n t).1 = view t;
  delete_other n t i : healthy t → i ≠ n → view (b_Delete n t).1 !! i = view t !! i;
}.

(** A backend that reads back whatever it is given. *)
Class BackendTotal (T : Type) `{BackendOk T} : Prop := {
  always_healthy (t : T) : healthy t;
  always_accepts n v m (t : T) : accepts n v m t;
}.

(** * Lists of metadata, sorted by name *)

Definition name_less (a b : Metadata) : bool := String.ltb (Name a) (Name b).

Definition sort_by_name : list Metadata → list Metadata := sort_stable name_less.

Lemma sort_by_name_sorted l : StronglySorted (in_order name_less) (sort_by_name l).
Proof.
  apply sort_stable_sorted.
  - intros x y z. apply ltb_weak.
  - intros x y. apply ltb_asym.
Qed.

(** * The backend in process memory (memory.go) *)

Record Memory := mkMemory { entries : gmap string (bytes * Metadata) }.

Definition NewMemory : Memory := mkMemory ∅.

Definition mem_Name : bytes := B["memory"].

Definition mem_Probe (m : Memory) : Probe :=
  mkProbe true B["process memory; cleared when the process exits"] 10.

Definition mem_Put (name : string) (value : bytes) (meta : Metadata) (m : Memory) : Memory * result storage_error unit :=
  match ValidateName name with
  | Err e => (m, Err e)
  | Ok _ =>
      if MaxValueBytes <? zlen value then (m, Err ErrTooLarge)
      else (mkMemory (<[name := (value, stamp mem_Name name value meta)]> (entries m)), Ok tt)
  end.

Definition mem_Get (name : string) (m : Memory) : Memory * result storage_error (bytes * Metadata) :=
  match ValidateName name with
  | Err e => (m, Err e)
  | Ok _ => (m, match entries m !! name with Some x => Ok x | None => Err ErrNotFound end)
  end.

Definition mem_Delete (name : string) (m : Memory) : Memory * result storage_error unit :=
  match ValidateName name with
  | Err e => (m, Err e)
  | Ok _ =>
      match entries m !! name with
      | None => (m, Err ErrNotFound)
      | Some _ => (mkMemory (delete name (entries m)), Ok tt)
      end
  end.

Definition mem_List (m : Memory) : Memory * result storage_error (list Metadata) :=
  (m, Ok (sort_by_name ((λ x, x.2.2) <$> map_to_list (entries m)))).

Definition mem_Close (m : Memory) : Memory := mkMemory ∅.

#[export] Instance memory_backend : Backend Memory := {
  b_Name := mem_Name; b_Probe := mem_Probe; b_Put := mem_Put; b_Get := mem_Get; b_Delete := mem_Delete; b_List := mem_List
}.

Lemma ValidateName_error name e : ValidateName name = Err e → e = ErrInvalidName.
Proof. unfold ValidateName, guard_err. intros. by repeat case_match; simplify_eq/=. Qed.

#[export] Program Instance memory_backend_ok : BackendOk Memory := {
  healthy _ := True; accepts _ _ _ _ := True; view := entries }.
Solve Obligations with done.
Next Obligation. intros n v m t _ _. simpl. unfold mem_Put. by repeat case_match. Qed.
Next Obligation.
  intros n v m t i _ _ Hi. simpl. unfold mem_Put. repeat case_match; simpl; try done. by rewrite lookup_insert_ne.
Qed.
Next Obligation. intros n t _. simpl. unfold mem_Get. by case_match. Qed.
Next Obligation. intros n t x _. simpl. unfold mem_Get. repeat case_match; naive_solver. Qed.
Next Obligation.
  intros n t _. simpl. unfold mem_Get. destruct (ValidateName n) eqn:E; simpl; [by case_match|].
  by apply ValidateName_error in E as ->.
Qed.
Next Obligation. intros n t _. simpl. unfold mem_Delete. repeat case_match; naive_solver. Qed.
Next Obligation.
  intros n t _. simpl. unfold mem_Delete. destruct (ValidateName n) eqn:E; simpl; [by case_match|].
  by apply ValidateName_error in E as ->.
Qed.
Next Obligation.
  intros n t i _ Hi. simpl. unfold mem_Delete. repeat case_match; simpl; try done. by rewrite lookup_delete_ne.
Qed.

#[export] Instance memory_total : BackendTotal Memory.
Proof. by split. Qed.

(** * Choosing a backend (registry.go) *)

Module Registry.
Section registry.
Context {B : Type} (probe : B → Probe).

Record Candidate := mkCandidate { cBackend : B; cProbe : Probe }.

(** The loop over the candidates; [cancelled i] is the state of the context
    when the [i]-th backend that is not nil is reached. *)
Fixpoint detect_loop (cancelled : nat → bool) (i : nat) (bs : list (option B)) : list Candidate :=
  match bs with
  | [] => []
  | None :: bs => detect_loop cancelled i bs
  | Some b :: bs =>
      mkCandidate b (if cancelled i then mkProbe false B["detection cancelled"] 0 else probe b)
        :: detect_loop cancelled (S i) bs
  end.

Definition candidate_less (a b : Candidate) : bool :=
  if negb (Bool.eqb (Available (cProbe a)) (Available (cProbe b))) then Available (cProbe a)
  else Rank (cProbe b) <? Rank (cProbe a).

Definition Detect (cancelled : nat → bool) (candidates : list (option B)) : list Candidate :=
  sort_stable candidate_less (detect_loop cancelled 0 candidates).

Fixpoint Recommend (candidates : list Candidate) : option Candidate :=
  match candidates with
  | [] => None
  | c :: cs => if Available (cProbe c) then Some c else Recommend cs
  end.

(** * Correctness *)

Lemma candidate_in_order a b :
  in_order candidate_less a b ↔
  (Available (cProbe b) = true → Available (cProbe a) = true) ∧
  (Available (cProbe a) = Available (cProbe b) → Rank (cProbe b) <= Rank (cProbe a)).
Proof.
  unfold in_order, candidate_less.
  destruct (Available (cProbe a)), (Available (cProbe b)); simpl; rewrite ?Z.ltb_ge; naive_solver.
Qed.

Lemma candidates_sorted cancelled cs : StronglySorted (in_order candidate_less) (Detect cancelled cs).
Proof.
  apply sort_stable_sorted.
  - intros x y z. rewrite !candidate_in_order.
    destruct (Available (cProbe x)), (Available (cProbe y)), (Available (cProbe z)); naive_solver lia.
  - intros x y Hxy. apply candidate_in_order. unfold candidate_less in Hxy.
    destruct (Available (cProbe x)), (Available (cProbe y)); simpl in *; breflect; split; try done; lia.
Qed.

Lemma Recommend_sorted l :
  StronglySorted (in_order candidate_less) l →
  match Recommend l with
  | Some c => c ∈ l ∧ Available (cProbe c) = true ∧
      ∀ d, d ∈ l → Available (cProbe d) = true → Rank (cProbe d) <= Rank (cProbe c)
  | None => ∀ d, d ∈ l → Available (cProbe d) = false
  end.
Proof.
  induction 1 as [|c l Hl IH Hc]; simpl; [by intros d ?%elem_of_nil|].
  destruct (Available (cProbe c)) eqn:E.
  - split; [by left|]. split; [done|]. intros d [->|Hd]%elem_of_cons Hav; [lia|].
    eapply Forall_forall in Hc; [|exact Hd]. apply candidate_in_order in Hc as [_ Hr]. apply Hr. congruence.
  - assert (∀ d, d ∈ l → Available (cProbe d) = false) as Hno.
    { intros d Hd. eapply Forall_forall in Hc; [|exact Hd]. apply candidate_in_order in Hc as [Hr _].
      destruct (Available (cProbe d)); [|done]. specialize (Hr eq_refl). congruence. }
    destruct (Recommend l) as [d|]; [destruct IH as (Hd & Hav & _); specialize (Hno d Hd); congruence|].
    intros d [->|Hd]%elem_of_cons; [done|by apply Hno].
Qed.

(** First-run detection recommends an available backend of the highest rank
    among all that were probed, and none only when none is available; it
    reports every backend it was given once, and backends that compare alike
    in the order they were given. *)
Theorem recommend_strongest cancelled cs :
  let found := detect_loop cancelled 0 cs in
  Detect cancelled cs ≡ₚ found ∧
  (∀ c, filter (λ d, alike candidate_less c d = true) (Detect cancelled cs) =
        filter (λ d, alike candidate_less c d = true) found) ∧
  match Recommend (Detect cancelled cs) with
  | Some c => c ∈ found ∧ Available (cProbe c) = true ∧
      ∀ d, d ∈ found → Available (cProbe d) = true → Rank (cProbe d) <= Rank (cProbe c)
  | None => ∀ d, d ∈ found → Available (cProbe d) = false
  end.
Proof.
  intros found. assert (Detect cancelled cs ≡ₚ found) as Hp by apply sort_stable_perm.
  split; [done|]. split.
  - intros c. apply sort_stable_stable. intros x y z. rewrite !candidate_in_order.
    destruct (Available (cProbe x)), (Available (cProbe y)), (Available (cProbe z)); naive_solver lia.
  - pose proof (Recommend_sorted _ (candidates_sorted cancelled cs)) as Hr.
    destruct (Recommend _) as [c|].
    + destruct Hr as (Hc & Hav & Hr). split; [by rewrite <- Hp|]. split; [done|]. intros d Hd.
      apply Hr. by rewrite Hp.
    + intros d Hd. apply Hr. by rewrite Hp.
Qed.
End registry.
End Registry.
