(* ===== verification/Manager.v ===== *)
(** The secret manager: internal/storage/index.go (the local list of names and
    metadata) and internal/storage/manager.go (retention over one persistent
    backend and the memory of the session).

    The index file is modelled by the document that [json.Unmarshal] makes of
    it; every locked operation reads and writes it at most once, and either
    may fail. *)
From S2P Require Import Prelude GoSort GoStrings GoTime Secrets.
From Stdlib Require Import Strings.Byte Sorting.Sorted.

(** * The index *)

Inductive IndexDoc := NoFile | IndexFile (entries : gmap string Metadata) | Corrupt.

(** The fate of one operation on the file. *)
Record IO := mkIO { read_fails : bool; write_fails : bool }.

Record Index := mkIndex { doc : IndexDoc; io : nat → IO; ops_done : nat }.

(** [time.Time.MarshalJSON] refuses years beyond four digits. *)
Definition time_marshals (t : Time) : bool :=
  let y := (year_of (t / Second / 86400)).1 in (0 <=? y) && (y <=? 9999).

Definition marshals (f : gmap string Metadata) : bool :=
  bool_decide (map_Forall (λ _ m, time_marshals (CreatedAt m) = true ∧ (IsZero (ExpiresAt m) = true ∨ time_marshals (ExpiresAt m) = true)) f).

Definition load (ix : Index) : result storage_error (gmap string Metadata) :=
  match doc ix with
  | NoFile => if read_fails (io ix (ops_done ix)) then Err ErrOther else Ok ∅
  | IndexFile f => if read_fails (io ix (ops_done ix)) then Err ErrOther else Ok f
  | Corrupt => Err ErrOther
  end.

Definition set_doc (d : IndexDoc) (ix : Index) : Index := mkIndex d (io ix) (ops_done ix).
Definition tick (ix : Index) : Index := mkIndex (doc ix) (io ix) (S (ops_done ix)).

Definition save (f : gmap string Metadata) (ix : Index) : Index * result storage_error unit :=
  if negb (marshals f) then (ix, Err ErrOther)
  else if write_fails (io ix (ops_done ix)) then (ix, Err ErrOther)
  else (set_doc (IndexFile f) ix, Ok tt).

(** One operation under the lock. *)
Definition locked {A} (op : Index → Index * A) (ix : Index) : Index * A := let '(ix, a) := op ix in (tick ix, a).

Definition Index_Put (meta : Metadata) : Index → Index * result storage_error unit := locked (λ ix,
  match load ix with
  | Err e => (ix, Err e)
  | Ok f => save (<[Name meta := meta]> f) ix
  end).

Definition Index_Get (name : string) : Index → Index * result storage_error Metadata := locked (λ ix,
  (ix, match load ix with
       | Err e => Err e
       | Ok f => match f !! name with Some m => Ok m | None => Err ErrNotFound end
       end)).

Definition Index_Delete (name : string) : Index → Index * result storage_error unit := locked (λ ix,
  match load ix with
  | Err e => (ix, Err e)
  | Ok f =>
      match f !! name with
      | None => (ix, Ok tt)
      | Some _ => save (delete name f) ix
      end
  end).

Definition Index_List : Index → Index * result storage_error (list Metadata) := locked (λ ix,
  (ix, match load ix with
       | Err e => Err e
       | Ok f => Ok (sort_by_name (snd <$> map_to_list f))
       end)).

(** * The manager *)

Section manager.
Context {T : Type} `{Backend T}.

Record Manager := mkManager { persistent : T; session : Memory; index : Index }.

Definition NewManager (b : T) (ix : Index) : Manager := mkManager b NewMemory ix.

Definition set_persistent (b : T) (m : Manager) : Manager := mkManager b (session m) (index m).
Definition set_session (s : Memory) (m : Manager) : Manager := mkManager (persistent m) s (index m).
Definition set_index (ix : Index) (m : Manager) : Manager := mkManager (persistent m) (session m) ix.

(** One call of a part of the manager. *)
Definition on_persistent {A} (f : T → T * A) (m : Manager) : Manager * A :=
  let '(b, a) := f (persistent m) in (set_persistent b m, a).
Definition on_session {A} (f : Memory → Memory * A) (m : Manager) : Manager * A :=
  let '(s, a) := f (session m) in (set_session s m, a).
Definition on_index {A} (f : Index → Index * A) (m : Manager) : Manager * A :=
  let '(ix, a) := f (index m) in (set_index ix m, a).

(** What [Put] fills in. *)
Definition fill (backend : bytes) (name : string) (value : bytes) (now expires : Time) (meta : Metadata) : Metadata :=
  mkMetadata name backend (Retention meta) now expires (Purpose meta)
    (match Source meta with [] => SourceDrop | s => s end) (Sendable meta) (mFingerprint meta) (zlen value) (mKind meta).

Definition Manager_Put (clock : Time) (name : string) (value : bytes) (meta : Metadata) (m : Manager)
    : Manager * result storage_error Metadata :=
  match ValidateName name with
  | Err e => (m, Err e)
  | Ok _ =>
      if MaxValueBytes <? zlen value then (m, Err ErrTooLarge)
      else
        let now := Truncate clock Second in
        match ParseRetention (Retention meta) now with
        | Err e => (m, Err e)
        | Ok expires =>
            if beq (Retention meta) RetentionSession then
              let meta := fill mem_Name name value now expires meta in
              match on_session (mem_Put name value meta) m with
              | (m, Err e) => (m, Err e)
              | (m, Ok _) => (m, Ok meta)
              end
            else
              let meta := fill b_Name name value now expires meta in
              match on_persistent (b_Put name value meta) m with
              | (m, Err e) => (m, Err e)
              | (m, Ok _) =>
                  match on_index (Index_Put meta) m with
                  | (m, Err e) => (m, Err e)
                  | (m, Ok _) => (m, Ok meta)
                  end
              end
        end
  end.

Definition Manager_Get (now : Time) (name : string) (m : Manager)
    : Manager * result storage_error (bytes * Metadata) :=
  match ValidateName name with
  | Err e => (m, Err e)
  | Ok _ =>
      match on_session (mem_Get name) m with
      | (m, Ok (value, meta)) =>
          if Expired meta now then ((on_session (mem_Delete name) m).1, Err ErrNotFound)
          else (m, Ok (value, meta))
      | (m, Err _) =>
          match on_persistent (b_Get name) m with
          | (m, Err e) => ((if decide (e = ErrNotFound) then (on_index (Index_Delete name) m).1 else m), Err e)
          | (m, Ok (value, meta)) =>
              if Expired meta now then
                let m := (on_persistent (b_Delete name) m).1 in
                ((on_index (Index_Delete name) m).1, Err ErrNotFound)
              else (m, Ok (value, meta))
          end
      end
  end.

Definition Manager_Stat (now : Time) (name : string) (m : Manager) : Manager * result storage_error Metadata :=
  match ValidateName name with
  | Err e => (m, Err e)
  | Ok _ =>
      match mem_List (session m) with
      | (_, Err _) => (m, Err ErrOther)
      | (_, Ok l) =>
          match list_find (λ s, Name s = name) l with
          | Some (_, s) => (m, if Expired s now then Err ErrNotFound else Ok s)
          | None =>
              match on_index (Index_Get name) m with
              | (m, Err e) => (m, Err e)
              | (m, Ok meta) => (m, if Expired meta now then Err ErrNotFound else Ok meta)
              end
          end
      end
  end.

Definition Manager_Delete (name : string) (m : Manager) : Manager * result storage_error unit :=
  match ValidateName name with
  | Err e => (m, Err e)
  | Ok _ =>
      let '(m, sessionErr) := on_session (mem_Delete name) m in
      let '(m, persistentErr) := on_persistent (b_Delete name) m in
      let '(m, indexErr) := on_index (Index_Delete name) m in
      (m, match indexErr with
          | Err e => Err e
          | Ok _ => if is_ok sessionErr || is_ok persistentErr then Ok tt else persistentErr
          end)
  end.

(** The two loops of [PurgeExpired]. *)
Fixpoint purge_session (now : Time) (l : list Metadata) (m : Manager) (n : Z) : Manager * Z :=
  match l with
  | [] => (m, n)
  | s :: l =>
      if Expired s now then
        let '(m, r) := on_session (mem_Delete (Name s)) m in
        purge_session now l m (if is_ok r then n + 1 else n)
      else purge_session now l m n
  end.

Fixpoint purge_index (now : Time) (l : list Metadata) (m : Manager) (n : Z) : Manager * result storage_error Z :=
  match l with
  | [] => (m, Ok n)
  | i :: l =>
      if Expired i now then
        match on_persistent (b_Delete (Name i)) m with
        | (m, Err e) =>
            if decide (e = ErrNotFound) then
              match on_index (Index_Delete (Name i)) m with
              | (m, Err e) => (m, Err e)
              | (m, Ok _) => purge_index now l m (n + 1)
              end
            else (m, Err e)
        | (m, Ok _) =>
            match on_index (Index_Delete (Name i)) m with
            | (m, Err e) => (m, Err e)
            | (m, Ok _) => purge_index now l m (n + 1)
            end
        end
      else purge_index now l m n
  end.

Definition Manager_PurgeExpired (now : Time) (m : Manager) : Manager * result storage_error Z :=
  match (mem_List (session m)).2 with
  | Err e => (m, Err e)
  | Ok s =>
      let '(m, n) := purge_session now s m 0 in
      match on_index Index_List m with
      | (m, Err e) => (m, Err e)
      | (m, Ok indexed) => purge_index now indexed m n
      end
  end.

Definition Manager_List (now : Time) (m : Manager) : Manager * result storage_error (list Metadata) :=
  match Manager_PurgeExpired now m with
  | (m, Err e) => (m, Err e)
  | (m, Ok _) =>
      match (mem_List (session m)).2 with
      | Err e => (m, Err e)
      | Ok s =>
          match on_index Index_List m with
          | (m, Err e) => (m, Err e)
          | (m, Ok indexed) =>
              (m, Ok (sort_by_name (s ++ filter (λ i, Name i ∉ (Name <$> s)) indexed)))
          end
      end
  end.

Definition Manager_Close (m : Manager) : Manager := set_session (mem_Close (session m)) m.
End manager.

Arguments Manager T : clear implicits.
