(* ===== verification/ManagerProps.v ===== *)
(** What the secret manager guarantees over any backend that keeps its
    contract. *)
From S2P Require Import Prelude GoSort GoStrings GoTime Secrets Manager.
From Stdlib Require Import Strings.Byte Sorting.Sorted.

Section props.
Context {T : Type} `{BackendOk T}.

(** * The parts of the manager that stay as they are *)

Definition indexed (ix : Index) : gmap string Metadata := match doc ix with IndexFile f => f | _ => ∅ end.

Lemma locked_eq {A} (op : Index → Index * A) ix : locked op ix = (tick (op ix).1, (op ix).2).
Proof. unfold locked. by destruct (op ix). Qed.

Lemma indexed_tick ix : indexed (tick ix) = indexed ix.
Proof. done. Qed.

Lemma save_ok f ix u : (save f ix).2 = Ok u → indexed (save f ix).1 = f.
Proof. unfold save. by repeat case_match. Qed.

Lemma save_err f ix e : (save f ix).2 = Err e → indexed (save f ix).1 = indexed ix.
Proof. unfold save. by repeat case_match. Qed.

Lemma load_ok ix f : load ix = Ok f → indexed ix = f.
Proof. unfold load, indexed. repeat case_match; naive_solver. Qed.

Lemma Index_Put_spec meta ix :
  match (Index_Put meta ix).2 with
  | Ok _ => indexed (Index_Put meta ix).1 = <[Name meta := meta]> (indexed ix)
  | Err _ => indexed (Index_Put meta ix).1 = indexed ix
  end.
Proof.
  unfold Index_Put. rewrite locked_eq. cbn [fst snd]. rewrite indexed_tick.
  destruct (load ix) as [f|e] eqn:E; [|done]. apply load_ok in E as <-.
  destruct (save _ ix) as [ix' [u|e]] eqn:Es; simpl.
  - pose proof (save_ok (<[Name meta := meta]> (indexed ix)) ix u) as Hs. rewrite Es in Hs. by apply Hs.
  - pose proof (λ e, save_err (<[Name meta := meta]> (indexed ix)) ix e) as Hs. rewrite Es in Hs. by apply (Hs e).
Qed.

Lemma Index_Delete_spec name ix :
  match (Index_Delete name ix).2 with
  | Ok _ => indexed (Index_Delete name ix).1 = delete name (indexed ix)
  | Err _ => indexed (Index_Delete name ix).1 = indexed ix
  end.
Proof.
  unfold Index_Delete. rewrite locked_eq. cbn [fst snd]. rewrite indexed_tick.
  destruct (load ix) as [f|e] eqn:E; [|done]. apply load_ok in E as <-.
  destruct (indexed ix !! name) as [mt|] eqn:Ef; simpl; [|by rewrite delete_id].
  destruct (save _ ix) as [ix' [u|e]] eqn:Es; simpl.
  - pose proof (save_ok (delete name (indexed ix)) ix u) as Hs. rewrite Es in Hs. by apply Hs.
  - pose proof (λ e, save_err (delete name (indexed ix)) ix e) as Hs. rewrite Es in Hs. by apply (Hs e).
Qed.

Lemma Index_Get_spec name ix :
  indexed (Index_Get name ix).1 = indexed ix ∧
  ∀ mt, (Index_Get name ix).2 = Ok mt → indexed ix !! name = Some mt.
Proof.
  unfold Index_Get. rewrite locked_eq. cbn [fst snd]. rewrite indexed_tick. split; [done|].
  destruct (load ix) as [f|e] eqn:E; [|done]. apply load_ok in E as <-. intros mt. case_match; naive_solver.
Qed.

Lemma Index_List_spec ix :
  indexed (Index_List ix).1 = indexed ix ∧
  ∀ l, (Index_List ix).2 = Ok l → l = sort_by_name (snd <$> map_to_list (indexed ix)).
Proof.
  unfold Index_List. rewrite locked_eq. cbn [fst snd]. rewrite indexed_tick. split; [done|].
  destruct (load ix) as [f|e] eqn:E; [|done]. apply load_ok in E as <-. naive_solver.
Qed.

(** Every entry carries the name it is filed under. *)
Definition session_named (s : Memory) : Prop :=
  ∀ n v mt, entries s !! n = Some (v, mt) → Name mt = n ∧ is_ok (ValidateName n) = true.
Definition index_named (ix : Index) : Prop := ∀ n mt, indexed ix !! n = Some mt → Name mt = n.

Lemma mem_Put_entries name value meta s :
  entries (mem_Put name value meta s).1 =
  match (mem_Put name value meta s).2 with
  | Ok _ => <[name := (value, stamp mem_Name name value meta)]> (entries s)
  | Err _ => entries s
  end.
Proof. unfold mem_Put. by repeat case_match. Qed.

Lemma mem_Delete_entries name s :
  entries (mem_Delete name s).1 =
  match (mem_Delete name s).2 with Ok _ => delete name (entries s) | Err _ => entries s end.
Proof. unfold mem_Delete. by repeat case_match. Qed.

Lemma mem_Delete_gone name s : is_ok (ValidateName name) = true → entries (mem_Delete name s).1 !! name = None.
Proof.
  intros Hn. unfold mem_Delete. destruct (ValidateName name); [|done].
  destruct (entries s !! name) eqn:E; [apply lookup_delete_eq|done].
Qed.

Lemma mem_Get_entries name s : (mem_Get name s).1 = s.
Proof. unfold mem_Get. by case_match. Qed.

Lemma mem_Get_ok name s : is_ok (ValidateName name) = true →
  (mem_Get name s).2 = match entries s !! name with Some x => Ok x | None => Err ErrNotFound end.
Proof. unfold mem_Get. by destruct (ValidateName name). Qed.

(** * Put, then get *)

Lemma ParseRetention_session p now t : beq p RetentionSession = true → ParseRetention p now = Ok t → t = zero_time.
Proof. unfold ParseRetention. intros ->. simpl. naive_solver. Qed.

Lemma ParseRetention_after p now t : ParseRetention p now = Ok t → t = zero_time ∨ now < t.
Proof.
  unfold ParseRetention, After. intros Hp. repeat case_match; simplify_eq; auto. breflect. auto.
Qed.

(** What an accepted [Put] leaves behind. *)
Definition put_accepted (clock : Time) (name : string) (value : bytes) (meta : Metadata) (m : Manager T) : Prop :=
  ∀ expires, ParseRetention (Retention meta) (Truncate clock Second) = Ok expires → Retention meta ≠ RetentionSession →
    accepts name value (fill b_Name name value (Truncate clock Second) expires meta) (persistent m).

Lemma Manager_Put_ok clock name value meta m m' meta' :
  healthy (persistent m) → put_accepted clock name value meta m →
  Manager_Put clock name value meta m = (m', Ok meta') →
  is_ok (ValidateName name) = true ∧ zlen value <= MaxValueBytes ∧
  ∃ expires, ParseRetention (Retention meta) (Truncate clock Second) = Ok expires ∧
  if beq (Retention meta) RetentionSession
  then meta' = fill mem_Name name value (Truncate clock Second) expires meta ∧
       entries (session m') = <[name := (value, meta')]> (entries (session m)) ∧
       persistent m' = persistent m ∧ indexed (index m') = indexed (index m)
  else meta' = fill b_Name name value (Truncate clock Second) expires meta ∧
       session m' = session m ∧
       view (persistent m') = <[name := (value, meta')]> (view (persistent m)) ∧
       indexed (index m') = <[name := meta']> (indexed (index m)).
Proof.
  intros Hh Ha. unfold Manager_Put. destruct (ValidateName name) as [u|] eqn:Ev; [|done].
  destruct (Z.ltb_spec MaxValueBytes (zlen value)); [done|].
  destruct (ParseRetention _ _) as [expires|] eqn:Er; [|done]. intros Hput. split; [done|]. split; [lia|].
  exists expires. split; [done|]. specialize (Ha expires Er). destruct (beq (Retention meta) RetentionSession) eqn:Eb.
  - clear Ha. unfold on_session in Hput. set (mt := fill _ _ _ _ _ _) in *.
    pose proof (mem_Put_entries name value mt (session m)) as He.
    destruct (mem_Put name value mt (session m)) as [s [[]|e]]; simplify_eq/=. done.
  - unfold on_persistent, on_index in Hput. set (mt := fill _ _ _ _ _ _) in *.
    pose proof (put_ok name value mt (persistent m)) as Hp.
    destruct (b_Put name value mt (persistent m)) as [b [[]|e]]; simplify_eq/=.
    pose proof (Index_Put_spec mt (index m)) as Hi.
    destruct (Index_Put mt (index m)) as [ix [[]|e]]; simplify_eq/=. apply bool_decide_eq_false in Eb. split_and!; [done|done| |done]. by apply Hp; [|apply Ha|].
Qed.

Lemma fill_expires backend name value now expires meta :
  ExpiresAt (fill backend name value now expires meta) = expires.
Proof. done. Qed.

Lemma Manager_Put_healthy clock name value meta m :
  healthy (persistent m) → put_accepted clock name value meta m →
  healthy (persistent (Manager_Put clock name value meta m).1).
Proof.
  intros Hh Ha. unfold Manager_Put. destruct (ValidateName name); [|done].
  destruct (Z.ltb_spec MaxValueBytes (zlen value)); [done|].
  destruct (ParseRetention _ _) as [expires|] eqn:Er; [|done]. destruct (beq (Retention meta) RetentionSession) eqn:Eb.
  - unfold on_session. by destruct (mem_Put _ _ _ _) as [s [[]|e]].
  - apply bool_decide_eq_false in Eb. specialize (Ha expires Er Eb). unfold on_persistent, on_index.
    pose proof (put_healthy _ _ _ _ Hh Ha) as Hp. destruct (b_Put _ _ _ _) as [b [[]|e]]; simpl in *; [|done].
    by destruct (Index_Put _ _) as [ix [[]|e]].
Qed.

Lemma put_get clock now name value meta m m' meta' :
  healthy (persistent m) → put_accepted clock name value meta m →
  Manager_Put clock name value meta m = (m', Ok meta') → Expired meta' now = false →
  (beq (Retention meta) RetentionSession = true → (Manager_Get now name m').2 = Ok (value, meta')) ∧
  (beq (Retention meta) RetentionSession = false → entries (session m) !! name = None →
     (Manager_Get now name m').2 = Ok (value, meta') ∨
     ∃ e, e ≠ ErrNotFound ∧ (b_Get name (persistent m')).2 = Err e ∧ (Manager_Get now name m').2 = Err e).
Proof.
  intros Hh Ha Hput Hexp. pose proof (Manager_Put_healthy clock name value meta m Hh Ha) as Hh'. rewrite Hput in Hh'.
  simpl in Hh'. apply Manager_Put_ok in Hput as (Hn & _ & expires & Hr & Hcase); [|done..].
  unfold Manager_Get. destruct (ValidateName name) as [u|] eqn:Ev; [|done]. unfold on_session.
  pose proof (mem_Get_ok name (session m')) as Hg. rewrite Ev in Hg. specialize (Hg eq_refl).
  destruct (mem_Get name (session m')) as [s res] eqn:Eg. simpl in Hg. subst res.
  split; intros Hb; rewrite Hb in Hcase.
  - destruct Hcase as (-> & He & _). rewrite He, lookup_insert_eq. by rewrite Hexp.
  - destruct Hcase as (Hmt & Hs & Hv & _). intros Hnone. rewrite Hs, Hnone. unfold on_persistent. simpl.
    pose proof (λ x, get_ok name (persistent m') x Hh') as Hok. pose proof (get_not_found name (persistent m') Hh') as Hnf.
    destruct (b_Get name (persistent m')) as [b [[v mt]|e]]; simpl in *.
    + specialize (Hok _ eq_refl). rewrite Hv, lookup_insert_eq in Hok. injection Hok as -> ->. rewrite Hexp. by left.
    + right. exists e. split; [|done]. intros ->. specialize (Hnf eq_refl). by rewrite Hv, lookup_insert_eq in Hnf.
Qed.

(** A value that was stored under a name is what a later lookup of the name
    returns, with the metadata [Put] reported, until its retention date: always
    for a session secret; for a persistent one unless a session secret of the
    same name shadows it, or the backend fails. *)
Theorem put_then_get clock now name value meta m m' meta' :
  healthy (persistent m) → put_accepted clock name value meta m →
  Manager_Put clock name value meta m = (m', Ok meta') → Expired meta' now = false →
  (beq (Retention meta) RetentionSession = true → (Manager_Get now name m').2 = Ok (value, meta')) ∧
  (beq (Retention meta) RetentionSession = false → entries (session m) !! name = None →
     (Manager_Get now name m').2 = Ok (value, meta') ∨
     ∃ e, e ≠ ErrNotFound ∧ (b_Get name (persistent m')).2 = Err e ∧ (Manager_Get now name m').2 = Err e).
Proof. apply put_get. Qed.

(** Nothing expired comes out: what [Get] returns has not expired, and was
    in the session or, with no session entry of that name, in the backend. *)
Theorem get_unexpired now name m m' value meta :
  healthy (persistent m) →
  Manager_Get now name m = (m', Ok (value, meta)) →
  Expired meta now = false ∧
  (entries (session m) !! name = Some (value, meta) ∨
   entries (session m) !! name = None ∧ view (persistent m) !! name = Some (value, meta)).
Proof.
  intros Hh. unfold Manager_Get. destruct (ValidateName name) as [u|] eqn:Ev; [|done]. unfold on_session, on_persistent.
  pose proof (mem_Get_ok name (session m)) as Hg. rewrite Ev in Hg. specialize (Hg eq_refl).
  destruct (mem_Get name (session m)) as [s res] eqn:Eg. simpl in Hg. subst res. simpl.
  destruct (entries (session m) !! name) as [[v mt]|]; simpl.
  - destruct (Expired mt now) eqn:E; [by destruct (mem_Delete _ _)|]. intros [= <- <- <-]. auto.
  - pose proof (λ x, get_ok name (persistent m) x Hh) as Hok.
    destruct (b_Get name (persistent m)) as [b [[v mt]|e]]; simpl in *; [|by case_decide].
    destruct (Expired mt now) eqn:E; [done|]. intros [= <- <- <-]. auto.
Qed.

(** * Runs of the manager *)

Inductive manager_step : Manager T → Manager T → Prop :=
  | step_put clock name value meta m : manager_step m (Manager_Put clock name value meta m).1
  | step_get now name m : manager_step m (Manager_Get now name m).1
  | step_stat now name m : manager_step m (Manager_Stat now name m).1
  | step_delete name m : manager_step m (Manager_Delete name m).1
  | step_list now m : manager_step m (Manager_List now m).1
  | step_purge now m : manager_step m (Manager_PurgeExpired now m).1
  | step_close m : manager_step m (Manager_Close m).

(** From a manager just made, on an index that files entries under their names. *)
Inductive manager_reaches : Manager T → Prop :=
  | reaches_new b ix : index_named ix → manager_reaches (NewManager b ix)
  | reaches_next m m' : manager_reaches m → manager_step m m' → manager_reaches m'.

Definition named (m : Manager T) : Prop := session_named (session m) ∧ index_named (index m).

Lemma session_named_mem_Put name value meta s : session_named s → session_named (mem_Put name value meta s).1.
Proof.
  intros Hs n v mt. unfold mem_Put. destruct (ValidateName name) eqn:Ev; [|apply Hs]. case_match; [apply Hs|].
  simpl. destruct (decide (n = name)) as [->|]; [|rewrite lookup_insert_ne by done; apply Hs].
  rewrite lookup_insert_eq. intros [= <- <-]. by rewrite Ev.
Qed.

Lemma session_named_sub s s' : entries s' ⊆ entries s → session_named s → session_named s'.
Proof. intros Hsub Hs n v mt Hn. apply (Hs n v mt). by eapply lookup_weaken. Qed.

Lemma mem_Delete_sub name s : entries (mem_Delete name s).1 ⊆ entries s.
Proof. rewrite mem_Delete_entries. case_match; [apply delete_subseteq|done]. Qed.

Lemma index_named_sub ix ix' : indexed ix' ⊆ indexed ix → index_named ix → index_named ix'.
Proof. intros Hsub Hs n mt Hn. apply (Hs n mt). by eapply lookup_weaken. Qed.

Lemma Index_Delete_sub name ix : indexed (Index_Delete name ix).1 ⊆ indexed ix.
Proof. pose proof (Index_Delete_spec name ix) as Hs. case_match; rewrite Hs; [apply delete_subseteq|done]. Qed.

Lemma index_named_Put meta ix : index_named ix → index_named (Index_Put meta ix).1.
Proof.
  intros Hs n mt. pose proof (Index_Put_spec meta ix) as Hp. case_match; rewrite Hp; [|apply Hs].
  destruct (decide (n = Name meta)) as [->|]; [|rewrite lookup_insert_ne by done; apply Hs].
  rewrite lookup_insert_eq. by intros [= <-].
Qed.

(** Operations that only take entries away. *)
Definition shrinks (m m' : Manager T) : Prop :=
  entries (session m') ⊆ entries (session m) ∧ indexed (index m') ⊆ indexed (index m).

#[export] Instance shrinks_preorder : PreOrder shrinks.
Proof. split; [done|]. intros a b c [] []. split; by etrans. Qed.

Lemma shrinks_named m m' : shrinks m m' → named m → named m'.
Proof. intros [] []. split; [by eapply session_named_sub|by eapply index_named_sub]. Qed.

Lemma shrinks_session {A} (f : Memory → Memory * A) m :
  entries (f (session m)).1 ⊆ entries (session m) → shrinks m (on_session f m).1.
Proof. unfold on_session. by destruct (f (session m)). Qed.

Lemma shrinks_persistent {A} (f : T → T * A) m : shrinks m (on_persistent f m).1.
Proof. unfold on_persistent. by destruct (f (persistent m)). Qed.

Lemma shrinks_index {A} (f : Index → Index * A) m :
  indexed (f (index m)).1 ⊆ indexed (index m) → shrinks m (on_index f m).1.
Proof. unfold on_index. by destruct (f (index m)). Qed.

Lemma shrinks_delete_session name m : shrinks m (on_session (mem_Delete name) m).1.
Proof. apply shrinks_session, mem_Delete_sub. Qed.

Lemma shrinks_delete_index name m : shrinks m (on_index (Index_Delete name) m).1.
Proof. apply shrinks_index, Index_Delete_sub. Qed.

Lemma shrinks_list m : shrinks m (on_index Index_List m).1.
Proof. apply shrinks_index. by rewrite (proj1 (Index_List_spec _)). Qed.

Lemma shrinks_purge_session now l m n : shrinks m (purge_session now l m n).1.
Proof.
  revert m n. induction l as [|s l IH]; intros m n; simpl; [done|]. case_match; [|apply IH].
  pose proof (shrinks_delete_session (Name s) m) as Hd.
  destruct (on_session _ m) as [m1 r]. etrans; [exact Hd|apply IH].
Qed.

Lemma shrinks_purge_index now l m n : shrinks m (purge_index now l m n).1.
Proof.
  revert m n. induction l as [|i l IH]; intros m n; simpl; [done|]. case_match; [|apply IH].
  pose proof (shrinks_persistent (b_Delete (Name i)) m) as Hp.
  destruct (on_persistent _ m) as [m1 r]. simpl in Hp.
  pose proof (shrinks_delete_index (Name i) m1) as Hd.
  destruct (on_index _ m1) as [m2 r2]. simpl in Hd.
  assert (shrinks m m2) as H2 by by etrans.
  destruct r as [u|e]; [|case_decide]; try done; destruct r2; try done; etrans; [exact H2|apply IH|exact H2|apply IH].
Qed.

Lemma shrinks_purge now m : shrinks m (Manager_PurgeExpired now m).1.
Proof.
  unfold Manager_PurgeExpired. cbn [mem_List snd].
  pose proof (shrinks_purge_session now (sort_by_name ((λ x, x.2.2) <$> map_to_list (entries (session m)))) m 0) as Hs.
  destruct (purge_session _ _ m 0) as [m1 n]. pose proof (shrinks_list m1) as Hl.
  destruct (on_index Index_List m1) as [m2 [l|e]]; simpl in *; [|by etrans].
  etrans; [exact Hs|]. etrans; [exact Hl|]. apply shrinks_purge_index.
Qed.

Lemma named_session {A} (f : Memory → Memory * A) m :
  session_named (f (session m)).1 → named m → named (on_session f m).1.
Proof. unfold on_session. intros Hf []. by destruct (f (session m)). Qed.

Lemma named_persistent {A} (f : T → T * A) m : named m → named (on_persistent f m).1.
Proof. apply shrinks_named, shrinks_persistent. Qed.

Lemma named_index {A} (f : Index → Index * A) m : index_named (f (index m)).1 → named m → named (on_index f m).1.
Proof. unfold on_index. intros Hf []. by destruct (f (index m)). Qed.

Lemma Manager_Put_named clock name value meta m : named m → named (Manager_Put clock name value meta m).1.
Proof.
  intros Hn. unfold Manager_Put. destruct (ValidateName name); [|done]. case_match; [done|].
  destruct (ParseRetention _ _) as [expires|]; [|done]. destruct (beq _ _).
  - set (mt := fill _ _ _ _ _ _).
    pose proof (named_session (mem_Put name value mt) m (session_named_mem_Put _ _ _ _ (proj1 Hn)) Hn) as Hm1.
    by destruct (on_session _ m) as [m1 []].
  - set (mt := fill _ _ _ _ _ _). pose proof (named_persistent (b_Put name value mt) m Hn) as Hm1.
    destruct (on_persistent _ m) as [m1 []]; [|done]. simpl in Hm1.
    pose proof (named_index (Index_Put mt) m1 (index_named_Put mt _ (proj2 Hm1)) Hm1) as Hm2.
    by destruct (on_index _ m1) as [m2 []].
Qed.

Lemma on_session_get name (m : Manager T) : (on_session (mem_Get name) m) = (m, (mem_Get name (session m)).2).
Proof.
  unfold on_session. pose proof (mem_Get_entries name (session m)) as Hs.
  destruct (mem_Get name (session m)) as [s r]. simpl in *. subst s. by destruct m.
Qed.

Lemma shrinks_get now name m : shrinks m (Manager_Get now name m).1.
Proof.
  unfold Manager_Get. destruct (ValidateName name); [|done]. rewrite on_session_get.
  destruct (mem_Get name (session m)).2 as [[v mt]|e].
  - case_match; [apply shrinks_delete_session|done].
  - pose proof (shrinks_persistent (b_Get name) m) as Hm1. destruct (on_persistent (b_Get name) m) as [m1 [[v mt]|e']]; simpl in Hm1.
    + case_match; [|done]. simpl. etrans; [exact Hm1|]. etrans; [apply (shrinks_persistent (b_Delete name))|apply shrinks_delete_index].
    + simpl. case_decide; [etrans; [exact Hm1|apply shrinks_delete_index]|done].
Qed.

Lemma shrinks_stat now name m : shrinks m (Manager_Stat now name m).1.
Proof.
  unfold Manager_Stat. destruct (ValidateName name); [|done]. cbn [mem_List].
  destruct (list_find _ _) as [[]|]; [done|].
  pose proof (shrinks_index (Index_Get name) m) as Hx. rewrite (proj1 (Index_Get_spec name _)) in Hx. specialize (Hx ltac:(done)).
  by destruct (on_index (Index_Get name) m) as [m1 []].
Qed.

Lemma shrinks_Delete name m : shrinks m (Manager_Delete name m).1.
Proof.
  unfold Manager_Delete. destruct (ValidateName name); [|done].
  pose proof (shrinks_delete_session name m) as Hm1. destruct (on_session _ m) as [m1 r1].
  pose proof (shrinks_persistent (b_Delete name) m1) as Hm2. destruct (on_persistent _ m1) as [m2 r2].
  pose proof (shrinks_delete_index name m2) as Hm3. destruct (on_index _ m2) as [m3 r3]. simpl in *.
  etrans; [exact Hm1|]. by etrans.
Qed.

Lemma shrinks_List now m : shrinks m (Manager_List now m).1.
Proof.
  unfold Manager_List. pose proof (shrinks_purge now m) as Hm1.
  destruct (Manager_PurgeExpired now m) as [m1 [n|e]]; [|done]. cbn [mem_List snd].
  pose proof (shrinks_list m1) as Hm2. destruct (on_index Index_List m1) as [m2 [l|e]]; simpl in *; by etrans.
Qed.

Lemma manager_step_named m m' : manager_step m m' → named m → named m'.
Proof.
  destruct 1; [by apply Manager_Put_named|apply shrinks_named..].
  - apply shrinks_get.
  - apply shrinks_stat.
  - apply shrinks_Delete.
  - apply shrinks_List.
  - apply shrinks_purge.
  - split; [apply map_empty_subseteq|done].
Qed.

Lemma manager_reaches_named m : manager_reaches m → named m.
Proof.
  induction 1 as [b ix Hi|m m' _ IH Hst]; [|by eapply manager_step_named]. split; [|done].
  intros n v mt. simpl. by rewrite lookup_empty.
Qed.

(** * Purging *)

Definition fresh (now : Time) (x : bytes * Metadata) : bool := negb (Expired x.2 now).

Lemma purge_session_spec now l (m : Manager T) n m' n' :
  purge_session now l m n = (m', n') → session_named (session m) →
  (∀ s, s ∈ l → is_ok (ValidateName (Name s)) = true) →
  persistent m' = persistent m ∧ index m' = index m ∧
  (∀ s, s ∈ l → Expired s now = true → entries (session m') !! Name s = None) ∧
  (∀ k, (∀ s, s ∈ l → Expired s now = true → Name s ≠ k) → entries (session m') !! k = entries (session m) !! k).
Proof.
  revert m n. induction l as [|s l IH]; intros m n; simpl.
  { intros [= <- <-] _ _. split_and!; try done. by intros s ?%elem_of_nil. }
  destruct (Expired s now) eqn:E; intros Hp Hn Hl.
  - unfold on_session in Hp.
    pose proof (mem_Delete_gone (Name s) (session m) (Hl s ltac:(by left))) as Hgone.
    pose proof (mem_Delete_sub (Name s) (session m)) as Hsub.
    pose proof (mem_Delete_entries (Name s) (session m)) as He.
    destruct (mem_Delete (Name s) (session m)) as [s1 r]. simpl in *.
    pose proof (proj1 (shrinks_purge_session now l (set_session s1 m) (if is_ok r then n + 1 else n))) as Hshr.
    rewrite Hp in Hshr. simpl in Hshr.
    apply IH in Hp as (Hp1 & Hp2 & Hp3 & Hp4); [|by eapply session_named_sub|intros t Ht; apply Hl; by right].
    split_and!; try done.
    + intros t [->|Ht]%elem_of_cons Het; [|by apply Hp3].
      eapply lookup_weaken_None; [exact Hgone|exact Hshr].
    + intros k Hk. rewrite Hp4 by (intros t Ht; apply Hk; by right). simpl. rewrite He.
      destruct r; [|done]. rewrite lookup_delete_ne; [done|]. by apply Hk; [left|].
  - apply IH in Hp as (Hp1 & Hp2 & Hp3 & Hp4); [|done|intros t Ht; apply Hl; by right].
    split_and!; try done.
    + intros t [->|Ht]%elem_of_cons Het; [congruence|by apply Hp3].
    + intros k Hk. apply Hp4. intros t Ht. apply Hk. by right.
Qed.

Lemma session_listed (m : Manager T) mt :
  mt ∈ sort_by_name ((λ x, x.2.2) <$> map_to_list (entries (session m))) ↔
  ∃ n v, entries (session m) !! n = Some (v, mt).
Proof.
  unfold sort_by_name. rewrite elem_of_sort_stable, list_elem_of_fmap. split.
  - intros ([n [v mt']] & -> & Hin%elem_of_map_to_list). eauto.
  - intros (n & v & Hn). exists (n, (v, mt)). by rewrite elem_of_map_to_list.
Qed.

Lemma index_listed ix mt :
  mt ∈ sort_by_name (snd <$> map_to_list (indexed ix)) ↔ ∃ n, indexed ix !! n = Some mt.
Proof.
  unfold sort_by_name. rewrite elem_of_sort_stable, list_elem_of_fmap. split.
  - intros ([n mt'] & -> & Hin%elem_of_map_to_list). eauto.
  - intros (n & Hn). exists (n, mt). by rewrite elem_of_map_to_list.
Qed.

Lemma purge_index_spec now l (m : Manager T) n m' n' :
  healthy (persistent m) →
  purge_index now l m n = (m', Ok n') →
  session m' = session m ∧
  (∀ k, (∀ i, i ∈ l → Expired i now = true → Name i ≠ k) → indexed (index m') !! k = indexed (index m) !! k) ∧
  (∀ k, view (persistent m) !! k = None → view (persistent m') !! k = None) ∧
  (∀ i, i ∈ l → Expired i now = true →
     indexed (index m') !! Name i = None ∧ view (persistent m') !! Name i = None).
Proof.
  revert m n. induction l as [|i l IH]; intros m n; simpl.
  { intros _ [= <- <-]. split_and!; try done; by intros s ?%elem_of_nil. }
  intros Hh. destruct (Expired i now) eqn:E.
  2:{ intros Hp. apply IH in Hp as (Ha & Hb & Hc & Hd); [|done]. split_and!; try done.
      - intros k Hk. apply Hb. intros j Hj. apply Hk. by right.
      - intros j [->|Hj]%elem_of_cons Hej; [congruence|by apply Hd]. }
  assert (∀ m2, healthy (persistent m2) → session m2 = session m → indexed (index m2) = delete (Name i) (indexed (index m)) →
      (∀ k, view (persistent m) !! k = None → view (persistent m2) !! k = None) → view (persistent m2) !! Name i = None →
      purge_index now l m2 (n + 1) = (m', Ok n') →
      session m' = session m ∧
      (∀ k, (∀ j, j ∈ i :: l → Expired j now = true → Name j ≠ k) → indexed (index m') !! k = indexed (index m) !! k) ∧
      (∀ k, view (persistent m) !! k = None → view (persistent m') !! k = None) ∧
      (∀ j, j ∈ i :: l → Expired j now = true →
         indexed (index m') !! Name j = None ∧ view (persistent m') !! Name j = None)) as Hnext.
  { intros m2 Hh2 Hs2 Hi2 Hv2 Hg2 Hp. pose proof (proj2 (shrinks_purge_index now l m2 (n + 1))) as Hsub. rewrite Hp in Hsub.
    apply IH in Hp as (Ha & Hb & Hc & Hd); [|done]. split_and!; [congruence| |auto|].
    - intros k Hk. rewrite Hb by (intros j Hj; apply Hk; by right). rewrite Hi2. apply lookup_delete_ne. by apply Hk; [left|].
    - intros j [->|Hj]%elem_of_cons Hej; [|by apply Hd]. split; [|by apply Hc].
      eapply lookup_weaken_None; [|exact Hsub]. rewrite Hi2. apply lookup_delete_eq. }
  unfold on_persistent, on_index.
  pose proof (delete_ok (Name i) (persistent m) Hh) as Hok. pose proof (delete_not_found (Name i) (persistent m) Hh) as Hnf.
  pose proof (delete_healthy (Name i) (persistent m) Hh) as Hh2.
  destruct (b_Delete (Name i) (persistent m)) as [b [[]|e]]; simpl in *.
  - pose proof (Hok eq_refl) as Hv. pose proof (Index_Delete_spec (Name i) (index m)) as Hi.
    destruct (Index_Delete (Name i) (index m)) as [ix [[]|e]]; simpl in *; [|done].
    apply Hnext; simpl; try done; rewrite Hv; [|apply lookup_delete_eq].
    intros k Hk. by apply lookup_delete_None; right.
  - case_decide as He; [|done]. subst e. destruct (Hnf eq_refl) as [Hg Hv].
    pose proof (Index_Delete_spec (Name i) (index m)) as Hi.
    destruct (Index_Delete (Name i) (index m)) as [ix [[]|e]]; simpl in *; [|done].
    apply Hnext; simpl; try done; by rewrite Hv.
Qed.

Lemma purge_ok now m m' n :
  manager_reaches m → healthy (persistent m) → Manager_PurgeExpired now m = (m', Ok n) →
  entries (session m') = filter (λ p, fresh now p.2 = true) (entries (session m)) ∧
  indexed (index m') = filter (λ p, Expired p.2 now = false) (indexed (index m)) ∧
  ∀ name mt, indexed (index m) !! name = Some mt → Expired mt now = true → view (persistent m') !! name = None.
Proof.
  intros [Hs Hi]%manager_reaches_named Hh. unfold Manager_PurgeExpired. cbn [mem_List snd].
  destruct (purge_session _ _ m 0) as [m1 n1] eqn:E1. intros Hp.
  pose proof (proj1 (shrinks_purge_session now (sort_by_name ((λ x, x.2.2) <$> map_to_list (entries (session m)))) m 0)) as Hsub.
  rewrite E1 in Hsub. simpl in Hsub.
  apply purge_session_spec in E1 as (Hb & Hx & Hgone & Hkeep); [|done|].
  2:{ intros mt (k & v & Hk)%session_listed. destruct (Hs k v mt Hk) as [-> ?]. done. }
  unfold on_index in Hp. pose proof (Index_List_spec (index m1)) as [Hix Hlist].
  destruct (Index_List (index m1)) as [ix [l|e]]; [|done]. simpl in *. specialize (Hlist l eq_refl). subst l.
  apply purge_index_spec in Hp as (Hs2 & Hkeep2 & _ & Hgone2); [|simpl; by rewrite Hb]. simpl in *. rewrite Hix, Hx in *.
  split_and!.
  - rewrite Hs2. apply map_eq. intros k. rewrite map_lookup_filter.
    destruct (entries (session m) !! k) as [[v mt]|] eqn:Ek; simpl.
    + destruct (Hs k v mt Ek) as [Hname _]. destruct (Expired mt now) eqn:Ee.
      * rewrite option_guard_False by (unfold fresh; simpl; by rewrite Ee). rewrite <- Hname. apply Hgone; [|done].
        apply session_listed. eauto.
      * rewrite option_guard_True by (unfold fresh; simpl; by rewrite Ee). rewrite <- Ek. apply Hkeep.
        intros s (k' & v' & Hk')%session_listed Hes Hns. destruct (Hs k' v' s Hk') as [Hs' _]. congruence.
    + eapply lookup_weaken_None; [exact Ek|exact Hsub].
  - apply map_eq. intros k. rewrite map_lookup_filter.
    destruct (indexed (index m) !! k) as [mt|] eqn:Ek; simpl.
    + pose proof (Hi k mt Ek) as Hname. destruct (Expired mt now) eqn:Ee.
      * rewrite option_guard_False by done. rewrite <- Hname. apply Hgone2; [|done]. apply index_listed. eauto.
      * rewrite option_guard_True by done. rewrite <- Ek. apply Hkeep2.
        intros i (k' & Hk')%index_listed Hei Hni. pose proof (Hi k' i Hk'). congruence.
    + rewrite <- Ek. apply Hkeep2. intros i (k' & Hk')%index_listed Hei Hni.
      pose proof (Hi k' i Hk'). congruence.
  - intros name mt Hk Hem. rewrite <- (Hi name mt Hk). apply Hgone2; [|done]. apply index_listed. eauto.
Qed.

(** After a purge nothing expired is left: the session holds exactly its
    entries that have not expired, the index likewise, and the value behind
    every expired index entry is gone from the backend. *)
Theorem purge_complete now m m' n :
  manager_reaches m → healthy (persistent m) → Manager_PurgeExpired now m = (m', Ok n) →
  entries (session m') = filter (λ p, fresh now p.2 = true) (entries (session m)) ∧
  indexed (index m') = filter (λ p, Expired p.2 now = false) (indexed (index m)) ∧
  ∀ name mt, indexed (index m) !! name = Some mt → Expired mt now = true → view (persistent m') !! name = None.
Proof. apply purge_ok. Qed.

(** * Listing *)

(** The entries a listing shows. *)
Definition shown (m : Manager T) (mt : Metadata) : Prop :=
  (∃ v, entries (session m) !! Name mt = Some (v, mt)) ∨
  (entries (session m) !! Name mt = None ∧ indexed (index m) !! Name mt = Some mt).

Lemma NoDup_fmap_filter {A B} (f : A → B) (P : A → Prop) `{∀ x, Decision (P x)} l :
  NoDup (f <$> l) → NoDup (f <$> filter P l).
Proof.
  induction l as [|x l IH]; simpl; [done|]. intros [Hx Hl]%NoDup_cons. rewrite filter_cons. case_decide; [|auto].
  simpl. apply NoDup_cons. split; [|auto]. intros (y & Hxy & [_ Hy]%list_elem_of_filter)%list_elem_of_fmap. rewrite Hxy in Hx.
  apply Hx. by apply list_elem_of_fmap_2.
Qed.

(** Names filed under themselves do not repeat. *)
Lemma NoDup_names {A} (f : string * A → Metadata) (mp : gmap string A) :
  (∀ k x, mp !! k = Some x → Name (f (k, x)) = k) → NoDup (Name <$> (f <$> map_to_list mp)).
Proof.
  intros Hf. assert (Name <$> (f <$> map_to_list mp) = (map_to_list mp).*1) as ->; [|apply NoDup_fst_map_to_list].
  rewrite <- list_fmap_compose. apply list_fmap_ext. intros i [k x] Hk. simpl. apply Hf.
  apply elem_of_map_to_list. by eapply list_elem_of_lookup_2.
Qed.

(** A listing is sorted by name, names every secret once, shows nothing that
    has expired, and shows exactly the session's entries and those of the
    index that no session entry shadows. *)
Theorem list_complete now m m' l :
  manager_reaches m → healthy (persistent m) → Manager_List now m = (m', Ok l) →
  StronglySorted (in_order name_less) l ∧ NoDup (Name <$> l) ∧
  (∀ mt, mt ∈ l ↔ shown m' mt) ∧ (∀ mt, mt ∈ l → Expired mt now = false).
Proof.
  intros Hm Hh Hlist. unfold Manager_List in Hlist.
  destruct (Manager_PurgeExpired now m) as [m1 [n|e]] eqn:Ep; [|done].
  assert (named m1) as [Hs Hi].
  { pose proof (shrinks_purge now m) as Hsh. rewrite Ep in Hsh. by eapply shrinks_named, manager_reaches_named. }
  destruct (purge_ok now m m1 n Hm Hh Ep) as (Hfs & Hfi & _).
  cbn [mem_List snd] in Hlist. unfold on_index in Hlist. pose proof (Index_List_spec (index m1)) as [Hix Hl].
  destruct (Index_List (index m1)) as [ix [l0|e]]; [|done]. specialize (Hl l0 eq_refl). simpl in Hix, Hl. subst l0.
  injection Hlist as <- <-. set (s := sort_by_name ((λ x, x.2.2) <$> _)). set (i := sort_by_name (snd <$> _)).
  assert (∀ mt, mt ∈ s ↔ ∃ v, entries (session m1) !! Name mt = Some (v, mt)) as Hins.
  { intros mt. unfold s. rewrite session_listed. split; [|eauto].
    intros (k & v & Hk). destruct (Hs k v mt Hk) as [-> _]. eauto. }
  assert (∀ mt, mt ∈ i ↔ indexed (index m1) !! Name mt = Some mt) as Hini.
  { intros mt. unfold i. rewrite index_listed. split; [|eauto].
    intros (k & Hk). by rewrite (Hi k mt Hk). }
  assert (∀ k, k ∈ Name <$> s ↔ is_Some (entries (session m1) !! k)) as Hnames.
  { intros k. rewrite list_elem_of_fmap. split.
    - intros (mt & -> & [v Hv]%Hins). eauto.
    - intros [[v mt] Hk]. exists mt. destruct (Hs k v mt Hk) as [<- _]. split; [done|]. apply Hins. eauto. }
  assert (∀ mt, mt ∈ sort_by_name (s ++ filter (λ i, Name i ∉ Name <$> s) i) ↔ shown m1 mt) as Hmem.
  { intros mt. unfold sort_by_name. rewrite elem_of_sort_stable, elem_of_app, list_elem_of_filter, Hins, Hini, Hnames.
    unfold shown. by rewrite <- eq_None_not_Some. }
  split_and!.
  - apply sort_by_name_sorted.
  - unfold sort_by_name. rewrite sort_stable_perm, fmap_app. apply NoDup_app. split_and!.
    + unfold s, sort_by_name. rewrite sort_stable_perm. apply (NoDup_names (λ x, x.2.2)).
      intros k [v mt] Hk. by destruct (Hs k v mt Hk).
    + intros k Hk (mt & -> & [Hno _]%list_elem_of_filter)%list_elem_of_fmap. done.
    + apply NoDup_fmap_filter. unfold i, sort_by_name. rewrite sort_stable_perm. apply (NoDup_names snd). intros k mt Hk. by apply (Hi k).
  - intros mt. rewrite Hmem. unfold shown. simpl. by rewrite Hix.
  - intros mt [[v Hv]|[_ Hv]]%Hmem.
    + rewrite Hfs, map_lookup_filter_Some in Hv. destruct Hv as [_ Hf]. unfold fresh in Hf. simpl in Hf. by apply negb_true_iff.
    + rewrite Hfi, map_lookup_filter_Some in Hv. by destruct Hv.
Qed.

(** A deletion that succeeds leaves the name neither in the session nor in
    the index, nor in the backend unless the backend failed to delete it; one
    that reports [ErrNotFound] had nothing to delete in either store. *)
Theorem delete_removes name m m' r :
  healthy (persistent m) →
  Manager_Delete name m = (m', r) →
  (r = Ok tt → entries (session m') !! name = None ∧ indexed (index m') !! name = None ∧
     (view (persistent m') !! name = None ∨ ∃ e, e ≠ ErrNotFound ∧ (b_Delete name (persistent m)).2 = Err e)) ∧
  (r = Err ErrNotFound → (Index_Delete name (index m)).2 = Ok tt →
     entries (session m) !! name = None ∧ view (persistent m) !! name = None).
Proof.
  intros Hh. unfold Manager_Delete. destruct (ValidateName name) as [u|e] eqn:Ev.
  2:{ intros [= <- <-]. unfold ValidateName, guard_err in Ev. by repeat case_match; simplify_eq/=. }
  unfold on_session, on_persistent, on_index.
  assert (is_ok (ValidateName name) = true) as Hv by by rewrite Ev.
  pose proof (mem_Delete_gone name (session m) Hv) as Hs.
  assert ((mem_Delete name (session m)).2 = Err ErrNotFound → entries (session m) !! name = None) as Hnf.
  { unfold mem_Delete. rewrite Ev. by destruct (entries (session m) !! name). }
  destruct (mem_Delete name (session m)) as [s1 rs] eqn:Es. simpl in *.
  pose proof (delete_ok name (persistent m) Hh) as Hok. pose proof (delete_not_found name (persistent m) Hh) as Hdn.
  destruct (b_Delete name (persistent m)) as [b rp]. simpl in *.
  pose proof (Index_Delete_spec name (index m)) as Hi.
  destruct (Index_Delete name (index m)) as [ix ri]. simpl in *. intros [= <- <-]. simpl. split.
  - intros Hr. destruct ri as [[]|]; [|done]. rewrite Hi, lookup_delete_eq. split_and!; [done|done|].
    destruct rp as [[]|e]; [left; rewrite (Hok eq_refl); apply lookup_delete_eq|].
    destruct (decide (e = ErrNotFound)) as [->|]; [|right; eauto]. left. destruct (Hdn eq_refl) as [? ->]. done.
  - intros Hr Hix. rewrite Hix in *. destruct rs as [[]|es]; [done|]. simpl in Hr.
    destruct rp as [[]|e]; [done|]. simpl in Hr. simplify_eq. destruct (Hdn eq_refl) as [? _]. split; [|done].
    apply Hnf. f_equal. unfold mem_Delete in Es. rewrite Ev in Es. by destruct (entries (session m) !! name); simplify_eq.
Qed.
End props.

(** * Concrete runs: the memory backend stands for the persistent one *)

Definition good_disk : Index := mkIndex NoFile (λ _, mkIO false false) 0.
Definition sample_manager : Manager Memory := NewManager Secrets.NewMemory good_disk.
Definition sample_now : Time := unix_epoch + 1700000000 * Second.
Definition sample_meta (retention : bytes) : Metadata :=
  mkMetadata "" [] retention 0 0 B["for the demo"] [] false [] 0 KindSecret.
Definition kept : Metadata := sample_meta RetentionUntilRevoked.
Definition dated : Metadata := sample_meta B["until:2023-11-14T22:13:30Z"].

Definition stored (retention value : bytes) (m : Manager Memory) : Manager Memory :=
  (Manager_Put sample_now "api-key" value (sample_meta retention) m).1.

Definition stored_meta (retention value : bytes) (m : Manager Memory) : Metadata :=
  match (Manager_Put sample_now "api-key" value (sample_meta retention) m).2 with
  | Ok mt => mt | Err _ => sample_meta [] end.

Lemma put_then_get_witness :
  (Manager_Get sample_now "api-key" (stored RetentionSession B["v1"] sample_manager)).2 =
  Ok (B["v1"], stored_meta RetentionSession B["v1"] sample_manager).
Proof.
  apply (put_then_get sample_now sample_now "api-key" B["v1"] (sample_meta RetentionSession) sample_manager);
    [exact I|done|vm_compute; reflexivity..].
Defined.

Lemma get_unexpired_witness :
  Expired (stored_meta RetentionUntilRevoked B["v1"] sample_manager) sample_now = false.
Proof.
  apply (get_unexpired sample_now "api-key" (stored RetentionUntilRevoked B["v1"] sample_manager)
    (Manager_Get sample_now "api-key" (stored RetentionUntilRevoked B["v1"] sample_manager)).1 B["v1"]); [exact I|].
  vm_compute. reflexivity.
Defined.

Definition mixed_manager : Manager Memory :=
  (Manager_Put sample_now "other" B["v2"] kept
    (Manager_Put sample_now "api-key" B["v1"] dated sample_manager).1).1.

Lemma mixed_reaches : manager_reaches mixed_manager.
Proof.
  eapply reaches_next; [eapply reaches_next; [apply reaches_new|apply step_put]|apply step_put].
  intros n mt. unfold indexed. simpl. by rewrite lookup_empty.
Qed.

Definition after_date : Time := sample_now + 60 * Second.

Lemma purge_complete_witness :
  ∃ m' n, Manager_PurgeExpired after_date mixed_manager = (m', Ok n) ∧ n = 1 ∧
    view (persistent m') !! "api-key" = None.
Proof.
  assert ((Manager_PurgeExpired after_date mixed_manager).2 = Ok 1) as Hr by (vm_compute; reflexivity).
  destruct (Manager_PurgeExpired after_date mixed_manager) as [m' r] eqn:E. cbn [snd] in Hr. subst r.
  exists m', 1. split; [done|]. split; [done|].
  destruct (purge_complete after_date mixed_manager m' 1 mixed_reaches (always_healthy _) E) as (_ & _ & Hgone).
  destruct (indexed (index mixed_manager) !! "api-key") as [mt|] eqn:Ei; [|vm_compute in Ei; discriminate].
  apply (Hgone "api-key" mt Ei). vm_compute in Ei. injection Ei as <-. vm_compute. reflexivity.
Defined.

Lemma list_complete_witness :
  ∃ m' l, Manager_List after_date mixed_manager = (m', Ok l) ∧ Name <$> l = ["other"] ∧ NoDup (Name <$> l).
Proof.
  assert (∃ l, (Manager_List after_date mixed_manager).2 = Ok l ∧ Name <$> l = ["other"]) as (l & Hr & Hn).
  { eexists. split; vm_compute; reflexivity. }
  destruct (Manager_List after_date mixed_manager) as [m' r] eqn:E. cbn [snd] in Hr. subst r.
  exists m', l. split; [done|]. split; [done|].
  apply (list_complete after_date mixed_manager m' l mixed_reaches (always_healthy _) E).
Defined.

Lemma delete_removes_witness :
  (Manager_Delete "api-key" mixed_manager).2 = Ok tt ∧
  indexed (index (Manager_Delete "api-key" mixed_manager).1) !! "api-key" = None.
Proof.
  assert ((Manager_Delete "api-key" mixed_manager).2 = Ok tt) as Hr by (vm_compute; reflexivity). split; [done|].
  destruct (delete_removes "api-key" mixed_manager _ _ (always_healthy _) (surjective_pairing _)) as [Hd _]. by apply (Hd Hr).
Defined.

(** ManagerShadow: A persistent secret that replaces a session secret of the same name is
    not what a lookup returns: [Put] leaves the session entry, which shadows
    it. *)
Theorem put_shadowed :
  let m := stored RetentionUntilRevoked B["new"] (stored RetentionSession B["old"] sample_manager) in
  entries (persistent m) !! "api-key" = Some (B["new"], stored_meta RetentionUntilRevoked B["new"] sample_manager) ∧
  (λ x, x.1) <$> (match (Manager_Get sample_now "api-key" m).2 with Ok x => Some x | Err _ => None end) = Some B["old"].
Proof. split; vm_compute; reflexivity. Qed.
