(* ===== verification/GoText.v ===== *)
(** More of Go's [strings], [encoding/base64], [encoding/hex], [net/url] and
    [encoding/json]: searching for and replacing a substring, and the text
    encodings of a value. *)
From S2P Require Import Prelude Base64 GoStrings Json GoNet.
From Stdlib Require Import Strings.Byte.

(** * Substrings *)

(** [strings.Contains] *)
Fixpoint Contains (s p : bytes) : bool :=
  HasPrefix s p || match s with [] => false | _ :: s => Contains s p end.

Definition cons_first (b : byte) (segs : list bytes) : list bytes :=
  match segs with seg :: segs => (b :: seg) :: segs | [] => [[b]] end.

(** [strings.Split] on a separator that is not empty: [skip] bytes of the last
    separator found are still to be passed over. *)
Fixpoint SplitStr (sep : bytes) (skip : nat) (s : bytes) : list bytes :=
  match s with
  | [] => [[]]
  | b :: s' =>
      match skip with
      | S skip => SplitStr sep skip s'
      | O => if HasPrefix s sep then [] :: SplitStr sep (length sep - 1) s'
             else cons_first b (SplitStr sep 0 s')
      end
  end.

(** [strings.Join] *)
Fixpoint JoinStr (sep : bytes) (segs : list bytes) : bytes :=
  match segs with
  | [] => []
  | [seg] => seg
  | seg :: segs => seg ++ sep ++ JoinStr sep segs
  end.

(** [strings.ReplaceAll] of a text that is not empty. *)
Definition ReplaceAll (s old new : bytes) : bytes := JoinStr new (SplitStr old 0 s).

Example replace_example : ReplaceAll B["aabaaab"] B["aa"] B["-"] = B["-b-ab"].
Proof. vm_compute. reflexivity. Qed.

(** ** What they mean *)

Definition infix (p s : bytes) : Prop := ∃ a b, s = a ++ p ++ b.

Lemma HasPrefix_iff s p : HasPrefix s p = true ↔ ∃ b, s = p ++ b.
Proof.
  revert s. induction p as [|x p IH]; intros s.
  { split; [by exists s|by destruct s]. }
  destruct s as [|y s]; simpl; [by split; [|intros [b Hb]]|]. rewrite andb_true_iff, bool_decide_eq_true, IH.
  split; [intros (-> & b & ->); by exists b|intros [b Hb]; simplify_eq; split; [done|by exists b]].
Qed.

Lemma Contains_iff s p : Contains s p = true ↔ infix p s.
Proof.
  induction s as [|x s IH].
  - cbn [Contains]. rewrite orb_false_r, HasPrefix_iff. split; [intros [b Hb]; by exists [], b|].
    intros (a & b & Hab). exists b. by destruct a.
  - cbn [Contains]. rewrite orb_true_iff, HasPrefix_iff, IH. split.
    + intros [[b Hb]|(a & b & ->)]; [by exists [], b|by exists (x :: a), b].
    + intros ([|y a] & b & Hab); [left; by exists b|right]. exists a, b. by simplify_eq/=.
Qed.

Lemma Contains_false s p : Contains s p = false ↔ ¬ infix p s.
Proof. rewrite <- Contains_iff. by destruct (Contains s p). Qed.

#[export] Instance infix_preorder : PreOrder infix.
Proof.
  split; [intros s; by exists [], []; rewrite app_nil_r|].
  intros p q r (a & b & ->) (c & d & ->). exists (c ++ a), (b ++ d). by rewrite !app_assoc.
Qed.

Lemma infix_cons p x s : infix p s → infix p (x :: s).
Proof. intros (a & b & ->). by exists (x :: a), b. Qed.

(** An infix that does not contain the byte in the middle lies on one side. *)
Lemma infix_around p c x y : c ∉ p → infix p (x ++ c :: y) → infix p x ∨ infix p y.
Proof.
  intros Hc (a & b & Heq). apply app_eq_inv in Heq as [(k & -> & Hk)|(k & -> & Hk)].
  - apply app_eq_inv in Hk as [(k' & -> & Hk')|(k' & -> & Hk')].
    + destruct k' as [|z k']; simplify_eq/=; [left; exists a, []; by rewrite !app_nil_r|].
      exfalso. apply Hc. apply elem_of_app. right. by left.
    + left. by exists a, k'.
  - destruct k as [|z k]; simplify_eq/=.
    + destruct p as [|z p]; [left; exists x, []; by rewrite app_nil_r|]. simplify_eq/=. exfalso. apply Hc. by left.
    + right. by exists k, b.
Qed.

Lemma SplitStr_skip sep k s : SplitStr sep k s = SplitStr sep 0 (drop k s).
Proof. revert k. induction s as [|b s IH]; intros [|k]; simpl; try done. Qed.

(** The first segment is a prefix of the text. *)
Lemma SplitStr_first sep s : ∃ seg segs r, SplitStr sep 0 s = seg :: segs ∧ s = seg ++ r.
Proof.
  induction s as [|b s (seg & segs & r & Hs & Hr)]; [by exists [], [], []|]. simpl.
  case_match; [by eexists [], _, _|]. rewrite Hs. simpl. exists (b :: seg), segs, r. by rewrite Hr at 1.
Qed.

(** Every segment is a part of the text in which the separator does not occur. *)
Lemma SplitStr_segments sep s seg :
  sep ≠ [] → seg ∈ SplitStr sep 0 s → infix seg s ∧ ¬ infix sep seg.
Proof.
  intros Hsep. remember (length s) as n eqn:Hn. revert s seg Hn.
  induction n as [n IH] using (well_founded_induction lt_wf). intros s seg -> Hseg.
  destruct s as [|b s]; simpl in *.
  { apply list_elem_of_singleton in Hseg as ->. split; [by exists [], []|].
    intros (x & y & Hxy). by destruct x, sep. }
  destruct (match sep with [] => true | b0 :: p => bool_decide (b0 = b) && HasPrefix s p end) eqn:Hpre.
  - rewrite SplitStr_skip in Hseg. apply elem_of_cons in Hseg as [->|Hseg].
    + split; [exists [], (b :: s); done|]. intros (x & y & Hxy). by destruct x, sep.
    + apply (IH (length (drop (length sep - 1) s))) in Hseg as [Hi Hno]; [|rewrite length_drop; lia|done].
      split; [|done]. apply infix_cons. etrans; [exact Hi|]. exists (take (length sep - 1) s), [].
      by rewrite app_nil_r, take_drop.
  - destruct (SplitStr_first sep s) as (sg & segs & r & Hs & Hr). rewrite Hs in Hseg. simpl in Hseg.
    apply elem_of_cons in Hseg as [->|Hseg].
    + split; [exists [], r; by rewrite Hr at 1|].
      destruct (IH (length s) ltac:(lia) s sg eq_refl) as [_ Hno]; [rewrite Hs; by left|].
      intros ([|y x] & z & Hxz).
      * assert (HasPrefix (b :: s) sep = true) as Hp by (apply HasPrefix_iff; exists (z ++ r); rewrite Hr at 1;
          change (b :: sg ++ r) with ((b :: sg) ++ r); rewrite Hxz; simpl; by rewrite <- app_assoc).
        simpl in Hp. congruence.
      * simplify_eq/=. apply Hno. by exists x, z.
    + destruct (IH (length s) ltac:(lia) s seg eq_refl) as [Hi Hno]; [rewrite Hs; by right|].
      split; [by apply infix_cons|done].
Qed.

Lemma JoinStr_cons2 new seg seg' segs :
  JoinStr new (seg :: seg' :: segs) = seg ++ new ++ JoinStr new (seg' :: segs).
Proof. done. Qed.

(** A text free of the two bytes around the replacement that occurs after
    replacing occurs in a segment or inside the replacement. *)
Lemma JoinStr_infix l r mid p segs :
  l ∉ p → r ∉ p → segs ≠ [] → infix p (JoinStr (l :: mid ++ [r]) segs) →
  infix p mid ∨ ∃ seg, seg ∈ segs ∧ infix p seg.
Proof.
  intros Hl Hr. induction segs as [|seg segs IH]; [done|]. intros _ Hin.
  destruct segs as [|seg' segs]; [right; exists seg; split; [by left|done]|].
  rewrite JoinStr_cons2 in Hin. simpl in Hin.
  apply infix_around in Hin as [Hin|Hin]; [right; exists seg; split; [by left|done]| |done].
  rewrite <- app_assoc in Hin. simpl in Hin. apply infix_around in Hin as [Hin|Hin]; [by left| |done].
  destruct IH as [?|(sg & Hsg & Hi)]; [done|done|by left|right]. exists sg. split; [by right|done].
Qed.

(** What occurs after replacing [old] by a bracketed text occurred before, and
    is not [old], or occurs inside the brackets. *)
Lemma ReplaceAll_infix l r mid p s old :
  old ≠ [] → l ∉ p → r ∉ p → infix p (ReplaceAll s old (l :: mid ++ [r])) →
  infix p mid ∨ infix p s ∧ ¬ infix old p.
Proof.
  intros Hold Hl Hr Hin. unfold ReplaceAll in Hin.
  destruct (SplitStr_first old s) as (sg & segs & rr & Hs & _).
  apply JoinStr_infix in Hin as [?|(seg & Hseg & Hi)]; [by left| |done|done|by rewrite Hs].
  apply SplitStr_segments in Hseg as [Hsub Hno]; [|done]. right. split; [by etrans|].
  intros Hop. apply Hno. by etrans.
Qed.

Lemma ReplaceAll_none s old new : old ≠ [] → ¬ infix old s → ReplaceAll s old new = s.
Proof.
  intros Hold Hno. unfold ReplaceAll. enough (SplitStr old 0 s = [s]) as -> by done.
  induction s as [|b s IH]; [done|]. simpl.
  assert (HasPrefix (b :: s) old = false) as Hp.
  { apply not_true_iff_false. rewrite HasPrefix_iff. intros [y Hy]. apply Hno. by exists [], y. }
  simpl in Hp. rewrite Hp, IH; [done|]. intros Hi. apply Hno. by apply infix_cons.
Qed.

(** * Encodings of a value as text *)

Definition std_alphabet : bytes :=
  B["ABCDEFGHIJKLMNOPQRSTUVWXYZabcdefghijklmnopqrstuvwxyz0123456789+/"].

(** [base64.RawStdEncoding] and [base64.RawURLEncoding]. *)
Definition RawStdEncode (l : bytes) : bytes := (λ v, nth (Z.to_nat v) std_alphabet x00) <$> sextets l.
Definition RawURLEncode (l : bytes) : bytes := encode l.

(** The padded encodings: up to a multiple of four characters. *)
Definition pad64 (s : bytes) : bytes := s ++ replicate (Z.to_nat ((- zlen s) mod 4)) x3d.
Definition StdEncode (l : bytes) : bytes := pad64 (RawStdEncode l).
Definition URLEncode (l : bytes) : bytes := pad64 (RawURLEncode l).

(** [base64.StdEncoding.DecodeString]: line breaks are skipped, the last
    quantum may be padded, bits that are left over are not looked at. *)
Definition std_char (b : byte) : option Z := index_of b std_alphabet 0.

Fixpoint std_quanta (s : bytes) : option bytes :=
  match s with
  | [] => Some []
  | a :: b :: c :: d :: s' =>
      va ← std_char a; vb ← std_char b;
      let x := z2b ((va * 262144 + vb * 4096) / 65536) in
      if decide (c = x3d) then
        (if decide (d = x3d ∧ s' = []) then Some [x] else None)
      else
        vc ← std_char c;
        let y := z2b ((va * 262144 + vb * 4096 + vc * 64) / 256) in
        if decide (d = x3d) then (if decide (s' = []) then Some [x; y] else None)
        else
          vd ← std_char d;
          rest ← std_quanta s';
          Some (x :: y :: z2b (va * 262144 + vb * 4096 + vc * 64 + vd) :: rest)
  | _ => None
  end.

Definition StdDecode (s : bytes) : option bytes := std_quanta (filter (λ b, is_newline b = false) s).

(** [hex.EncodeToString] *)
Definition HexEncode (l : bytes) : bytes := mjoin ((λ b, [hex_lower (b2z b / 16); hex_lower (b2z b mod 16)]) <$> l).

(** [url.PathEscape]: also some reserved characters stand for themselves. *)
Definition path_byte (b : byte) : bytes :=
  if unreserved b || bool_decide (b ∈ B["$&+=:@"]) then [b]
  else [x25; hex_upper (b2z b / 16); hex_upper (b2z b mod 16)].
Definition PathEscape (s : bytes) : bytes := mjoin (path_byte <$> s).

(** [json.Marshal] of a string: also the characters of HTML are escaped. *)
Definition escape_html (c : option rune * bytes) : bytes :=
  match c.2 with
  | [b] => if bool_decide (b ∈ B["<>&"]) then B["\u00"] ++ [hex_lower (b2z b / 16); hex_lower (b2z b mod 16)] else escape_char c
  | _ => escape_char c
  end.
Definition MarshalString (s : bytes) : bytes := quote :: mjoin (escape_html <$> chars s) ++ [quote].

Example encodings :
  (StdEncode B["ab>?"], URLEncode B["ab>?"], HexEncode B["k~"], PathEscape B["a b/c=d"], QueryEscape B["a b/c=d"], MarshalString B["a<b"]) =
  (B["YWI+Pw=="], B["YWI-Pw=="], B["6b7e"], B["a%20b%2Fc=d"], B["a+b%2Fc%3Dd"], quote :: B["a\u003cb"] ++ [quote]).
Proof. vm_compute. reflexivity. Qed.

(** ** Standard base64 and back *)

Definition std_enc (v : Z) : byte := nth (Z.to_nat v) std_alphabet x00.

Lemma std_enc_all :
  forallb (λ i, bool_decide (std_char (std_enc i) = Some i) && negb (is_newline (std_enc i)) && negb (bool_decide (std_enc i = x3d)))
    (seqZ 0 64) = true.
Proof. vm_compute. reflexivity. Qed.

Lemma std_enc_char v : 0 <= v < 64 →
  std_char (std_enc v) = Some v ∧ is_newline (std_enc v) = false ∧ std_enc v ≠ x3d.
Proof.
  intros Hv. pose proof std_enc_all as H. rewrite forallb_forall in H.
  specialize (H v). rewrite <- list_elem_of_In, elem_of_seqZ in H.
  specialize (H ltac:(lia)). breflect. auto.
Qed.

(** The encoding, group by group. *)
Lemma StdEncode_group a b c r :
  StdEncode (a :: b :: c :: r) = (std_enc <$> sextets [a; b; c]) ++ StdEncode r.
Proof.
  unfold StdEncode, pad64, RawStdEncode. cbn [sextets fmap list_fmap app].
  change (sextets r) with (sextets r). rewrite !zlen_cons. set (k := zlen _).
  by replace ((- (1 + (1 + (1 + (1 + k))))) mod 4) with ((- k) mod 4) by lia.
Qed.

Lemma is_newline_std vs s :
  Forall (λ v, 0 <= v < 64) vs →
  filter (λ b, is_newline b = false) ((std_enc <$> vs) ++ s) = (std_enc <$> vs) ++ filter (λ b, is_newline b = false) s.
Proof.
  induction 1 as [|v vs Hv _ IH]; [done|]. cbn [fmap list_fmap app].
  apply std_enc_char in Hv as (_ & Hn & _). by rewrite filter_cons_True, IH by done.
Qed.

Ltac std_chars :=
  repeat match goal with
  | |- context [std_enc ?v] =>
      let H1 := fresh in let H2 := fresh in let q := fresh "q" in
      destruct (std_enc_char v ltac:(first [assumption|lia])) as (H1 & _ & H2); revert H1 H2;
      generalize (std_enc v); intros q H1 H2
  end.

Lemma StdDecode_StdEncode l : StdDecode (StdEncode l) = Some l.
Proof.
  unfold StdDecode. induction l as [|a|a b|a b c r IH] using bytes_ind3; [done|..].
  - change (StdEncode [a]) with ((std_enc <$> sextets [a]) ++ [x3d; x3d]).
    rewrite is_newline_std by apply sextets_range. byte_arith.
    cbn -[std_enc std_char Z.div Z.modulo Z.mul decide]. std_chars.
    rewrite H0, H2. cbn -[std_char Z.div Z.modulo Z.mul decide]. rewrite !decide_True by done.
    do 2 f_equal. apply z2b_eq. lia.
  - change (StdEncode [a; b]) with ((std_enc <$> sextets [a; b]) ++ [x3d]).
    rewrite is_newline_std by apply sextets_range. change (filter _ [x3d]) with [x3d]. byte_arith.
    cbn -[std_enc std_char Z.div Z.modulo Z.mul decide]. std_chars.
    rewrite H1, H3, H5. cbn -[std_char Z.div Z.modulo Z.mul decide]. rewrite decide_False by done.
    rewrite !decide_True by done. do 2 f_equal; [|f_equal]; apply z2b_eq; lia.
  - rewrite StdEncode_group, is_newline_std by apply sextets_range. byte_arith.
    cbn -[std_enc std_char Z.div Z.modulo Z.mul decide]. std_chars.
    rewrite H2, H4, H6, H8. cbn -[std_char Z.div Z.modulo Z.mul decide]. rewrite !decide_False by done.
    rewrite IH. cbn -[std_char Z.div Z.modulo Z.mul decide]. do 2 f_equal; [|f_equal; [|f_equal]]; apply z2b_eq; lia.
Qed.

(** * Lengths *)

Lemma StdEncode_length l : zlen (StdEncode l) = (zlen l + 2) / 3 * 4.
Proof.
  unfold StdEncode, pad64, RawStdEncode. rewrite zlen_app.
  assert (zlen ((λ v, nth (Z.to_nat v) std_alphabet Byte.x00) <$> sextets l) = (4 * zlen l + 2) / 3) as ->.
  { unfold zlen. rewrite length_fmap. apply sextets_length. }
  unfold zlen at 2. rewrite length_replicate. pose proof (zlen_nonneg l). lia.
Qed.
