(* ===== verification/JsonDoc.v ===== *)
(** Documents: [json.Marshal] and [json.Unmarshal] of the struct types the
    program stores and exchanges.  A type is described by a [codec]; a struct
    by the list of its fields with their tags, from which both directions are
    computed.

    [Unmarshal] reports an error or stores everything; what a failed call has
    stored is not modelled, since the program discards it. *)
From S2P Require Import Prelude GoStrings GoTime GoSort GoText Json Base64.
From Stdlib Require Import Strings.Byte.

(** * Writing *)

(** The text of a string between its quotes, as [Marshal] writes it. *)
Definition marshal_text (s : bytes) : bytes := mjoin (escape_html <$> chars s).

Fixpoint write_json (v : json) : bytes :=
  match v with
  | JNull => B["null"]
  | JBool b => if b then B["true"] else B["false"]
  | JNum lexeme => lexeme
  | JStr raw => quote :: raw ++ [quote]
  | JArr l => x5b :: JoinByte (List.map write_json l) x2c ++ [x5d]
  | JObj ms => x7b :: JoinByte (List.map (λ m, MarshalString m.1 ++ x3a :: write_json m.2) ms) x2c ++ [x7d]
  end.

(** [checkValid] and the value: one value with white space around it. *)
Definition parse_json (s : bytes) : option json :=
  match read_value (S (length s)) 0 s with
  | Ok (v, rest) => match skip_space rest with [] => Some v | _ => None end
  | Err _ => None
  end.

(** * Types *)

Record codec (A : Type) := mkCodec {
  c_zero : A;
  c_enc : A → option json; (* [None]: [Marshal] fails *)
  c_dec : json → A → option A; (* onto what the variable holds *)
}.
Arguments mkCodec {A} _ _ _.
Arguments c_zero {A} _.
Arguments c_enc {A} _ _.
Arguments c_dec {A} _ _ _.

Definition Marshal {A} (c : codec A) (a : A) : option bytes := write_json <$> c_enc c a.
Definition Unmarshal {A} (c : codec A) (s : bytes) (a : A) : option A := v ← parse_json s; c_dec c v a.

Definition string_codec : codec bytes :=
  mkCodec [] (λ s, Some (JStr (marshal_text s)))
    (λ v old, match v with JNull => Some old | JStr raw => Some (unquote raw) | _ => None end).

(** A Go [string] that is a [string] of the model. *)
Definition name_codec : codec string :=
  mkCodec "" (λ s, c_enc string_codec (bs s)) (λ v old, sb <$> c_dec string_codec v (bs old)).

Definition int_codec : codec Z :=
  mkCodec 0 (λ n, Some (JNum (Itoa n)))
    (λ v old, match v with JNull => Some old | JNum lex => int64_of lex | _ => None end).

Definition bool_codec : codec bool :=
  mkCodec false (λ b, Some (JBool b))
    (λ v old, match v with JNull => Some old | JBool b => Some b | _ => None end).

(** [MarshalJSON] and [UnmarshalJSON] of [time.Time]; the text of a time is
    not unescaped. *)
Definition time_codec : codec Time :=
  mkCodec zero_time (λ t, JStr <$> Format_strict t)
    (λ v old, match v with JNull => Some old | JStr raw => Parse_RFC3339 raw | _ => None end).

(** A [[]byte] is standard base64, a nil slice is null. *)
Definition bytes_codec : codec (option bytes) :=
  mkCodec None (λ v, Some (match v with None => JNull | Some b => JStr (StdEncode b) end))
    (λ v old, match v with
              | JNull => Some None
              | JStr raw => Some <$> StdDecode (unquote raw)
              | _ => None
              end).

(** ** Structs *)

(** A field with its tag: its name, and the test that leaves it out. *)
Record field (R : Type) := mkField {
  f_type : Type;
  f_codec : codec f_type;
  f_name : bytes;
  f_omit : f_type → bool;
  f_get : R → f_type;
  f_set : f_type → R → R;
}.
Arguments mkField {R f_type} _ _ _ _ _.
Arguments f_type {R} _.
Arguments f_codec {R} _.
Arguments f_name {R} _.
Arguments f_omit {R} _ _.
Arguments f_get {R} _ _.
Arguments f_set {R} _ _ _.

Definition never {A} (_ : A) : bool := false.

Section struct.
Context {R : Type} (fs : list (field R)).

Definition enc_field (r : R) (f : field R) : option (list (bytes * json)) :=
  if f_omit f (f_get f r) then Some []
  else v ← c_enc (f_codec f) (f_get f r); Some [(f_name f, v)].

Definition enc_fields (r : R) (l : list (field R)) : option (list (bytes * json)) :=
  mjoin <$> mapM (enc_field r) l.

(** The exact name first, then any spelling that differs in letter case only. *)
Definition lookup_field (k : bytes) : option (field R) :=
  match list_find (λ f, f_name f = k) fs with
  | Some (_, f) => Some f
  | None => snd <$> list_find (λ f, EqualFold k (f_name f) = true) fs
  end.

(** Members of no field are skipped. *)
Fixpoint dec_members (ms : list (bytes * json)) (r : R) : option R :=
  match ms with
  | [] => Some r
  | (k, v) :: ms =>
      match lookup_field k with
      | None => dec_members ms r
      | Some f => a ← c_dec (f_codec f) v (f_get f r); dec_members ms (f_set f a r)
      end
  end.

Definition struct_codec (zero : R) : codec R :=
  mkCodec zero (λ r, JObj <$> enc_fields r fs)
    (λ v r, match v with JNull => Some r | JObj ms => dec_members ms r | _ => None end).
End struct.

(** ** Maps *)

Definition key_less {A} (x y : string * A) : bool := String.ltb x.1 y.1.

Fixpoint dec_entries {A} (c : codec A) (ms : list (bytes * json)) (m : gmap string A) : option (gmap string A) :=
  match ms with
  | [] => Some m
  | (k, v) :: ms => a ← c_dec c v (c_zero c); dec_entries c ms (<[sb k := a]> m)
  end.

(** Keys are written in order; null is the nil map. *)
Definition map_codec {A} (c : codec A) : codec (gmap string A) :=
  mkCodec ∅
    (λ m, JObj <$> mapM (λ x, v ← c_enc c x.2; Some (bs x.1, v)) (sort_stable key_less (map_to_list m)))
    (λ v m, match v with JNull => Some ∅ | JObj ms => dec_entries c ms m | _ => None end).

(** * More types

    More types of documents ([JsonDoc]): slices, pointers and raw values, as
    the answers of command line tools have them. *)

Section types.
Context {A : Type} (c : codec A).

(** The elements of an array, each onto what the slice held at its place. *)
Fixpoint dec_elements (l : list json) (old : list A) : option (list A) :=
  match l with
  | [] => Some []
  | v :: l => a ← c_dec c v (default (c_zero c) (head old)); rest ← dec_elements l (tail old); Some (a :: rest)
  end.

(** A slice that is never nil when it is written. *)
Definition list_codec : codec (list A) :=
  mkCodec [] (λ l, JArr <$> mapM (c_enc c) l)
    (λ v old, match v with JNull => Some [] | JArr l => dec_elements l old | _ => None end).

(** A slice; nil is null. *)
Definition slice_codec : codec (option (list A)) :=
  mkCodec None (λ l, match l with None => Some JNull | Some l => JArr <$> mapM (c_enc c) l end)
    (λ v old, match v with JNull => Some None | JArr l => Some <$> dec_elements l (default [] old) | _ => None end).

(** A pointer; nil is null. *)
Definition pointer_codec : codec (option A) :=
  mkCodec None (λ p, match p with None => Some JNull | Some a => c_enc c a end)
    (λ v old, match v with JNull => Some None | _ => Some <$> c_dec c v (default (c_zero c) old) end).
End types.

(** [json.RawMessage]: the value itself; [None] when nothing was stored. *)
Definition raw_codec : codec (option json) := mkCodec None (λ v, Some (default JNull v)) (λ v _, Some (Some v)).

(** The [json.Unmarshal] of a raw message. *)
Definition Unmarshal_raw {A} (c : codec A) (v : option json) (a : A) : option A := v ← v; c_dec c v a.

(** A struct of one field, of two. *)
Definition one_field {A} (c : codec A) (name : bytes) : codec A :=
  struct_codec [mkField c name never id (λ x _, x)] (c_zero c).

Definition two_fields {A B} (c : codec A) (name : bytes) (d : codec B) (name' : bytes) : codec (A * B) :=
  struct_codec [mkField c name never fst (λ x r, (x, r.2)); mkField d name' never snd (λ x r, (r.1, x))]
    (c_zero c, c_zero d).

(** [json.Unmarshal] into a fresh variable. *)
Definition read_json {A} (c : codec A) (s : bytes) : option A := Unmarshal c s (c_zero c).

(** JSON text for examples: with the double quote for the single one. *)
Definition json_text (s : bytes) : bytes := (λ b, if decide (b = x27) then quote else b) <$> s.

Example elements_example :
  (read_json (list_codec string_codec) (json_text B["['a', null, 'b']"]),
   read_json (list_codec string_codec) B["null"],
   read_json (pointer_codec int_codec) B["7"],
   read_json (slice_codec bool_codec) B["[1]"]) =
  (Some [B["a"]; []; B["b"]], Some [], Some (Some 7), None).
Proof. vm_compute. reflexivity. Qed.
