(* ===== verification/JsonDocProps.v ===== *)
(** What [Marshal] writes, [Unmarshal] reads back: for every document, and for
    the types built from strings, numbers, times, byte slices, structs and
    maps. *)
From S2P Require Import Prelude GoStrings GoTime GoSort GoText Json JsonDoc.
From Stdlib Require Import Strings.Byte.

(** * Strings *)

(** A character of HTML is escaped, every other is written as before. *)
Lemma escape_html_cases c :
  escape_html c = escape_char c ∨
  ∃ b, c.2 = [b] ∧ b ∈ B["<>&"] ∧ escape_html c = B["\u00"] ++ [hex_lower (b2z b / 16); hex_lower (b2z b mod 16)].
Proof.
  unfold escape_html. destruct (c.2) as [|b [|b' s]]; auto.
  case_bool_decide; [right; eauto|auto].
Qed.

Lemma html_member b : b ∈ B["<>&"] → b = x3c ∨ b = x3e ∨ b = x26.
Proof. change B["<>&"] with [x3c; x3e; x26]. rewrite !elem_of_cons, elem_of_nil. tauto. Qed.

Lemma escape_html_scan c t : char_ok c →
  scan_string (escape_html c ++ t) = ('(raw, rest) ← scan_string t; Ok (escape_html c ++ raw, rest)).
Proof.
  intros Hc. destruct (escape_html_cases c) as [->|(b & _ & Hb & ->)]; [by apply escape_char_scan|].
  apply html_member in Hb as [->|[->| ->]]; reflexivity.
Qed.

Lemma scan_marshal s t : scan_string (marshal_text s ++ quote :: t) = Ok (marshal_text s, t).
Proof.
  unfold marshal_text. induction s as [|c s Hc Heq IH] using chars_ind; [reflexivity|].
  rewrite Heq. csimpl. rewrite <- app_assoc, escape_html_scan by done. by rewrite IH.
Qed.

Lemma escape_html_unquote c t : char_ok c → is_Some c.1 → unquote (escape_html c ++ t) = c.2 ++ unquote t.
Proof.
  intros Hc Hs. destruct (escape_html_cases c) as [->|(b & -> & Hb & ->)]; [by apply escape_char_unquote|].
  apply html_member in Hb as [->|[->| ->]]; reflexivity.
Qed.

Lemma unquote_marshal s : ValidUtf8 s = true → unquote (marshal_text s) = s.
Proof.
  unfold marshal_text. induction s as [|c s Hc Heq IH] using chars_ind; [done|].
  unfold ValidUtf8. rewrite Heq. csimpl. intros [Hs Hv]%andb_prop.
  apply bool_decide_eq_true in Hs. rewrite escape_html_unquote by done. by rewrite IH.
Qed.

Lemma MarshalString_app s t : MarshalString s ++ t = quote :: marshal_text s ++ quote :: t.
Proof. unfold MarshalString, marshal_text. cbn [app]. by rewrite <- app_assoc. Qed.

(** Text that is written as it is. *)
Definition plain (b : byte) : Prop := 32 <= b2z b < 128 ∧ b ≠ quote ∧ b ≠ backslash.

Lemma scan_plain_text s t : Forall plain s → scan_string (s ++ quote :: t) = Ok (s, t).
Proof.
  induction 1 as [|b s (H1 & H2 & H3) _ IH]; [reflexivity|]. cbn [app scan_string].
  rewrite !decide_False by done. destruct (Z.ltb_spec (b2z b) 32); [lia|]. by rewrite IH.
Qed.

Lemma unquote_plain_text s : Forall plain s → unquote s = s.
Proof.
  induction 1 as [|b s (H1 & H2 & H3) _ IH]; [reflexivity|]. cbn [unquote].
  rewrite decide_False by done. destruct (Z.ltb_spec (b2z b) 128); [|lia]. by rewrite IH.
Qed.

Definition plainb (b : byte) : bool :=
  (32 <=? b2z b) && (b2z b <? 128) && negb (bool_decide (b = quote)) && negb (bool_decide (b = backslash)).

Lemma plainb_spec b : plainb b = true → plain b.
Proof. unfold plainb, plain. intros H. breflect. auto. Qed.

Lemma plain_digit n : plain (digit n).
Proof.
  pose proof (digit_val_digit n) as Hd. unfold digit_val in Hd. split; [lia|].
  split; intros E; rewrite E in Hd; vm_compute (b2z _) in Hd; lia.
Qed.

Lemma std_alphabet_plain : forallb plainb std_alphabet = true.
Proof. vm_compute. reflexivity. Qed.

Lemma plain_std_enc v : 0 <= v < 64 → plain (std_enc v).
Proof.
  intros Hv. pose proof std_alphabet_plain as H. rewrite forallb_forall in H. apply plainb_spec, H.
  apply nth_In. change (length std_alphabet) with 64%nat. lia.
Qed.

Lemma plain_StdEncode l : Forall plain (StdEncode l).
Proof.
  unfold StdEncode, pad64. apply Forall_app. split.
  - unfold RawStdEncode. apply Forall_fmap. eapply Forall_impl; [apply Base64.sextets_range|].
    intros v Hv. by apply plain_std_enc.
  - apply Forall_replicate. by apply plainb_spec.
Qed.

(** Numbers and times are. *)
Lemma plain_Itoa n : 0 <= n → Forall plain (Itoa n).
Proof.
  intros Hn. unfold Itoa. destruct (Z.ltb_spec n 0); [lia|].
  generalize (S (Z.to_nat (Z.log2 n))). intros fuel. clear. revert n.
  induction fuel as [|fuel IH]; intros n; simpl; [constructor|]. apply Forall_app. split.
  - case_match; [constructor|apply IH].
  - constructor; [|constructor]. apply (plain_digit n).
Qed.

Lemma plain_format frac t : Forall plain frac → Forall plain (format_with frac t).
Proof.
  intros Hf. unfold format_with. destruct (civil _) as [[y m] day].
  assert (∀ n, Forall plain (pad2 n)) as H2 by (intros n; repeat constructor; apply plain_digit).
  assert (∀ n, 0 <= n → Forall plain (pad4u n)) as H4.
  { intros n Hn. unfold pad4u. case_match; [repeat constructor; apply plain_digit|by apply plain_Itoa]. }
  assert (Forall plain (pad4 y)) as Hy.
  { unfold pad4. destruct (Z.ltb_spec y 0); [|by apply H4]. constructor; [by apply plainb_spec|]. apply H4. lia. }
  repeat (apply Forall_app; split); auto; by repeat constructor; try by apply plainb_spec.
Qed.

Lemma plain_utf8 s : Forall plain s → ValidUtf8 s = true.
Proof. intros Hs. apply ValidUtf8_ascii. eapply Forall_impl; [exact Hs|]. intros b [? _]. lia. Qed.

(** * Documents *)

Section json_ind.
Context (P : json → Prop).
Context (Hnull : P JNull) (Hbool : ∀ b, P (JBool b)) (Hnum : ∀ l, P (JNum l)) (Hstr : ∀ s, P (JStr s)).
Context (Harr : ∀ l, Forall P l → P (JArr l)) (Hobj : ∀ ms, Forall (λ m, P m.2) ms → P (JObj ms)).

Fixpoint json_ind' (v : json) : P v :=
  match v with
  | JNull => Hnull
  | JBool b => Hbool b
  | JNum l => Hnum l
  | JStr s => Hstr s
  | JArr l => Harr l ((fix go l : Forall P l := match l with
                       | [] => Forall_nil_2 P
                       | v :: l => Forall_cons_2 P v l (json_ind' v) (go l) end) l)
  | JObj ms => Hobj ms ((fix go ms : Forall (λ m, P m.2) ms := match ms with
                         | [] => Forall_nil_2 (λ m, P m.2)
                         | m :: ms => Forall_cons_2 (λ m, P m.2) m ms (json_ind' m.2) (go ms) end) ms)
  end.
End json_ind.

(** The notation of an integer: no leading zero. *)
Definition int_lexeme (lex : bytes) : Prop :=
  ∃ sg b ds, lex = sg ++ b :: ds ∧ (sg = [] ∨ sg = [x2d]) ∧
    (b = x30 ∧ ds = [] ∨ b ≠ x30 ∧ Forall (λ c, is_digit c = true) (b :: ds)).

(** What [Marshal] produces, nested at most [d] deep. *)
Inductive writable : nat → json → Prop :=
  | w_null d : writable d JNull
  | w_bool d b : writable d (JBool b)
  | w_num d lex : int_lexeme lex → writable d (JNum lex)
  | w_str d raw : (∀ t, scan_string (raw ++ quote :: t) = Ok (raw, t)) → writable d (JStr raw)
  | w_obj d ms : Forall (λ m, ValidUtf8 m.1 = true ∧ writable d m.2) ms → writable (S d) (JObj ms).

(** What may stand after a value. *)
Definition ends (t : bytes) : Prop := t = [] ∨ stops t ∨ ∃ u, t = x0a :: u.

Lemma ends_digit t : ends t → scan_digits t = ([], t).
Proof. intros [->|[(c & u & -> & [->| ->])|[u ->]]]; reflexivity. Qed.

Lemma scan_digits_ends ds t :
  Forall (λ c, is_digit c = true) ds → ends t → scan_digits (ds ++ t) = (ds, t).
Proof. intros Hd Ht. induction Hd as [|c ds Hc _ IH]; simpl; [by apply ends_digit|]. by rewrite Hc, IH. Qed.

Lemma scan_number_int lex t : int_lexeme lex → ends t → scan_number (lex ++ t) = Ok (lex, t).
Proof.
  intros (sg & b & ds & -> & Hsg & Hb) Ht. unfold scan_number.
  assert (b ≠ x2d) as Hne by (destruct Hb as [[-> _]|[_ [Hb _]%Forall_cons]]; [done|by intros ->]).
  assert (scan_sign ((sg ++ b :: ds) ++ t) = (sg, b :: ds ++ t)) as ->.
  { destruct Hsg as [->| ->]; [|done]. simpl. by destruct (decide (b = x2d)). }
  assert (scan_int (b :: ds ++ t) = Ok (b :: ds, t)) as ->.
  { unfold scan_int. destruct Hb as [[-> ->]|[Hb Hds]]; [done|]. destruct (decide (b = x30)); [done|].
    unfold scan_digits1. apply Forall_cons in Hds as Hds'. destruct Hds' as [-> _].
    change (b :: ds ++ t) with ((b :: ds) ++ t). by rewrite scan_digits_ends. }
  cbn [mbind result_bind].
  assert (scan_frac t = Ok ([], t) ∧ scan_exp t = Ok ([], t)) as [-> He]
    by (destruct Ht as [->|[(c & u & -> & [->| ->])|[u ->]]]; done).
  cbn [mbind result_bind]. rewrite He. cbn [mbind result_bind]. by rewrite !app_nil_r.
Qed.

Lemma int_lexeme_head lex t : int_lexeme lex → ∃ b u, lex ++ t = b :: u ∧ is_space b = false ∧
  b ≠ quote ∧ b ≠ x7b ∧ b ≠ x5b ∧ b ≠ x74 ∧ b ≠ x66 ∧ b ≠ x6e ∧ (b = x2d ∨ is_digit b = true).
Proof.
  intros (sg & b & ds & -> & [->| ->] & Hb); [|eexists _, _; split_and!; by auto].
  assert (is_digit b = true) as Hd by (by destruct Hb as [[-> _]|[_ [Hb _]%Forall_cons]]).
  eexists _, _. split; [done|]. split; [|split_and!; auto; by intros ->].
  unfold is_space. by repeat (rewrite bool_decide_eq_false_2 by (by intros ->)).
Qed.

Definition members_text (ms : list (bytes * json)) : bytes :=
  JoinByte (List.map (λ m, MarshalString m.1 ++ x3a :: write_json m.2) ms) x2c.

(** A value is read back whatever follows it; [P] of the induction. *)
Definition reads_back (v : json) : Prop :=
  ∀ d depth fuel t, writable d v → depth + Z.of_nat d <= maxNestingDepth →
    (length (write_json v) < fuel)%nat → ends t → read_value fuel depth (write_json v ++ t) = Ok (v, t).

Lemma read_members_text ms d depth fuel t :
  Forall (λ m, reads_back m.2) ms → Forall (λ m, ValidUtf8 m.1 = true ∧ writable d m.2) ms → ms ≠ [] →
  depth + Z.of_nat d <= maxNestingDepth → (length (members_text ms) < fuel)%nat →
  read_members fuel depth (members_text ms ++ x7d :: t) = Ok (ms, t).
Proof.
  intros Hr Hw Hne Hdep. revert fuel. induction Hr as [|[k v] ms Hv _ IH]; intros fuel Hfuel; [done|].
  apply Forall_cons in Hw as [[Hk Hwv] Hw]. cbn [fst snd] in *.
  assert (∃ m, members_text ((k, v) :: ms) ++ x7d :: t =
            (MarshalString k ++ x3a :: write_json v) ++ m ∧ stops m ∧
          m = match ms with [] => x7d :: t | _ => x2c :: members_text ms ++ x7d :: t end) as (m & -> & Hm & Hms).
  { destruct ms as [|m ms]; eexists; (split; [|split; [|reflexivity]]).
    - reflexivity.
    - eexists _, _; split; [done|by right].
    - unfold members_text. cbn [List.map JoinByte fst snd]. by rewrite <- !app_assoc.
    - eexists _, _; split; [done|by left]. }
  assert (length (write_json v) + 3 <= length (members_text ((k, v) :: ms)))%nat as Hlen.
  { unfold members_text. destruct ms; cbn [List.map JoinByte fst snd]; rewrite !length_app; cbn [length];
      unfold MarshalString; cbn [length]; rewrite !length_app; simpl; lia. }
  destruct fuel as [|fuel]; [lia|]. rewrite <- app_assoc, MarshalString_app.
  cbn [read_members]. rewrite skip_space_stop by done. destruct (decide (quote = quote)) as [_|]; [|done].
  unfold read_string. rewrite scan_marshal. cbn [mbind result_bind]. rewrite unquote_marshal by done.
  rewrite <- app_comm_cons, skip_space_stop by done. destruct (decide (x3a = x3a)) as [_|]; [|done].
  rewrite (Hv d) by (done || lia || by right; left). cbn [mbind result_bind]. rewrite stops_skip by done. subst m.
  destruct ms as [|m ms]; [done|]. destruct (decide (x2c = x2c)) as [_|]; [|done].
  rewrite IH; [done..|].
  change (members_text ((k, v) :: m :: ms)) with ((MarshalString k ++ x3a :: write_json v) ++ x2c :: members_text (m :: ms)) in Hfuel.
  rewrite !length_app in Hfuel. cbn [length] in Hfuel. lia.
Qed.

Lemma read_write_json v : reads_back v.
Proof.
  induction v as [|b|lex|raw|l _|ms IH] using json_ind'; intros d depth fuel t Hw Hd Hf Ht;
    inversion Hw; subst; (destruct fuel as [|fuel]; [lia|]).
  - reflexivity.
  - by destruct b.
  - cbn [write_json]. destruct (int_lexeme_head lex t) as (b & u & E & Hsp & ? & ? & ? & ? & ? & ? & ?); [done|].
    cbn [read_value]. rewrite E, skip_space_stop by done. rewrite !decide_False by done. rewrite decide_True by done.
    rewrite <- E, scan_number_int by done. done.
  - cbn [write_json app]. cbn [read_value]. rewrite skip_space_stop by done.
    destruct (decide (quote = quote)) as [_|]; [|done]. rewrite <- app_assoc. cbn [app].
    match goal with H : ∀ t, scan_string _ = _ |- _ => by rewrite H end.
  - cbn [write_json]. fold (members_text ms). cbn [app]. rewrite <- app_assoc. cbn [app read_value].
    rewrite skip_space_stop by done. destruct (decide (x7b = quote)); [done|].
    destruct (decide (x7b = x7b)) as [_|]; [|done].
    destruct (Z.ltb_spec maxNestingDepth (depth + 1)); [lia|].
    destruct ms as [|[k v] ms].
    { cbn [members_text List.map JoinByte app]. rewrite skip_space_stop by done. by destruct (decide (x7d = x7d)). }
    assert (∃ u, members_text ((k, v) :: ms) ++ x7d :: t = quote :: u) as [u Hu].
    { unfold members_text, MarshalString. destruct ms; eexists; simpl; done. }
    rewrite Hu, skip_space_stop by done. destruct (decide (quote = x7d)); [done|]. rewrite <- Hu.
    cbn [write_json] in Hf. fold (members_text ((k, v) :: ms)) in Hf. cbn [length] in Hf. rewrite length_app in Hf.
    rewrite (read_members_text _ d0); [done..|lia|]. simpl in Hf. lia.
Qed.

(** A document stands alone, or on a line. *)
Lemma parse_write_json v d t :
  writable d v → Z.of_nat d <= maxNestingDepth → t = [] ∨ t = [x0a] → parse_json (write_json v ++ t) = Some v.
Proof.
  intros Hw Hd Ht. unfold parse_json.
  rewrite (read_write_json v d 0 _ t); [by destruct Ht as [->| ->]|done|lia|rewrite length_app; lia|].
  destruct Ht as [->| ->]; [by left|]. right. right. by eexists.
Qed.

(** * Types *)

(** Where [ok] holds, a value is written, nested at most [d] deep, and read
    back into a variable of its zero value. *)
Definition law {A} (c : codec A) (d : nat) (ok : A → Prop) : Prop :=
  ∀ a, ok a → ∃ j, c_enc c a = Some j ∧ writable d j ∧ c_dec c j (c_zero c) = Some a.

Lemma Unmarshal_Marshal {A} (c : codec A) d ok a :
  law c d ok → Z.of_nat d <= maxNestingDepth → ok a →
  ∃ b, Marshal c a = Some b ∧ Unmarshal c b (c_zero c) = Some a.
Proof.
  intros Hl Hd Ha. destruct (Hl a Ha) as (j & He & Hw & Hdec). exists (write_json j).
  unfold Marshal, Unmarshal. rewrite He. split; [done|].
  rewrite <- (app_nil_r (write_json j)). by rewrite (parse_write_json j d) by auto.
Qed.

Lemma string_law d : law string_codec d (λ s, ValidUtf8 s = true).
Proof.
  intros s Hs. eexists. split; [done|]. split; [constructor; intros t; apply scan_marshal|].
  simpl. by rewrite unquote_marshal.
Qed.

Lemma name_law d : law name_codec d (λ s, ValidUtf8 (bs s) = true).
Proof.
  intros s Hs. destruct (string_law d (bs s) Hs) as (j & He & Hw & Hd). exists j. split; [done|]. split; [done|].
  change (sb <$> c_dec string_codec j (c_zero string_codec) = Some s). rewrite Hd. simpl. by rewrite sb_bs.
Qed.

Lemma bool_law d : law bool_codec d (λ _, True).
Proof. intros b _. eexists. split; [done|]. split; [constructor|done]. Qed.

Lemma time_law d : law time_codec d (λ t, is_Some (Format_strict t)).
Proof.
  intros t [s Hs]. simpl. rewrite Hs. eexists. split; [done|]. split; [|by apply Parse_Format_strict].
  constructor. intros u. unfold Format_strict in Hs. case_match; [|done]. injection Hs as <-.
  set (y := (year_of _).1) in *. breflect.
  apply scan_plain_text.
  assert (∀ n, Forall plain (pad2 n)) as H2 by (intros n; repeat constructor; apply plain_digit).
  assert (∀ k n, Forall plain (frac_digits k n)) as Hf.
  { induction k as [|k IH]; intros n; simpl; [constructor|]. case_match; [constructor|].
    constructor; auto using plain_digit. }
  unfold format_with. destruct (civil _) as [[y' m] day] eqn:Ec. apply GoTime.civil_spec in Ec as (-> & _). fold y.
  unfold pad4, pad4u. destruct (Z.ltb_spec y 0); [lia|]. destruct (Z.ltb_spec y 10000); [|lia].
  unfold fraction. repeat first [apply Forall_app; split|apply Forall_cons; split]; auto using plain_digit;
    try (by apply plainb_spec).
  case_match; [constructor|]. constructor; [by apply plainb_spec|auto].
Qed.

(** ** Integers *)

Lemma dec_digits_spec fuel n :
  0 <= n < 10 ^ Z.of_nat fuel → (0 < fuel)%nat →
  Forall (λ c, is_digit c = true) (dec_digits fuel n) ∧ digits_val 0 (dec_digits fuel n) = n ∧
  ∃ b ds, dec_digits fuel n = b :: ds ∧ (b = x30 → n = 0 ∧ ds = []).
Proof.
  revert n. induction fuel as [|fuel IH]; intros n Hn Hpos; [lia|]. cbn [dec_digits].
  change (z2b (48 + n mod 10)) with (digit n).
  destruct (Z.ltb_spec n 10).
  - split; [repeat constructor; apply is_digit_digit|]. split; [simpl; rewrite digit_val_digit; lia|].
    eexists _, _. split; [done|]. intros E. split; [|done]. pose proof (digit_val_digit n) as Hv. rewrite E in Hv.
    change (digit_val x30) with 0 in Hv. lia.
  - assert (10 ^ Z.of_nat (S fuel) = 10 * 10 ^ Z.of_nat fuel) as E by (rewrite Nat2Z.inj_succ, Z.pow_succ_r; lia).
    destruct fuel as [|fuel]; [simpl in E, Hn; lia|].
    destruct (IH (n / 10)) as (Hd & Hv & b & ds & Hb & Hz); [lia|lia|].
    split; [apply Forall_app; split; [done|repeat constructor; apply is_digit_digit]|].
    split; [rewrite digits_val_app, Hv; simpl; rewrite digit_val_digit; lia|].
    rewrite Hb. eexists _, _. split; [done|]. intros ->. destruct Hz as [Hz _]; [done|]. lia.
Qed.

Lemma log2_fuel n : 0 <= n → n < 10 ^ Z.of_nat (S (Z.to_nat (Z.log2 n))).
Proof.
  intros Hn. rewrite Nat2Z.inj_succ, Z2Nat.id by apply Z.log2_nonneg.
  apply Z.lt_le_trans with (2 ^ Z.succ (Z.log2 n)).
  - destruct (decide (n = 0)) as [->|]; [done|]. apply Z.log2_spec. lia.
  - apply Z.pow_le_mono_l. lia.
Qed.

Lemma dec_digits_lexeme sg n :
  sg = [] ∨ sg = [x2d] → 0 <= n → int_lexeme (sg ++ dec_digits (S (Z.to_nat (Z.log2 n))) n).
Proof.
  intros Hsg Hn. destruct (dec_digits_spec (S (Z.to_nat (Z.log2 n))) n) as (Hd & _ & b & ds & E & Hz);
    [pose proof (log2_fuel n Hn); lia|lia|].
  rewrite E in *. exists sg, b, ds. split; [done|]. split; [done|].
  destruct (decide (b = x30)) as [Hb|]; [left|by right]. destruct (Hz Hb) as [_ Hds]. auto.
Qed.

Lemma Itoa_lexeme n : int_lexeme (Itoa n).
Proof.
  unfold Itoa. destruct (Z.ltb_spec n 0); [apply (dec_digits_lexeme [x2d])|apply (dec_digits_lexeme [])]; auto; lia.
Qed.

Lemma int64_of_Itoa n : - 2 ^ 63 <= n < 2 ^ 63 → int64_of (Itoa n) = Some n.
Proof.
  intros Hn. unfold int64_of, Itoa.
  assert (∀ m, 0 <= m → m = Z.abs n → let ds := dec_digits (S (Z.to_nat (Z.log2 m))) m in
    digits_val 0 ds = m ∧ forallb is_digit ds = true ∧ bool_decide (ds = []) = false ∧ scan_sign ds = ([], ds)) as Hds.
  { intros m Hm _ ds. destruct (dec_digits_spec (S (Z.to_nat (Z.log2 m))) m) as (Hd & Hv & b & l & E & _);
      [pose proof (log2_fuel m Hm); lia|lia|]. fold ds in Hd, Hv, E. rewrite E in *.
    split_and!; [done| |done|].
    - apply forallb_forall. intros x Hx%list_elem_of_In. by apply (Forall_forall (λ c, is_digit c = true) (b :: l)).
    - apply Forall_cons in Hd as [Hd _]. simpl. by destruct (decide (b = x2d)) as [->|]. }
  destruct (Z.ltb_spec n 0).
  - destruct (Hds (- n)) as (Hv & Hd & He & _); [lia..|]. cbn [scan_sign]. rewrite decide_True by done.
    rewrite Hd, He. cbn [andb negb]. rewrite Hv, Z.opp_involutive.
    by destruct (Z.leb_spec (- 2 ^ 63) n), (Z.ltb_spec n (2 ^ 63)); try lia.
  - destruct (Hds n) as (Hv & Hd & He & Hs); [lia..|]. rewrite Hs, Hd, He. cbn [andb negb]. rewrite Hv.
    by destruct (Z.leb_spec (- 2 ^ 63) n), (Z.ltb_spec n (2 ^ 63)); try lia.
Qed.

Lemma int_law d : law int_codec d (λ n, - 2 ^ 63 <= n < 2 ^ 63).
Proof.
  intros n Hn. eexists. split; [done|]. split; [constructor; apply Itoa_lexeme|]. simpl. by apply int64_of_Itoa.
Qed.

(** ** Byte slices *)

Lemma bytes_law d : law bytes_codec d (λ _, True).
Proof.
  intros [b|] _; simpl; eexists; (split; [done|]); (split; [constructor|]); try done.
  - intros t. apply scan_plain_text, plain_StdEncode.
  - simpl. rewrite unquote_plain_text by apply plain_StdEncode. by rewrite StdDecode_StdEncode.
Qed.

(** ** Structs *)

Section struct.
Context {R : Type} (fs : list (field R)).

(** From the values in [acc], the fields [l] of [r] can be read one by one, and
    make it [r]. *)
Fixpoint path_ok (d : nat) (l : list (field R)) (r acc : R) : Prop :=
  match l with
  | [] => acc = r
  | f :: l =>
      if f_omit f (f_get f r) then path_ok d l r acc
      else (∃ j, c_enc (f_codec f) (f_get f r) = Some j ∧ writable d j ∧
                 c_dec (f_codec f) j (f_get f acc) = Some (f_get f r)) ∧
           path_ok d l r (f_set f (f_get f r) acc)
  end.

(** A field that is left out has the value [acc] already has. *)
Lemma path_step d f l r acc ok :
  law (f_codec f) d ok → f_get f acc = c_zero (f_codec f) →
  (f_omit f (f_get f r) = true → f_set f (f_get f r) acc = acc) →
  (f_omit f (f_get f r) = false → ok (f_get f r)) →
  path_ok d l r (f_set f (f_get f r) acc) → path_ok d (f :: l) r acc.
Proof.
  intros Hl Hz Ht Ho Hp. cbn [path_ok]. destruct (f_omit f (f_get f r)); [by rewrite <- Ht|].
  split; [|done]. rewrite Hz. by apply Hl, Ho.
Qed.

Lemma lookup_field_self f : NoDup (f_name <$> fs) → f ∈ fs → lookup_field fs (f_name f) = Some f.
Proof.
  intros Hnd [i Hi]%list_elem_of_lookup_1. unfold lookup_field.
  assert (list_find (λ g, f_name g = f_name f) fs = Some (i, f)) as ->; [|done].
  apply list_find_Some. split; [done|]. split; [done|]. intros j g Hj Hlt Hname.
  assert (i = j); [|lia]. eapply (NoDup_lookup _ i j); [exact Hnd|by rewrite list_lookup_fmap, Hi|].
  rewrite list_lookup_fmap, Hj. simpl. by rewrite Hname.
Qed.

Lemma enc_fields_cons (r : R) f l :
  enc_fields r (f :: l) = (a ← enc_field r f; ms ← enc_fields r l; Some (a ++ ms)).
Proof. unfold enc_fields. simpl. destruct (enc_field r f); [|done]. simpl. by destruct (mapM _ l). Qed.

(** What was written, every field of it that is not left out was. *)
Lemma enc_fields_field (r : R) l ms i f :
  enc_fields r l = Some ms → l !! i = Some f → f_omit f (f_get f r) = false → is_Some (c_enc (f_codec f) (f_get f r)).
Proof.
  revert i ms. induction l as [|g l IH]; intros i ms He Hf Ho; [done|].
  rewrite enc_fields_cons in He. apply bind_Some in He as (a & Ha & He). apply bind_Some in He as (ms' & Hes & _).
  destruct i as [|i]; simpl in Hf; [|by eapply IH]. simplify_eq.
  unfold enc_field in Ha. rewrite Ho in Ha. apply bind_Some in Ha as (v & Hv & _). eauto.
Qed.

Lemma path_members d l r acc :
  NoDup (f_name <$> fs) → Forall (λ f, ValidUtf8 (f_name f) = true) fs → l ⊆ fs → path_ok d l r acc →
  ∃ ms, enc_fields r l = Some ms ∧ Forall (λ m, ValidUtf8 m.1 = true ∧ writable d m.2) ms ∧
    dec_members fs ms acc = Some r.
Proof.
  intros Hnd Hu. revert acc. induction l as [|f l IH]; intros acc Hl Hp.
  { exists []. simpl in *. subst. auto. }
  assert (f ∈ fs) as Hf by set_solver. assert (l ⊆ fs) as Hl' by set_solver. cbn [path_ok] in Hp.
  rewrite enc_fields_cons. unfold enc_field. destruct (f_omit f (f_get f r)).
  - destruct (IH _ Hl' Hp) as (ms & -> & Hw & Hd). by exists ms.
  - destruct Hp as [(j & -> & Hw & Hd) Hp]. destruct (IH _ Hl' Hp) as (ms & -> & Hws & Hds).
    exists ((f_name f, j) :: ms). split; [done|]. split.
    + constructor; [|done]. split; [|done]. by apply (Forall_forall (λ f, ValidUtf8 (f_name f) = true) fs).
    + cbn [dec_members]. by rewrite lookup_field_self, Hd by done.
Qed.

Lemma struct_law zero d (ok : R → Prop) :
  bool_decide (NoDup (f_name <$> fs)) = true → forallb (λ f, ValidUtf8 (f_name f)) fs = true →
  (∀ r, ok r → path_ok d fs r zero) → law (struct_codec fs zero) (S d) ok.
Proof.
  intros Hnd%bool_decide_eq_true Hu Hpath r Hr.
  destruct (path_members d fs r zero) as (ms & He & Hw & Hd); [done| |done|by apply Hpath|].
  { apply Forall_forall. intros f Hf. rewrite forallb_forall in Hu. apply Hu. by apply list_elem_of_In. }
  exists (JObj ms). simpl. rewrite He. split; [done|]. split; [by constructor|done].
Qed.
End struct.

Create HintDb codecs discriminated.
#[export] Hint Resolve string_law name_law bool_law time_law int_law bytes_law : codecs.

(** Walk along the fields of a struct; what is left are the fields that must
    be written well. *)
Ltac walk_path :=
  repeat match goal with
  | |- path_ok _ (_ :: _) _ _ =>
      eapply path_step;
      [cbn [f_codec f_type]; solve [eauto with codecs]
      |reflexivity
      |let H := fresh in intros H; cbn [f_omit f_get f_set f_type] in *; unfold never, is_empty, IsZero in H;
       first [discriminate H|breflect; simpl in *; subst; reflexivity]
      |let H := fresh "Hkept" in intros H; cbn [f_omit f_get f_set f_type] in *; unfold never, is_empty in H; simpl
      |match goal with |- path_ok ?d ?l ?r ?a => let a' := eval cbn in a in change (path_ok d l r a') end]
  end.

(** ** Maps *)

Section map.
Context {A : Type} (c : codec A) (d : nat) (ok : A → Prop) (Hc : law c d ok).

Lemma entries_law l m :
  Forall (λ x : string * A, ValidUtf8 (bs x.1) = true ∧ ok x.2) l →
  ∃ ms, mapM (λ x : string * A, v ← c_enc c x.2; Some (bs x.1, v)) l = Some ms ∧
    Forall (λ m, ValidUtf8 m.1 = true ∧ writable d m.2) ms ∧
    dec_entries c ms m = Some (foldl (λ m x, <[x.1 := x.2]> m) m l).
Proof using Hc.
  intros Hl. revert m. induction Hl as [|[k a] l [Hk Ha] _ IH]; intros m; [by exists []|].
  destruct (Hc a Ha) as (j & He & Hw & Hd). destruct (IH (<[k := a]> m)) as (ms & Hes & Hws & Hds).
  exists ((bs k, j) :: ms). simpl in *. rewrite He. simpl. rewrite Hes. split; [done|].
  split; [by constructor|]. rewrite Hd. simpl. by rewrite sb_bs.
Qed.

Lemma foldl_insert_lookup (l : list (string * A)) (m : gmap string A) k :
  NoDup l.*1 → foldl (λ m x, <[x.1 := x.2]> m) m l !! k =
    match (list_to_map l : gmap string A) !! k with Some a => Some a | None => m !! k end.
Proof.
  revert m. induction l as [|[i a] l IH]; intros m Hnd; [simpl; by rewrite lookup_empty|].
  apply NoDup_cons in Hnd as [Hi Hnd]. cbn [foldl fst snd]. rewrite IH by done. simpl.
  destruct (decide (i = k)) as [->|Hne].
  - rewrite !lookup_insert_eq. by rewrite (not_elem_of_list_to_map_1 (M := gmap string)).
  - by rewrite !lookup_insert_ne.
Qed.

Lemma map_law : law (map_codec c) (S d) (λ m, map_Forall (λ k a, ValidUtf8 (bs k) = true ∧ ok a) m).
Proof using Hc.
  intros m Hm. set (l := sort_stable key_less (map_to_list m)).
  assert (l ≡ₚ map_to_list m) as Hp by apply sort_stable_perm.
  destruct (entries_law l ∅) as (ms & He & Hw & Hd).
  { apply Forall_forall. intros [k a] Hin. rewrite Hp in Hin. apply elem_of_map_to_list in Hin. by apply (Hm k a). }
  exists (JObj ms). simpl. fold l. rewrite He. split; [done|]. split; [by constructor|].
  rewrite Hd. f_equal. apply map_eq. intros k.
  assert (NoDup l.*1) as Hnd by (rewrite Hp; apply NoDup_fst_map_to_list).
  rewrite foldl_insert_lookup, lookup_empty by done.
  assert ((list_to_map l : gmap string A) = m) as ->.
  { rewrite (list_to_map_proper l (map_to_list m)) by done. apply list_to_map_to_list. }
  by destruct (m !! k).
Qed.
End map.
