(* ===== verification/RelayMain.v ===== *)
(** The relay's command: internal/relay/config.go's [LoadConfig], and
    cmd/burndrop-relay/main.go up to the server itself, which is [Server]; the
    page that is embedded in it (web/embed.go). *)
From S2P Require Import Prelude Base64 Sha256 Tokens GoStrings GoTime GoFloat GoStrconv Flags Crypto GoNet Link RateLimit Config Server Json JsonDoc.
From S2P Require SystemProps.
From Stdlib Require Import SpecFloat.
From Stdlib Require Import Strings.Byte.

(** * Configuration from the environment *)

Inductive load_error := BadVariable (name : bytes) | Invalid (e : config_error).

Section load.
Context (getenv : bytes → bytes).

Definition get (name : bytes) : bytes := TrimSpace (getenv (EnvPrefix ++ name)).

(** [set]: a variable that is empty leaves the default; the variables are read
    in order and the first that cannot be parsed ends the reading. *)
Definition set {A} (name : bytes) (parse : bytes → option A) (dflt : A) : result load_error A :=
  let v := get name in
  if is_empty v then Ok dflt
  else match parse v with Some x => Ok x | None => Err (BadVariable name) end.

Definition ok_of {E A} (r : result E A) : option A := match r with Ok x => Some x | Err _ => None end.

Definition LoadConfig `{Unicode} : result load_error Config :=
  let d := DefaultConfig in
  listen ← set B["LISTEN"] Some (Listen d);
  publicOrigin ← set B["PUBLIC_ORIGIN"] Some (PublicOrigin d);
  pageOrigins ← set B["PAGE_ORIGINS"] (Some ∘ splitList) (PageOrigins d);
  servePage ← set B["SERVE_PAGE"] ParseBool (ServePage d);
  defaultTTL ← set B["DEFAULT_TTL"] ParseDuration (DefaultTTL d);
  maxTTL ← set B["MAX_TTL"] ParseDuration (MaxTTL d);
  maxCiphertext ← set B["MAX_CIPHERTEXT_BYTES"] Atoi (MaxCiphertextBytes d);
  maxLive ← set B["MAX_LIVE_DROPS"] Atoi (MaxLiveDrops d);
  maxTotal ← set B["MAX_TOTAL_BYTES"] (λ v, ParseInt v 10) (MaxTotalBytes d);
  maxWaiters ← set B["MAX_WAITERS"] Atoi (MaxWaiters d);
  store ← set B["STORE"] Some (cStore d);
  redis ← set B["REDIS_URL"] Some (RedisURL d);
  auth ← set B["AGENT_AUTH"] Some (AgentAuth d);
  keys ← set B["AGENT_KEYS"] (ok_of ∘ ParseAgentKeys) (AgentKeys d);
  ratePage ← set B["RATE_PAGE_PER_MIN"] ParseFloat (RatePagePerMin d);
  rateAgent ← set B["RATE_AGENT_PER_MIN"] ParseFloat (RateAgentPerMin d);
  rateGlobal ← set B["RATE_GLOBAL_PER_SEC"] ParseFloat (RateGlobalPerSec d);
  proxies ← set B["TRUSTED_PROXIES"] (ok_of ∘ parseCIDRs) (TrustedProxies d);
  logLevel ← set B["LOG_LEVEL"] Some (LogLevel d);
  logFormat ← set B["LOG_FORMAT"] Some (LogFormat d);
  logIP ← set B["LOG_CLIENT_IP"] ParseBool (LogClientIP d);
  shutdown ← set B["SHUTDOWN_TIMEOUT"] ParseDuration (ShutdownTimeout d);
  match Config_Validate (mkConfig listen publicOrigin pageOrigins servePage defaultTTL maxTTL maxCiphertext maxLive maxTotal
          maxWaiters store redis auth keys ratePage rateAgent rateGlobal proxies logLevel logFormat logIP shutdown) with
  | Ok c => Ok c
  | Err e => Err (Invalid e)
  end.
End load.

(** * main.go *)

(** What a command ends with: its exit status, and for [keygen] what it prints. *)
Inductive keygen_result := Generated (id key entry : bytes) | KeygenFailed (status : Z).

Definition keygen_flags : FlagSet := {[ B["id"] := VString B["agent1"] ]}.

Definition flag_string (fs : FlagSet) (name : bytes) : bytes :=
  match fs !! name with Some (VString s) => s | _ => [] end.

(** [strings.ContainsAny(id, ":, \t\n")] *)
Definition bad_id_byte (b : byte) : bool := existsb (λ c, bool_decide (b = c)) [x3a; x2c; x20; x09; x0a].

Definition keygen (args : list bytes) (r : reader) : keygen_result :=
  match Flags.Parse keygen_flags args with
  | Err _ => KeygenFailed 2
  | Ok (fs, _) =>
      let id := flag_string fs B["id"] in
      if existsb bad_id_byte id || is_empty id then KeygenFailed 2
      else
        match RandomAgentKey r with
        | Err _ => KeygenFailed 1
        | Ok key => Generated id (bs key) (FormatAgentKey id (bs key))
        end
  end.

(** [serve] up to the server: the configuration, or the exit status. *)
Definition serve_config `{Unicode} (args : list bytes) (getenv : bytes → bytes) : result Z Config :=
  match Flags.Parse ∅ args with
  | Err _ => Err 2
  | Ok _ => match LoadConfig getenv with Ok c => Ok c | Err _ => Err 2 end
  end.

Definition SplitHostPort (s : bytes) : option (bytes * bytes) :=
  host ← split_host s; i ← LastIndexByte s x3a; Some (host, drop (S i) s).

Definition JoinHostPort (host port : bytes) : bytes :=
  if ContainsByte host x3a then x5b :: host ++ x5d :: x3a :: port else host ++ x3a :: port.

(** [healthcheck] up to the request. *)
Definition healthcheck_url (getenv : bytes → bytes) : option bytes :=
  let listen := get getenv B["LISTEN"] in
  let listen := if is_empty listen then Listen DefaultConfig else listen in
  '(host, port) ← SplitHostPort listen;
  let host := if is_empty host || beq host B["0.0.0.0"] || beq host B["::"] then B["127.0.0.1"] else host in
  Some (B["http://"] ++ JoinHostPort host port ++ B["/healthz"]).

(** [http_get]: the status, or that there was no answer. *)
Definition healthcheck (http_get : bytes → option Z) (getenv : bytes → bytes) : Z :=
  match healthcheck_url getenv with
  | None => 2
  | Some url => match http_get url with Some status => if status =? 200 then 0 else 1 | None => 1 end
  end.

Inductive relay_command := CmdServe | CmdKeygen | CmdHealthcheck | CmdVersion | CmdHelp | CmdUnknown.

(** [run]: the command and its arguments. *)
Definition command_of (args : list bytes) : relay_command * list bytes :=
  let '(cmd, args) :=
    match args with
    | a :: rest => if negb (HasPrefix a B["-"]) || beq a B["-h"] || beq a B["--help"] then (a, rest) else (B["serve"], args)
    | [] => (B["serve"], [])
    end in
  (if beq cmd B["serve"] then CmdServe
   else if beq cmd B["keygen"] then CmdKeygen
   else if beq cmd B["healthcheck"] then CmdHealthcheck
   else if beq cmd B["version"] then CmdVersion
   else if existsb (beq cmd) [B["help"]; B["-h"]; B["--help"]] then CmdHelp
   else CmdUnknown, args).

Inductive log_level := LevelDebug | LevelInfo | LevelWarn | LevelError.

Definition level_of `{Unicode} (c : Config) : log_level :=
  let l := ToLower (LogLevel c) in
  if beq l B["debug"] then LevelDebug
  else if beq l B["warn"] then LevelWarn
  else if beq l B["error"] then LevelError
  else LevelInfo.

(** * web/embed.go *)

Record Meta := mkMeta {
  meta_Version : bytes;
  meta_SHA256 : bytes;
  meta_ScriptSHA256 : bytes;
  meta_StyleSHA256 : bytes;
  meta_NeedsWasm : bool;
}.

Definition meta_fields : list (field Meta) :=
  [mkField string_codec B["version"] never meta_Version (λ x m, mkMeta x (meta_SHA256 m) (meta_ScriptSHA256 m) (meta_StyleSHA256 m) (meta_NeedsWasm m));
   mkField string_codec B["sha256"] never meta_SHA256 (λ x m, mkMeta (meta_Version m) x (meta_ScriptSHA256 m) (meta_StyleSHA256 m) (meta_NeedsWasm m));
   mkField string_codec B["script_sha256"] never meta_ScriptSHA256 (λ x m, mkMeta (meta_Version m) (meta_SHA256 m) x (meta_StyleSHA256 m) (meta_NeedsWasm m));
   mkField string_codec B["style_sha256"] never meta_StyleSHA256 (λ x m, mkMeta (meta_Version m) (meta_SHA256 m) (meta_ScriptSHA256 m) x (meta_NeedsWasm m));
   mkField bool_codec B["needs_wasm"] never meta_NeedsWasm (λ x m, mkMeta (meta_Version m) (meta_SHA256 m) (meta_ScriptSHA256 m) (meta_StyleSHA256 m) x)].

Definition meta_codec : codec Meta := struct_codec meta_fields (mkMeta [] [] [] [] false).

Record WebPage := mkWebPage { HTML : bytes; page_Meta : Meta }.

Inductive web_error := ErrNotBuilt | BadMeta | HashMismatch | Incomplete.

(** [LoadFS] over the files that can be read. *)
Definition LoadFS (read : bytes → option bytes) : result web_error WebPage :=
  match read B["dist/page.html"] with
  | None => Err ErrNotBuilt
  | Some html =>
      match read B["dist/page.meta.json"] with
      | None => Err ErrNotBuilt
      | Some raw =>
          match Unmarshal meta_codec raw (c_zero meta_codec) with
          | None => Err BadMeta
          | Some m =>
              if negb (beq (hex_encode (sha256 html)) (meta_SHA256 m)) then Err HashMismatch
              else if is_empty (meta_ScriptSHA256 m) || is_empty (meta_StyleSHA256 m) || is_empty (meta_Version m) then Err Incomplete
              else Ok (mkWebPage html m)
          end
      end
  end.

Definition in_quotes (s : bytes) : bytes := x27 :: s ++ [x27].

Definition CSP (p : WebPage) : bytes :=
  let m := page_Meta p in
  B["default-src 'none'; script-src "] ++ in_quotes (B["sha256-"] ++ meta_ScriptSHA256 m) ++
  (if meta_NeedsWasm m then B[" 'wasm-unsafe-eval'"] else []) ++
  B["; style-src "] ++ in_quotes (B["sha256-"] ++ meta_StyleSHA256 m) ++
  B["; img-src 'self' data:; font-src data:; connect-src 'self'"] ++
  B["; frame-ancestors 'none'; form-action 'none'; base-uri 'none'; manifest-src 'none'; upgrade-insecure-requests"].

(** The page as the server knows it. *)
Definition server_page (p : WebPage) : Page := mkPage (CSP p) (meta_Version (page_Meta p)) (meta_SHA256 (page_Meta p)) (HTML p).

(** What [serveContext] gives the server: a page that was not built is none. *)
Definition page_to_serve (c : Config) (read : bytes → option bytes) : result Z (option Page) :=
  if negb (ServePage c) then Ok None
  else match LoadFS read with
       | Ok p => Ok (Some (server_page p))
       | Err ErrNotBuilt => Ok None
       | Err _ => Err 1
       end.

(** * Configurations that load *)

Lemma set_ok {A} getenv name (parse : bytes → option A) dflt x :
  set getenv name parse dflt = Ok x → (get getenv name = [] ∧ x = dflt) ∨ (get getenv name ≠ [] ∧ parse (get getenv name) = Some x).
Proof.
  unfold set. destruct (is_empty _) eqn:E.
  - intros [= <-]. apply bool_decide_eq_true in E. auto.
  - apply bool_decide_eq_false in E. destruct (parse _) eqn:Ep; [|done]. intros [= <-]. auto.
Qed.

(** The checks change nothing but the origins. *)
Lemma Config_Validate_keeps `{Unicode} c c' :
  Config_Validate c = Ok c' → ∃ origin pages, c' = set_origins origin pages c ∧ NormalizeOrigin (PublicOrigin c) = Ok origin.
Proof.
  unfold Config_Validate. destruct (is_empty _); [done|]. destruct (NormalizeOrigin _) as [o|] eqn:Eo; [|done].
  intros (pages & _ & Hc)%result_bind_ok. exists o, pages. split; [|done].
  repeat (apply result_bind_ok in Hc as (? & _ & Hc)). by injection Hc.
Qed.

Lemma LoadConfig_validates `{Unicode} getenv c :
  LoadConfig getenv = Ok c →
  ∃ c0, Config_Validate c0 = Ok c ∧ set getenv B["AGENT_KEYS"] (ok_of ∘ ParseAgentKeys) [] = Ok (AgentKeys c0).
Proof.
  unfold LoadConfig. intros Hl. do 13 (apply result_bind_ok in Hl as (? & _ & Hl)).
  apply result_bind_ok in Hl as (keys & Hk & Hl). do 8 (apply result_bind_ok in Hl as (? & _ & Hl)).
  destruct (Config_Validate _) as [c'|] eqn:Ev; [|done]. injection Hl as <-. eauto.
Qed.

(** The relay starts only with a configuration that is sound: times to live are
    between a minute and a week and in order, the limits on sizes and numbers
    are positive and fit together, and where agents must authenticate there are
    keys, under different names, each a whole hash. *)
Theorem LoadConfig_sound `{Unicode} getenv c :
  LoadConfig getenv = Ok c →
  MinTTL <= DefaultTTL c <= MaxTTL c ∧ MaxTTL c <= AbsoluteMaxTTL ∧
  1024 <= MaxCiphertextBytes c <= AbsoluteMaxBody ∧ 1 <= MaxLiveDrops c ∧
  MaxCiphertextBytes c <= MaxTotalBytes c ∧ 1 <= MaxWaiters c ∧
  (AuthRequired c = true → AgentKeys c ≠ []) ∧
  NoDup (ak_ID <$> AgentKeys c) ∧ Forall (λ k, ak_ID k ≠ "" ∧ zlen (ak_Hash k) = sha256_Size) (AgentKeys c).
Proof.
  intros (c0 & Hv & Hk)%LoadConfig_validates. destruct (Config_Validate_ok _ _ Hv) as (? & ? & ? & ? & ? & ? & ?).
  destruct (Config_Validate_keeps _ _ Hv) as (origin & pages & -> & _). do 7 (split; [done|]). simpl.
  apply set_ok in Hk as [[_ ->]|[_ Hk]]; [split; constructor|].
  simpl in Hk. destruct (ParseAgentKeys _) as [ks|] eqn:Ep; [|done]. injection Hk as <-. by eapply ParseAgentKeys_ok.
Qed.

(** * A generated key *)

Definition visible (b : byte) : Prop := 32 < b2z b < 127.

Lemma enc_char_visible v : 0 <= v < 64 → visible (enc_char v) ∧ enc_char v ≠ x2c ∧ enc_char v ≠ x3a.
Proof.
  intros Hv. assert (Forall (λ v, visible (enc_char v) ∧ enc_char v ≠ x2c ∧ enc_char v ≠ x3a) (seqZ 0 64)) as Hall.
  { apply (bool_decide_unpack _). vm_compute. exact I. }
  rewrite Forall_forall in Hall. apply Hall, elem_of_seqZ. lia.
Qed.

Lemma encode_visible l : Forall (λ b, visible b ∧ b ≠ x2c ∧ b ≠ x3a) (encode l).
Proof.
  unfold encode. apply Forall_fmap. eapply Forall_impl; [apply sextets_range|]. intros v. apply enc_char_visible.
Qed.

Lemma Cut_app s c t : c ∉ s → Cut (s ++ c :: t) c = (s, t, true).
Proof. intros Hc. unfold Cut. by rewrite IndexByte_app, take_app_cons, drop_app_cons. Qed.

Lemma SplitN_entry id hash : x3a ∉ id → SplitN 3 (id ++ B[":sha256:"] ++ hash) x3a = [id; B["sha256"]; hash].
Proof.
  intros Hid. cbn [SplitN]. change (B[":sha256:"] ++ hash) with (x3a :: B["sha256:"] ++ hash). rewrite Cut_app by done.
  change (B["sha256:"] ++ hash) with (B["sha256"] ++ x3a :: hash). rewrite Cut_app; [done|]. apply (bool_decide_unpack _). vm_compute. exact I.
Qed.

(** The line of a key is one entry that parses to the key's hash. *)
Lemma format_parse id key :
  Forall visible id → id ≠ [] → x2c ∉ id → x3a ∉ id →
  TrimSpace (FormatAgentKey id key) = FormatAgentKey id key ∧
  ParseAgentKeys (FormatAgentKey id key) = Ok [mkAgentKey (sb id) (HashToken (sb key))].
Proof.
  intros Hv Hne Hcomma Hcolon. unfold FormatAgentKey, hash_Encode, EncodeToString. rewrite bs_sb.
  pose proof (encode_visible (HashToken (sb key))) as Henc. set (e := encode _) in *.
  assert (Forall visible (id ++ B[":sha256:"] ++ e)) as Hvis.
  { apply Forall_app. split; [done|]. apply Forall_app. split; [apply (bool_decide_unpack _); vm_compute; exact I|].
    eapply Forall_impl; [exact Henc|]. by intros b []. }
  assert (TrimSpace (id ++ B[":sha256:"] ++ e) = id ++ B[":sha256:"] ++ e) as Htrim by (by apply TrimSpace_word).
  split; [exact Htrim|]. unfold ParseAgentKeys, splitList. rewrite Split_none.
  2:{ rewrite !elem_of_app. intros [Hin|[Hin|Hin]]; [done|by revert Hin; apply (bool_decide_unpack _); vm_compute|].
      rewrite Forall_forall in Henc. by destruct (Henc _ Hin) as (_ & Hx & _). }
  rewrite fmap_cons, fmap_nil, Htrim. rewrite filter_cons_True by (by destruct id). rewrite filter_nil.
  cbn [parse_keys]. rewrite SplitN_entry by done. change (beq B["sha256"] B["sha256"]) with true.
  assert (is_empty id = false) as -> by (by apply bool_decide_eq_false_2). cbn [negb orb existsb].
  assert (ParseHash (sb e) = Ok (HashToken (sb key))) as ->.
  { change (sb e) with (hash_Encode (HashToken (sb key))). apply ParseHash_Encode. apply sha256_zlen. }
  done.
Qed.

(** What [keygen] prints. *)
Lemma keygen_ok args r id key entry :
  keygen args r = Generated id key entry →
  id ≠ [] ∧ x2c ∉ id ∧ x3a ∉ id ∧ (∃ b, r AgentKeyBytes = Some b ∧ key = encode b) ∧ entry = FormatAgentKey id key.
Proof.
  unfold keygen. destruct (Flags.Parse _ _) as [[fs rest]|]; [|done]. destruct (_ || _) eqn:E; [done|].
  unfold RandomAgentKey, randomString. destruct (r AgentKeyBytes) as [b|] eqn:Er; [|done]. intros [= <- <- <-].
  apply orb_false_iff in E as [Hbad Hne]. apply bool_decide_eq_false in Hne.
  assert (∀ c, c ∈ [x3a; x2c; x20; x09; x0a] → c ∉ flag_string fs B["id"]) as Hno.
  { intros c Hc Hin. assert (existsb bad_id_byte (flag_string fs B["id"]) = true); [|congruence].
    apply existsb_exists. exists c. split; [by apply list_elem_of_In|]. apply existsb_exists. exists c.
    split; [by apply list_elem_of_In|]. by apply bool_decide_eq_true. }
  split; [done|]. split; [apply Hno; set_solver|]. split; [apply Hno; set_solver|].
  split; [|done]. exists b. split; [done|]. unfold EncodeToString. by rewrite bs_sb.
Qed.

(** A request with one visible word behind the scheme. *)
Lemma bearerID_word c q key k :
  r_Header q B["Authorization"] = B["Bearer "] ++ key → Forall visible key → 16 <= zlen key <= 256 →
  AgentKeys c = [k] → ak_Hash k = HashToken (sb key) → ak_ID k ≠ "" → bearerID c q = (ak_ID k, true).
Proof.
  intros Hq Hv Hlen Hk Hh Hid. unfold bearerID. rewrite Hq, Hk. change (length bearer_prefix) with (length B["Bearer "]).
  rewrite take_app_length, drop_app_length, (TrimSpace_word key) by done.
  change (EqualFold B["Bearer "] bearer_prefix) with true.
  assert (zlen (B["Bearer "] ++ key) <=? zlen bearer_prefix = false) as ->.
  { apply Z.leb_gt. unfold zlen in *. rewrite length_app. change (length bearer_prefix) with (length B["Bearer "]). lia. }
  assert (zlen key <? 16 = false) as -> by lia. assert (256 <? zlen key = false) as -> by lia. cbn [negb orb].
  unfold matching_key. cbn [foldl]. rewrite Hh, HashEqual_refl. by rewrite bool_decide_eq_false_2.
Qed.

(** C14. A generated key works: when the line that keygen prints is the relay's
    list of agent keys, and the configuration loads, then the relay knows that
    one key, under the identifier it was made for and by its hash alone; a
    request that carries the printed key is that agent's, and where agents must
    authenticate, whoever is let in presents a key of that hash.  The
    identifier must be of visible ASCII characters. *)
Theorem generated_key_works `{Unicode} args r id key entry getenv c :
  keygen args r = Generated id key entry → Forall visible id → (∀ b, r AgentKeyBytes = Some b → zlen b = AgentKeyBytes) →
  getenv B["BURNDROP_AGENT_KEYS"] = entry → LoadConfig getenv = Ok c →
  AgentKeys c = [mkAgentKey (sb id) (HashToken (sb key))] ∧
  (∀ q, r_Header q B["Authorization"] = B["Bearer "] ++ key → authenticate c q = (sb id, true)) ∧
  (AuthRequired c = true → ∀ q name, authenticate c q = (name, true) →
     name = sb id ∧ SystemProps.presents q (HashToken (sb key))).
Proof.
  intros Hgen Hv Hr Henv Hl. destruct (keygen_ok _ _ _ _ _ Hgen) as (Hne & Hcomma & Hcolon & (b & Hb & ->) & ->).
  destruct (format_parse id (encode b) Hv Hne Hcomma Hcolon) as [Htrim Hparse].
  assert (AgentKeys c = [mkAgentKey (sb id) (HashToken (sb (encode b)))]) as Hk.
  { destruct (LoadConfig_validates _ _ Hl) as (c0 & Hval & Hk). destruct (Config_Validate_keeps _ _ Hval) as (o & ps & -> & _). simpl.
    unfold set, get in Hk. change (EnvPrefix ++ B["AGENT_KEYS"]) with B["BURNDROP_AGENT_KEYS"] in Hk. rewrite Henv, Htrim in Hk.
    assert (is_empty (FormatAgentKey id (encode b)) = false) as Hfull
      by (apply bool_decide_eq_false_2; unfold FormatAgentKey; by destruct id).
    rewrite Hfull in Hk.
    simpl in Hk. rewrite Hparse in Hk. by injection Hk. }
  assert (zlen (encode b) = 43) as Hlen by (rewrite encode_length, (Hr _ Hb); done).
  assert (sb id ≠ "") as Hid by (intros E; apply Hne; by rewrite <- (bs_sb id), E).
  split; [exact Hk|]. split.
  - intros q Hq. assert (bearerID c q = (sb id, true)) as Hbear.
    { eapply (bearerID_word c q (encode b) (mkAgentKey _ _)); [exact Hq| |lia|exact Hk|done|done].
      eapply Forall_impl; [apply encode_visible|]. by intros x []. }
    unfold authenticate. rewrite Hbear. by destruct (negb _).
  - intros Hauth q name Hq. unfold authenticate in Hq. rewrite Hauth in Hq. cbn [negb] in Hq.
    destruct (SystemProps.bearerID_ok c q) as [Hex _]; [rewrite Hk; by repeat constructor|].
    destruct (Hex _ Hq) as (k & Hin & <- & Hp). rewrite Hk in Hin. apply list_elem_of_singleton in Hin as ->. done.
Qed.

(** * The page *)

Lemma LoadFS_hash read p : LoadFS read = Ok p → meta_SHA256 (page_Meta p) = hex_encode (sha256 (HTML p)).
Proof.
  unfold LoadFS. destruct (read _) as [html|]; [|done]. destruct (read _) as [raw|]; [|done].
  destruct (Unmarshal _ _ _) as [m|]; [|done]. destruct (beq _ _) eqn:E; [|done]. cbn [negb].
  destruct (_ || _); [done|]. intros [= <-]. unfold beq in E. by apply bool_decide_eq_true in E.
Qed.

(** The relay announces the hash of the very bytes it serves: on the page
    itself, and where it describes itself. *)
Theorem served_page_has_its_hash `{Buckets} {T} (s : Server T) c read pg q :
  page_to_serve c read = Ok (Some pg) → page s = Some pg → r_Method q ≠ B["HEAD"] →
  ∃ headers html, servePage s q = mkResponse StatusOK headers (HtmlBody html) ∧
    (B["X-Drop-Page-SHA256"], hex_encode (sha256 html)) ∈ headers ∧ page_SHA256 pg = hex_encode (sha256 html).
Proof.
  unfold page_to_serve, servePage. intros Hp -> Hm. destruct (negb _); [done|].
  destruct (LoadFS read) as [p|[]] eqn:El; try done. injection Hp as <-.
  unfold beq. rewrite bool_decide_eq_false_2 by done. eexists _, _. split; [done|]. simpl. rewrite <- (LoadFS_hash _ _ El).
  split; [|done]. do 4 right. by left.
Qed.

(** * Concrete environments *)

#[local] Existing Instance config_ascii.

Definition counting : reader := λ n, Some (z2b <$> seqZ 1 n).

Definition sample_entry : bytes := FormatAgentKey B["laptop"] (encode (z2b <$> seqZ 1 32)).

Definition sample_environment (name : bytes) : bytes :=
  if beq name B["BURNDROP_PUBLIC_ORIGIN"] then B["https://Drop.example.com:443"]
  else if beq name B["BURNDROP_AGENT_KEYS"] then sample_entry
  else if beq name B["BURNDROP_MAX_TTL"] then B[" 36h "]
  else [].

Definition loaded : Config := match LoadConfig sample_environment with Ok c => c | Err _ => DefaultConfig end.

Definition keyed_request : Request :=
  mkRequest B["POST"] B["https"] B["/v1/drops"] true [] (λ h, if beq h B["Authorization"] then B["Bearer "] ++ encode (z2b <$> seqZ 1 32) else []) [].

Lemma generated_key_works_witness :
  MaxTTL loaded = 36 * Hour ∧ authenticate loaded keyed_request = ("laptop"%string, true).
Proof.
  split; [vm_compute; reflexivity|].
  destruct (generated_key_works [B["-id"]; B["laptop"]] counting B["laptop"] (encode (z2b <$> seqZ 1 32)) sample_entry sample_environment loaded)
    as (_ & Hin & _).
  - vm_compute. reflexivity.
  - apply (bool_decide_unpack _). vm_compute. exact I.
  - intros b [= <-]. reflexivity.
  - reflexivity.
  - vm_compute. reflexivity.
  - apply Hin. reflexivity.
Defined.

(** A rate that is not a number passes the check for positive rates. *)
Example nan_rate_loads :
  (λ c, (RatePagePerMin c, RateGlobalPerSec c)) <$>
    ok_of (LoadConfig (λ name, if beq name B["BURNDROP_RATE_PAGE_PER_MIN"] then B["nan"] else sample_environment name)) =
  Some (S754_nan, of_int 500).
Proof. vm_compute. reflexivity. Qed.

(** A carriage return in front passes [keygen]'s check, and is trimmed away
    when the relay reads the entry. *)
Example keygen_id_trimmed :
  let id := x0d :: B["agent"] in
  existsb bad_id_byte id = false ∧ ak_ID <$> default [] (ok_of (ParseAgentKeys (FormatAgentKey id B["key"]))) = ["agent"].
Proof. split; vm_compute; reflexivity. Qed.
