(* ===== verification/Records.v ===== *)
(** The documents of internal/storage/backend.go: the JSON form of a secret's
    metadata, and the record a backend stores for a secret. *)
From S2P Require Import Prelude GoStrings GoTime GoText Json JsonDoc JsonDocProps Secrets.
From Stdlib Require Import Strings.Byte.

Definition zero_metadata : Metadata := mkMetadata "" [] [] zero_time zero_time [] [] false [] 0 [].

(** The struct tags. *)
Definition metadata_fields : list (field Metadata) :=
  [mkField name_codec B["name"] never Name (λ x r, mkMetadata x (BackendName r) (Retention r) (CreatedAt r) (ExpiresAt r) (Purpose r) (Source r) (Sendable r) (mFingerprint r) (SizeBytes r) (mKind r));
   mkField string_codec B["backend"] never BackendName (λ x r, mkMetadata (Name r) x (Retention r) (CreatedAt r) (ExpiresAt r) (Purpose r) (Source r) (Sendable r) (mFingerprint r) (SizeBytes r) (mKind r));
   mkField string_codec B["retention"] never Retention (λ x r, mkMetadata (Name r) (BackendName r) x (CreatedAt r) (ExpiresAt r) (Purpose r) (Source r) (Sendable r) (mFingerprint r) (SizeBytes r) (mKind r));
   mkField time_codec B["created_at"] never CreatedAt (λ x r, mkMetadata (Name r) (BackendName r) (Retention r) x (ExpiresAt r) (Purpose r) (Source r) (Sendable r) (mFingerprint r) (SizeBytes r) (mKind r));
   mkField time_codec B["expires_at"] IsZero ExpiresAt (λ x r, mkMetadata (Name r) (BackendName r) (Retention r) (CreatedAt r) x (Purpose r) (Source r) (Sendable r) (mFingerprint r) (SizeBytes r) (mKind r));
   mkField string_codec B["purpose"] is_empty Purpose (λ x r, mkMetadata (Name r) (BackendName r) (Retention r) (CreatedAt r) (ExpiresAt r) x (Source r) (Sendable r) (mFingerprint r) (SizeBytes r) (mKind r));
   mkField string_codec B["source"] never Source (λ x r, mkMetadata (Name r) (BackendName r) (Retention r) (CreatedAt r) (ExpiresAt r) (Purpose r) x (Sendable r) (mFingerprint r) (SizeBytes r) (mKind r));
   mkField bool_codec B["sendable"] never Sendable (λ x r, mkMetadata (Name r) (BackendName r) (Retention r) (CreatedAt r) (ExpiresAt r) (Purpose r) (Source r) x (mFingerprint r) (SizeBytes r) (mKind r));
   mkField string_codec B["fingerprint"] is_empty mFingerprint (λ x r, mkMetadata (Name r) (BackendName r) (Retention r) (CreatedAt r) (ExpiresAt r) (Purpose r) (Source r) (Sendable r) x (SizeBytes r) (mKind r));
   mkField int_codec B["size_bytes"] never SizeBytes (λ x r, mkMetadata (Name r) (BackendName r) (Retention r) (CreatedAt r) (ExpiresAt r) (Purpose r) (Source r) (Sendable r) (mFingerprint r) x (mKind r));
   mkField string_codec B["kind"] is_empty mKind (λ x r, mkMetadata (Name r) (BackendName r) (Retention r) (CreatedAt r) (ExpiresAt r) (Purpose r) (Source r) (Sendable r) (mFingerprint r) (SizeBytes r) x)].

Definition metadata_codec : codec Metadata := struct_codec metadata_fields zero_metadata.

(** [record] *)
Record record := mkRecord { rV : Z; rMeta : Metadata; rValue : option bytes }.

Definition zero_record : record := mkRecord 0 zero_metadata None.

Definition record_fields : list (field record) :=
  [mkField int_codec B["v"] never rV (λ x r, mkRecord x (rMeta r) (rValue r));
   mkField metadata_codec B["meta"] never rMeta (λ x r, mkRecord (rV r) x (rValue r));
   mkField bytes_codec B["value"] never rValue (λ x r, mkRecord (rV r) (rMeta r) x)].

Definition record_codec : codec record := struct_codec record_fields zero_record.

Definition encodeRecord (meta : Metadata) (value : bytes) : result storage_error bytes :=
  if MaxValueBytes <? zlen value then Err ErrTooLarge
  else match Marshal record_codec (mkRecord 1 meta (Some value)) with
       | Some b => Ok b
       | None => Err ErrOther
       end.

Definition decodeRecord (b : bytes) : result storage_error (bytes * Metadata) :=
  match Unmarshal record_codec b zero_record with
  | Some r => if rV r =? 1 then Ok (default [] (rValue r), rMeta r) else Err ErrOther
  | None => Err ErrOther
  end.

(** * Reading a record back *)

(** Text that is UTF-8 and a size that is a machine integer. *)
Definition meta_text_ok (m : Metadata) : Prop :=
  ValidUtf8 (bs (Name m)) = true ∧ ValidUtf8 (BackendName m) = true ∧ ValidUtf8 (Retention m) = true ∧
  ValidUtf8 (Purpose m) = true ∧ ValidUtf8 (Source m) = true ∧ ValidUtf8 (mFingerprint m) = true ∧
  ValidUtf8 (mKind m) = true ∧ - 2 ^ 63 <= SizeBytes m < 2 ^ 63.

(** Times whose years have four digits. *)
Definition meta_times_ok (m : Metadata) : Prop :=
  is_Some (Format_strict (CreatedAt m)) ∧ (IsZero (ExpiresAt m) = true ∨ is_Some (Format_strict (ExpiresAt m))).

Definition meta_ok (m : Metadata) : Prop := meta_text_ok m ∧ meta_times_ok m.

Lemma metadata_law : law metadata_codec 1 meta_ok.
Proof.
  apply struct_law; [vm_compute; reflexivity|vm_compute; reflexivity|].
  intros [nm be re ca ea pu so se fp sz ki] [(H1 & H2 & H3 & H4 & H5 & H6 & H7 & H8) [H9 H10]].
  cbn [Name BackendName Retention CreatedAt ExpiresAt Purpose Source Sendable mFingerprint SizeBytes mKind] in *.
  unfold metadata_fields, zero_metadata. walk_path; try done. cbn in *. by destruct H10; [congruence|].
Qed.

#[export] Hint Resolve metadata_law : codecs.

Lemma record_law : law record_codec 2 (λ r, rV r = 1 ∧ meta_ok (rMeta r)).
Proof.
  apply struct_law; [vm_compute; reflexivity|vm_compute; reflexivity|].
  intros [v meta value] [Hv Hm]. cbn [rV rMeta rValue] in *. subst v.
  unfold record_fields, zero_record. walk_path; done.
Qed.

(** Marshalling fails on nothing but the times. *)
Lemma metadata_times m j : c_enc metadata_codec m = Some j → meta_times_ok m.
Proof.
  intros (ms & He & _)%fmap_Some. split.
  - destruct (enc_fields_field m metadata_fields ms 3 _ He eq_refl) as [k Hk]; [done|].
    cbn in Hk. destruct (Format_strict (CreatedAt m)); [done|]. by simpl in Hk.
  - destruct (IsZero (ExpiresAt m)) eqn:Ez; [by left|right].
    destruct (enc_fields_field m metadata_fields ms 4 _ He eq_refl) as [k Hk]; [done|].
    cbn in Hk. destruct (Format_strict (ExpiresAt m)); [done|]. by simpl in Hk.
Qed.

Lemma record_reads meta value :
  meta_text_ok meta →
  match encodeRecord meta value with
  | Ok b => decodeRecord b = Ok (value, meta)
  | Err ErrTooLarge => MaxValueBytes < zlen value
  | Err _ => ¬ meta_times_ok meta
  end.
Proof.
  intros Ht. unfold encodeRecord. destruct (Z.ltb_spec MaxValueBytes (zlen value)); [done|].
  destruct (Marshal record_codec (mkRecord 1 meta (Some value))) as [b|] eqn:E.
  - assert (meta_times_ok meta) as Hm.
    { unfold Marshal in E. apply fmap_Some in E as (j & (ms & He & _)%fmap_Some & _).
      destruct (enc_fields_field _ record_fields ms 1 _ He eq_refl) as [k Hk]; [done|].
      by eapply metadata_times. }
    destruct (Unmarshal_Marshal _ _ _ (mkRecord 1 meta (Some value)) record_law) as (b' & Hb & Hu); [done|done|].
    rewrite E in Hb. injection Hb as <-. unfold decodeRecord. change (c_zero record_codec) with zero_record in Hu. by rewrite Hu.
  - intros Hm. destruct (Unmarshal_Marshal _ _ _ (mkRecord 1 meta (Some value)) record_law) as (b' & Hb & _); [done|done|].
    by rewrite E in Hb.
Qed.

(** Records are objects. *)
Lemma encodeRecord_head meta value b : encodeRecord meta value = Ok b → head b = Some x7b.
Proof.
  unfold encodeRecord. destruct (Z.ltb_spec MaxValueBytes (zlen value)); [done|].
  destruct (Marshal _ _) as [b'|] eqn:E; [|done]. intros [= <-]. unfold Marshal in E.
  apply fmap_Some in E as (j & (ms & _ & ->)%fmap_Some & ->). done.
Qed.

(** A record of text metadata either cannot be written, because its value
    is too large or a time has no four-digit year, or it decodes to the value
    and the metadata it was made of. *)
Theorem record_roundtrip meta value :
  meta_text_ok meta →
  match encodeRecord meta value with
  | Ok b => decodeRecord b = Ok (value, meta)
  | Err ErrTooLarge => MaxValueBytes < zlen value
  | Err _ => ¬ meta_times_ok meta
  end.
Proof. apply record_reads. Qed.

Definition sample_metadata : Metadata :=
  mkMetadata "api-key" B["age<vault>"] B["until-revoked"] (unix_epoch + 5 * Second) zero_time [] B["drop"] true [] 3 [].

Lemma record_roundtrip_witness :
  ∃ b, encodeRecord sample_metadata B["k\1"] = Ok b ∧ decodeRecord b = Ok (B["k\1"], sample_metadata).
Proof.
  destruct (encodeRecord sample_metadata B["k\1"]) as [b|e] eqn:E; [|vm_compute in E; discriminate].
  exists b. split; [done|]. pose proof (record_roundtrip sample_metadata B["k\1"]) as H. rewrite E in H.
  apply H. repeat split; vm_compute; try reflexivity; discriminate.
Defined.

(** * Records are text

    Documents are text: what [json.Marshal] writes of the types the program
    stores is UTF-8, and so is every record. *)

(** * UTF-8 *)

Lemma ValidUtf8_app s t : ValidUtf8 s = true → ValidUtf8 t = true → ValidUtf8 (s ++ t) = true.
Proof.
  intros Hs Ht. induction s as [|c s Hc Heq IH] using chars_ind; [done|].
  unfold ValidUtf8 in *. rewrite Heq in Hs. simpl in Hs. apply andb_prop in Hs as [Hs Hr].
  rewrite <- app_assoc, chars_app_ok by (try done; by apply bool_decide_eq_true in Hs). simpl. rewrite Hs. by apply IH.
Qed.

Lemma char_utf8 c : char_ok c → is_Some c.1 → ValidUtf8 c.2 = true.
Proof.
  intros Hc Hs. unfold ValidUtf8. rewrite <- (app_nil_r c.2), chars_app_ok by done. simpl.
  by rewrite bool_decide_eq_true_2.
Qed.

Lemma hex_escape_utf8 n m : 0 <= n < 16 → 0 <= m < 16 → ValidUtf8 (B["\u00"] ++ [hex_lower n; hex_lower m]) = true.
Proof.
  intros Hn Hm. apply ValidUtf8_ascii. apply Forall_app. split; [by repeat constructor|].
  assert (∀ k, 0 <= k < 16 → b2z (hex_lower k) < 128) as Hh.
  { intros k Hk. assert (k ∈ seqZ 0 16) as Hin by (apply elem_of_seqZ; lia). revert Hin. change (seqZ 0 16) with
      [0;1;2;3;4;5;6;7;8;9;10;11;12;13;14;15]. rewrite !elem_of_cons, elem_of_nil. intros Hin.
    repeat destruct Hin as [->|Hin]; done. }
  repeat constructor; by apply Hh.
Qed.

Lemma escape_utf8 c : char_ok c → ValidUtf8 (escape_html c) = true.
Proof.
  intros Hc. destruct (escape_html_cases c) as [->|(b & _ & Hb & ->)].
  - destruct c as [[r|] s]; [|reflexivity]. unfold escape_char. destruct (r =? 8232); [reflexivity|]. destruct (r =? 8233); [reflexivity|].
    pose proof (char_utf8 _ Hc (mk_is_Some _ _ eq_refl)) as Hu. simpl in Hu.
    destruct s as [|b [|b' s]]; [done| |done]. unfold escape_ascii. repeat case_decide; try reflexivity.
    destruct (b2z b <? 32); [|done]. apply hex_escape_utf8; pose proof (b2z_range b); lia.
  - apply html_member in Hb as [->|[->| ->]]; reflexivity.
Qed.

Lemma marshal_utf8 s : ValidUtf8 (marshal_text s) = true.
Proof.
  unfold marshal_text. induction (chars_ok s) as [|c l Hc _ IH]; [done|]. csimpl.
  apply ValidUtf8_app; [by apply escape_utf8|done].
Qed.

Lemma MarshalString_utf8 s : ValidUtf8 (MarshalString s) = true.
Proof. unfold MarshalString. apply (ValidUtf8_app [quote]); [done|]. apply ValidUtf8_app; [apply marshal_utf8|done]. Qed.

(** * Documents *)

(** The values that are written. *)
Inductive written : json → Prop :=
  | t_null : written JNull
  | t_bool b : written (JBool b)
  | t_num lex : ValidUtf8 lex = true → written (JNum lex)
  | t_str raw : ValidUtf8 raw = true → written (JStr raw)
  | t_obj ms : Forall (λ m, written m.2) ms → written (JObj ms).

Lemma JoinByte_utf8 ps c : b2z c < 128 → Forall (λ p, ValidUtf8 p = true) ps → ValidUtf8 (JoinByte ps c) = true.
Proof.
  intros Hc Hps. induction Hps as [|p ps Hp Hps IH]; [done|]. destruct ps as [|q ps]; [done|].
  change (JoinByte (p :: q :: ps) c) with (p ++ [c] ++ JoinByte (q :: ps) c).
  repeat apply ValidUtf8_app; try done. apply ValidUtf8_ascii. by repeat constructor.
Qed.

Lemma write_utf8 v : written v → ValidUtf8 (write_json v) = true.
Proof.
  induction v as [|b|lex|raw|l IH|ms IH] using json_ind'; intros Ht; inversion_clear Ht; try done.
  - by destruct b.
  - simpl. apply (ValidUtf8_app [quote]); [done|]. by apply ValidUtf8_app.
  - simpl. apply (ValidUtf8_app [x7b]); [done|]. apply ValidUtf8_app; [|done]. apply JoinByte_utf8; [done|].
    apply Forall_fmap with (f := λ m : bytes * json, MarshalString m.1 ++ x3a :: write_json m.2).
    apply Forall_forall. intros m Hin. rewrite Forall_forall in IH. rewrite Forall_forall in H. cbn [compose].
    apply ValidUtf8_app; [apply MarshalString_utf8|]. apply (ValidUtf8_app [x3a]); [done|]. by apply IH, H.
Qed.

(** Types whose values are written as text. *)
Definition speaks {A} (c : codec A) : Prop := ∀ a j, c_enc c a = Some j → written j.

Lemma string_speaks : speaks string_codec.
Proof. intros a j [= <-]. constructor. apply marshal_utf8. Qed.

Lemma name_speaks : speaks name_codec.
Proof. intros a j [= <-]. constructor. apply marshal_utf8. Qed.

Lemma int_speaks : speaks int_codec.
Proof.
  intros n j [= <-]. constructor. destruct (Itoa_lexeme n) as (sg & b & ds & -> & Hsg & Hd).
  assert (Forall (λ c, b2z c < 128) (b :: ds)) as Hb.
  { assert (∀ c, is_digit c = true → b2z c < 128) as Hdig by (intros c [? ?]%in_range_iff; lia).
    destruct Hd as [[-> ->]|[_ Hd]]; [by repeat constructor|]. eapply Forall_impl; [exact Hd|done]. }
  apply ValidUtf8_app; [by destruct Hsg as [->| ->]|by apply ValidUtf8_ascii].
Qed.

Lemma bool_speaks : speaks bool_codec.
Proof. intros b j [= <-]. constructor. Qed.

Lemma bytes_speaks : speaks bytes_codec.
Proof. intros [v|] j [= <-]; constructor. apply plain_utf8, plain_StdEncode. Qed.

Lemma time_speaks : speaks time_codec.
Proof.
  intros t j (s & Hs & ->)%fmap_Some. constructor. unfold Format_strict in Hs. case_match; [|done]. injection Hs as <-.
  apply plain_utf8, plain_format. unfold fraction.
  assert (∀ k n, Forall plain (frac_digits k n)) as Hf.
  { induction k as [|k IH]; intros n; simpl; [constructor|]. case_match; [constructor|]. constructor; auto using plain_digit. }
  case_match; [constructor|]. constructor; [by apply plainb_spec|auto].
Qed.

Lemma struct_speaks {R} (fs : list (field R)) zero : Forall (λ f, speaks (f_codec f)) fs → speaks (struct_codec fs zero).
Proof.
  intros Hfs r j (ms & Hms & ->)%fmap_Some. constructor. revert ms Hms. unfold enc_fields.
  intros ms (mss & Hm & ->)%fmap_Some. apply mapM_Some in Hm.
  revert Hfs. induction Hm as [|f ms l mss Hf Hm IH]; intros Hfs; [constructor|]. apply Forall_cons in Hfs as [Hc Hfs].
  csimpl. apply Forall_app. split; [|by apply IH]. unfold enc_field in Hf. destruct (f_omit f (f_get f r)); [by injection Hf as <-|].
  destruct (c_enc (f_codec f) (f_get f r)) as [v|] eqn:Ev; [|done]. injection Hf as <-. constructor; [|constructor].
  by eapply Hc.
Qed.

#[export] Hint Resolve string_speaks name_speaks int_speaks bool_speaks bytes_speaks time_speaks : codecs.

Lemma record_speaks : speaks record_codec.
Proof.
  assert (speaks metadata_codec) as Hm.
  { apply struct_speaks. repeat (apply Forall_cons; split); try apply Forall_nil_2; eauto with codecs. }
  apply struct_speaks. repeat (apply Forall_cons; split); try apply Forall_nil_2; eauto with codecs.
Qed.

(** Every record is text. *)
Lemma record_utf8 meta value rec : encodeRecord meta value = Ok rec → ValidUtf8 rec = true.
Proof.
  unfold encodeRecord. case_match; [done|]. destruct (Marshal _ _) as [b|] eqn:E; [|done]. intros [= <-].
  unfold Marshal in E. apply fmap_Some in E as (j & Hj & ->). apply write_utf8. by eapply record_speaks.
Qed.

(** A document of one field is read back. *)
Lemma one_field_law {A} (c : codec A) name d ok :
  law c d ok → ValidUtf8 name = true → law (one_field c name) (S d) ok.
Proof.
  intros Hc Hn. apply struct_law.
  - apply bool_decide_eq_true. simpl. repeat constructor. set_solver.
  - simpl. by rewrite Hn.
  - intros a Ha. cbn [path_ok f_omit f_get f_codec f_set never id]. split; [|done]. by apply Hc.
Qed.
