(* ===== verification/AuditLog.v ===== *)
(** The audit log: internal/agent/audit.go.

    The log is a file of one JSON object per line.  The file system is a map
    from paths to contents; every system call of [Log] may fail, and the write
    may fail after any number of bytes. *)
From S2P Require Import Prelude GoStrings GoTime GoText Json JsonDoc JsonDocProps.
From Stdlib Require Import Strings.Byte.

Record Event := mkEvent {
  ev_Time : Time;
  ev_Event : bytes;
  ev_Name : bytes;
  ev_DropID : bytes;
  ev_Result : bytes;
  ev_Detail : bytes;
  ev_Fields : gmap string bytes;
}.

Definition event_fields : list (field Event) :=
  [mkField time_codec B["time"] never ev_Time (λ x e, mkEvent x (ev_Event e) (ev_Name e) (ev_DropID e) (ev_Result e) (ev_Detail e) (ev_Fields e));
   mkField string_codec B["event"] never ev_Event (λ x e, mkEvent (ev_Time e) x (ev_Name e) (ev_DropID e) (ev_Result e) (ev_Detail e) (ev_Fields e));
   mkField string_codec B["name"] is_empty ev_Name (λ x e, mkEvent (ev_Time e) (ev_Event e) x (ev_DropID e) (ev_Result e) (ev_Detail e) (ev_Fields e));
   mkField string_codec B["drop_id"] is_empty ev_DropID (λ x e, mkEvent (ev_Time e) (ev_Event e) (ev_Name e) x (ev_Result e) (ev_Detail e) (ev_Fields e));
   mkField string_codec B["result"] is_empty ev_Result (λ x e, mkEvent (ev_Time e) (ev_Event e) (ev_Name e) (ev_DropID e) x (ev_Detail e) (ev_Fields e));
   mkField string_codec B["detail"] is_empty ev_Detail (λ x e, mkEvent (ev_Time e) (ev_Event e) (ev_Name e) (ev_DropID e) (ev_Result e) x (ev_Fields e));
   mkField (map_codec string_codec) B["fields"] (λ m, bool_decide (m = ∅)) ev_Fields (λ x e, mkEvent (ev_Time e) (ev_Event e) (ev_Name e) (ev_DropID e) (ev_Result e) (ev_Detail e) x)].

Definition zero_event : Event := mkEvent zero_time [] [] [] [] [] ∅.
Definition event_codec : codec Event := struct_codec event_fields zero_event.

Definition maxAuditBytes : Z := 8 * 2 ^ 20.

(** * The log *)

Abbreviation files := (gmap bytes bytes).

(** [au_path] is empty when the log is disabled. *)
Record Audit := mkAudit { au_path : bytes }.

Definition backup (path : bytes) : bytes := path ++ B[".1"].

Inductive audit_error := AuditMarshal | AuditOpen | AuditWrite | AuditRead | AuditDir.

(** [MkdirAll], then the file is created where there is none. *)
Definition NewAudit (path : bytes) (mkdir_ok open_ok : bool) (fs : files) : files * result audit_error Audit :=
  if is_empty path || beq path B["off"] then (fs, Ok (mkAudit []))
  else if negb mkdir_ok then (fs, Err AuditDir)
  else if negb open_ok then (fs, Err AuditOpen)
  else (<[path := default [] (fs !! path)]> fs, Ok (mkAudit path)).

(** The fate of each system call of one [Log]. *)
Record log_faults := mkLogFaults {
  lf_stat : bool;
  lf_remove : bool;
  lf_rename : bool;
  lf_open : bool;
  lf_write : option nat; (* fails after this many bytes *)
}.

Definition no_log_faults : log_faults := mkLogFaults false false false false None.

(** One previous generation is kept. *)
Definition rotate (w : log_faults) (path : bytes) (fs : files) : files :=
  match (if lf_stat w then None else fs !! path) with
  | Some contents =>
      if maxAuditBytes <? zlen contents then
        let fs := if lf_remove w then fs else delete (backup path) fs in
        if lf_rename w then fs else <[backup path := contents]> (delete path fs)
      else fs
  | None => fs
  end.

Definition append_file (path data : bytes) (fs : files) : files := <[path := default [] (fs !! path) ++ data]> fs.

(** The time of an entry, in whole milliseconds. *)
Definition stamp (now : Time) (e : Event) : Event :=
  mkEvent (Truncate now Millisecond) (ev_Event e) (ev_Name e) (ev_DropID e) (ev_Result e) (ev_Detail e) (ev_Fields e).

Definition line_of (b : bytes) : bytes := b ++ [x0a].

Definition Log (a : Audit) (w : log_faults) (now : Time) (e : Event) (fs : files) : files * result audit_error unit :=
  if is_empty (au_path a) then (fs, Ok tt)
  else match Marshal event_codec (stamp now e) with
       | None => (fs, Err AuditMarshal)
       | Some b =>
           let fs := rotate w (au_path a) fs in
           if lf_open w then (fs, Err AuditOpen)
           else match lf_write w with
                | Some n => (append_file (au_path a) (take n (line_of b)) fs, Err AuditWrite)
                | None => (append_file (au_path a) (line_of b) fs, Ok tt)
                end
       end.

(** The loop over the decoder: [More], then [Decode] into a fresh event. *)
Fixpoint read_events (fuel : nat) (s : bytes) : list Event :=
  match fuel with
  | O => []
  | S fuel =>
      match skip_space s with
      | [] => []
      | b :: rest =>
          if bool_decide (b = x5d) || bool_decide (b = x7d) then []
          else match read_value (S (length s)) 0 s with
               | Err _ => []
               | Ok (v, rest) =>
                   match c_dec event_codec v zero_event with
                   | None => []
                   | Some e => e :: read_events fuel rest
                   end
               end
      end
  end.

Definition last_n {A} (n : Z) (l : list A) : list A :=
  if (0 <? n) && (n <? zlen l) then drop (Z.to_nat (zlen l - n)) l else l.

Definition Read (a : Audit) (n : Z) (read_ok : bool) (fs : files) : result audit_error (list Event) :=
  if is_empty (au_path a) then Ok []
  else match fs !! au_path a with
       | None => Ok []
       | Some b => if read_ok then Ok (last_n n (read_events (S (length b)) b)) else Err AuditRead
       end.

(** * What is read back *)

(** Text that is UTF-8, and a time whose year has four digits. *)
Definition event_text (e : Event) : Prop :=
  ValidUtf8 (ev_Event e) = true ∧ ValidUtf8 (ev_Name e) = true ∧ ValidUtf8 (ev_DropID e) = true ∧
  ValidUtf8 (ev_Result e) = true ∧ ValidUtf8 (ev_Detail e) = true ∧
  map_Forall (λ k v, ValidUtf8 (bs k) = true ∧ ValidUtf8 v = true) (ev_Fields e).

Definition event_ok (e : Event) : Prop := is_Some (Format_strict (ev_Time e)) ∧ event_text e.

Lemma event_law : law event_codec 2 event_ok.
Proof.
  apply struct_law; [vm_compute; reflexivity|vm_compute; reflexivity|].
  intros [t ev nm di re de fs] (H0 & H1 & H2 & H3 & H4 & H5 & H6).
  cbn [ev_Time ev_Event ev_Name ev_DropID ev_Result ev_Detail ev_Fields] in *.
  pose proof (map_law string_codec 0 _ (string_law 0)) as Hmap.
  unfold event_fields, zero_event. walk_path; try done.
Qed.

(** The text of a log. *)
Definition log_text (l : list Event) : option bytes := mjoin <$> mapM (λ e, line_of <$> Marshal event_codec e) l.

Lemma log_text_cons e l t :
  log_text (e :: l) = Some t ↔ ∃ b u, Marshal event_codec e = Some b ∧ log_text l = Some u ∧ t = line_of b ++ u.
Proof.
  unfold log_text. simpl. destruct (Marshal event_codec e) as [b|]; simpl; [|naive_solver].
  destruct (mapM _ l) as [bs|]; simpl; naive_solver.
Qed.

Lemma log_text_snoc l t e b :
  log_text l = Some t → Marshal event_codec e = Some b → log_text (l ++ [e]) = Some (t ++ line_of b).
Proof.
  intros Hl Hb. revert t Hl. induction l as [|x l IH]; intros t Hl.
  - injection Hl as <-. apply log_text_cons. exists b, []. by rewrite app_nil_r.
  - apply log_text_cons in Hl as (bx & u & Hx & Hu & ->). rewrite <- app_comm_cons. apply log_text_cons. exists bx, (u ++ line_of b).
    by rewrite (IH u Hu), app_assoc.
Qed.

(** An object opens with a brace. *)
Lemma event_head e j : c_enc event_codec e = Some j → ∃ u, write_json j = x7b :: u.
Proof. unfold event_codec, struct_codec, c_enc. intros (ms & _ & ->)%fmap_Some. by eexists. Qed.

Lemma read_events_text l t pre fuel :
  Forall event_ok l → log_text l = Some t → pre = [] ∨ pre = [x0a] → (length (pre ++ t) < fuel)%nat →
  read_events fuel (pre ++ t) = l.
Proof.
  intros Hl. revert t pre fuel. induction Hl as [|e l He _ IH]; intros t pre fuel Ht Hpre Hf.
  { injection Ht as <-. destruct fuel; [lia|]. by destruct Hpre as [->| ->]. }
  apply log_text_cons in Ht as (b & u & Hb & Hu & ->).
  destruct (event_law e He) as (j & Henc & Hw & Hd). unfold Marshal in Hb. rewrite Henc in Hb. injection Hb as <-.
  destruct (event_head e j Henc) as [u' Hu']. destruct fuel as [|fuel]; [lia|].
  assert (pre ++ line_of (write_json j) ++ u = pre ++ write_json j ++ x0a :: u) as Eq
    by (unfold line_of; by rewrite <- (app_assoc (write_json j))).
  rewrite Eq in *. cbn [read_events].
  assert (skip_space (pre ++ write_json j ++ x0a :: u) = write_json j ++ x0a :: u) as ->
    by (rewrite Hu'; by destruct Hpre as [->| ->]).
  rewrite Hu' at 1. cbn [app]. rewrite !bool_decide_eq_false_2 by done. cbn [orb].
  assert (read_value (S (length (pre ++ write_json j ++ x0a :: u))) 0 (pre ++ write_json j ++ x0a :: u) = Ok (j, x0a :: u)) as ->.
  { destruct Hpre as [->| ->].
    - apply (read_write_json j 2%nat); [done|unfold maxNestingDepth; lia|rewrite !length_app; simpl; lia|right; right; by eexists].
    - change (read_value (S (length ([x0a] ++ write_json j ++ x0a :: u))) 0 (write_json j ++ x0a :: u) = Ok (j, x0a :: u)).
      apply (read_write_json j 2%nat); [done|unfold maxNestingDepth; lia|rewrite !length_app; simpl; lia|right; right; by eexists]. }
  change (c_dec event_codec j zero_event) with (c_dec event_codec j (c_zero event_codec)). rewrite Hd. f_equal.
  apply (IH u [x0a] fuel); [done|by right|]. rewrite Hu' in Hf. repeat (rewrite length_app in Hf || cbn [app length] in Hf). simpl. lia.
Qed.

(** * Histories *)

Record log_call := mkLogCall { lc_faults : log_faults; lc_now : Time; lc_event : Event }.

(** The files after a sequence of calls, and the entries that were acknowledged. *)
Fixpoint logs (a : Audit) (cs : list log_call) (fs : files) : files * list Event :=
  match cs with
  | [] => (fs, [])
  | c :: cs =>
      let '(fs, r) := Log a (lc_faults c) (lc_now c) (lc_event c) fs in
      let '(fs', l) := logs a cs fs in
      (fs', match r with Ok _ => stamp (lc_now c) (lc_event c) :: l | Err _ => l end)
  end.

Definition whole_writes (c : log_call) : Prop := lf_write (lc_faults c) = None.
Definition rotates (c : log_call) : Prop := lf_stat (lc_faults c) = false ∧ lf_rename (lc_faults c) = false.

(** No line is longer than [m]. *)
Definition line_bound (m : Z) (c : log_call) : Prop :=
  ∀ b, Marshal event_codec (stamp (lc_now c) (lc_event c)) = Some b → zlen (line_of b) <= m.

Section history.
Context (path : bytes) (Hpath : path ≠ []) (m : Z) (Hm : 0 <= m).

(** [old] went to earlier generations, [cur] is in the file; with [strict] every
    rotation was carried out. *)
Record log_state (strict : Prop) (fs : files) (old cur : list Event) : Prop := {
  ls_ok : Forall event_ok cur;
  ls_text : log_text cur = Some (default [] (fs !! path));
  ls_bound : strict → zlen (default [] (fs !! path)) <= maxAuditBytes + m;
  ls_backup : strict → old ≠ [] →
    ∃ older prev t, old = older ++ prev ∧ log_text prev = Some t ∧ maxAuditBytes < zlen t ∧ fs !! backup path = Some t;
}.

Lemma backup_ne : backup path ≠ path.
Proof. unfold backup. intros E. apply (f_equal length) in E. rewrite length_app in E. simpl in E. lia. Qed.

(** After the rotation there is room. *)
Lemma rotate_state (strict : Prop) w fs old cur :
  log_state strict fs old cur → (strict → lf_stat w = false ∧ lf_rename w = false) →
  ∃ old' cur', old' ++ cur' = old ++ cur ∧ log_state strict (rotate w path fs) old' cur' ∧
    (strict → zlen (default [] (rotate w path fs !! path)) <= maxAuditBytes).
Proof.
  pose proof backup_ne as Hne. intros Hs Hw. unfold rotate.
  assert ((strict → zlen (default [] (fs !! path)) <= maxAuditBytes) →
    ∃ old' cur', old' ++ cur' = old ++ cur ∧ log_state strict fs old' cur' ∧
      (strict → zlen (default [] (fs !! path)) <= maxAuditBytes)) as Hsame by (intros; by exists old, cur).
  destruct (lf_stat w); [apply Hsame; intros [? _]%Hw; done|].
  case_eq (fs !! path); [intros contents Ef|intros Ef; apply Hsame; rewrite Ef; by vm_compute].
  destruct (Z.ltb_spec maxAuditBytes (zlen contents)) as [Hlt|Hle]; [|apply Hsame; by rewrite Ef].
  destruct Hs as [Hok Ht Hb Hback]. rewrite Ef in *. simpl in Ht.
  destruct (lf_rename w).
  - exists old, cur. split; [done|].
    assert ((if lf_remove w then fs else delete (backup path) fs) !! path = Some contents) as Hl
      by (destruct (lf_remove w); [done|by rewrite lookup_delete_ne]).
    rewrite Hl. split; [|intros [_ ?]%Hw; done]. split; rewrite ?Hl; [done..|]. intros [_ ?]%Hw. done.
  - exists (old ++ cur), []. rewrite app_nil_r. split; [done|].
    rewrite lookup_insert_ne, lookup_delete_eq by done. split; [|by vm_compute].
    split; rewrite ?lookup_insert_ne, ?lookup_delete_eq by done; [constructor|done|simpl; unfold maxAuditBytes; intros; rewrite zlen_nil; lia|].
    intros _ _. exists old, cur, contents. by rewrite lookup_insert_eq.
Qed.

Lemma Log_state (strict : Prop) c fs old cur :
  log_state strict fs old cur → whole_writes c → event_text (lc_event c) →
  (strict → rotates c ∧ line_bound m c) →
  let res := Log (mkAudit path) (lc_faults c) (lc_now c) (lc_event c) fs in
  ∃ old' cur', old' ++ cur' = (old ++ cur) ++ (if is_ok res.2 then [stamp (lc_now c) (lc_event c)] else []) ∧
    log_state strict res.1 old' cur'.
Proof.
  intros Hs Hw He Hstrict. unfold Log. cbn [au_path].
  assert (is_empty path = false) as -> by by apply bool_decide_eq_false_2.
  destruct (Marshal event_codec (stamp (lc_now c) (lc_event c))) as [b|] eqn:Hb; [|exists old, cur; cbn [fst snd is_ok]; by rewrite app_nil_r].
  destruct (rotate_state strict (lc_faults c) fs old cur Hs ltac:(by intros [? _]%Hstrict)) as (old' & cur' & Eq & Hs' & Hroom).
  rewrite <- Eq. destruct (lf_open (lc_faults c)); [exists old', cur'; by rewrite app_nil_r|].
  rewrite Hw. exists old', (cur' ++ [stamp (lc_now c) (lc_event c)]). cbn [fst snd is_ok]. split; [by rewrite app_assoc|].
  destruct Hs' as [Hok Ht Hbnd Hback]. unfold append_file.
  split; rewrite ?lookup_insert_eq, ?lookup_insert_ne by apply not_eq_sym, backup_ne; cbn [from_option id].
  - apply Forall_app. split; [done|]. constructor; [|done]. split; [|done].
    unfold Marshal in Hb. apply fmap_Some in Hb as (j & Hj & _).
    unfold event_codec, struct_codec, c_enc in Hj. apply fmap_Some in Hj as (ms & Hms & _).
    destruct (enc_fields_field (stamp (lc_now c) (lc_event c)) event_fields ms 0 _ Hms eq_refl eq_refl) as [x Hx].
    cbn [f_codec f_get f_type] in Hx. apply fmap_Some in Hx as (y & Hy & _). by eexists.
  - by apply log_text_snoc.
  - intros Hst. rewrite zlen_app. specialize (Hroom Hst). destruct (Hstrict Hst) as [_ Hline]. specialize (Hline b Hb). lia.
  - done.
Qed.

Lemma logs_state (strict : Prop) cs fs old cur :
  log_state strict fs old cur → Forall whole_writes cs → Forall (λ c, event_text (lc_event c)) cs →
  (strict → Forall (λ c, rotates c ∧ line_bound m c) cs) →
  let res := logs (mkAudit path) cs fs in
  ∃ old' cur', old' ++ cur' = (old ++ cur) ++ res.2 ∧ log_state strict res.1 old' cur'.
Proof.
  intros Hs Hw He Hr. revert fs old cur Hs. induction cs as [|c cs IH]; intros fs old cur Hs.
  { exists old, cur. by rewrite app_nil_r. }
  apply Forall_cons in Hw as [Hwc Hw]. apply Forall_cons in He as [Hec He].
  destruct (Log_state strict c fs old cur Hs Hwc Hec) as (old1 & cur1 & Eq1 & Hs1).
  { intros Hst. by apply Hr in Hst as [? _]%Forall_cons. }
  cbn [logs]. destruct (Log _ _ _ _ fs) as [fs1 r]. cbn [fst snd] in Eq1, Hs1.
  destruct (IH Hw He ltac:(by intros Hst; apply Hr in Hst as [_ ?]%Forall_cons) fs1 old1 cur1 Hs1) as (old2 & cur2 & Eq2 & Hs2).
  destruct (logs _ cs fs1) as [fs2 l]. cbn [fst snd] in *. exists old2, cur2. split; [|done].
  rewrite Eq2, Eq1. destruct r; simpl; by rewrite <- ?app_assoc, ?app_nil_r.
Qed.

(** C16. The audit log gives back what was logged, for events whose texts are
    valid UTF-8 ([event_text]: in any other text json.Marshal replaces the bytes
    that are not, so that entry reads back with replacement characters). Start
    the log where there is no file, and let system calls fail as they like, save
    that what is written is written whole: then the last [n] entries that [Read]
    returns are the last [n] acknowledged entries since the last rotation, in
    order and as they were stamped. When every rotation is carried out and no
    line is longer than [m], the file is never longer than eight megabytes and
    [m], and what is no longer in it is at the end of the one previous
    generation, which is more than eight megabytes long. *)
Theorem audit_reads_what_was_logged (cs : list log_call) (fs fs' : files) acked :
  fs !! path = None → Forall whole_writes cs → Forall (λ c, event_text (lc_event c)) cs →
  logs (mkAudit path) cs fs = (fs', acked) →
  ∃ old cur, acked = old ++ cur ∧ (∀ n, Read (mkAudit path) n true fs' = Ok (last_n n cur)) ∧
    (Forall (λ c, rotates c ∧ line_bound m c) cs →
     zlen (default [] (fs' !! path)) <= maxAuditBytes + m ∧
     (old ≠ [] → ∃ older prev t, old = older ++ prev ∧ log_text prev = Some t ∧ maxAuditBytes < zlen t ∧
        fs' !! backup path = Some t)).
Proof.
  intros Hfresh Hw He Hlogs.
  destruct (logs_state (Forall (λ c, rotates c ∧ line_bound m c) cs) cs fs [] []) as (old & cur & Eq & [Hok Ht Hb Hback]).
  - split; rewrite ?Hfresh; [constructor|done|intros; simpl; unfold maxAuditBytes; rewrite zlen_nil; lia|done].
  - done.
  - done.
  - done.
  - rewrite Hlogs in Eq, Ht, Hb, Hback. cbn [fst snd app] in *. exists old, cur. split; [done|]. split; [|auto].
    intros n. unfold Read. cbn [au_path]. assert (is_empty path = false) as -> by by apply bool_decide_eq_false_2.
    destruct (fs' !! path) as [t|] eqn:Ef; cbn [from_option id] in Ht.
    + change t with ([] ++ t) at 2. by rewrite (read_events_text cur) by (auto; simpl; lia).
    + destruct cur as [|e cur]; [unfold last_n; case_match; by rewrite ?drop_nil|].
      apply log_text_cons in Ht as (b & u & _ & _ & Et). by destruct b.
Qed.
End history.

(** * Concrete logs *)

Definition sample_path : bytes := B["/state/audit.log"].

Definition sample_event (name detail : bytes) : Event :=
  mkEvent zero_time B["fetch_secret"] name B["id"] B["stored"] detail {[ "backend" := B["keychain"] ]}.

Definition sample_call (w : log_faults) (name : bytes) : log_call :=
  mkLogCall w (unix_epoch + 1234567) (sample_event name B["<&>"]).

Definition sample_calls : list log_call :=
  [sample_call no_log_faults B["db"]; sample_call (mkLogFaults false false false true None) B["lost"];
   sample_call no_log_faults B["api"]].

Lemma sample_text name : ValidUtf8 name = true → event_text (sample_event name B["<&>"]).
Proof.
  intros Hn. split_and!; try done. intros k v Hk. simpl in Hk. apply (lookup_singleton_Some (M := gmap string)) in Hk as [<- <-]. done.
Qed.

Lemma audit_reads_what_was_logged_witness :
  let res := logs (mkAudit sample_path) sample_calls ∅ in
  res.2 = [stamp (unix_epoch + 1234567) (sample_event B["db"] B["<&>"]); stamp (unix_epoch + 1234567) (sample_event B["api"] B["<&>"])] ∧
  ∃ old cur, res.2 = old ++ cur ∧ Read (mkAudit sample_path) 1 true res.1 = Ok (last_n 1 cur).
Proof.
  intros res. split; [vm_compute; reflexivity|].
  destruct (audit_reads_what_was_logged sample_path ltac:(done) 0 ltac:(done) sample_calls ∅ _ _ (lookup_empty _)
    ltac:(repeat constructor) ltac:(repeat (apply Forall_cons; split; [by apply sample_text|]); constructor) (surjective_pairing _)) as (old & cur & Eq & Hread & _).
  exists old, cur. split; [exact Eq|apply Hread].
Defined.

(** Text that is not UTF-8 is read back with replacement characters. *)
Example other_bytes_are_replaced :
  let e := sample_event B["db"] [x61; xff] in
  let res := logs (mkAudit sample_path) [mkLogCall no_log_faults (unix_epoch + 1234567) e] ∅ in
  res.2 = [stamp (unix_epoch + 1234567) e] ∧
  Read (mkAudit sample_path) 1 true res.1 = Ok [stamp (unix_epoch + 1234567) (sample_event B["db"] [x61; xef; xbf; xbd])].
Proof. split; vm_compute; reflexivity. Qed.

(** A write that is torn hides every later entry: the reader stops at the line
    it broke. *)
Example torn_line_hides :
  let cs := [sample_call no_log_faults B["db"]; sample_call (mkLogFaults false false false false (Some 20%nat)) B["torn"];
             sample_call no_log_faults B["api"]] in
  let res := logs (mkAudit sample_path) cs ∅ in
  length res.2 = 2%nat ∧
  Read (mkAudit sample_path) 0 true res.1 = Ok [stamp (unix_epoch + 1234567) (sample_event B["db"] B["<&>"])].
Proof. split; vm_compute; reflexivity. Qed.
