(* ===== verification/AgentConfig.v ===== *)
(** The agent's configuration: internal/agent/config.go.  The TOML file itself
    is read and written by a library; what is modelled is the struct, its
    validation, its defaults and how its references are resolved. *)
From S2P Require Import Prelude GoStrings GoTime GoFloat Crypto Envelope Link.
From S2P Require Secrets.
From Stdlib Require Import Strings.Byte.

Record RunConfig := mkRunConfig { AllowedCommands : list bytes; MaxOutputBytes : Z }.

Record KeychainConfig := mkKeychainConfig { kc_Service : bytes }.
Record AgeVaultConfig := mkAgeVaultConfig { ac_Path : bytes; ac_IdentityFile : bytes; ac_PassphraseEnv : bytes }.
Record DotenvConfig := mkDotenvConfig { dc_Path : bytes }.
Record OnePasswordConfig := mkOnePasswordConfig { oc_Vault : bytes; oc_Account : bytes }.
Record BitwardenConfig := mkBitwardenConfig { bc_SessionEnv : bytes }.
Record VaultConfig := mkVaultConfig { vc_Address : bytes; vc_Mount : bytes; vc_Path : bytes; vc_Namespace : bytes; vc_TokenEnv : bytes }.
Record InfisicalConfig := mkInfisicalConfig { ic_ProjectID : bytes; ic_Environment : bytes; ic_Path : bytes }.
Record DopplerConfig := mkDopplerConfig { pc_Project : bytes; pc_Config : bytes }.
Record AWSConfig := mkAWSConfig { wc_Region : bytes; wc_Profile : bytes; wc_Prefix : bytes }.
Record GCPConfig := mkGCPConfig { gc_Project : bytes; gc_Prefix : bytes }.
Record AzureConfig := mkAzureConfig { zc_VaultName : bytes; zc_Prefix : bytes; zc_Purge : bool }.

Record BackendConfig := mkBackendConfig {
  c_Keychain : KeychainConfig;
  c_AgeVault : AgeVaultConfig;
  c_Dotenv : DotenvConfig;
  c_OnePassword : OnePasswordConfig;
  c_Bitwarden : BitwardenConfig;
  c_Vault : VaultConfig;
  c_Infisical : InfisicalConfig;
  c_Doppler : DopplerConfig;
  c_AWS : AWSConfig;
  c_GCP : GCPConfig;
  c_Azure : AzureConfig;
}.

Definition no_backends : BackendConfig :=
  mkBackendConfig (mkKeychainConfig []) (mkAgeVaultConfig [] [] []) (mkDotenvConfig []) (mkOnePasswordConfig [] []) (mkBitwardenConfig [])
    (mkVaultConfig [] [] [] [] []) (mkInfisicalConfig [] [] []) (mkDopplerConfig [] []) (mkAWSConfig [] [] []) (mkGCPConfig [] [])
    (mkAzureConfig [] [] false).

(** [Audit_Path] is the one field of the table for the audit log. *)
Record Config := mkConfig {
  Relay : bytes;
  PageOrigin : bytes;
  AgentKey : bytes;
  Storage : bytes;
  cfg_DefaultTTL : bytes;
  cfg_DefaultRetention : bytes;
  RevealPassword : bytes;
  RevealPasswordRequired : bool;
  RunWithSecret : RunConfig;
  Audit_Path : bytes;
  Backends : BackendConfig;
}.

Definition AppName : bytes := B["burndrop"].

Definition DefaultTTL : Duration := Hour.
Definition DefaultRetention : bytes := Secrets.RetentionUntilRevoked.
Definition DefaultMaxOutput : Z := 32 * 1024.
Definition DefaultAgentKeyRef : bytes := B["keychain:"] ++ AppName ++ B["/agent-key"].
Definition DefaultAgentKeyEnv : bytes := B["BURNDROP_API_KEY"].
Definition DefaultRevealPasswordRef : bytes := B["keychain:"] ++ AppName ++ B["/reveal-password"].
Definition AgentKeyNone : bytes := B["none"].

Definition KnownBackends : list bytes :=
  [B["keychain"]; B["agevault"]; B["memory"]; B["dotenv"]; B["onepassword"]; B["bitwarden"]; B["vault"]; B["infisical"];
   B["doppler"]; B["aws"]; B["gcp"]; B["azure"]].

Inductive config_error :=
  | RelayMissing | BadRelay | BadPageOrigin | StorageMissing | UnknownStorage | BadAgentKey | BadRevealPassword
  | PasswordRequired | BadTTL | BadRetention | BadMaxOutput
  | EmptyVariable | BadReference | NoKeychain | NotInKeychain
  | ErrNoRevealPasswordSet.

Definition keychain_prefix : bytes := B["keychain:"].
Definition env_prefix : bytes := B["env:"].

(** [TTL], [Retention], [MaxOutput]: the defaults. *)
Definition TTL (c : Config) : result config_error Duration :=
  if is_empty (cfg_DefaultTTL c) then Ok DefaultTTL
  else match ParseDuration (cfg_DefaultTTL c) with
       | Some d => if d <=? 0 then Err BadTTL else Ok d
       | None => Err BadTTL
       end.

Definition Retention (c : Config) : bytes :=
  if is_empty (cfg_DefaultRetention c) then DefaultRetention else cfg_DefaultRetention c.

Definition MaxOutput (c : Config) : Z :=
  if MaxOutputBytes (RunWithSecret c) =? 0 then DefaultMaxOutput else MaxOutputBytes (RunWithSecret c).

Section config.
Context `{Unicode}.

Definition Validate (now : Time) (c : Config) : result config_error unit :=
  _ ← guard_err (negb (is_empty (Relay c))) RelayMissing;
  _ ← guard_err (is_ok (NormalizeOrigin (Relay c))) BadRelay;
  _ ← guard_err (is_empty (PageOrigin c) || is_ok (NormalizeOrigin (PageOrigin c))) BadPageOrigin;
  _ ← guard_err (negb (is_empty (Storage c))) StorageMissing;
  _ ← guard_err (existsb (λ k, beq k (Storage c)) KnownBackends) UnknownStorage;
  _ ← guard_err (is_empty (AgentKey c) || beq (AgentKey c) AgentKeyNone || HasPrefix (AgentKey c) keychain_prefix ||
                 HasPrefix (AgentKey c) env_prefix) BadAgentKey;
  _ ← guard_err (is_empty (RevealPassword c) || HasPrefix (RevealPassword c) keychain_prefix ||
                 HasPrefix (RevealPassword c) env_prefix) BadRevealPassword;
  _ ← guard_err (negb (RevealPasswordRequired c && is_empty (RevealPassword c))) PasswordRequired;
  _ ← TTL c;
  _ ← guard_err (is_ok (Secrets.ParseRetention (Retention c) now) || is_empty (cfg_DefaultRetention c)) BadRetention;
  guard_err (0 <=? MaxOutputBytes (RunWithSecret c)) BadMaxOutput.

(** * References

    The environment, and the keychain where there is one. *)
Context (getenv : bytes → bytes) (keychain : option (bytes → bytes → option bytes)).

(** [keychain:<service>/<entry>] *)
Definition keychain_lookup (ref : bytes) : result config_error bytes :=
  let '(service, entry, ok) := Cut (TrimPrefix ref keychain_prefix) x2f in
  if negb ok || is_empty service || is_empty entry then Err BadReference
  else match keychain with
       | None => Err NoKeychain
       | Some lookup => match lookup service entry with Some v => Ok v | None => Err NotInKeychain end
       end.

(** The key, with the name of its source. *)
Definition ResolveAgentKey (c : Config) : result config_error bytes * bytes :=
  let fromenv := getenv DefaultAgentKeyEnv in
  if is_empty (AgentKey c) && negb (is_empty fromenv) then (Ok (TrimSpace fromenv), env_prefix ++ DefaultAgentKeyEnv)
  else
    let ref := if is_empty (AgentKey c) then DefaultAgentKeyRef else AgentKey c in
    (if beq ref AgentKeyNone then Ok []
     else if HasPrefix ref env_prefix then
       let v := TrimSpace (getenv (TrimPrefix ref env_prefix)) in
       if is_empty v then Err EmptyVariable else Ok v
     else if HasPrefix ref keychain_prefix then v ← keychain_lookup ref; Ok (TrimSpace v)
     else Err BadReference, ref).

(** [None] is no password. *)
Definition ResolveRevealPassword (c : Config) : result config_error (option bytes) :=
  let ref := RevealPassword c in
  if is_empty ref then Ok None
  else if HasPrefix ref env_prefix then
    let v := getenv (TrimPrefix ref env_prefix) in
    if is_empty v then Err EmptyVariable else Ok (Some v)
  else if HasPrefix ref keychain_prefix then v ← keychain_lookup ref; Ok (Some v)
  else Err BadReference.
End config.

Definition SetRevealPasswordRequired (required : bool) (c : Config) : result config_error Config :=
  if required && is_empty (RevealPassword c) then Err ErrNoRevealPasswordSet
  else Ok (mkConfig (Relay c) (PageOrigin c) (AgentKey c) (Storage c) (cfg_DefaultTTL c) (cfg_DefaultRetention c)
             (RevealPassword c) required (RunWithSecret c) (Audit_Path c) (Backends c)).

(** * What validation gives *)

Section props.
Context `{Unicode}.

Lemma Validate_known now c u : Validate now c = Ok u → Storage c ∈ KnownBackends.
Proof.
  unfold Validate. intros Hv. do 4 apply result_bind_ok in Hv as (? & _ & Hv).
  apply result_bind_ok in Hv as (? & Hk%guard_err_ok & _). apply existsb_exists in Hk as (k & Hk & ->%bool_decide_eq_true).
  by apply list_elem_of_In.
Qed.

Lemma Validate_required now c u : Validate now c = Ok u → RevealPasswordRequired c = true → RevealPassword c ≠ [].
Proof.
  unfold Validate. intros Hv Hr. do 7 apply result_bind_ok in Hv as (? & _ & Hv).
  apply result_bind_ok in Hv as (? & Hk%guard_err_ok & _). rewrite Hr in Hk. by apply negb_true_iff, bool_decide_eq_false in Hk.
Qed.

(** A configuration that passes validation has a relay and a page that are
    origins, a storage the agent knows, a positive lifetime that fits a
    machine integer, and no secret in it: its key and its password are
    references, so that resolving them never fails for their form. *)
Theorem Validate_ok now c u :
  Validate now c = Ok u →
  is_ok (NormalizeOrigin (Relay c)) = true ∧ (PageOrigin c = [] ∨ is_ok (NormalizeOrigin (PageOrigin c)) = true) ∧
  Storage c ∈ KnownBackends ∧
  (∃ d, TTL c = Ok d ∧ 0 < d < 2 ^ 63) ∧
  (RevealPasswordRequired c = true → RevealPassword c ≠ []) ∧
  (∀ getenv keychain, ResolveRevealPassword getenv keychain c = Err BadReference →
     HasPrefix (RevealPassword c) keychain_prefix = true ∧ keychain_lookup keychain (RevealPassword c) = Err BadReference).
Proof.
  intros Hv. pose proof (Validate_known _ _ _ Hv) as Hknown. pose proof (Validate_required _ _ _ Hv) as Hreq. unfold Validate in Hv.
  apply result_bind_ok in Hv as (? & H1%guard_err_ok & Hv). apply result_bind_ok in Hv as (? & H2%guard_err_ok & Hv).
  apply result_bind_ok in Hv as (? & H3%guard_err_ok & Hv). apply result_bind_ok in Hv as (? & H4%guard_err_ok & Hv).
  apply result_bind_ok in Hv as (? & H5%guard_err_ok & Hv). apply result_bind_ok in Hv as (? & H6%guard_err_ok & Hv).
  apply result_bind_ok in Hv as (? & H7%guard_err_ok & Hv). apply result_bind_ok in Hv as (? & H8%guard_err_ok & Hv).
  apply result_bind_ok in Hv as (d & H9 & Hv). unfold is_empty, beq in *.
  split; [done|]. split; [apply orb_prop in H3 as [H3|H3]; [left; by apply bool_decide_eq_true in H3|by right]|].
  split; [exact Hknown|].
  split.
  { exists d. split; [done|]. unfold TTL in H9. destruct (is_empty _); [injection H9 as <-; unfold DefaultTTL; vm_compute; split; [done|reflexivity]|].
    destruct (ParseDuration _) as [d'|] eqn:E; [|done]. destruct (Z.leb_spec d' 0); [done|]. injection H9 as <-.
    split; [done|]. by eapply ParseDuration_range. }
  split; [exact Hreq|]. intros getenv keychain. unfold ResolveRevealPassword, is_empty.
  destruct (bool_decide (RevealPassword c = [])); [done|]. simpl in H7.
  destruct (HasPrefix (RevealPassword c) env_prefix); [by case_match|].
  rewrite orb_false_r in H7. rewrite H7. split; [done|]. by destruct (keychain_lookup _ _) as [|[]].
Qed.
End props.

Definition sample_agent_config : Config :=
  mkConfig B["https://relay.example"] [] B["env:KEY"] B["agevault"] B["45m"] [] B["keychain:burndrop/reveal-password"] true
    (mkRunConfig [] 0) [] no_backends.

Lemma Validate_ok_witness :
  ∃ d, TTL sample_agent_config = Ok d ∧ 0 < d < 2 ^ 63.
Proof.
  destruct (@Validate_ok {| lower_rune r := r |} unix_epoch sample_agent_config tt) as (_ & _ & _ & Hd & _).
  - vm_compute. reflexivity.
  - exact Hd.
Defined.
