(* ===== verification/Client.v ===== *)
(** The HTTP client of the relay: internal/client/client.go.

    The world a client acts on, that is the network with the relay behind it
    and the clock, is a state [N] with the operations of the class [World]; a
    method is a function of that state. *)
From S2P Require Import Prelude GoStrings GoTime GoSort GoText Json JsonDoc Sha256 Tokens Link.
From Stdlib Require Import Strings.Byte.

(** * The world *)

Record HttpRequest := mkHttp { h_Method : bytes; h_URL : bytes; h_Header : list (bytes * bytes); h_Body : bytes }.

(** How a request or a wait ended that got no answer; [deadline] tells whether
    it was by a deadline, for which [errors.Is] finds
    [context.DeadlineExceeded]. *)
Inductive transport_error := mkTransport (deadline : bool).

Class World (N : Type) := {
  (** one exchange: no response, or the status and the body, which may break off *)
  http_do : HttpRequest → N → N * (transport_error + Z * (bytes + transport_error));
  w_now : N → N * Time;
  w_sleep : Duration → N → N;
  (** [ctx.Err()] *)
  ctx_err : N → option transport_error;
}.

(** * Errors *)

(** [*Error]: an error response of the relay. *)
Record RelayError := mkRelayError { re_Status : Z; re_Code : bytes; re_Detail : bytes; re_State : bytes; re_At : Time }.

Inductive client_error :=
  | ERelay (e : RelayError)
  | ETransport (e : transport_error) (* from the transport or the context *)
  | EDeadline (* the deadline of a wait *)
  | EMalformed (* a response that is not what the endpoint answers *)
  | ERequest (* the request could not be made *).

(** [IsCode] *)
Definition IsCode (err : client_error) (code : bytes) : bool :=
  match err with ERelay e => beq (re_Code e) code | _ => false end.

(** [errors.Is(err, context.DeadlineExceeded)] *)
Definition is_deadline (err : client_error) : bool :=
  match err with EDeadline => true | ETransport (mkTransport d) => d | _ => false end.

Definition CodeNotFound : bytes := B["not_found"].
Definition CodeNotUploaded : bytes := B["not_uploaded"].
Definition CodeGone : bytes := B["gone"].
Definition CodeBadToken : bytes := B["bad_token"].
Definition CodeUnauthorized : bytes := B["unauthorized"].
Definition CodeRateLimited : bytes := B["rate_limited"].
Definition CodeCommitment : bytes := B["commitment_mismatch"].
Definition CodeAlreadyUploaded : bytes := B["already_uploaded"].

Definition StateCreated : bytes := B["created"].
Definition StateUploaded : bytes := B["uploaded"].
Definition StateFetched : bytes := B["fetched"].
Definition StateOpened : bytes := B["opened"].
Definition StateRevoked : bytes := B["revoked"].
Definition StateExpired : bytes := B["expired"].

(** The text of a relay error. *)
Definition Error_text (e : RelayError) : bytes :=
  B["relay: "] ++ re_Code e ++
  (if is_empty (re_State e) then [] else B[" ("] ++ re_State e ++ B[")"]) ++
  (if is_empty (re_Detail e) then [] else B[": "] ++ re_Detail e) ++
  B[" [HTTP "] ++ Itoa (re_Status e) ++ B["]"].

(** * Data *)

Record Client := mkClient { Origin : bytes; APIKey : bytes; cName : bytes }.

Record DropCreated := mkDropCreated { dc_ID : bytes; dc_UploadToken : bytes; dc_FetchToken : bytes; dc_ExpiresAt : Time }.
Record RevealCreated := mkRevealCreated { rc_ID : bytes; rc_RevealToken : bytes; rc_RevokeToken : bytes; rc_ExpiresAt : Time }.

Record Status := mkStatus {
  st_State : bytes;
  st_Kind : bytes;
  st_CreatedAt : Time;
  st_ExpiresAt : Time;
  st_UploadedAt : Time;
  st_FetchedAt : Time;
  st_OpenedAt : Time;
  st_RevokedAt : Time;
}.

(** [Status{}] *)
Definition no_status : Status := mkStatus [] [] zero_time zero_time zero_time zero_time zero_time zero_time.

Definition Terminal (s : Status) : bool :=
  existsb (beq (st_State s)) [StateFetched; StateOpened; StateRevoked; StateExpired].

Record Info := mkInfo {
  i_Version : bytes;
  i_API : bytes;
  i_DefaultTTLSeconds : Z;
  i_MaxTTLSeconds : Z;
  i_MaxCiphertextBytes : Z;
  i_LongPollMaxSeconds : Z;
  i_AgentAuth : bytes;
  i_PageServed : bool;
  i_PageVersion : bytes;
  i_PageSHA256 : bytes;
}.

Definition MaxWait : Duration := 30 * Second.
Definition maxResponse : Z := 1048576.
Definition ClientHeader : bytes := B["X-Client"].

Definition New `{Unicode} (relay apiKey name : bytes) : option Client :=
  match NormalizeOrigin relay with
  | Ok origin => Some (mkClient origin apiKey (if is_empty name then B["burndrop-go"] else name))
  | Err _ => None
  end.

Definition parseTime (s : bytes) : Time :=
  if is_empty s then zero_time else match Parse_RFC3339 s with Some t => t | None => zero_time end.

(** ** Bodies

    A struct of strings is the list of its values. *)

Definition text_field (names : list bytes) (i : nat) : field (list bytes) :=
  mkField string_codec (nth i names []) never (λ r, nth i r []) (λ x r, <[i := x]> r).

Definition texts (names : list bytes) : codec (list bytes) :=
  struct_codec (text_field names <$> seq 0 (length names)) (replicate (length names) []).

Definition text (out : list bytes) (i : nat) : bytes := nth i out [].

Definition created_body : codec (list bytes) := texts [B["drop_id"]; B["upload_token"]; B["fetch_token"]; B["expires_at"]].
Definition status_body : codec (list bytes) :=
  texts [B["state"]; B["kind"]; B["created_at"]; B["expires_at"]; B["uploaded_at"]; B["fetched_at"]; B["opened_at"]; B["revoked_at"]].
Definition fetched_body : codec (list bytes) := texts [B["ciphertext"]; B["uploaded_at"]].
Definition reveal_body : codec (list bytes) := texts [B["drop_id"]; B["reveal_token"]; B["revoke_token"]; B["expires_at"]].
Definition opened_body : codec (list bytes) := texts [B["ciphertext"]; B["created_at"]].
Definition error_body : codec (list bytes) := texts [B["error"]; B["detail"]; B["state"]; B["at"]].

Definition info_fields : list (field Info) :=
  [mkField string_codec B["version"] never i_Version (λ x r, mkInfo x (i_API r) (i_DefaultTTLSeconds r) (i_MaxTTLSeconds r) (i_MaxCiphertextBytes r) (i_LongPollMaxSeconds r) (i_AgentAuth r) (i_PageServed r) (i_PageVersion r) (i_PageSHA256 r));
   mkField string_codec B["api"] never i_API (λ x r, mkInfo (i_Version r) x (i_DefaultTTLSeconds r) (i_MaxTTLSeconds r) (i_MaxCiphertextBytes r) (i_LongPollMaxSeconds r) (i_AgentAuth r) (i_PageServed r) (i_PageVersion r) (i_PageSHA256 r));
   mkField int_codec B["default_ttl_seconds"] never i_DefaultTTLSeconds (λ x r, mkInfo (i_Version r) (i_API r) x (i_MaxTTLSeconds r) (i_MaxCiphertextBytes r) (i_LongPollMaxSeconds r) (i_AgentAuth r) (i_PageServed r) (i_PageVersion r) (i_PageSHA256 r));
   mkField int_codec B["max_ttl_seconds"] never i_MaxTTLSeconds (λ x r, mkInfo (i_Version r) (i_API r) (i_DefaultTTLSeconds r) x (i_MaxCiphertextBytes r) (i_LongPollMaxSeconds r) (i_AgentAuth r) (i_PageServed r) (i_PageVersion r) (i_PageSHA256 r));
   mkField int_codec B["max_ciphertext_bytes"] never i_MaxCiphertextBytes (λ x r, mkInfo (i_Version r) (i_API r) (i_DefaultTTLSeconds r) (i_MaxTTLSeconds r) x (i_LongPollMaxSeconds r) (i_AgentAuth r) (i_PageServed r) (i_PageVersion r) (i_PageSHA256 r));
   mkField int_codec B["long_poll_max_seconds"] never i_LongPollMaxSeconds (λ x r, mkInfo (i_Version r) (i_API r) (i_DefaultTTLSeconds r) (i_MaxTTLSeconds r) (i_MaxCiphertextBytes r) x (i_AgentAuth r) (i_PageServed r) (i_PageVersion r) (i_PageSHA256 r));
   mkField string_codec B["agent_auth"] never i_AgentAuth (λ x r, mkInfo (i_Version r) (i_API r) (i_DefaultTTLSeconds r) (i_MaxTTLSeconds r) (i_MaxCiphertextBytes r) (i_LongPollMaxSeconds r) x (i_PageServed r) (i_PageVersion r) (i_PageSHA256 r));
   mkField bool_codec B["page_served"] never i_PageServed (λ x r, mkInfo (i_Version r) (i_API r) (i_DefaultTTLSeconds r) (i_MaxTTLSeconds r) (i_MaxCiphertextBytes r) (i_LongPollMaxSeconds r) (i_AgentAuth r) x (i_PageVersion r) (i_PageSHA256 r));
   mkField string_codec B["page_version"] never i_PageVersion (λ x r, mkInfo (i_Version r) (i_API r) (i_DefaultTTLSeconds r) (i_MaxTTLSeconds r) (i_MaxCiphertextBytes r) (i_LongPollMaxSeconds r) (i_AgentAuth r) (i_PageServed r) x (i_PageSHA256 r));
   mkField string_codec B["page_sha256"] never i_PageSHA256 (λ x r, mkInfo (i_Version r) (i_API r) (i_DefaultTTLSeconds r) (i_MaxTTLSeconds r) (i_MaxCiphertextBytes r) (i_LongPollMaxSeconds r) (i_AgentAuth r) (i_PageServed r) (i_PageVersion r) x)].

Definition info_body : codec Info := struct_codec info_fields (mkInfo [] [] 0 0 0 0 [] false [] []).

(** [map[string]any] of strings and integers: the members in the order of their
    names. *)
Inductive any := AStr (s : bytes) | AInt (n : Z).

Definition any_json (a : any) : json := match a with AStr s => JStr (marshal_text s) | AInt n => JNum (Itoa n) end.

Definition marshal_map (l : list (string * any)) : bytes :=
  write_json (JObj ((λ x, (bs x.1, any_json x.2)) <$> sort_stable key_less l)).

(** The bodies of the calls. *)
Definition whole_seconds (d : Duration) : any := AInt (Z.quot d Second).

Definition createDrop_req (commitment : bytes) (ttl : Duration) : list (string * any) :=
  [("ttl_seconds", whole_seconds ttl); ("commitment", AStr commitment)].
Definition upload_req (id uploadToken commitment ciphertext : bytes) : list (string * any) :=
  [("drop_id", AStr id); ("upload_token", AStr uploadToken); ("commitment", AStr commitment);
   ("ciphertext", AStr (Base64.encode ciphertext))].
Definition status_req (id : bytes) (wait : Duration) (waitWhile : bytes) : list (string * any) :=
  [("drop_id", AStr id); ("wait_seconds", whole_seconds wait); ("wait_while", AStr waitWhile)].
Definition fetch_req (id fetchToken : bytes) : list (string * any) :=
  [("drop_id", AStr id); ("fetch_token", AStr fetchToken)].
Definition createReveal_req (ciphertext : bytes) (ttl : Duration) : list (string * any) :=
  [("ttl_seconds", whole_seconds ttl); ("ciphertext", AStr (Base64.encode ciphertext))].
Definition open_req (id revealToken : bytes) : list (string * any) :=
  [("drop_id", AStr id); ("reveal_token", AStr revealToken)].
Definition revoke_req (id token : bytes) : list (string * any) :=
  [("drop_id", AStr id); ("token", AStr token)].

(** * Calls *)

Section client.
Context {N : Type} `{World N}.

(** A call that may fail. *)
Definition call (A : Type) : Type := N → N * result client_error A.

#[global] Instance call_ret : MRet call := λ A a n, (n, Ok a).
#[global] Instance call_bind : MBind call := λ A B f m n,
  match m n with
  | (n', Ok a) => f a n'
  | (n', Err e) => (n', Err e)
  end.

Definition fail {A} (e : client_error) : call A := λ n, (n, Err e).

Definition decodeError (status : Z) (body : bytes) : client_error :=
  match Unmarshal error_body body (c_zero error_body) with
  | Some e =>
      if is_empty (text e 0) then ERelay (mkRelayError status (B["http_"] ++ Itoa status) [] [] zero_time)
      else ERelay (mkRelayError status (text e 0) (text e 1) (text e 2) (parseTime (text e 3)))
  | None => ERelay (mkRelayError status (B["http_"] ++ Itoa status) [] [] zero_time)
  end.

(** [do]: the body of a successful response; what follows the first megabyte
    is not read. *)
Definition do_request (req : HttpRequest) : call bytes := λ n,
  match http_do req n with
  | (n, inl e) => (n, Err (ETransport e))
  | (n, inr (_, inr e)) => (n, Err (ETransport e))
  | (n, inr (status, inl body)) =>
      let body := take (Z.to_nat maxResponse) body in
      if negb (Z.quot status 100 =? 2) then (n, Err (decodeError status body)) else (n, Ok body)
  end.

(** [json.Unmarshal(body, out)] *)
Definition unmarshal_into {A} (c : codec A) (body : bytes) : call A :=
  match Unmarshal c body (c_zero c) with Some out => mret out | None => fail EMalformed end.

Definition post_request (c : Client) (path : bytes) (body : list (string * any)) (auth : bool) : HttpRequest :=
  mkHttp B["POST"] (Origin c ++ path)
    ([(B["Content-Type"], B["application/json"]); (ClientHeader, cName c)] ++
     (if auth && negb (is_empty (APIKey c)) then [(B["Authorization"], B["Bearer "] ++ APIKey c)] else []))
    (marshal_map body).

Definition post (c : Client) (path : bytes) (body : list (string * any)) (auth : bool) : call bytes :=
  do_request (post_request c path body auth).

Definition CreateDrop (c : Client) (commitment : bytes) (ttl : Duration) : call DropCreated :=
  b ← post c B["/api/v1/drops"] (createDrop_req commitment ttl) true;
  out ← unmarshal_into created_body b;
  mret (mkDropCreated (text out 0) (text out 1) (text out 2) (parseTime (text out 3))).

Definition Upload (c : Client) (id uploadToken commitment ciphertext : bytes) : call unit :=
  _ ← post c B["/api/v1/drops/upload"]
        (upload_req id uploadToken commitment ciphertext) false;
  mret tt.

Definition status (c : Client) (path id : bytes) (wait : Duration) (waitWhile : bytes) : call Status :=
  let wait := if MaxWait <? wait then MaxWait else wait in
  b ← post c path (status_req id wait waitWhile) false;
  out ← unmarshal_into status_body b;
  mret (mkStatus (text out 0) (text out 1) (parseTime (text out 2)) (parseTime (text out 3)) (parseTime (text out 4))
          (parseTime (text out 5)) (parseTime (text out 6)) (parseTime (text out 7))).

Definition DropStatus (c : Client) : bytes → Duration → bytes → call Status := status c B["/api/v1/drops/status"].
Definition RevealStatus (c : Client) : bytes → Duration → bytes → call Status := status c B["/api/v1/reveals/status"].

Definition decode_ciphertext (s : bytes) : call bytes :=
  match Base64.decode s with Some ct => mret ct | None => fail EMalformed end.

Definition Fetch (c : Client) (id fetchToken : bytes) : call (bytes * Time) :=
  b ← post c B["/api/v1/drops/fetch"] (fetch_req id fetchToken) true;
  out ← unmarshal_into fetched_body b;
  ct ← decode_ciphertext (text out 0);
  mret (ct, parseTime (text out 1)).

Definition CreateReveal (c : Client) (ciphertext : bytes) (ttl : Duration) : call RevealCreated :=
  b ← post c B["/api/v1/reveals"] (createReveal_req ciphertext ttl) true;
  out ← unmarshal_into reveal_body b;
  mret (mkRevealCreated (text out 0) (text out 1) (text out 2) (parseTime (text out 3))).

Definition Open (c : Client) (id revealToken : bytes) : call (bytes * Time) :=
  b ← post c B["/api/v1/reveals/open"] (open_req id revealToken) false;
  out ← unmarshal_into opened_body b;
  ct ← decode_ciphertext (text out 0);
  mret (ct, parseTime (text out 1)).

Definition RevokeDrop (c : Client) (id token : bytes) : call unit :=
  _ ← post c B["/api/v1/drops/revoke"] (revoke_req id token) false; mret tt.

Definition RevokeReveal (c : Client) (id token : bytes) : call unit :=
  _ ← post c B["/api/v1/reveals/revoke"] (revoke_req id token) false; mret tt.

Definition Client_Info (c : Client) : call Info :=
  b ← do_request (mkHttp B["GET"] (Origin c ++ B["/api/v1/info"]) [(ClientHeader, cName c)] []);
  unmarshal_into info_body b.

(** The hash of the page, in hexadecimal. *)
Definition PageHash (c : Client) : call bytes := λ n,
  match http_do (mkHttp B["GET"] (Origin c ++ B["/drop"]) [] []) n with
  | (n, inl e) => (n, Err (ETransport e))
  | (n, inr (status, body)) =>
      if negb (status =? 200) then (n, Err (ERelay (mkRelayError status B["page_unavailable"] [] [] zero_time)))
      else match body with
           | inr e => (n, Err (ETransport e))
           | inl b => (n, Ok (hex_encode (sha256 (take (Z.to_nat 8388608) b))))
           end
  end.

(** ** Waiting *)

(** The call failed for a reason that waiting does not mend. *)
Definition final (err : client_error) : bool :=
  match err with ERelay e => (re_Status e <? 500) && negb (beq (re_Code e) CodeRateLimited) | _ => false end.

(** The loop: the last status seen, with the error that ended the wait.
    [None] is out of fuel. *)
Fixpoint waitWhile (fuel : nat) (poll : Duration → call Status) (state : bytes) (deadline : Time)
    (last : Status) (failures : Z) (n : N) : N * option (Status * option client_error) :=
  match fuel with
  | O => (n, None)
  | S fuel =>
      let '(n, now) := w_now n in
      let remaining := deadline - now in
      if remaining <=? 0 then (n, Some (last, Some EDeadline))
      else
        match poll (Z.min remaining MaxWait) n with
        | (n, Err err) =>
            match ctx_err n with
            | Some e => (n, Some (last, Some (ETransport e)))
            | None =>
                if final err then (n, Some (last, Some err))
                else
                  let failures := failures + 1 in
                  if 5 <? failures then (n, Some (last, Some err))
                  else
                    let n := w_sleep (failures * Second) n in
                    match ctx_err n with
                    | Some e => (n, Some (last, Some (ETransport e)))
                    | None => waitWhile fuel poll state deadline last failures n
                    end
            end
        | (n, Ok st) =>
            if beq (st_State st) state then waitWhile fuel poll state deadline st 0 n
            else (n, Some (st, None))
        end
  end.

Definition WaitForUpload (fuel : nat) (c : Client) (id : bytes) (deadline : Time) : N → N * option (Status * option client_error) :=
  waitWhile fuel (λ wait, DropStatus c id wait StateCreated) StateCreated deadline no_status 0.

Definition WaitForOpen (fuel : nat) (c : Client) (id : bytes) (deadline : Time) : N → N * option (Status * option client_error) :=
  waitWhile fuel (λ wait, RevealStatus c id wait StateCreated) StateCreated deadline no_status 0.
End client.

(** * Waiting

    The client's wait loop. *)

(** A clock that does not run backwards, and moves on during an exchange. *)
Class Ticking (N : Type) `{World N} := {
  clock : N → Time;
  now_reads n : (w_now n).2 = clock n;
  now_mono n : clock n <= clock (w_now n).1;
  sleep_mono d n : clock n <= clock (w_sleep d n);
  http_ticks r n : clock n + 1 <= clock (http_do r n).1;
}.

Section waiting.
Context {N : Type} `{Ticking N}.

Definition ticks {A} (m : call (N := N) A) : Prop := ∀ n, clock n + 1 <= clock (m n).1.
Definition steady {A} (m : call (N := N) A) : Prop := ∀ n, clock n <= clock (m n).1.

Lemma bind_ticks {A B} (m : call A) (f : A → call B) : ticks m → (∀ a, steady (f a)) → ticks (m ≫= f).
Proof.
  intros Hm Hf n. unfold mbind, call_bind. specialize (Hm n). destruct (m n) as [n' [a|e]]; simpl in *; [|done].
  specialize (Hf a n'). lia.
Qed.

Lemma bind_steady {A B} (m : call A) (f : A → call B) : steady m → (∀ a, steady (f a)) → steady (m ≫= f).
Proof.
  intros Hm Hf n. unfold mbind, call_bind. specialize (Hm n). destruct (m n) as [n' [a|e]]; simpl in *; [|done].
  specialize (Hf a n'). lia.
Qed.

Lemma ret_steady {A} (a : A) : steady (mret a).
Proof. intros n. simpl. lia. Qed.

Lemma do_request_ticks r : ticks (do_request r).
Proof.
  intros n. unfold do_request. pose proof (http_ticks r n). destruct (http_do r n) as [n' [e|[st [b|e]]]]; simpl in *; [done| |done].
  by destruct (negb _).
Qed.

Lemma unmarshal_steady {A} (c : JsonDoc.codec A) b : steady (unmarshal_into c b).
Proof. intros n. unfold unmarshal_into. case_match; simpl; lia. Qed.

Lemma status_ticks c path id wait w : ticks (status c path id wait w).
Proof.
  apply bind_ticks; [apply do_request_ticks|]. intros b. apply bind_steady; [apply unmarshal_steady|].
  intros out. apply ret_steady.
Qed.

(** The loop ends before its fuel does: every round moves the clock. *)
Lemma waitWhile_ends poll state deadline fuel last failures n :
  (∀ wait, ticks (poll wait)) → (Z.to_nat (deadline - clock n) < fuel)%nat →
  is_Some (waitWhile fuel poll state deadline last failures n).2.
Proof.
  intros Hpoll. revert last failures n. induction fuel as [|fuel IH]; intros last failures n Hf; [lia|].
  cbn [waitWhile]. pose proof (now_reads n) as Hr. pose proof (now_mono n) as Hm.
  destruct (w_now n) as [n1 now]. simpl in Hr, Hm. subst now.
  destruct (Z.leb_spec (deadline - clock n) 0); [simpl; eauto|].
  set (wait := Z.min _ _). pose proof (Hpoll wait n1) as Ht. destruct (poll wait n1) as [n2 [st|err]]; simpl in Ht.
  - destruct (beq _ _); [|simpl; eauto]. apply IH. lia.
  - destruct (ctx_err n2); [simpl; eauto|]. destruct (final err); [simpl; eauto|].
    destruct (5 <? failures + 1); [simpl; eauto|]. pose proof (sleep_mono ((failures + 1) * Second) n2).
    destruct (ctx_err _); [simpl; eauto|]. apply IH. lia.
Qed.

(** C36. Waiting for an upload ends: a round takes time, so as many rounds as the
    deadline is nanoseconds away are enough. *)
Theorem WaitForUpload_ends c id deadline fuel n :
  (Z.to_nat (deadline - clock n) < fuel)%nat → is_Some (WaitForUpload fuel c id deadline n).2.
Proof. apply waitWhile_ends. intros wait. apply status_ticks. Qed.
End waiting.

Section result.
Context {N : Type} `{World N}.

(** What a wait that ended can have ended with. *)
Lemma waitWhile_result poll state deadline fuel last failures (n n' : N) st err :
  waitWhile fuel poll state deadline last failures n = (n', Some (st, err)) →
  (last = no_status ∨ st_State last = state) →
  match err with
  | None => st_State st ≠ state ∧ ∃ wait m, 0 < wait <= MaxWait ∧ poll wait m = (n', Ok st)
  | Some e =>
      (st = no_status ∨ st_State st = state) ∧
      (e = EDeadline ∨ (∃ t, e = ETransport t) ∨ ∃ wait m, (poll wait m).2 = Err e)
  end.
Proof.
  revert last failures n. induction fuel as [|fuel IH]; intros last failures n Hw Hlast; [done|].
  cbn [waitWhile] in Hw. destruct (w_now n) as [n1 now].
  destruct (Z.leb_spec (deadline - now) 0); [injection Hw as <- <- <-; auto|].
  set (wait := Z.min _ _) in *. destruct (poll wait n1) as [n2 [st'|e]] eqn:Ep.
  - destruct (beq _ _) eqn:Eb.
    + apply IH in Hw; [done|]. right. by apply bool_decide_eq_true in Eb.
    + injection Hw as <- <- <-. apply bool_decide_eq_false in Eb. split; [done|]. exists wait, n1.
      split; [|done]. unfold wait, MaxWait, Second. lia.
  - assert (∃ wait m, (poll wait m).2 = Err e) as Hpoll by (exists wait, n1; by rewrite Ep).
    destruct (ctx_err n2); [injection Hw as <- <- <-; eauto|].
    destruct (final e); [injection Hw as <- <- <-; eauto|].
    destruct (5 <? failures + 1); [injection Hw as <- <- <-; eauto|].
    destruct (ctx_err _); [injection Hw as <- <- <-; eauto|]. by eapply IH.
Qed.

(** A wait for an upload ends well only with a status the relay gave that is
    not the created state; with an error it returns the created state or no
    status at all. *)
Lemma WaitForUpload_result fuel c id deadline (n n' : N) st err :
  WaitForUpload fuel c id deadline n = (n', Some (st, err)) →
  match err with
  | None => st_State st ≠ StateCreated ∧ ∃ wait m, 0 < wait <= MaxWait ∧ DropStatus c id wait StateCreated m = (n', Ok st)
  | Some e => st_State st = StateCreated ∨ st = no_status
  end.
Proof.
  intros Hw. apply waitWhile_result in Hw; [|by left]. destruct err; [|done]. naive_solver.
Qed.
End result.

(** A world that only has a clock, the network being down. *)
Definition down : World Time := {|
  http_do _ t := (t + 1, inl (mkTransport false));
  w_now t := (t, t);
  w_sleep d t := t + Z.max 0 d;
  ctx_err _ := None;
|}.

Definition down_ticks : @Ticking Time down.
Proof. refine {| clock t := t : Time |}; simpl; intros; try done; lia. Defined.

Lemma WaitForUpload_ends_witness :
  @WaitForUpload Time down 11 (mkClient B["https://r.example"] [] B["x"]) B["id"] 10 0 =
  (1 + Second + (1 + 2 * Second) * 0, Some (no_status, Some EDeadline)) ∧
  is_Some (@WaitForUpload Time down 11 (mkClient B["https://r.example"] [] B["x"]) B["id"] 10 0).2.
Proof.
  split; [vm_compute; reflexivity|].
  apply (@WaitForUpload_ends Time down down_ticks). vm_compute. lia.
Defined.
