(* ===== verification/Redact.v ===== *)
(** The redactor: internal/agent/redact.go. *)
From S2P Require Import Prelude Base64 GoSort GoStrings Json GoNet GoText.
From Stdlib Require Import Strings.Byte Sorting.Sorted.

Record redactForm := mkForm { f_name : bytes; f_bytes : bytes }.

Abbreviation Redactor := (list redactForm).

Definition minRedactLen : Z := 6.

Definition NewRedactor : Redactor := [].

(** The forms of a value: itself and its encodings. *)
Definition forms_of (value : bytes) : list bytes :=
  let js := MarshalString value in
  let trimmed := TrimSpace value in
  [value; StdEncode value; RawStdEncode value; URLEncode value; RawURLEncode value; HexEncode value;
   QueryEscape value; PathEscape value] ++
  (if 2 <? zlen js then [take (length js - 2) (drop 1 js)] else []) ++
  (if negb (zlen trimmed =? zlen value) && (0 <? zlen trimmed) then [trimmed] else []).

(** The loop over the forms; [seen] is what is registered so far. *)
Fixpoint add_forms (name : bytes) (forms : list bytes) (r : Redactor) : Redactor :=
  match forms with
  | [] => r
  | f :: forms =>
      if (zlen f <? minRedactLen) || bool_decide (f ∈ f_bytes <$> r) then add_forms name forms r
      else add_forms name forms (r ++ [mkForm name f])
  end.

Definition longer (a b : redactForm) : bool := zlen (f_bytes b) <? zlen (f_bytes a).

Definition Add (name value : bytes) (r : Redactor) : Redactor :=
  if zlen value <? minRedactLen then r
  else sort_stable longer (add_forms name (forms_of value) r).

Definition Remove (name : bytes) (r : Redactor) : Redactor := filter (λ f, f_name f ≠ name) r.

Definition marker (name : bytes) : bytes := B["[redacted:"] ++ name ++ B["]"].

Definition redact_one (out : bytes) (f : redactForm) : bytes :=
  if Contains out (f_bytes f) then ReplaceAll out (f_bytes f) (marker (f_name f)) else out.

Definition Redact (r : Redactor) (s : bytes) : bytes :=
  match r, s with
  | [], _ | _, [] => s
  | _, _ => foldl redact_one s r
  end.

Definition RedactBytes (r : Redactor) (b : bytes) : bytes := Redact r b.

Definition Count (r : Redactor) : Z := zlen r.

(** * The registered forms *)

(** Redactors that are made by adding and removing. *)
Inductive redactor_reaches : Redactor → Prop :=
  | rr_new : redactor_reaches NewRedactor
  | rr_add r name value : redactor_reaches r → redactor_reaches (Add name value r)
  | rr_remove r name : redactor_reaches r → redactor_reaches (Remove name r).

Definition long_enough (f : redactForm) : Prop := minRedactLen <= zlen (f_bytes f).

Lemma add_forms_app name forms r : ∃ new, add_forms name forms r = r ++ new ∧ Forall (λ f, f_name f = name) new.
Proof.
  revert r. induction forms as [|f forms IH]; intros r; simpl; [by exists []; rewrite app_nil_r|].
  case_match; [apply IH|]. destruct (IH (r ++ [mkForm name f])) as (new & -> & Hn).
  exists (mkForm name f :: new). rewrite <- app_assoc. split; [done|]. by constructor.
Qed.

Lemma add_forms_wf name forms r :
  NoDup (f_bytes <$> r) → Forall long_enough r →
  NoDup (f_bytes <$> add_forms name forms r) ∧ Forall long_enough (add_forms name forms r).
Proof.
  revert r. induction forms as [|f forms IH]; intros r Hnd Hl; simpl; [done|].
  destruct (_ || _) eqn:E; [by apply IH|]. breflect. apply IH.
  - rewrite fmap_app. apply NoDup_app. split; [done|]. split; [|apply NoDup_singleton].
    by intros x Hx ->%list_elem_of_singleton.
  - apply Forall_app. split; [done|]. constructor; [done|constructor].
Qed.

Lemma add_forms_has name forms r f :
  f ∈ forms → minRedactLen <= zlen f → f ∈ f_bytes <$> add_forms name forms r.
Proof.
  revert r. induction forms as [|g forms IH]; intros r; [by intros ?%elem_of_nil|]. simpl.
  intros [->|Hf]%elem_of_cons Hlen; [|case_match; by apply IH].
  destruct (Z.ltb_spec (zlen g) minRedactLen); [lia|]. simpl. case_bool_decide as Hin.
  - destruct (add_forms_app name forms r) as (new & -> & _). rewrite fmap_app, elem_of_app. by left.
  - destruct (add_forms_app name forms (r ++ [mkForm name g])) as (new & -> & _).
    rewrite !fmap_app, !elem_of_app. left. right. by left.
Qed.

Lemma longer_sorted l : StronglySorted (in_order longer) (sort_stable longer l).
Proof. apply sort_stable_sorted; unfold in_order, longer; intros *; rewrite ?Z.ltb_ge, ?Z.ltb_lt; lia. Qed.

Lemma Forall_filter {A} (Q P : A → Prop) `{∀ x, Decision (P x)} l : Forall Q l → Forall Q (filter P l).
Proof. rewrite !Forall_forall. intros HQ x [_ Hx]%list_elem_of_filter. auto. Qed.

Lemma StronglySorted_filter {A} (R : A → A → Prop) (P : A → Prop) `{∀ x, Decision (P x)} l :
  StronglySorted R l → StronglySorted R (filter P l).
Proof.
  induction 1 as [|x l Hl IH Hx]; [constructor|]. rewrite filter_cons. case_decide; [|done].
  constructor; [done|]. by apply Forall_filter.
Qed.

Lemma StronglySorted_mono {A} (R S : A → A → Prop) l :
  (∀ x y, R x y → S x y) → StronglySorted R l → StronglySorted S l.
Proof. intros HRS. induction 1; constructor; [done|]. eapply Forall_impl; eauto. Qed.

Lemma redactor_forms_ok r :
  redactor_reaches r →
  StronglySorted (λ f g, zlen (f_bytes g) <= zlen (f_bytes f)) r ∧ NoDup (f_bytes <$> r) ∧ Forall long_enough r.
Proof.
  intros Hr. enough (StronglySorted (in_order longer) r ∧ NoDup (f_bytes <$> r) ∧ Forall long_enough r) as (Hs & ? & ?).
  { split; [|done]. eapply StronglySorted_mono; [|exact Hs]. intros f g. unfold in_order, longer. rewrite Z.ltb_ge. lia. }
  induction Hr as [|r name value _ (Hs & Hnd & Hl)|r name _ (Hs & Hnd & Hl)].
  - split_and!; constructor.
  - unfold Add. case_match; [done|]. destruct (add_forms_wf name (forms_of value) r Hnd Hl) as [Hnd' Hl'].
    split; [apply longer_sorted|]. by rewrite !sort_stable_perm.
  - unfold Remove. split_and!; [by apply StronglySorted_filter| |by apply Forall_filter].
    induction r as [|f r IH]; [constructor|]. apply NoDup_cons in Hnd as [Hf Hnd].
    apply StronglySorted_inv in Hs as [Hs _]. apply Forall_cons in Hl as [_ Hl]. rewrite filter_cons.
    case_decide; [|auto]. simpl. apply NoDup_cons. split; [|auto].
    intros (g & Hg & [_ Hin]%list_elem_of_filter)%list_elem_of_fmap. apply Hf. rewrite Hg. by apply list_elem_of_fmap_2.
Qed.

(** RedactForms: The registry of the redactor stays in order: the longest form first, so
    that an encoding is replaced before a part of it is; no form twice; none
    so short that it would mask ordinary text. *)
Theorem redactor_forms r :
  redactor_reaches r →
  StronglySorted (λ f g, zlen (f_bytes g) <= zlen (f_bytes f)) r ∧ NoDup (f_bytes <$> r) ∧ Forall long_enough r.
Proof. apply redactor_forms_ok. Qed.

(** * What redacted text can contain *)

(** A form that no marker can be mistaken for: it has no bracket in it, and
    does not occur in what the brackets of a marker enclose. *)
Definition apart (r : Redactor) (p : bytes) : Prop :=
  x5b ∉ p ∧ x5d ∉ p ∧ ∀ g, g ∈ r → ¬ infix p (B["redacted:"] ++ f_name g).

Lemma redact_one_infix out g p :
  f_bytes g ≠ [] → x5b ∉ p → x5d ∉ p → ¬ infix p (B["redacted:"] ++ f_name g) → infix p (redact_one out g) →
  infix p out ∧ p ≠ f_bytes g.
Proof.
  intros Hg Hl Hr Hno. unfold redact_one. destruct (Contains out (f_bytes g)) eqn:Hc.
  - assert (marker (f_name g) = x5b :: (B["redacted:"] ++ f_name g) ++ [x5d]) as ->.
    { unfold marker. change B["[redacted:"] with (x5b :: B["redacted:"]). by rewrite <- !app_assoc. }
    intros [?|[Hin Hsub]]%ReplaceAll_infix; try done. split; [done|]. intros ->. by apply Hsub.
  - intros Hin. split; [done|]. intros ->. by apply Contains_false in Hc.
Qed.

Lemma redact_all (all r : Redactor) s p :
  Forall long_enough all → apart all p → r ⊆ all → infix p (foldl redact_one s r) →
  infix p s ∧ p ∉ f_bytes <$> r.
Proof.
  intros Hl Ha. revert s. induction r as [|g r IH]; intros s Hsub; simpl; [intros; split; [done|apply not_elem_of_nil]|].
  intros Hin. apply IH in Hin as [Hin Hnr]; [|set_solver]. destruct Ha as (H1 & H2 & H3).
  assert (g ∈ all) as Hg by set_solver.
  apply redact_one_infix in Hin as [Hin Hne]; [|..|by apply H3]; try done.
  - split; [done|]. by intros [?|?]%elem_of_cons.
  - eapply Forall_forall in Hl; [|exact Hg]. unfold long_enough in Hl. by intros E; rewrite E in Hl.
Qed.

(** A registered form is gone from what the redactor returns, whatever the
    other forms are. *)
Lemma registered_hidden r s f :
  redactor_reaches r → apart r f → f ∈ f_bytes <$> r → ¬ infix f (Redact r s).
Proof.
  intros Hr Ha Hin Hc. pose proof (redactor_forms_ok _ Hr) as (_ & _ & Hl).
  assert (infix f (foldl redact_one s r)) as Hc'.
  { unfold Redact in Hc. destruct r as [|g l]; [by apply elem_of_nil in Hin|]. destruct s; [|done].
    destruct Hc as (a & b & Hab). destruct a, f; try done.
    apply list_elem_of_fmap in Hin as (x & E & Hx). eapply Forall_forall in Hl; [|exact Hx].
    unfold long_enough in Hl. rewrite <- E in Hl. by vm_compute in Hl. }
  by apply (redact_all r) in Hc' as [_ ?].
Qed.

(** What [Add] registers stays registered with what was. *)
Lemma Add_registers r name value f :
  minRedactLen <= zlen value → f ∈ forms_of value → minRedactLen <= zlen f → f ∈ f_bytes <$> Add name value r.
Proof.
  intros Hlen Hf Hf6. unfold Add. destruct (Z.ltb_spec (zlen value) minRedactLen); [lia|].
  rewrite sort_stable_perm. by apply add_forms_has.
Qed.

Lemma Add_keeps r name value f : f ∈ f_bytes <$> r → f ∈ f_bytes <$> Add name value r.
Proof.
  intros Hf. unfold Add. destruct (_ <? _); [done|]. rewrite sort_stable_perm.
  destruct (add_forms_app name (forms_of value) r) as (new & -> & _). rewrite fmap_app, elem_of_app. by left.
Qed.

(** Once a value is registered, redacted text contains neither the value nor
    its base64, hexadecimal, URL or JSON forms of six bytes and more, nor any
    other registered form, whatever the text, unless the form can be mistaken
    for a part of a marker. *)
Theorem redact_hides r name value s f :
  redactor_reaches r → minRedactLen <= zlen value → apart (Add name value r) f →
  f ∈ forms_of value ∨ f ∈ f_bytes <$> r → minRedactLen <= zlen f →
  Contains (Redact (Add name value r) s) f = false.
Proof.
  intros Hr Hlen Ha Hf Hf6. apply Contains_false, registered_hidden; [by apply rr_add|done|].
  destruct Hf as [Hf|Hf]; [by apply Add_registers|by apply Add_keeps].
Qed.

(** RedactQuiet: Text in which no registered form occurs is left as it is. *)
Theorem redact_unchanged r s :
  redactor_reaches r → (∀ f, f ∈ r → Contains s (f_bytes f) = false) → Redact r s = s.
Proof.
  intros _ Hno. assert (foldl redact_one s r = s) as Hf.
  { induction r as [|g r IH]; [done|]. simpl. unfold redact_one at 2. rewrite Hno by by left.
    apply IH. intros f Hf. apply Hno. by right. }
  unfold Redact. by destruct r, s.
Qed.

(** * A concrete redactor *)

Definition sample_redactor : Redactor := Add B["db"] B["hunter22"] NewRedactor.

Lemma redactor_forms_witness : NoDup (f_bytes <$> sample_redactor) ∧ length sample_redactor = 4%nat.
Proof. split; [apply (redactor_forms sample_redactor); apply rr_add, rr_new|vm_compute; reflexivity]. Defined.

Lemma apart_check r p :
  bool_decide (x5b ∉ p) && bool_decide (x5d ∉ p) && forallb (λ g, negb (Contains (B["redacted:"] ++ f_name g) p)) r = true →
  apart r p.
Proof.
  intros Hall. breflect. split; [done|]. split; [done|]. intros g Hg. rewrite forallb_forall in H0.
  apply list_elem_of_In, H0 in Hg. breflect. by apply Contains_false.
Qed.

Lemma redact_hides_witness :
  Contains (Redact sample_redactor B["login hunter22 (68756e7465723232)"]) B["hunter22"] = false ∧
  Redact sample_redactor B["login hunter22 (68756e7465723232)"] = B["login [redacted:db] ([redacted:db])"].
Proof.
  split; [|vm_compute; reflexivity].
  apply (redact_hides NewRedactor B["db"] B["hunter22"]);
    [apply rr_new|discriminate|apply apart_check; vm_compute; reflexivity|left; left|discriminate].
Defined.

Lemma redact_unchanged_witness : Redact sample_redactor B["hello"] = B["hello"].
Proof.
  apply redact_unchanged; [apply rr_add, rr_new|].
  assert (Forall (λ f, Contains B["hello"] (f_bytes f) = false) sample_redactor) as Hall by (vm_compute; repeat constructor).
  intros f Hf. by eapply Forall_forall in Hall.
Defined.

(** RedactMarker: The condition on the markers is needed: a value that is part of a marker
    is still there after redaction. *)
Theorem redact_marker_leaks :
  Contains (Redact (Add B["k"] B["redacted"] NewRedactor) B["the value is redacted"]) B["redacted"] = true.
Proof. vm_compute. reflexivity. Qed.
