(* ===== verification/Agent.v ===== *)
(** The agent's flows: internal/agent/agent.go and the texts of
    internal/agent/messages.go.

    The state of a flow is the world (the network, the clock, the random
    source), the secret manager, the redactor, and the trail of the entries
    given to the audit log, whose errors are dropped ([Audit]). *)
From S2P Require Import Prelude GoStrings GoSort GoTime GoFloat GoText Json JsonDoc Crypto Envelope Secrets Manager.
From S2P Require Import AuditLog.
From S2P Require Tokens Base64 Link Client AgentConfig Redact.
From Stdlib Require Import Strings.Byte.

Import Client (World, w_now).

(** * Messages (messages.go) *)

Definition describeStorage (backend : bytes) : bytes :=
  if beq backend B["keychain"] then B["the OS keychain on the agent's machine"]
  else if beq backend B["agevault"] then B["an encrypted vault file on the agent's machine"]
  else if beq backend B["memory"] then B["the agent's process memory only"]
  else if beq backend B["dotenv"] then B["a .env file on the agent's machine"]
  else if beq backend B["onepassword"] then B["1Password"]
  else if beq backend B["bitwarden"] then B["Bitwarden"]
  else if beq backend B["vault"] then B["HashiCorp Vault"]
  else if beq backend B["infisical"] then B["Infisical"]
  else if beq backend B["doppler"] then B["Doppler"]
  else if beq backend B["aws"] then B["AWS Secrets Manager"]
  else if beq backend B["gcp"] then B["Google Secret Manager"]
  else if beq backend B["azure"] then B["Azure Key Vault"]
  else if beq backend [] then B["the configured storage"]
  else backend.

(** The layout [2006-01-02 15:04 UTC]. *)
Definition format_minute (t : Time) : bytes :=
  let secs := t / Second in
  let '(year, month, day) := civil (secs / 86400) in
  let s := secs mod 86400 in
  pad4 year ++ B["-"] ++ pad2 month ++ B["-"] ++ pad2 day ++ B[" "] ++
  pad2 (s / 3600) ++ B[":"] ++ pad2 (s / 60 mod 60) ++ B[" UTC"].

Definition describeRetention (retention : bytes) (expires : Time) : bytes :=
  if beq retention B["session"] then B["kept only until the agent process exits"]
  else if beq retention B["until-revoked"] then B["kept until deleted"]
  else if negb (IsZero expires) then B["kept until "] ++ format_minute expires
  else if HasPrefix retention B["until:"] then B["kept until "] ++ TrimPrefix retention B["until:"]
  else retention.

Definition line_break : bytes := [x0a; x0a].

(** * Records *)

Record pendingRecord := mkPending {
  pr_V : Z;
  pr_DropID : bytes;
  pr_FetchToken : bytes;
  pr_UploadToken : bytes;
  pr_PrivateKey : option bytes;
  pr_PublicKey : option bytes;
  pr_Name : string;
  pr_Purpose : bytes;
  pr_Retention : bytes;
  pr_Storage : bytes;
  pr_Sendable : bool;
  pr_Fingerprint : bytes;
  pr_CreatedAt : Time;
  pr_ExpiresAt : Time;
}.

Record sentRecord := mkSent {
  sr_V : Z;
  sr_DropID : bytes;
  sr_RevokeToken : bytes;
  sr_Name : string;
  sr_CreatedAt : Time;
  sr_ExpiresAt : Time;
}.

Definition pending_fields : list (field pendingRecord) :=
  [mkField int_codec B["v"] never pr_V (λ x r, mkPending x (pr_DropID r) (pr_FetchToken r) (pr_UploadToken r) (pr_PrivateKey r) (pr_PublicKey r) (pr_Name r) (pr_Purpose r) (pr_Retention r) (pr_Storage r) (pr_Sendable r) (pr_Fingerprint r) (pr_CreatedAt r) (pr_ExpiresAt r));
   mkField string_codec B["drop_id"] never pr_DropID (λ x r, mkPending (pr_V r) x (pr_FetchToken r) (pr_UploadToken r) (pr_PrivateKey r) (pr_PublicKey r) (pr_Name r) (pr_Purpose r) (pr_Retention r) (pr_Storage r) (pr_Sendable r) (pr_Fingerprint r) (pr_CreatedAt r) (pr_ExpiresAt r));
   mkField string_codec B["fetch_token"] never pr_FetchToken (λ x r, mkPending (pr_V r) (pr_DropID r) x (pr_UploadToken r) (pr_PrivateKey r) (pr_PublicKey r) (pr_Name r) (pr_Purpose r) (pr_Retention r) (pr_Storage r) (pr_Sendable r) (pr_Fingerprint r) (pr_CreatedAt r) (pr_ExpiresAt r));
   mkField string_codec B["upload_token"] never pr_UploadToken (λ x r, mkPending (pr_V r) (pr_DropID r) (pr_FetchToken r) x (pr_PrivateKey r) (pr_PublicKey r) (pr_Name r) (pr_Purpose r) (pr_Retention r) (pr_Storage r) (pr_Sendable r) (pr_Fingerprint r) (pr_CreatedAt r) (pr_ExpiresAt r));
   mkField bytes_codec B["private_key"] never pr_PrivateKey (λ x r, mkPending (pr_V r) (pr_DropID r) (pr_FetchToken r) (pr_UploadToken r) x (pr_PublicKey r) (pr_Name r) (pr_Purpose r) (pr_Retention r) (pr_Storage r) (pr_Sendable r) (pr_Fingerprint r) (pr_CreatedAt r) (pr_ExpiresAt r));
   mkField bytes_codec B["public_key"] never pr_PublicKey (λ x r, mkPending (pr_V r) (pr_DropID r) (pr_FetchToken r) (pr_UploadToken r) (pr_PrivateKey r) x (pr_Name r) (pr_Purpose r) (pr_Retention r) (pr_Storage r) (pr_Sendable r) (pr_Fingerprint r) (pr_CreatedAt r) (pr_ExpiresAt r));
   mkField name_codec B["name"] never pr_Name (λ x r, mkPending (pr_V r) (pr_DropID r) (pr_FetchToken r) (pr_UploadToken r) (pr_PrivateKey r) (pr_PublicKey r) x (pr_Purpose r) (pr_Retention r) (pr_Storage r) (pr_Sendable r) (pr_Fingerprint r) (pr_CreatedAt r) (pr_ExpiresAt r));
   mkField string_codec B["purpose"] never pr_Purpose (λ x r, mkPending (pr_V r) (pr_DropID r) (pr_FetchToken r) (pr_UploadToken r) (pr_PrivateKey r) (pr_PublicKey r) (pr_Name r) x (pr_Retention r) (pr_Storage r) (pr_Sendable r) (pr_Fingerprint r) (pr_CreatedAt r) (pr_ExpiresAt r));
   mkField string_codec B["retention"] never pr_Retention (λ x r, mkPending (pr_V r) (pr_DropID r) (pr_FetchToken r) (pr_UploadToken r) (pr_PrivateKey r) (pr_PublicKey r) (pr_Name r) (pr_Purpose r) x (pr_Storage r) (pr_Sendable r) (pr_Fingerprint r) (pr_CreatedAt r) (pr_ExpiresAt r));
   mkField string_codec B["storage"] never pr_Storage (λ x r, mkPending (pr_V r) (pr_DropID r) (pr_FetchToken r) (pr_UploadToken r) (pr_PrivateKey r) (pr_PublicKey r) (pr_Name r) (pr_Purpose r) (pr_Retention r) x (pr_Sendable r) (pr_Fingerprint r) (pr_CreatedAt r) (pr_ExpiresAt r));
   mkField bool_codec B["sendable"] never pr_Sendable (λ x r, mkPending (pr_V r) (pr_DropID r) (pr_FetchToken r) (pr_UploadToken r) (pr_PrivateKey r) (pr_PublicKey r) (pr_Name r) (pr_Purpose r) (pr_Retention r) (pr_Storage r) x (pr_Fingerprint r) (pr_CreatedAt r) (pr_ExpiresAt r));
   mkField string_codec B["fingerprint"] never pr_Fingerprint (λ x r, mkPending (pr_V r) (pr_DropID r) (pr_FetchToken r) (pr_UploadToken r) (pr_PrivateKey r) (pr_PublicKey r) (pr_Name r) (pr_Purpose r) (pr_Retention r) (pr_Storage r) (pr_Sendable r) x (pr_CreatedAt r) (pr_ExpiresAt r));
   mkField time_codec B["created_at"] never pr_CreatedAt (λ x r, mkPending (pr_V r) (pr_DropID r) (pr_FetchToken r) (pr_UploadToken r) (pr_PrivateKey r) (pr_PublicKey r) (pr_Name r) (pr_Purpose r) (pr_Retention r) (pr_Storage r) (pr_Sendable r) (pr_Fingerprint r) x (pr_ExpiresAt r));
   mkField time_codec B["expires_at"] never pr_ExpiresAt (λ x r, mkPending (pr_V r) (pr_DropID r) (pr_FetchToken r) (pr_UploadToken r) (pr_PrivateKey r) (pr_PublicKey r) (pr_Name r) (pr_Purpose r) (pr_Retention r) (pr_Storage r) (pr_Sendable r) (pr_Fingerprint r) (pr_CreatedAt r) x)].

Definition sent_fields : list (field sentRecord) :=
  [mkField int_codec B["v"] never sr_V (λ x r, mkSent x (sr_DropID r) (sr_RevokeToken r) (sr_Name r) (sr_CreatedAt r) (sr_ExpiresAt r));
   mkField string_codec B["drop_id"] never sr_DropID (λ x r, mkSent (sr_V r) x (sr_RevokeToken r) (sr_Name r) (sr_CreatedAt r) (sr_ExpiresAt r));
   mkField string_codec B["revoke_token"] never sr_RevokeToken (λ x r, mkSent (sr_V r) (sr_DropID r) x (sr_Name r) (sr_CreatedAt r) (sr_ExpiresAt r));
   mkField name_codec B["name"] never sr_Name (λ x r, mkSent (sr_V r) (sr_DropID r) (sr_RevokeToken r) x (sr_CreatedAt r) (sr_ExpiresAt r));
   mkField time_codec B["created_at"] never sr_CreatedAt (λ x r, mkSent (sr_V r) (sr_DropID r) (sr_RevokeToken r) (sr_Name r) x (sr_ExpiresAt r));
   mkField time_codec B["expires_at"] never sr_ExpiresAt (λ x r, mkSent (sr_V r) (sr_DropID r) (sr_RevokeToken r) (sr_Name r) (sr_CreatedAt r) x)].

Definition zero_pending : pendingRecord := mkPending 0 [] [] [] None None "" [] [] [] false [] zero_time zero_time.
Definition zero_sent : sentRecord := mkSent 0 [] [] "" zero_time zero_time.

Definition pending_codec : codec pendingRecord := struct_codec pending_fields zero_pending.
Definition sent_codec : codec sentRecord := struct_codec sent_fields zero_sent.

Definition pendingPrefix : string := "pending.".
Definition sentPrefix : string := "sent.".
Definition pendingName (dropID : bytes) : string := pendingPrefix +:+ sb dropID.
Definition sentName (dropID : bytes) : string := sentPrefix +:+ sb dropID.

Definition isInternalName (name : string) : bool :=
  HasPrefix (bs name) (bs pendingPrefix) || HasPrefix (bs name) (bs sentPrefix).

Definition isInternalKind (kind : bytes) : bool := beq kind KindPending || beq kind KindSent.

Definition DeliveryNote : bytes :=
  B["Deliver this only to the human you are working for, through the channel you already use with them (this chat, or their email, Telegram, Slack, or wherever they read you). Any channel can carry the link, but it must reach only that person: never a group, ticket, file, commit, log, or web page, and never anyone else. If it reached the wrong person, revoke it at once with this request_id (revoke_request, or burndrop revoke)."].

(** ** Inputs and outputs *)

Record RequestInput := mkRequestInput {
  ri_Name : string; ri_Purpose : bytes; ri_Retention : bytes; ri_Sendable : bool; ri_TTL : bytes
}.

Record RequestOutput := mkRequestOutput {
  ro_RequestID : bytes; ro_Link : bytes; ro_Fingerprint : bytes; ro_ExpiresAt : Time; ro_Storage : bytes;
  ro_Retention : bytes; ro_Message : bytes; ro_Delivery : bytes
}.

Record PendingRequest := mkPendingRequest {
  pq_RequestID : bytes; pq_Name : string; pq_Purpose : bytes; pq_Fingerprint : bytes; pq_Retention : bytes;
  pq_Storage : bytes; pq_CreatedAt : Time; pq_ExpiresAt : Time
}.

Record FetchInput := mkFetchInput { fi_RequestID : bytes; fi_WaitSeconds : Z }.

Inductive fetch_status := StatusWaiting | StatusStored | StatusExpired | StatusRevoked | StatusRejected | StatusGone.

Record FetchOutput := mkFetchOutput {
  fo_Status : fetch_status; fo_RequestID : bytes; fo_Name : string; fo_Storage : bytes; fo_Retention : bytes;
  fo_Fingerprint : bytes; fo_SizeBytes : Z; fo_ExpiresAt : Time; fo_Message : bytes
}.

Record SendInput := mkSendInput { si_Name : string; si_TTL : bytes; si_DeleteAfter : bool }.

Record SendOutput := mkSendOutput {
  so_RequestID : bytes; so_Link : bytes; so_ExpiresAt : Time; so_KeepsCopy : bool; so_PasswordProtected : bool;
  so_Message : bytes; so_Delivery : bytes
}.

Definition MaxFetchWait : Duration := 300 * Second.

Definition requestMessage (out : RequestOutput) (input : RequestInput) : bytes :=
  B["Please share "] ++ bs (ri_Name input) ++ B[" using this one-time secure link: "] ++ ro_Link out ++ line_break ++
  B["What it is for: "] ++ ri_Purpose input ++ [x0a] ++
  B["Where it will be stored: "] ++ describeStorage (ro_Storage out) ++ B[" ("] ++
  describeRetention (ro_Retention out) zero_time ++ B[")."] ++ [x0a] ++
  B["The link works once and expires at "] ++ format_minute (ro_ExpiresAt out) ++
  B[". Before submitting, check that the page shows fingerprint "] ++ ro_Fingerprint out ++
  B[". The secret is encrypted in your browser and only this agent can decrypt it; the relay never sees it. I will never see the value itself."].

Definition sendMessage (out : SendOutput) (name : string) : bytes :=
  B["Here is "] ++ bs name ++ B[": "] ++ so_Link out ++ line_break ++
  B["The link reveals the value once, after you press the button on the page, and then it is gone."] ++
  (if so_PasswordProtected out then B[" The page asks for your reveal password before it shows the value."] else []) ++
  B[" It expires at "] ++ format_minute (so_ExpiresAt out) ++ B[". "] ++
  (if so_KeepsCopy out then B["I keep my copy of it."] else B["I have deleted my copy of it."]) ++
  B[" Copy the value somewhere safe before closing the page."].

(** ** Errors *)

Inductive agent_error :=
  | ErrNotSendable | ErrNoPending | ErrAmbiguous | ErrNoRevealPassword
  | EStorage (e : storage_error) | ECrypto (e : Tokens.crypto_error) | EClient (e : Client.client_error) | ELink
  | EConfig (e : AgentConfig.config_error)
  | EPurpose (* the purpose is missing *)
  | EDuration (* no positive duration *)
  | ECorrupt (* a record that is not one *)
  | ESave (e : storage_error) (* a record could not be saved *)
  | ELost (e : storage_error) (* the secret was received and could not be stored *)
  | EPassword (* the source of the reveal password failed *)
  | ESecret (* a submission whose value is not the base64 it says it is *)
  | EState (* an unexpected relay state *)
  | ErrNotAllowed (* the program is not on the list *)
  | ECommand (* no program *)
  | EPattern (* the capture pattern is not one, or has not one group *)
  | EEnvName (* not the name of an environment variable *)
  | EStart (text : bytes) (* the program could not be started *)
  | ECapture (e : storage_error) (* the captured output could not be stored *)
  | EFuel (* the model's wait loop has run out of fuel *).

(** The random source and the source of the reveal password. *)
Class AgentWorld (N : Type) := {
  agent_net :: World N;
  w_random : N → N * reader;
  w_password : N → N * option bytes; (* [None]: it failed *)
}.

(** What [err.Error()] says; the texts themselves are not modelled. *)
Class ErrorText := { error_text : agent_error → bytes }.

(** Entries of the audit log, before they are stamped. *)
Definition entry (event : bytes) (name : string) (id result detail : bytes) (fields : list (string * bytes)) : Event :=
  mkEvent zero_time event (bs name) id result detail (list_to_map fields).

Definition format_bool (b : bool) : bytes := if b then B["true"] else B["false"].

Definition status_text (st : fetch_status) : bytes :=
  match st with
  | StatusWaiting => B["waiting"] | StatusStored => B["stored"] | StatusExpired => B["expired"]
  | StatusRevoked => B["revoked"] | StatusRejected => B["rejected"] | StatusGone => B["gone"]
  end.

(** * The agent *)

Section agent.
Context {T : Type} `{Backend T} {N : Type} `{!AgentWorld N} `{Primitives} `{Unicode} `{ErrorText}.

Record Agent := mkAgent {
  a_Config : AgentConfig.Config;
  a_Relay : Client.Client;
  a_PageOrigin : bytes;
  a_HasPassword : bool; (* [PasswordSource] is not nil *)
}.

Definition New (cfg : AgentConfig.Config) (relay : Client.Client) (password : bool) : Agent :=
  let page := AgentConfig.PageOrigin cfg in
  mkAgent cfg relay
    (if is_empty page then Client.Origin relay
     else match Link.NormalizeOrigin page with Ok p => p | Err _ => page end)
    password.

Record State := mkState { net : N; secrets : Manager T; redactor : Redact.Redactor; trail : list Event }.

Definition flow (A : Type) : Type := State → State * result agent_error A.

#[global] Instance flow_ret : MRet flow := λ A a s, (s, Ok a).
#[global] Instance flow_bind : MBind flow := λ A B f m s,
  match m s with
  | (s', Ok a) => f a s'
  | (s', Err e) => (s', Err e)
  end.

Definition throw {A} (e : agent_error) : flow A := λ s, (s, Err e).

(** What a call came to, its error a value: for [if err := ...; ...]. *)
Definition try {A} (m : flow A) : flow (result agent_error A) := λ s, let '(s, r) := m s in (s, Ok r).

Definition lift {E A} (f : E → agent_error) (r : result E A) : flow A :=
  match r with Ok a => mret a | Err e => throw (f e) end.

Definition with_net {A} (f : N → N * A) : flow A := λ s,
  let '(n, a) := f (net s) in (mkState n (secrets s) (redactor s) (trail s), Ok a).

Definition relay_call {A} (f : Client.call (N := N) A) : flow A := r ← with_net f; lift EClient r.

Definition on_store {A} (f : Manager T → Manager T * result storage_error A) : flow (result storage_error A) := λ s,
  let '(m, a) := f (secrets s) in (mkState (net s) m (redactor s) (trail s), Ok a).

Definition Now : flow Time := with_net w_now.
Definition random : flow reader := with_net w_random.

Definition redact_add (name : string) (value : bytes) : flow unit := λ s,
  (mkState (net s) (secrets s) (Redact.Add (bs name) value (redactor s)) (trail s), Ok tt).
Definition redact_remove (name : string) : flow unit := λ s,
  (mkState (net s) (secrets s) (Redact.Remove (bs name) (redactor s)) (trail s), Ok tt).
Definition redacted (text : bytes) : flow bytes := λ s, (s, Ok (Redact.Redact (redactor s) text)).

Definition log (e : Event) : flow unit := λ s, (mkState (net s) (secrets s) (redactor s) (trail s ++ [e]), Ok tt).

Definition safeErr (e : agent_error) : flow bytes := redacted (error_text e).

(** A failure is logged and then returned. *)
Definition noting {A} (event : bytes) (name : string) (id result : bytes) (e : agent_error) : flow A :=
  detail ← safeErr e; _ ← log (entry event name id result detail []); throw e.

(** A call to the relay; its error is logged. *)
Definition relay_noting {A} (event : bytes) (name : string) (f : Client.call (N := N) A) : flow A :=
  res ← try (relay_call f);
  match res with Ok x => mret x | Err e => noting event name [] B["relay_error"] e end.

(** The manager, with its own readings of the clock. *)
Definition store_put (name : string) (value : bytes) (meta : Metadata) : flow (result storage_error Metadata) :=
  now ← Now; on_store (Manager_Put now name value meta).
Definition store_get (name : string) : flow (result storage_error (bytes * Metadata)) :=
  now ← Now; on_store (Manager_Get now name).
Definition store_stat (name : string) : flow (result storage_error Metadata) :=
  now ← Now; on_store (Manager_Stat now name).
Definition store_list : flow (result storage_error (list Metadata)) := now ← Now; on_store (Manager_List now).
Definition store_delete (name : string) : flow (result storage_error unit) := on_store (Manager_Delete name).

Context (a : Agent).

Definition ttl (s : bytes) : flow Duration :=
  if is_empty s then lift EConfig (AgentConfig.TTL (a_Config a))
  else match ParseDuration s with
       | Some d => if d <=? 0 then throw EDuration else mret d
       | None => throw EDuration
       end.

(** ** Records in the store *)

(** The retention of a record that goes with the link. *)
Definition record_retention (expires : Time) : flow bytes :=
  now ← Now;
  mret (if negb (After expires (Add now Second)) then RetentionSession
        else RetentionUntilPrefix ++ Format_RFC3339 expires).

Definition record_meta (retention purpose source kind fingerprint : bytes) : Metadata :=
  mkMetadata "" [] retention zero_time zero_time purpose source false fingerprint 0 kind.

Definition savePending (rec : pendingRecord) : flow (result storage_error unit) :=
  match Marshal pending_codec rec with
  | None => mret (Err ErrOther)
  | Some b =>
      retention ← record_retention (pr_ExpiresAt rec);
      res ← store_put (pendingName (pr_DropID rec)) b
              (record_meta retention (pr_Purpose rec) SourceDrop KindPending (pr_Fingerprint rec));
      mret (_ ← res; Ok tt)
  end.

Definition saveSent (rec : sentRecord) : flow (result storage_error unit) :=
  match Marshal sent_codec rec with
  | None => mret (Err ErrOther)
  | Some b =>
      retention ← record_retention (sr_ExpiresAt rec);
      res ← store_put (sentName (sr_DropID rec)) b (record_meta retention [] SourceCapture KindSent []);
      mret (_ ← res; Ok tt)
  end.

(** [loadPending] and [loadSent]. *)
Definition load_record {R} (c : codec R) (version : R → Z) (name : bytes → string) (dropID : bytes) : flow R :=
  if negb (Tokens.ValidToken (sb dropID)) then throw ErrNoPending
  else
    res ← store_get (name dropID);
    match res with
    | Err ErrNotFound => throw ErrNoPending
    | Err e => throw (EStorage e)
    | Ok (b, _) =>
        match Unmarshal c b (c_zero c) with
        | Some rec => if version rec =? 1 then mret rec else throw ECorrupt
        | None => throw ECorrupt
        end
    end.

Definition loadPending (dropID : bytes) : flow pendingRecord := load_record pending_codec pr_V pendingName dropID.
Definition loadSent (dropID : bytes) : flow sentRecord := load_record sent_codec sr_V sentName dropID.

Definition deletePending (dropID : bytes) : flow unit := _ ← store_delete (pendingName dropID); mret tt.
Definition deleteSent (dropID : bytes) : flow unit := _ ← store_delete (sentName dropID); mret tt.

(** ** Asking for a secret *)

(** [_ = a.Relay.RevokeDrop(...)] *)
Definition abandon (id token : bytes) : flow unit := _ ← try (relay_call (Client.RevokeDrop (a_Relay a) id token)); mret tt.

Definition link_relay : bytes := if beq (Client.Origin (a_Relay a)) (a_PageOrigin a) then [] else Client.Origin (a_Relay a).

Definition request_retention (input : RequestInput) : bytes :=
  if is_empty (ri_Retention input) then AgentConfig.Retention (a_Config a) else ri_Retention input.

Definition request_storage (retention : bytes) : bytes := if beq retention RetentionSession then B["memory"] else b_Name.

(** What the link carries, and what the agent keeps. *)
Definition request_link (input : RequestInput) (created : Client.DropCreated) (pub : bytes) : Link.Drop :=
  let retention := request_retention input in
  Link.mkDrop link_relay (Client.dc_ID created) (Client.dc_UploadToken created) pub (bs (ri_Name input)) (ri_Purpose input)
    (describeStorage (request_storage retention)) retention.

Definition request_record (input : RequestInput) (created : Client.DropCreated) (pub priv : bytes) (now : Time) : pendingRecord :=
  let retention := request_retention input in
  mkPending 1 (Client.dc_ID created) (Client.dc_FetchToken created) (Client.dc_UploadToken created) (Some priv) (Some pub)
    (ri_Name input) (ri_Purpose input) retention (request_storage retention) (ri_Sendable input)
    (bs (Tokens.Fingerprint pub)) now (Client.dc_ExpiresAt created).

Definition request_output (rec : pendingRecord) (url message delivery : bytes) : RequestOutput :=
  mkRequestOutput (pr_DropID rec) url (pr_Fingerprint rec) (pr_ExpiresAt rec) (pr_Storage rec) (pr_Retention rec) message delivery.

Definition Request (input : RequestInput) : flow RequestOutput :=
  _ ← lift EStorage (Secrets.ValidateName (ri_Name input));
  _ ← lift ECrypto (ValidateText (ri_Purpose input));
  if is_empty (TrimSpace (ri_Purpose input)) then throw EPurpose
  else
    now ← Now;
    _ ← lift EStorage (ParseRetention (request_retention input) now);
    lifetime ← ttl (ri_TTL input);
    r ← random;
    '(pub, priv) ← lift ECrypto (GenerateKeyPair r);
    created ← relay_noting B["request_secret"] (ri_Name input) (Client.CreateDrop (a_Relay a) (bs (Tokens.Commitment pub)) lifetime);
    match Link.Drop_Build (request_link input created pub) (a_PageOrigin a) with
    | Err _ => _ ← abandon (Client.dc_ID created) (Client.dc_UploadToken created); throw ELink
    | Ok url =>
        let rec := request_record input created pub priv now in
        saved ← savePending rec;
        match saved with
        | Err e => _ ← abandon (Client.dc_ID created) (Client.dc_UploadToken created); throw (ESave e)
        | Ok _ =>
            _ ← log (entry B["request_secret"] (ri_Name input) (Client.dc_ID created) B["created"] []
                      [("fingerprint", pr_Fingerprint rec); ("retention", pr_Retention rec); ("storage", pr_Storage rec);
                       ("expires_at", Format_RFC3339 (Client.dc_ExpiresAt created))]);
            let message := requestMessage (request_output rec url [] []) input in
            mret (request_output rec url message DeliveryNote)
        end
    end.

(** ** Outstanding requests *)

Fixpoint load_pending_all (l : list Metadata) : flow (list PendingRequest) :=
  match l with
  | [] => mret []
  | m :: l =>
      if negb (beq (mKind m) KindPending) then load_pending_all l
      else
        res ← try (loadPending (TrimPrefix (bs (Name m)) (bs pendingPrefix)));
        rest ← load_pending_all l;
        mret (match res with
              | Err _ => rest
              | Ok rec =>
                  mkPendingRequest (pr_DropID rec) (pr_Name rec) (pr_Purpose rec) (pr_Fingerprint rec) (pr_Retention rec)
                    (pr_Storage rec) (pr_CreatedAt rec) (pr_ExpiresAt rec) :: rest
              end)
  end.

Definition older (p q : PendingRequest) : bool := Before (pq_CreatedAt p) (pq_CreatedAt q).

(** Requests made at the same instant, whose order [sort.Slice] leaves open,
    stay as the store lists them. *)
Definition Pending : flow (list PendingRequest) :=
  res ← store_list;
  all ← lift EStorage res;
  out ← load_pending_all all;
  mret (sort_stable older out).

(** ** Fetching *)

Definition fetched (rec : pendingRecord) (status : fetch_status) (message : bytes) : FetchOutput :=
  mkFetchOutput status (pr_DropID rec) (pr_Name rec) (pr_Storage rec) (pr_Retention rec) (pr_Fingerprint rec) 0
    (pr_ExpiresAt rec) message.

(** A fetch that has come to its end. *)
Definition note_fetch (rec : pendingRecord) (result detail : bytes) (fields : list (string * bytes)) : flow unit :=
  log (entry B["fetch_secret"] (pr_Name rec) (pr_DropID rec) result detail fields).

Definition fetch_over (rec : pendingRecord) (status : fetch_status) (detail message : bytes) : flow FetchOutput :=
  _ ← deletePending (pr_DropID rec);
  _ ← note_fetch rec (status_text status) detail [];
  mret (fetched rec status message).

(** What of the envelope differs from the request. *)
Definition checkEnvelope (env : Envelope) (rec : pendingRecord) : option bytes :=
  if negb (beq (eType env) TypeDrop) then Some B["the envelope is not a drop"]
  else if negb (beq (eName env) (bs (pr_Name rec))) then Some B["the secret name in the submission does not match the request"]
  else if negb (is_empty (eFingerprint env)) && negb (beq (eFingerprint env) (pr_Fingerprint rec)) then
    Some B["the fingerprint shown to the human does not match this request"]
  else if negb (beq (eRetention env) (pr_Retention rec)) then
    Some B["the retention shown to the human does not match the request"]
  else if negb (beq (ePurpose env) (pr_Purpose rec)) then
    Some B["the purpose shown to the human does not match the request"]
  else if negb (beq (eStorage env) (describeStorage (pr_Storage rec))) then
    Some B["the storage description shown to the human does not match the request"]
  else None.

Definition drop_meta (rec : pendingRecord) : Metadata :=
  mkMetadata "" [] (pr_Retention rec) zero_time zero_time (pr_Purpose rec) SourceDrop (pr_Sendable rec) (pr_Fingerprint rec) 0 [].

Definition fetchUploaded (rec : pendingRecord) : flow FetchOutput :=
  res ← try (relay_call (Client.Fetch (a_Relay a) (pr_DropID rec) (pr_FetchToken rec)));
  match res with
  | Err e =>
      match e with
      | EClient ce =>
          if Client.IsCode ce Client.CodeGone then
            fetch_over rec StatusGone [] B["The submission was fetched by someone else before this agent could. Treat the secret as exposed and ask the human to rotate it."]
          else throw e
      | _ => throw e
      end
  | Ok (ct, _) =>
      pub ← lift ECrypto (KeyFromBytes (default [] (pr_PublicKey rec)));
      priv ← lift ECrypto (KeyFromBytes (default [] (pr_PrivateKey rec)));
      match OpenEnvelope pub priv ct with
      | Err _ =>
          fetch_over rec StatusRejected B["decrypt failed"] B["The submission could not be decrypted with this request's key. The relay or the page may have been tampered with. Ask the human to try again with a fresh link and to compare fingerprints."]
      | Ok env =>
          match checkEnvelope env rec with
          | Some reason =>
              fetch_over rec StatusRejected reason
                (B["The submission was rejected: "] ++ reason ++ B[". Ask the human to try again with a fresh link."])
          | None =>
              match SecretBytes env with
              | None => throw ESecret
              | Some value =>
                  stored ← store_put (pr_Name rec) value (drop_meta rec);
                  match stored with
                  | Err e =>
                      detail ← safeErr (EStorage e);
                      _ ← note_fetch rec B["store_failed"] detail [];
                      throw (ELost e)
                  | Ok meta =>
                      _ ← redact_add (pr_Name rec) value;
                      _ ← deletePending (pr_DropID rec);
                      _ ← note_fetch rec (status_text StatusStored) []
                            [("backend", BackendName meta); ("size_bytes", Itoa (SizeBytes meta))];
                      mret (mkFetchOutput StatusStored (pr_DropID rec) (pr_Name rec) (BackendName meta) (pr_Retention rec)
                        (pr_Fingerprint rec) (SizeBytes meta) (pr_ExpiresAt rec)
                        (B["Stored "] ++ bs (pr_Name rec) ++ B[" in "] ++ describeStorage (BackendName meta) ++ B[" ("] ++
                         describeRetention (Secrets.Retention meta) (ExpiresAt meta) ++
                         B["). Use it with run_with_secret; its value is never shown."]))
                  end
              end
          end
      end
  end.

(** The request to fetch: the one given, or the only one. *)
Definition fetch_id (input : FetchInput) : flow bytes :=
  if is_empty (fi_RequestID input) then
    pending ← Pending;
    match pending with
    | [] => throw ErrNoPending
    | [p] => mret (pq_RequestID p)
    | _ => throw ErrAmbiguous
    end
  else mret (fi_RequestID input).

Definition fetch_wait (n : Z) : Duration :=
  let wait := if n =? 0 then 30 * Second else seconds n in
  if MaxFetchWait <? wait then MaxFetchWait else wait.

(** The wait for the upload; [fuel] bounds the rounds of the client's loop. *)
Definition await_upload (fuel : nat) (rec : pendingRecord) (wait : Duration) : flow (Client.Status * option Client.client_error) :=
  now ← Now;
  res ← with_net (Client.WaitForUpload fuel (a_Relay a) (pr_DropID rec) (Add now wait));
  match res with None => throw EFuel | Some r => mret r end.

Definition Fetch (fuel : nat) (input : FetchInput) : flow FetchOutput :=
  id ← fetch_id input;
  rec ← loadPending id;
  '(st, err) ← await_upload fuel rec (fetch_wait (fi_WaitSeconds input));
  let failed := match err with Some e => if Client.is_deadline e then None else Some e | None => None end in
  match failed with
  | Some e =>
      if Client.IsCode e Client.CodeNotFound then
        fetch_over rec StatusExpired [] B["The request is no longer known to the relay; it expired. Ask again with request_secret if you still need it."]
      else throw (EClient e)
  | None =>
      let state := Client.st_State st in
      if beq state Client.StateCreated || is_empty state then
        mret (fetched rec StatusWaiting (B["The human has not submitted "] ++ bs (pr_Name rec) ++
          B[" yet. The link is valid until "] ++ Format_RFC3339 (pr_ExpiresAt rec) ++ B[". Call fetch_secret again to keep waiting."]))
      else if beq state Client.StateRevoked then
        fetch_over rec StatusRevoked [] B["The request was revoked before the human submitted anything."]
      else if beq state Client.StateExpired then
        fetch_over rec StatusExpired [] B["The request expired before the human submitted anything. Ask again with request_secret if you still need it."]
      else if beq state Client.StateFetched then
        fetch_over rec StatusGone [] B["The submission was already fetched. If it was not stored by this agent, treat the secret as exposed and ask the human to rotate it."]
      else if beq state Client.StateUploaded then fetchUploaded rec
      else throw EState
  end.

(** ** Sending *)

Definition CanSend (name : string) : flow unit :=
  _ ← lift EStorage (Secrets.ValidateName name);
  res ← store_stat name;
  meta ← lift EStorage res;
  if isInternalKind (mKind meta) then throw (EStorage ErrNotFound)
  else if negb (Sendable meta) then throw ErrNotSendable
  else mret tt.

(** The key to encrypt under, and the salt where there is a password. *)
Definition reveal_key (key : bytes) : flow (bytes * bytes) :=
  if negb (AgentConfig.RevealPasswordRequired (a_Config a)) then mret (key, [])
  else if negb (a_HasPassword a) then throw ErrNoRevealPassword
  else
    password ← with_net w_password;
    match password with
    | None => throw EPassword
    | Some [] => throw ErrNoRevealPassword
    | Some password =>
        r ← random;
        salt ← lift ECrypto (NewSalt r);
        derived ← lift ECrypto (RevealKeyWithPassword key password salt);
        mret (derived, salt)
    end.

(** [_ = a.Relay.RevokeReveal(...)] *)
Definition abandon_reveal (id token : bytes) : flow unit :=
  _ ← try (relay_call (Client.RevokeReveal (a_Relay a) id token)); mret tt.

Definition send_envelope (name : string) (value : bytes) : Envelope :=
  SetSecret value (mkEnvelope 1 TypeReveal (bs name) [] [] [] [] [] []).

Definition send_link (name : string) (keepsCopy : bool) (created : Client.RevealCreated) (key salt : bytes) : Link.Reveal :=
  Link.mkReveal link_relay (Client.rc_ID created) (Client.rc_RevealToken created) key (bs name) keepsCopy salt.

Definition send_output (created : Client.RevealCreated) (url : bytes) (keepsCopy : bool) (salt message delivery : bytes) : SendOutput :=
  mkSendOutput (Client.rc_ID created) url (Client.rc_ExpiresAt created) keepsCopy (negb (is_empty salt)) message delivery.

(** After the link is made: the agent's copy goes, if it was asked to and can. *)
Definition drop_copy (input : SendInput) : flow bool :=
  if si_DeleteAfter input then res ← store_delete (si_Name input); mret (negb (is_ok res)) else mret true.

Definition Send (input : SendInput) : flow SendOutput :=
  let name := si_Name input in
  _ ← lift EStorage (Secrets.ValidateName name);
  lifetime ← ttl (si_TTL input);
  res ← store_get name;
  '(value, meta) ← lift EStorage res;
  if beq (mKind meta) KindPending then throw (EStorage ErrNotFound)
  else if negb (Sendable meta) then
    _ ← log (entry B["send_secret"] name [] B["refused_not_sendable"] [] []); throw ErrNotSendable
  else
    _ ← redact_add name value;
    r ← random;
    key ← lift ECrypto (NewSymmetricKey r);
    '(encKey, salt) ← reveal_key key;
    let keepsCopy := negb (si_DeleteAfter input) in
    r ← random;
    ct ← lift ECrypto (EncryptEnvelope encKey (send_envelope name value) (RevealAAD (bs name) keepsCopy) r);
    created ← relay_noting B["send_secret"] name (Client.CreateReveal (a_Relay a) ct lifetime);
    match Link.Reveal_Build (send_link name keepsCopy created key salt) (a_PageOrigin a) with
    | Err _ => _ ← abandon_reveal (Client.rc_ID created) (Client.rc_RevokeToken created); throw ELink
    | Ok url =>
        now ← Now;
        saved ← saveSent (mkSent 1 (Client.rc_ID created) (Client.rc_RevokeToken created) name now (Client.rc_ExpiresAt created));
        match saved with
        | Err e => _ ← abandon_reveal (Client.rc_ID created) (Client.rc_RevokeToken created); throw (ESave e)
        | Ok _ =>
            keepsCopy ← drop_copy input;
            _ ← log (entry B["send_secret"] name (Client.rc_ID created) B["created"] []
                      [("keeps_copy", format_bool keepsCopy); ("expires_at", Format_RFC3339 (Client.rc_ExpiresAt created));
                       ("password", format_bool (negb (is_empty salt)))]);
            mret (send_output created url keepsCopy salt (sendMessage (send_output created url keepsCopy salt [] []) name) DeliveryNote)
        end
    end.

(** ** Listing, deleting, revoking *)

Definition List : flow (list Metadata) :=
  res ← store_list;
  all ← lift EStorage res;
  mret (filter (λ m, isInternalKind (mKind m) = false) all).

Definition Delete (name : string) : flow unit :=
  _ ← lift EStorage (Secrets.ValidateName name);
  if isInternalName name then throw (EStorage ErrNotFound)
  else
    res ← store_delete name;
    _ ← redact_remove name;
    match res with
    | Ok u => _ ← log (entry B["delete_secret"] name [] B["deleted"] [] []); mret u
    | Err e => noting B["delete_secret"] name [] B["error"] (EStorage e)
    end.

(** What a revocation came to, from the relay's answer. *)
Definition revokeState (r : result agent_error unit) : result agent_error bytes :=
  match r with
  | Ok _ => Ok Client.StateRevoked
  | Err e =>
      match e with
      | EClient (Client.ERelay re) =>
          if negb (is_empty (Client.re_State re)) then Ok (Client.re_State re)
          else if beq (Client.re_Code re) Client.CodeNotFound then Ok Client.StateExpired
          else Err e
      | _ => Err e
      end
  end.

Definition settle {A} (r : result agent_error A) : flow A := match r with Ok x => mret x | Err e => throw e end.

Definition revokeSent (dropID : bytes) : flow bytes :=
  rec ← loadSent dropID;
  res ← try (relay_call (Client.RevokeReveal (a_Relay a) (sr_DropID rec) (sr_RevokeToken rec)));
  state ← settle (revokeState res);
  _ ← deleteSent (sr_DropID rec);
  _ ← log (entry B["revoke_request"] (sr_Name rec) (sr_DropID rec) state [] [("kind", B["reveal"])]);
  mret state.

Definition Revoke (requestID : bytes) : flow bytes :=
  loaded ← try (loadPending requestID);
  match loaded with
  | Err ErrNoPending => revokeSent requestID
  | Err e => throw e
  | Ok rec =>
      res ← try (relay_call (Client.RevokeDrop (a_Relay a) (pr_DropID rec) (pr_UploadToken rec)));
      state ← settle (revokeState res);
      _ ← deletePending (pr_DropID rec);
      _ ← log (entry B["revoke_request"] (pr_Name rec) (pr_DropID rec) state [] []);
      mret state
  end.

Fixpoint LoadRedactions (names : list string) : flow unit :=
  match names with
  | [] => mret tt
  | n :: names =>
      res ← store_get n;
      _ ← match res with Ok (v, _) => redact_add n v | Err _ => mret tt end;
      LoadRedactions names
  end.
End agent.
