(* ===== verification/Human.v ===== *)
(** The human's side at a terminal: cmd/burndrop/cmd_human.go, with the input
    helpers of cmd/burndrop/app.go.  The values of a command's flags
    are arguments of its definition ([Flags] parses command lines); what it
    prints to standard error is not modelled. *)
From S2P Require Import Prelude GoStrings GoTime Json Crypto Envelope Secrets.
From S2P Require Tokens Link Client.
From Stdlib Require Import Strings.Byte.

Import Client (World).

(** A terminal session: the network, and the human's input and output. *)
Class Terminal (N : Type) := {
  terminal_net :: World N;
  t_random : N → N * reader;
  t_interactive : N → bool; (* [isTerminal] *)
  t_line : N → N * option bytes; (* [ReadString('\n')]; at the end of the input, what is left *)
  t_rest : Z → N → N * option bytes; (* at most so many bytes of what is left *)
  t_hidden : N → N * option bytes; (* [term.ReadPassword] *)
  t_file : bytes → N → N * option bytes;
  t_write : bytes → N → N * bool;
}.

Inductive human_error :=
  | Usage | NotALink | LinkGone (* expired or never created *) | LinkUsed (state : bytes) | Cancelled | NeedsConfirmation
  | EmptyValue | TooLarge | InputFailed | OutputFailed
  | HCrypto (e : Tokens.crypto_error) | HClient (e : Client.client_error) | BadOrigin
  | LinkAltered (* the relay knows another key *)
  | NotDecrypted | WrongPassword | NoPassword | HSecret.

Section human.
Context {N : Type} `{!Terminal N} `{Primitives} `{Unicode}.

Definition cli (A : Type) : Type := N → N * result human_error A.

#[global] Instance cli_ret : MRet cli := λ A a n, (n, Ok a).
#[global] Instance cli_bind : MBind cli := λ A B f m n,
  match m n with
  | (n', Ok a) => f a n'
  | (n', Err e) => (n', Err e)
  end.

Definition cli_fail {A} (e : human_error) : cli A := λ n, (n, Err e).
Definition cli_lift {E A} (f : E → human_error) (r : result E A) : cli A :=
  match r with Ok a => mret a | Err e => cli_fail (f e) end.
Definition cli_world {A} (f : N → N * A) : cli A := λ n, let '(n, a) := f n in (n, Ok a).
(** A relay call, its error mapped. *)
Definition cli_call {A} (on_error : Client.client_error → human_error) (f : Client.call (N := N) A) : cli A :=
  r ← cli_world f; cli_lift on_error r.
(** A reading, which may fail. *)
Definition cli_read (f : N → N * option bytes) : cli bytes :=
  r ← cli_world f; match r with Some b => mret b | None => cli_fail InputFailed end.

(** ** Input *)

Definition is_newline_byte (b : byte) : bool := bool_decide (b = x0d) || bool_decide (b = x0a).

(** [strings.TrimRight(line, "\r\n")] *)
Fixpoint TrimRight_crlf (s : bytes) : bytes :=
  match s with
  | [] => []
  | b :: s =>
      match TrimRight_crlf s with
      | [] => if is_newline_byte b then [] else [b]
      | s => b :: s
      end
  end.

Definition interactive : cli bool := λ n, (n, Ok (t_interactive n)).

Definition readSecret : cli bytes :=
  tty ← interactive;
  if tty : bool then cli_read t_hidden
  else line ← cli_read t_line; mret (TrimRight_crlf line).

Definition readValue (file : bytes) : cli bytes :=
  if negb (is_empty file) then cli_read (t_file file)
  else
    tty ← interactive;
    if negb tty then
      b ← cli_read (t_rest (MaxValueBytes + 1));
      if MaxValueBytes <? zlen b then cli_fail TooLarge else mret (TrimRight_crlf b)
    else readSecret.

Definition confirm (yes : bool) : cli bool :=
  if yes then mret true
  else
    tty ← interactive;
    if negb tty then cli_fail NeedsConfirmation
    else
      line ← cli_read t_line;
      let line := ToLower (TrimSpace line) in
      mret (beq line B["y"] || beq line B["yes"]).

(** ** Submitting *)

Context (version : bytes).

Definition connect (origin : bytes) : cli Client.Client :=
  match Client.New origin [] (B["burndrop-cli/"] ++ version) with
  | Some c => mret c
  | None => cli_fail BadOrigin
  end.

Definition status_error (e : Client.client_error) : human_error :=
  if Client.IsCode e Client.CodeNotFound then LinkGone else HClient e.

Definition upload_error (e : Client.client_error) : human_error :=
  if Client.IsCode e Client.CodeCommitment then LinkAltered else HClient e.

(** The envelope made of the link. *)
Definition drop_envelope (d : Link.Drop) (value : bytes) : Envelope :=
  SetSecret value
    (mkEnvelope 1 TypeDrop (Link.dName d) (Link.dPurpose d) (Link.dStorage d) (Link.dRetention d)
       (bs (Link.Drop_Fingerprint d)) [] []).

Definition cmdDrop (raw file : bytes) (yes : bool) : cli unit :=
  _ ← cli_lift id (guard_err (negb (is_empty raw)) Usage);
  '(d, pageOrigin) ← cli_lift (λ _, NotALink) (Link.ParseDrop raw);
  rc ← connect (Link.Drop_RelayOrigin d pageOrigin);
  st ← cli_call status_error (Client.DropStatus rc (Link.dID d) 0 []);
  if negb (beq (Client.st_State st) Client.StateCreated) then cli_fail (LinkUsed (Client.st_State st))
  else
    ok ← confirm yes;
    if negb ok then cli_fail Cancelled
    else
      value ← readValue file;
      if is_empty value then cli_fail EmptyValue
      else
        pub ← cli_lift HCrypto (KeyFromBytes (Link.dRecipientKey d));
        r ← cli_world t_random;
        sealed ← cli_lift HCrypto (SealEnvelope pub (drop_envelope d value) r);
        cli_call upload_error
          (Client.Upload rc (Link.dID d) (Link.dUploadToken d) (bs (Tokens.Commitment (Link.dRecipientKey d))) sealed).

(** ** Opening *)

(** Five attempts: the relay's copy is gone, so a wrong password may be typed
    again. *)
Fixpoint password_attempts (more : nat) (linkKey : bytes) (r : Link.Reveal) (ct pw : bytes) : cli Envelope :=
  key ← cli_lift HCrypto (RevealKeyWithPassword linkKey pw (Link.rSalt r));
  match DecryptEnvelope key ct (Link.Reveal_AAD r) with
  | Ok env => mret env
  | Err _ =>
      match more with
      | O => cli_fail WrongPassword
      | S more =>
          pw ← readSecret;
          if is_empty pw then cli_fail NoPassword else password_attempts more linkKey r ct pw
      end
  end.

Definition decryptWithPassword : bytes → Link.Reveal → bytes → bytes → cli Envelope := password_attempts 4.

(** The value is printed, and a newline after it, if it does not end in one;
    whether the newline was written is not asked. *)
Definition show_value (value : bytes) : cli bytes :=
  written ← cli_world (t_write value);
  if negb written then cli_fail OutputFailed
  else
    _ ← match last value with
        | Some b => if bool_decide (b = x0a) then mret true else cli_world (t_write [x0a])
        | None => mret true
        end;
    mret value.

(** [cmdOpen]; its result is the value it printed. *)
Definition cmdOpen (raw : bytes) (yes : bool) : cli bytes :=
  _ ← cli_lift id (guard_err (negb (is_empty raw)) Usage);
  '(r, pageOrigin) ← cli_lift (λ _, NotALink) (Link.ParseReveal raw);
  rc ← connect (Link.Reveal_RelayOrigin r pageOrigin);
  st ← cli_call status_error (Client.RevealStatus rc (Link.rID r) 0 []);
  if negb (beq (Client.st_State st) Client.StateCreated) then cli_fail (LinkUsed (Client.st_State st))
  else
    ok ← confirm yes;
    if negb ok then cli_fail Cancelled
    else
      linkKey ← cli_lift HCrypto (KeyFromBytes (Link.rKey r));
      pw ← (if Link.PasswordProtected r then
              pw ← readSecret;
              if is_empty pw then cli_fail Cancelled else mret pw
            else mret []);
      '(ct, _) ← cli_call HClient (Client.Open rc (Link.rID r) (Link.rRevealToken r));
      env ← (if Link.PasswordProtected r then decryptWithPassword linkKey r ct pw
             else cli_lift (λ _, NotDecrypted) (DecryptEnvelope linkKey ct (Link.Reveal_AAD r)));
      match SecretBytes env with
      | None => cli_fail HSecret
      | Some value => show_value value
      end.
End human.
