(* ===== verification/AgentProps.v ===== *)
(** What the agent's flows guarantee. *)
From S2P Require Import Prelude GoStrings GoSort GoTime GoFloat GoText Json JsonDoc JsonDocProps Crypto Envelope EnvelopeProps.
From S2P Require Import Secrets Manager ManagerProps Agent.
From S2P Require Tokens Base64 Link LinkProps Client AgentConfig Redact.
From Stdlib Require Import Strings.Byte.

Import Client (World, w_now).

(** * Bookkeeping records *)

(** Text that is UTF-8, and times whose years have four digits. *)
Definition pending_ok (r : pendingRecord) : Prop :=
  pr_V r = 1 ∧ ValidUtf8 (pr_DropID r) = true ∧ ValidUtf8 (pr_FetchToken r) = true ∧ ValidUtf8 (pr_UploadToken r) = true ∧
  ValidUtf8 (bs (pr_Name r)) = true ∧ ValidUtf8 (pr_Purpose r) = true ∧ ValidUtf8 (pr_Retention r) = true ∧
  ValidUtf8 (pr_Storage r) = true ∧ ValidUtf8 (pr_Fingerprint r) = true ∧
  is_Some (Format_strict (pr_CreatedAt r)) ∧ is_Some (Format_strict (pr_ExpiresAt r)).

Lemma pending_law : law pending_codec 1 pending_ok.
Proof.
  apply struct_law; [vm_compute; reflexivity|vm_compute; reflexivity|].
  intros [v di ft ut pk pu nm pp re st se fp ca ea] (H0 & H1 & H2 & H3 & H4 & H5 & H6 & H7 & H8 & H9 & H10).
  cbn [pr_V pr_DropID pr_FetchToken pr_UploadToken pr_PrivateKey pr_PublicKey pr_Name pr_Purpose pr_Retention pr_Storage
    pr_Sendable pr_Fingerprint pr_CreatedAt pr_ExpiresAt] in *. subst v.
  unfold pending_fields, zero_pending. walk_path; done.
Qed.

Definition sent_ok (r : sentRecord) : Prop :=
  sr_V r = 1 ∧ ValidUtf8 (sr_DropID r) = true ∧ ValidUtf8 (sr_RevokeToken r) = true ∧ ValidUtf8 (bs (sr_Name r)) = true ∧
  is_Some (Format_strict (sr_CreatedAt r)) ∧ is_Some (Format_strict (sr_ExpiresAt r)).

Lemma sent_law : law sent_codec 1 sent_ok.
Proof.
  apply struct_law; [vm_compute; reflexivity|vm_compute; reflexivity|].
  intros [v di rt nm ca ea] (H0 & H1 & H2 & H3 & H4 & H5).
  cbn [sr_V sr_DropID sr_RevokeToken sr_Name sr_CreatedAt sr_ExpiresAt] in *. subst v.
  unfold sent_fields, zero_sent. walk_path; done.
Qed.

(** * Flows *)

Section flows.
Context {T : Type} `{BackendOk T} {N : Type} `{!AgentWorld N} `{PrimitivesOk} `{Unicode} `{ErrorText}.

Lemma bind_ok {A B} (m : flow (T := T) (N := N) A) (f : A → flow B) s s' b :
  (m ≫= f) s = (s', Ok b) → ∃ s1 x, m s = (s1, Ok x) ∧ f x s1 = (s', Ok b).
Proof. apply state_bind_ok. Qed.

Lemma lift_ok {E A} (f : E → agent_error) (r : result E A) (s s' : State (T := T) (N := N)) x :
  lift f r s = (s', Ok x) → s' = s ∧ r = Ok x.
Proof. destruct r; simpl; [by intros [= -> ->]|done]. Qed.

Lemma ret_ok {A} (x y : A) (s s' : State (T := T) (N := N)) : (mret x : flow A) s = (s', Ok y) → s' = s ∧ y = x.
Proof. by intros [= -> ->]. Qed.

Lemma relay_call_ok {A} (f : Client.call (N := N) A) (s s' : State (T := T) (N := N)) x :
  relay_call f s = (s', Ok x) → f (net s) = (net s', Ok x) ∧ s' = mkState (net s') (secrets s) (redactor s) (trail s).
Proof.
  unfold relay_call. intros (s1 & r & Hr & Hl)%bind_ok. apply lift_ok in Hl as [-> ->].
  unfold with_net in Hr. destruct (f (net s)) as [n r']. by injection Hr as <- ->.
Qed.

Lemma with_net_ok {A} (f : N → N * A) (s s' : State (T := T) (N := N)) x :
  with_net f s = (s', Ok x) → f (net s) = (net s', x) ∧ s' = mkState (net s') (secrets s) (redactor s) (trail s).
Proof. unfold with_net. destruct (f (net s)) as [n r']. by intros [= <- ->]. Qed.

Lemma log_ok e (s s' : State (T := T) (N := N)) u :
  log e s = (s', Ok u) → s' = mkState (net s) (secrets s) (redactor s) (trail s ++ [e]).
Proof. by intros [= <-]. Qed.

Lemma try_ok {A} (m : flow (T := T) (N := N) A) s s' r :
  try m s = (s', Ok r) → m s = (s', r).
Proof. unfold try. destruct (m s) as [s1 r1]. by intros [= <- <-]. Qed.

Lemma relay_noting_ok {A} ev name (f : Client.call (N := N) A) (s s' : State (T := T) (N := N)) x :
  relay_noting ev name f s = (s', Ok x) → relay_call f s = (s', Ok x).
Proof.
  unfold relay_noting. intros (s1 & r & Hr%try_ok & Hf)%bind_ok. destruct r as [y|e]; [by apply ret_ok in Hf as [-> ->]|].
  unfold noting in Hf. by apply bind_ok in Hf as (? & ? & _ & (? & ? & _ & ?)%bind_ok).
Qed.

(** What a call of the manager leaves of the rest. *)
Lemma store_put_ok name value meta (s s' : State (T := T) (N := N)) r :
  store_put name value meta s = (s', Ok r) →
  Manager_Put (w_now (net s)).2 name value meta (secrets s) = (secrets s', r) ∧
  net s' = (w_now (net s)).1 ∧ redactor s' = redactor s.
Proof.
  unfold store_put, Now. intros (s1 & t & [Hn ->]%with_net_ok & Hp)%bind_ok. unfold on_store in Hp. simpl in Hp.
  rewrite Hn. simpl. destruct (Manager_Put _ _ _ _ _) as [m x]. injection Hp as <- ->. done.
Qed.

Lemma store_get_eq name (s : State (T := T) (N := N)) :
  store_get name s =
  (mkState (w_now (net s)).1 (Manager_Get (w_now (net s)).2 name (secrets s)).1 (redactor s) (trail s),
   Ok (Manager_Get (w_now (net s)).2 name (secrets s)).2).
Proof.
  unfold store_get, Now, with_net, on_store, mbind, flow_bind. destruct (w_now (net s)) as [n t]. simpl.
  by destruct (Manager_Get t name (secrets s)).
Qed.

(** The retention of a record: until the second its link expires in, or the
    session. *)
Lemma record_retention_ok expires (s s' : State (T := T) (N := N)) r :
  record_retention expires s = (s', Ok r) →
  secrets s' = secrets s ∧ redactor s' = redactor s ∧
  (r = RetentionSession ∨ r = RetentionUntilPrefix ++ Format_RFC3339 expires).
Proof.
  unfold record_retention, Now. intros (s1 & t & [_ ->]%with_net_ok & [-> ->]%ret_ok)%bind_ok.
  split; [done|]. split; [done|]. case_match; auto.
Qed.

Lemma strict_year t : is_Some (Format_strict t) → 0 <= (year_of (t / Second / 86400)).1 < 10000.
Proof. intros [x Hx]. unfold Format_strict in Hx. case_match; [|done]. breflect. lia. Qed.

(** A date is read back as the whole second. *)
Lemma ParseRetention_formatted t now expires :
  is_Some (Format_strict t) → ParseRetention (RetentionUntilPrefix ++ Format_RFC3339 t) now = Ok expires →
  expires = t - t mod Second.
Proof.
  intros Hy%strict_year. unfold ParseRetention.
  assert (∀ u, beq (RetentionUntilPrefix ++ u) RetentionSession || beq (RetentionUntilPrefix ++ u) RetentionUntilRevoked = false) as ->.
  { intros u. unfold beq. rewrite !bool_decide_eq_false_2; [done|..]; intros E; apply (f_equal (take 6)) in E; done. }
  rewrite HasPrefix_self. unfold TrimPrefix. rewrite HasPrefix_self, drop_app_length.
  assert (Format_RFC3339 t = format_with [] (t - t mod Second)) as ->.
  { unfold Format_RFC3339, format_with. by replace ((t - t mod Second) / Second) with (t / Second) by (unfold Second; lia). }
  rewrite Parse_format; [case_match; naive_solver| |].
  - simpl. f_equal. unfold Second. lia.
  - by replace ((t - t mod Second) / Second) with (t / Second) by (unfold Second; lia).
Qed.

(** ** Saving and loading records *)

Lemma savePending_ok rec (s s' : State (T := T) (N := N)) :
  savePending rec s = (s', Ok (Ok tt)) →
  ∃ b retention now meta', Marshal pending_codec rec = Some b ∧
    (retention = RetentionSession ∨ retention = RetentionUntilPrefix ++ Format_RFC3339 (pr_ExpiresAt rec)) ∧
    Manager_Put now (pendingName (pr_DropID rec)) b
      (record_meta retention (pr_Purpose rec) SourceDrop KindPending (pr_Fingerprint rec)) (secrets s) = (secrets s', Ok meta') ∧
    redactor s' = redactor s.
Proof.
  unfold savePending. destruct (Marshal pending_codec rec) as [b|]; [|done].
  intros (s1 & retention & (Hs & Hr & Hret)%record_retention_ok & Hp)%bind_ok.
  apply bind_ok in Hp as (s2 & res & (Hput & _ & Hred)%store_put_ok & [-> Hres]%ret_ok).
  destruct res as [meta'|]; [|done]. rewrite Hs in Hput. exists b, retention, (w_now (net s1)).2, meta'. by rewrite Hred.
Qed.

Lemma beq_until t : beq (RetentionUntilPrefix ++ t) RetentionSession = false.
Proof. unfold beq. apply bool_decide_eq_false. intros E. by apply (f_equal (take 6)) in E. Qed.

(** The backend can take the record of a request. *)
Definition pending_accepted (rec : pendingRecord) (s : State (T := T) (N := N)) : Prop :=
  healthy (persistent (secrets s)) ∧
  ∀ b retention now, Marshal pending_codec rec = Some b →
    put_accepted now (pendingName (pr_DropID rec)) b
      (record_meta retention (pr_Purpose rec) SourceDrop KindPending (pr_Fingerprint rec)) (secrets s).

(** A pending request survives: what was saved for it, the keys and the tokens
    included, is what is loaded for its id until it expires, unless the
    backend fails. *)
Theorem pending_survives rec (s s1 s2 : State (T := T) (N := N)) r :
  pending_ok rec → pending_accepted rec s → Tokens.ValidToken (sb (pr_DropID rec)) = true →
  entries (session (secrets s)) !! pendingName (pr_DropID rec) = None →
  savePending rec s = (s1, Ok (Ok tt)) → (w_now (net s1)).2 < pr_ExpiresAt rec - pr_ExpiresAt rec mod Second →
  loadPending (pr_DropID rec) s1 = (s2, r) →
  r = Ok rec ∨ ∃ e, e ≠ ErrNotFound ∧ r = Err (EStorage e).
Proof.
  intros Hok [Hh Hacc] Htok Hfree (b & retention & now & meta' & Hb & Hret & Hput & _)%savePending_ok Hnow.
  specialize (Hacc b retention now Hb).
  destruct (Unmarshal_Marshal pending_codec 1 pending_ok rec pending_law) as (b' & Hb' & Hread); [vm_compute; discriminate|done|].
  rewrite Hb in Hb'. injection Hb' as <-.
  assert (Expired meta' (w_now (net s1)).2 = false) as Hexp.
  { destruct (Manager_Put_ok _ _ _ _ _ _ _ Hh Hacc Hput) as (_ & _ & expires & Hp & Hm). cbn [Retention record_meta] in Hp, Hm.
    destruct Hret as [-> | ->].
    - destruct Hm as [-> _]. unfold Expired. rewrite fill_expires. by apply ParseRetention_session in Hp as ->.
    - rewrite beq_until in Hm. destruct Hm as [-> _]. unfold Expired. rewrite fill_expires.
      apply ParseRetention_formatted in Hp as ->; [|apply Hok]. unfold Before. rewrite (proj2 (Z.ltb_lt _ _)) by done. by rewrite andb_false_r. }
  unfold loadPending, load_record. rewrite Htok. cbn [negb]. unfold mbind at 1, flow_bind at 1. rewrite store_get_eq.
  destruct (put_get _ _ _ _ _ _ _ _ Hh Hacc Hput Hexp) as [Hses Hper]. cbn [Retention record_meta] in Hses, Hper.
  assert (pr_V rec = 1) as HV by apply Hok.
  destruct (beq retention RetentionSession) eqn:Es.
  - rewrite (Hses eq_refl). change (c_zero pending_codec) with zero_pending in Hread |- *. rewrite Hread, HV.
    intros [= <- <-]. by left.
  - destruct (Hper eq_refl Hfree) as [-> | (e & He & _ & ->)].
    + rewrite Hread, HV. intros [= <- <-]. by left.
    + intros Hl. right. exists e. split; [done|]. by destruct e; injection Hl as <- <-.
Qed.

(** ** Asking *)

Context (a : Agent).

Lemma throw_ok {A} e (s s' : State (T := T) (N := N)) (x : A) : throw e s ≠ (s', Ok x).
Proof. done. Qed.

Lemma ttl_ok x (s s' : State (T := T) (N := N)) d : ttl a x s = (s', Ok d) → s' = s.
Proof.
  unfold ttl. case_match; [by intros [-> _]%lift_ok|]. case_match; [|done]. case_match; [done|]. by intros [-> _]%ret_ok.
Qed.

(** The same but for the audit trail. *)
Definition same_but_trail (s s' : State (T := T) (N := N)) : Prop := s' = mkState (net s) (secrets s) (redactor s) (trail s').

(** A request that succeeds created a slot for a fresh key, built a link for it
    and saved its record last. *)
Lemma Request_ok input (s s' : State (T := T) (N := N)) out :
  Request a input s = (s', Ok out) →
  ∃ r pub priv lifetime created now (n n' : N) s1 s2,
    is_ok (Secrets.ValidateName (ri_Name input)) = true ∧
    GenerateKeyPair r = Ok (pub, priv) ∧
    Client.CreateDrop (a_Relay a) (bs (Tokens.Commitment pub)) lifetime n = (n', Ok created) ∧
    Link.Drop_Build (request_link a input created pub) (a_PageOrigin a) = Ok (ro_Link out) ∧
    secrets s1 = secrets s ∧ redactor s' = redactor s ∧
    savePending (request_record a input created pub priv now) s1 = (s2, Ok (Ok tt)) ∧ same_but_trail s2 s' ∧
    ro_RequestID out = Client.dc_ID created ∧ ro_Fingerprint out = bs (Tokens.Fingerprint pub).
Proof.
  unfold Request. intros (s1 & u & [-> Hn]%lift_ok & Hf)%bind_ok. apply bind_ok in Hf as (s1 & u' & [-> _]%lift_ok & Hf).
  case_match; [done|].
  apply bind_ok in Hf as (s1 & now & [_ ->]%with_net_ok & Hf). apply bind_ok in Hf as (s2 & e & [-> _]%lift_ok & Hf).
  apply bind_ok in Hf as (s2 & lifetime & Httl & Hf).
  apply ttl_ok in Httl as ->.
  apply bind_ok in Hf as (s3 & r & [_ ->]%with_net_ok & Hf).
  apply bind_ok in Hf as (s4 & [pub priv] & [-> Hk]%lift_ok & Hf).
  apply bind_ok in Hf as (s4 & created & [Hc ->]%relay_noting_ok%relay_call_ok & Hf).
  destruct (Link.Drop_Build _ _) as [url|] eqn:Hb; [|by apply bind_ok in Hf as (? & ? & _ & ?)].
  apply bind_ok in Hf as (s5 & saved & Hsave & Hf).
  destruct saved as [[]|]; [|by apply bind_ok in Hf as (? & ? & _ & ?)].
  apply bind_ok in Hf as (s6 & [] & ->%log_ok & [-> ->]%ret_ok). simpl in Hsave.
  destruct (savePending_ok _ _ _ Hsave) as (_ & _ & _ & _ & _ & _ & _ & Hred). simpl in Hred.
  match type of Hsave with savePending _ ?s1 = (?s2, _) => eexists r, pub, priv, lifetime, created, now, _, _, s1, s2 end.
  rewrite Hn. split_and!; try done; simpl; congruence.
Qed.

(** ** Fetching *)

(** A submission that decrypts and matches the request is stored, registered
    with the redactor and its request forgotten; the only thing that can fail
    is the store. *)
Lemma fetchUploaded_stores rec (s : State (T := T) (N := N)) pub priv ct t n env value :
  pr_PublicKey rec = Some pub → pr_PrivateKey rec = Some priv → zlen pub = Tokens.KeySize → zlen priv = Tokens.KeySize →
  Client.Fetch (a_Relay a) (pr_DropID rec) (pr_FetchToken rec) (net s) = (n, Ok (ct, t)) →
  OpenEnvelope pub priv ct = Ok env → checkEnvelope env rec = None → SecretBytes env = Some value →
  match Manager_Put (w_now n).2 (pr_Name rec) value (drop_meta rec) (secrets s) with
  | (m, Err e) => (fetchUploaded a rec s).2 = Err (ELost e)
  | (m, Ok meta) => ∃ s' out, fetchUploaded a rec s = (s', Ok out) ∧ fo_Status out = StatusStored ∧
      secrets s' = (Manager_Delete (pendingName (pr_DropID rec)) m).1 ∧
      redactor s' = Redact.Add (bs (pr_Name rec)) value (redactor s)
  end.
Proof.
  intros Hpub Hpriv Hlp Hls Hf Ho Hc Hv. unfold fetchUploaded. rewrite Hpub, Hpriv. simpl.
  unfold try, relay_call, with_net, mbind, flow_bind. rewrite Hf. simpl.
  unfold KeyFromBytes. rewrite Hlp, Hls. cbn [Z.eqb]. change (Tokens.KeySize =? Tokens.KeySize) with true. cbn [lift]. unfold mret, flow_ret.
  rewrite Ho, Hc, Hv. unfold store_put, Now, with_net, on_store, mbind, flow_bind. simpl.
  destruct (w_now n) as [n' now]. simpl.
  destruct (Manager_Put now _ value _ (secrets s)) as [m [meta|e]]; simpl; [|done].
  unfold deletePending, store_delete, on_store, mbind, flow_bind. simpl.
  destruct (Manager_Delete _ m) as [m' r]. eexists _, _. split; [reflexivity|]. done.
Qed.

(** ** Sending *)

(** The key of a reveal is the link's, or one made of it and the password. *)
Definition sealed_with (key encKey salt : bytes) (password : option bytes) : Prop :=
  match password with
  | None => AgentConfig.RevealPasswordRequired (a_Config a) = false ∧ salt = [] ∧ encKey = key
  | Some p => AgentConfig.RevealPasswordRequired (a_Config a) = true ∧ p ≠ [] ∧ RevealKeyWithPassword key p salt = Ok encKey ∧
      ∃ n n', w_password n = (n', Some p)
  end.

Lemma reveal_key_ok key (s s' : State (T := T) (N := N)) encKey salt :
  reveal_key a key s = (s', Ok (encKey, salt)) →
  secrets s' = secrets s ∧ redactor s' = redactor s ∧ ∃ password, sealed_with key encKey salt password.
Proof.
  unfold reveal_key, sealed_with. destruct (AgentConfig.RevealPasswordRequired (a_Config a)); simpl.
  2:{ intros [= <- <- <-]. split; [done|]. split; [done|]. by exists None. }
  case_match; [done|]. intros (s1 & pw & [Hpw ->]%with_net_ok & Hf)%bind_ok.
  destruct pw as [[|b pw]|]; [done| |done]. apply bind_ok in Hf as (s2 & r & [_ ->]%with_net_ok & Hf).
  apply bind_ok in Hf as (s3 & salt' & [-> _]%lift_ok & Hf).
  apply bind_ok in Hf as (s4 & k & [-> Hk]%lift_ok & [-> [= <- <-]]%ret_ok).
  split; [done|]. split; [done|]. exists (Some (b :: pw)). split_and!; [done..|]. by exists (net s), (net s1).
Qed.

Lemma saveSent_ok rec (s s' : State (T := T) (N := N)) r :
  saveSent rec s = (s', Ok r) → redactor s' = redactor s.
Proof.
  unfold saveSent. destruct (Marshal sent_codec rec) as [b|]; [|by intros [-> _]%ret_ok].
  intros (s1 & retention & (_ & Hr & _)%record_retention_ok & Hp)%bind_ok.
  apply bind_ok in Hp as (s2 & res & (_ & _ & Hred)%store_put_ok & [-> Hres]%ret_ok). by rewrite Hred.
Qed.

Lemma drop_copy_ok input (s s' : State (T := T) (N := N)) b :
  drop_copy input s = (s', Ok b) → redactor s' = redactor s ∧ (b = false → si_DeleteAfter input = true).
Proof.
  unfold drop_copy. destruct (si_DeleteAfter input); [|by intros [-> ->]%ret_ok].
  unfold store_delete, on_store, mbind, flow_bind. destruct (Manager_Delete _ _). by intros [= <- <-].
Qed.

(** A secret that was sent was stored, unexpired and marked sendable; it went to
    the relay sealed, and a link for the answer was built. *)
Lemma Send_ok input (s s' : State (T := T) (N := N)) out :
  Send a input s = (s', Ok out) →
  let name := si_Name input in
  ∃ now value meta rk n0 key encKey salt password ct lifetime created (n n' : N),
    is_ok (Secrets.ValidateName name) = true ∧
    (Manager_Get now name (secrets s)).2 = Ok (value, meta) ∧ Sendable meta = true ∧ mKind meta ≠ KindPending ∧
    NewSymmetricKey rk = Ok key ∧ sealed_with key encKey salt password ∧
    EncryptEnvelope encKey (send_envelope name value) (RevealAAD (bs name) (negb (si_DeleteAfter input))) (w_random n0).2 = Ok ct ∧
    Client.CreateReveal (a_Relay a) ct lifetime n = (n', Ok created) ∧
    Link.Reveal_Build (send_link a name (negb (si_DeleteAfter input)) created key salt) (a_PageOrigin a) = Ok (so_Link out) ∧
    redactor s' = Redact.Add (bs name) value (redactor s) ∧
    (so_KeepsCopy out = false → si_DeleteAfter input = true) ∧ so_PasswordProtected out = negb (is_empty salt).
Proof.
  unfold Send. intros (s1 & u & [-> Hn]%lift_ok & Hf)%bind_ok. apply bind_ok in Hf as (s1 & lifetime & Httl & Hf).
  apply ttl_ok in Httl as ->.
  apply bind_ok in Hf as (s2 & res & Hget & Hf). rewrite store_get_eq in Hget. injection Hget as <- <-.
  apply bind_ok in Hf as (s2 & [value meta] & [-> Hget]%lift_ok & Hf).
  destruct (beq (mKind meta) KindPending) eqn:Ek; [done|]. destruct (Sendable meta) eqn:Esend; [|done]. cbn [negb] in Hf.
  apply bind_ok in Hf as (s2 & [] & [= <-] & Hf).
  apply bind_ok in Hf as (s3 & rk & [_ ->]%with_net_ok & Hf). apply bind_ok in Hf as (s4 & key & [-> Hkey]%lift_ok & Hf).
  apply bind_ok in Hf as (s5 & [encKey salt] & (Hs5 & Hr5 & password & Hpw)%reveal_key_ok & Hf).
  apply bind_ok in Hf as (s6 & r & [Hr ->]%with_net_ok & Hf). apply bind_ok in Hf as (s7 & ct & [-> Hct]%lift_ok & Hf).
  apply bind_ok in Hf as (s8 & created & [Hcr ->]%relay_noting_ok%relay_call_ok & Hf).
  destruct (Link.Reveal_Build _ _) as [url|] eqn:Hb; [|by apply bind_ok in Hf as (? & ? & _ & ?)].
  apply bind_ok in Hf as (s9 & now & [_ ->]%with_net_ok & Hf). apply bind_ok in Hf as (s10 & saved & Hr10%saveSent_ok & Hf).
  destruct saved; [|by apply bind_ok in Hf as (? & ? & _ & ?)].
  apply bind_ok in Hf as (s11 & keeps & [Hr11 Hkeeps]%drop_copy_ok & Hf). apply bind_ok in Hf as (s12 & [] & ->%log_ok & [-> ->]%ret_ok).
  exists (w_now (net s)).2, value, meta, rk, (net s5), key, encKey, salt, password, ct, lifetime, created.
  eexists _, _. rewrite Hn, Hr in *. simpl in *. unfold beq in Ek. apply bool_decide_eq_false in Ek.
  split_and!; try done. congruence.
Qed.

(** ** Flows that store nothing *)

(** Nothing is added to the session or to the index, and the redactor learns
    nothing. *)
Definition quiet (s s' : State (T := T) (N := N)) : Prop := shrinks (secrets s) (secrets s') ∧ redactor s' = redactor s.

#[local] Instance quiet_preorder : PreOrder quiet.
Proof. split; [done|]. intros x y z [] []. split; [by etrans|congruence]. Qed.

Definition quietly {A} (m : flow (T := T) (N := N) A) : Prop := ∀ s, quiet s (m s).1.

Lemma quietly_bind {A B} (m : flow (T := T) (N := N) A) (f : A → flow B) :
  quietly m → (∀ x, quietly (f x)) → quietly (m ≫= f).
Proof.
  intros Hm Hf s. unfold mbind, flow_bind. specialize (Hm s). destruct (m s) as [s1 [x|e]]; [|done]. simpl in Hm.
  etrans; [exact Hm|apply Hf].
Qed.

Lemma quietly_try {A} (m : flow (T := T) (N := N) A) : quietly m → quietly (try m).
Proof. intros Hm s. unfold try. specialize (Hm s). by destruct (m s). Qed.

Lemma quietly_ret {A} (x : A) : quietly (mret x).
Proof. done. Qed.

Lemma quietly_throw {A} e : quietly (throw (A := A) e).
Proof. done. Qed.

Lemma quietly_lift {E A} (f : E → agent_error) (r : result E A) : quietly (lift f r).
Proof. by destruct r. Qed.

Lemma quietly_net {A} (f : N → N * A) : quietly (with_net f).
Proof. intros s. unfold with_net. by destruct (f (net s)). Qed.

Lemma quietly_store {A} (f : Manager T → Manager T * result storage_error A) :
  (∀ m, shrinks m (f m).1) → quietly (on_store f).
Proof. intros Hf s. unfold on_store. specialize (Hf (secrets s)). by destruct (f (secrets s)). Qed.

Lemma quietly_log e : quietly (log e).
Proof. done. Qed.

Lemma quietly_redacted text : quietly (redacted text).
Proof. done. Qed.

Ltac quiet_steps :=
  repeat first
  [ progress intros | apply quietly_log | apply quietly_redacted
  | apply quietly_bind | apply quietly_try | apply quietly_ret | apply quietly_throw | apply quietly_lift | apply quietly_net
  | apply quietly_store; intros; first [apply shrinks_get | apply shrinks_List | apply shrinks_Delete]
  | match goal with |- quietly (match ?x with _ => _ end) => destruct x end ].

Lemma quietly_loadPending id : quietly (loadPending id).
Proof. unfold loadPending, load_record, store_get, Now. quiet_steps. Qed.

Lemma quietly_deletePending id : quietly (deletePending id).
Proof. unfold deletePending, store_delete. quiet_steps. Qed.

Lemma quietly_load_all l : quietly (load_pending_all l).
Proof.
  induction l as [|m l IH]; simpl; [apply quietly_ret|]. case_match; [done|].
  apply quietly_bind; [apply quietly_try, quietly_loadPending|]. intros res. apply quietly_bind; [exact IH|]. intros. apply quietly_ret.
Qed.

Lemma quietly_fetch_id input : quietly (fetch_id input).
Proof.
  unfold fetch_id, Pending, store_list, Now. quiet_steps. apply quietly_load_all.
Qed.

Lemma quietly_await fuel rec wait : quietly (await_upload a fuel rec wait).
Proof. unfold await_upload, Now. quiet_steps. Qed.

Lemma quietly_over rec st detail message : quietly (fetch_over rec st detail message).
Proof. unfold fetch_over, note_fetch. apply quietly_bind; [apply quietly_deletePending|]. quiet_steps. Qed.

(** ** What a fetch stores *)

(** The envelope says what the request said. *)
Definition matches (env : Envelope) (rec : pendingRecord) : Prop :=
  eType env = TypeDrop ∧ eName env = bs (pr_Name rec) ∧ eFingerprint env = pr_Fingerprint rec ∧
  eRetention env = pr_Retention rec ∧ ePurpose env = pr_Purpose rec ∧ eStorage env = describeStorage (pr_Storage rec).

Lemma opened_valid pub priv ct env : OpenEnvelope pub priv ct = Ok env → Validate env = Ok tt.
Proof.
  unfold OpenEnvelope. case_match; [done|]. intros (padded & _ & (plain & _ & Hd)%result_bind_ok)%result_bind_ok.
  unfold DecodeEnvelope in Hd. destruct (Decode _ _ _) as [[e|] rest]; [|done]. destruct (More rest); [done|].
  apply result_bind_ok in Hd as ([] & Hv & [= <-]). done.
Qed.

Lemma drop_fingerprint env : Validate env = Ok tt → eType env = TypeDrop → is_empty (eFingerprint env) = false.
Proof.
  unfold Validate. intros Hv Ht. do 6 apply result_bind_ok in Hv as (? & _ & Hv). rewrite Ht in Hv.
  apply result_bind_ok in Hv as (? & Hf & _). change (beq TypeDrop TypeDrop) with true in Hf. cbv iota in Hf.
  apply result_bind_ok in Hf as (? & _ & Hf%guard_err_ok). apply bool_decide_eq_false. by intros E; rewrite E in Hf.
Qed.

Lemma checkEnvelope_matches env rec : Validate env = Ok tt → checkEnvelope env rec = None → matches env rec.
Proof.
  intros Hv. unfold checkEnvelope, matches, beq.
  repeat (case_match; [done|]). intros _.
  repeat match goal with H : negb (bool_decide _) = false |- _ => apply negb_false_iff, bool_decide_eq_true in H end.
  pose proof (drop_fingerprint env Hv ltac:(done)) as Hf. rewrite Hf in *. simpl in *.
  repeat match goal with H : negb (bool_decide _) = false |- _ => apply negb_false_iff, bool_decide_eq_true in H end. done.
Qed.

(** A submission of the slot was fetched, decrypted with the request's key pair,
    found to match, and its value stored. *)
Definition stored_submission (rec : pendingRecord) (s s' : State (T := T) (N := N)) : Prop :=
  ∃ (n n' : N) ct t pub priv env value now m m' meta,
    Client.Fetch (a_Relay a) (pr_DropID rec) (pr_FetchToken rec) n = (n', Ok (ct, t)) ∧
    pr_PublicKey rec = Some pub ∧ pr_PrivateKey rec = Some priv ∧
    OpenEnvelope pub priv ct = Ok env ∧ matches env rec ∧ SecretBytes env = Some value ∧
    shrinks (secrets s) m ∧ Manager_Put now (pr_Name rec) value (drop_meta rec) m = (m', Ok meta) ∧ shrinks m' (secrets s') ∧
    redactor s' = Redact.Add (bs (pr_Name rec)) value (redactor s).

(** The only result that stores anything is [StatusStored], save that a store
    that fails may leave anything. *)
Definition fetch_effect (rec : pendingRecord) (s s' : State (T := T) (N := N)) (r : result agent_error FetchOutput) : Prop :=
  match r with
  | Ok out => match fo_Status out with StatusStored => stored_submission rec s s' | _ => quiet s s' end
  | Err (ELost _) => True
  | Err _ => quiet s s'
  end.

Lemma key_of_bytes k x : KeyFromBytes (default [] k) = Ok x → k = Some x.
Proof. unfold KeyFromBytes. case_match eqn:E; [|done]. destruct k as [k|]; [|done]. simpl. by intros [= <-]. Qed.

Lemma quiet_effect rec (m : flow FetchOutput) (s : State (T := T) (N := N)) :
  quietly m → (∀ out, (m s).2 = Ok out → fo_Status out ≠ StatusStored) → fetch_effect rec s (m s).1 (m s).2.
Proof.
  intros Hq Hs. specialize (Hq s). unfold fetch_effect. destruct (m s) as [s' [out|e]]; simpl in *; [|by destruct e].
  specialize (Hs _ eq_refl). by destruct (fo_Status out).
Qed.

Lemma rejected_effect rec st detail msg (s : State (T := T) (N := N)) :
  st ≠ StatusStored → let m := fetch_over rec st detail msg in fetch_effect rec s (m s).1 (m s).2.
Proof.
  intros Hst m. apply quiet_effect; [apply quietly_over|].
  intros out. unfold m, fetch_over, deletePending, store_delete, on_store, mbind, flow_bind.
  destruct (Manager_Delete _ _). simpl. by intros [= <-].
Qed.

Lemma effect_after rec (s s1 s' : State (T := T) (N := N)) r : quiet s s1 → fetch_effect rec s1 s' r → fetch_effect rec s s' r.
Proof.
  intros Hq. assert (quiet s1 s' → quiet s s') as Hk by (intros; by etrans). destruct r as [out|e]; simpl; [|destruct e; auto].
  destruct (fo_Status out); auto.
  intros (n & n' & ct & t & pub & priv & env & value & now & m & m' & meta & E1 & E2 & E3 & E4 & E5 & E6 & Hm & E7 & E8 & E9).
  destruct Hq as [Hq Hr]. exists n, n', ct, t, pub, priv, env, value, now, m, m', meta.
  split_and!; try done; [by etrans|congruence].
Qed.

Lemma bind_step {A B} (m : flow (T := T) (N := N) A) (f : A → flow B) s s1 x : m s = (s1, Ok x) → (m ≫= f) s = f x s1.
Proof. unfold mbind, flow_bind. by intros ->. Qed.

Lemma fetchUploaded_effect rec (s : State (T := T) (N := N)) :
  fetch_effect rec s (fetchUploaded a rec s).1 (fetchUploaded a rec s).2.
Proof.
  unfold fetchUploaded.
  set (fetch := relay_call (Client.Fetch (a_Relay a) (pr_DropID rec) (pr_FetchToken rec))).
  assert (quietly (try fetch)) as Hq by (unfold fetch, relay_call; quiet_steps). specialize (Hq s).
  destruct (try fetch s) as [s1 [res|e]] eqn:Ef; [|unfold try in Ef; by destruct (fetch s)].
  simpl in Hq. rewrite (bind_step _ _ _ _ _ Ef). eapply effect_after; [exact Hq|].
  destruct res as [[ct t]|e]; [|destruct e; try (by apply quiet_effect); case_match; [by apply rejected_effect|by apply quiet_effect]].
  unfold try in Ef. destruct (fetch s) as [s1' r] eqn:Er. injection Ef as -> ->. unfold fetch in Er. apply relay_call_ok in Er as [Hfetch _].
  destruct (KeyFromBytes (default [] (pr_PublicKey rec))) as [pub|e] eqn:Hpub; [|by apply quiet_effect].
  destruct (KeyFromBytes (default [] (pr_PrivateKey rec))) as [priv|e] eqn:Hpriv; [|by apply quiet_effect].
  cbn [lift]. rewrite !(bind_step (mret _) _ s1 s1 _ eq_refl).
  destruct (OpenEnvelope pub priv ct) as [env|e] eqn:Ho; [|by apply rejected_effect].
  destruct (checkEnvelope env rec) as [reason|] eqn:Hc; [by apply rejected_effect|].
  destruct (SecretBytes env) as [value|] eqn:Hv; [|by apply quiet_effect].
  destruct (store_put (pr_Name rec) value (drop_meta rec) s1) as [s2 [stored|e]] eqn:Ep;
    [|unfold store_put, Now, with_net, on_store, mbind, flow_bind in Ep; simpl in Ep; destruct (w_now _); simpl in Ep;
      by destruct (Manager_Put _ _ _ _ _)].
  rewrite (bind_step _ _ _ _ _ Ep). apply store_put_ok in Ep as (Hput & _ & Hred).
  destruct stored as [meta|e]; [|done].
  rewrite (bind_step (redact_add _ _) _ s2 _ tt eq_refl). set (s3 := mkState _ _ _ _).
  pose proof (quietly_deletePending (pr_DropID rec) s3) as Hd.
  destruct (deletePending (pr_DropID rec) s3) as [s4 [[]|e]] eqn:Ed;
    [|unfold deletePending, store_delete, on_store, mbind, flow_bind in Ed; by destruct (Manager_Delete _ _)].
  rewrite (bind_step _ _ _ _ _ Ed), (bind_step (note_fetch _ _ _ _) _ s4 _ tt eq_refl).
  simpl in Hd |- *. destruct Hd as [Hsh Hr].
  eexists _, _, ct, t, pub, priv, env, value, _, (secrets s1), (secrets s2), meta.
  split_and!; try done; [by apply key_of_bytes|by apply key_of_bytes| |by rewrite Hr; simpl; rewrite Hred].
  apply checkEnvelope_matches; [by eapply opened_valid|done].
Qed.

(** A request the agent had pending. *)
Definition was_pending (rec : pendingRecord) (s : State (T := T) (N := N)) : Prop :=
  ∃ id s1 s2, quiet s s1 ∧ loadPending id s1 = (s2, Ok rec).

(** C6. What a fetch stores is a submission of a pending request: the bytes the
    relay handed out for the request's slot and fetch token, decrypted with
    the request's own keys to an envelope whose name, purpose, retention,
    storage and fingerprint are the request's.  A fetch with any other result
    adds no secret to the session or the index and teaches the redactor
    nothing, whatever the relay answers, except that a store that fails may
    leave what it likes. *)
Theorem fetch_stores_matching fuel input (s s' : State (T := T) (N := N)) r :
  Fetch a fuel input s = (s', r) →
  (∃ rec, was_pending rec s ∧ fetch_effect rec s s' r) ∨ (quiet s s' ∧ is_ok r = false).
Proof.
  unfold Fetch. intros Hf.
  pose proof (quietly_fetch_id input s) as H1'. destruct (fetch_id input s) as [s1 [id|e]] eqn:E1; simpl in H1';
    [|unfold mbind, flow_bind in Hf; rewrite E1 in Hf; injection Hf as <- <-; by right].
  rewrite (bind_step _ _ _ _ _ E1) in Hf.
  pose proof (quietly_loadPending id s1) as H2'. destruct (loadPending id s1) as [s2 [rec|e]] eqn:E2; simpl in H2';
    [|unfold mbind, flow_bind in Hf; rewrite E2 in Hf; injection Hf as <- <-; right; split; [by etrans|done]].
  rewrite (bind_step _ _ _ _ _ E2) in Hf.
  pose proof (quietly_await fuel rec (fetch_wait (fi_WaitSeconds input)) s2) as H3'.
  assert (quiet s s2) as Hs2 by by etrans.
  destruct (await_upload a fuel rec (fetch_wait (fi_WaitSeconds input)) s2) as [s3 [[st err]|e]] eqn:E3; simpl in H3';
    [|unfold mbind, flow_bind in Hf; rewrite E3 in Hf; injection Hf as <- <-; right; split; [by etrans|done]].
  rewrite (bind_step _ _ _ _ _ E3) in Hf. left. exists rec. split; [by exists id, s1, s2|].
  apply (effect_after _ _ s3); [by etrans|].
  assert (∀ m : flow FetchOutput, m s3 = (s', r) → fetch_effect rec s3 (m s3).1 (m s3).2 → fetch_effect rec s3 s' r) as Hm
    by by intros m ->.
  apply (Hm _ Hf).
  repeat case_match; first [by apply rejected_effect|apply fetchUploaded_effect|by apply quiet_effect|idtac].
  all: apply quiet_effect; [done|by intros out [= <-]].
Qed.

(** ** What is refused *)

(** C7. What is not marked sendable does not leave: a request to send it is refused
    before anything goes out, with no key made, no message to the relay and no
    link; only the clock was read, the name looked up, and the refusal noted in
    the audit trail. *)
Theorem unsendable_not_sent input (s : State (T := T) (N := N)) lifetime value meta :
  is_ok (Secrets.ValidateName (si_Name input)) = true → ttl a (si_TTL input) s = (s, Ok lifetime) →
  (Manager_Get (w_now (net s)).2 (si_Name input) (secrets s)).2 = Ok (value, meta) → Sendable meta = false →
  Send a input s =
    (mkState (w_now (net s)).1 (Manager_Get (w_now (net s)).2 (si_Name input) (secrets s)).1 (redactor s)
       (trail s ++ if beq (mKind meta) KindPending then [] else [entry B["send_secret"] (si_Name input) [] B["refused_not_sendable"] [] []]),
     Err (if beq (mKind meta) KindPending then EStorage ErrNotFound else ErrNotSendable)).
Proof.
  intros Hn Httl Hget Hs. unfold Send. destruct (Secrets.ValidateName (si_Name input)) as [u|] eqn:En; [|done].
  rewrite (bind_step (lift EStorage (Ok u)) _ s s u eq_refl), (bind_step _ _ _ _ _ Httl).
  unfold mbind at 1, flow_bind at 1. rewrite store_get_eq, Hget. cbn [lift].
  unfold mbind at 1, flow_bind at 1. unfold mret, flow_ret. rewrite Hs.
  destruct (beq (mKind meta) KindPending); [by rewrite app_nil_r|done].
Qed.

(** Bookkeeping records do not show: what is listed is what the manager lists
    less the records of requests and of links. *)
Lemma List_ok (s s' : State (T := T) (N := N)) l :
  List s = (s', Ok l) →
  ∃ all, Manager_List (w_now (net s)).2 (secrets s) = (secrets s', Ok all) ∧
    (∀ m, m ∈ l ↔ m ∈ all ∧ mKind m ≠ KindPending ∧ mKind m ≠ KindSent).
Proof.
  unfold List, store_list, Now. intros (s1 & res & (s2 & t & [Hn ->]%with_net_ok & Hl)%bind_ok & Hf)%bind_ok.
  unfold on_store in Hl. simpl in Hl. rewrite Hn. simpl. destruct (Manager_List _ _) as [m r]. injection Hl as <- <-.
  apply bind_ok in Hf as (s3 & all & [-> ->]%lift_ok & [-> ->]%ret_ok). exists all. split; [done|].
  intros mt. rewrite list_elem_of_filter. unfold isInternalKind, beq. rewrite orb_false_iff, !bool_decide_eq_false. tauto.
Qed.

(** ** Revoking *)

(** What the agent makes of the answer to a revocation: a success is a
    revocation, an error that names a state means that state, and a slot that
    the relay does not know has expired. Anything else says nothing. *)
Definition reported (x : Client.transport_error + Z * (bytes + Client.transport_error)) : option bytes :=
  match x with
  | inr (status, inl body) =>
      if Z.quot status 100 =? 2 then Some Client.StateRevoked
      else match Client.decodeError status (take (Z.to_nat Client.maxResponse) body) with
           | Client.ERelay e =>
               if negb (is_empty (Client.re_State e)) then Some (Client.re_State e)
               else if beq (Client.re_Code e) Client.CodeNotFound then Some Client.StateExpired else None
           | _ => None
           end
  | _ => None
  end.

(** The request that revokes. *)
Definition revocation (path id token : bytes) : Client.HttpRequest :=
  Client.post_request (a_Relay a) path (Client.revoke_req id token) false.

(** One call, and what is made of its answer. *)
Lemma revocation_reported path id token (f : Client.call unit) (s : State (T := T) (N := N)) :
  f = (_ ← Client.post (a_Relay a) path (Client.revoke_req id token) false; mret tt) →
  let x := (Client.http_do (revocation path id token) (net s)).2 in
  ∃ s' e, (res ← try (relay_call f); settle (revokeState res)) s =
      (s', match reported x with Some state => Ok state | None => Err e end) ∧
    secrets s' = secrets s ∧ trail s' = trail s ∧ redactor s' = redactor s.
Proof.
  intros -> x. unfold x, try, relay_call, with_net, Client.post, Client.do_request, reported, mbind, flow_bind, Client.call_bind.
  destruct (Client.http_do _ (net s)) as [n [e|[status [body|e]]]]; simpl; [eexists _, _; done| |eexists _, _; done].
  destruct (Z.quot status 100 =? 2); simpl; [by exists (mkState n (secrets s) (redactor s) (trail s)), ErrNoPending|].
  destruct (Client.decodeError status _) as [e| | | |]; simpl; [|by eexists _, _..].
  destruct (is_empty (Client.re_State e)); simpl; [|by exists (mkState n (secrets s) (redactor s) (trail s)), ErrNoPending].
  destruct (beq (Client.re_Code e) Client.CodeNotFound); simpl; [by exists (mkState n (secrets s) (redactor s) (trail s)), ErrNoPending|by eexists _, _].
Qed.

Definition forgotten (name : string) (f : AuditLog.Event) (state : bytes) : flow (T := T) (N := N) bytes :=
  _ ← (_ ← store_delete name; mret tt : flow unit); _ ← log f; mret state.

Lemma deleted name f (s : State (T := T) (N := N)) state :
  ∃ s', forgotten name f state s = (s', Ok state) ∧
    secrets s' = (Manager_Delete name (secrets s)).1.
Proof.
  unfold forgotten, store_delete, on_store, mbind, flow_bind. destruct (Manager_Delete _ _). by eexists.
Qed.

(** A revocation, once the record is known. *)
Lemma revocation_spec path id token name (f : Client.call unit) entry (s : State (T := T) (N := N)) :
  f = (_ ← Client.post (a_Relay a) path (Client.revoke_req id token) false; mret tt) →
  let run := (res ← try (relay_call f); state ← settle (revokeState res); forgotten name (entry state) state) s in
  match reported (Client.http_do (revocation path id token) (net s)).2 with
  | Some state => run.2 = Ok state ∧ secrets run.1 = (Manager_Delete name (secrets s)).1
  | None => is_ok run.2 = false ∧ secrets run.1 = secrets s
  end.
Proof.
  intros Hf run. subst run. destruct (revocation_reported path id token f s Hf) as (s1 & e & Hc & Hs & _).
  unfold mbind in Hc |- *. unfold flow_bind in Hc |- *. destruct (try (relay_call f) s) as [s0 [res|e0]]; simpl in Hc |- *.
  2:{ destruct (reported _); [done|]. by injection Hc as -> ->. }
  rewrite Hc. destruct (reported _) as [state|]; [|done].
  pose proof (deleted name (entry state) s1 state) as (s2 & -> & Hd). simpl. by rewrite Hd, Hs.
Qed.
End flows.

(** Errors that say nothing, for concrete runs. *)
Definition plain_errors : ErrorText := {| error_text _ := B["failed"] |}.
