(* ===== verification/Run.v ===== *)
(** Running a program with secrets in its environment: internal/agent/run.go.

    The program itself is outside of the model: it is given its arguments, its
    environment and its input, and comes back with what it wrote.  So are
    regular expressions that a caller brings ([Regexp]). *)
From S2P Require Import Prelude GoStrings GoText GoTime GoFloat GoOs Crypto Envelope Secrets Manager AuditLog Agent ManagerProps.
From S2P Require Import AgentProps.
From S2P Require AgentConfig Redact Client Config EnvelopeProps.
From Stdlib Require Import Strings.Byte.

Import Client (w_now).

Record CaptureSpec := mkCapture { cs_Name : string; cs_Pattern : bytes; cs_Retention : bytes; cs_Purpose : bytes }.

(** [in_Env] is in the order in which the range over the map delivers it. *)
Record RunInput := mkRunInput {
  in_Command : list bytes;
  in_Env : list (bytes * string);
  in_Cwd : bytes;
  in_Stdin : bytes;
  in_TimeoutSeconds : Z;
  in_CaptureAs : option CaptureSpec;
  in_DiscardOutput : bool;
  in_Consume : bool;
}.

Record RunOutput := mkRunOutput {
  out_ExitCode : Z;
  out_Stdout : bytes;
  out_Stderr : bytes;
  out_Truncated : bool;
  out_TimedOut : bool;
  out_StoredAs : string;
  out_DurationMs : Z;
  out_Message : bytes;
}.

Definition defaultRunTimeout : Duration := 120 * Second.
Definition maxRunTimeout : Duration := Hour.
Definition maxCapturedBytes : Z := 2 ^ 20.

(** [^[A-Za-z_][A-Za-z0-9_]{0,255}$] *)
Definition env_first (b : byte) : bool := is_upper b || is_lower b || bool_decide (b = x5f).
Definition env_next (b : byte) : bool := env_first b || is_digit b.
Definition envNameRe (s : bytes) : bool :=
  match s with [] => false | b :: rest => env_first b && forallb env_next rest && (zlen rest <=? 255) end.

(** Regular expressions that a caller brings. *)
Class Regexp := {
  regex : Type;
  re_Compile : bytes → option regex;
  re_NumSubexp : regex → Z;
  re_FindSubmatch : regex → bytes → option (list bytes);
}.

Inductive capture_error := PrintedNothing | NoMatch | CaptureTooLarge.

Definition capture_error_text (e : capture_error) : bytes :=
  match e with
  | PrintedNothing => B["the command printed nothing"]
  | NoMatch => B["no match"]
  | CaptureTooLarge => B["storage: value too large"]
  end.

(** * Buffers *)

(** [limitedBuffer.Write]: the first [max] bytes are kept. *)
Definition limited_Write (max : Z) (buf p : bytes) : bytes :=
  let room := max - zlen buf in
  if 0 <? room then buf ++ (if room <? zlen p then take (Z.to_nat room) p else p) else buf.

Definition limitedBuffer (max : Z) (writes : list bytes) : bytes := foldl (limited_Write max) [] writes.

Section run.
Context {T : Type} `{Backend T} {N : Type} `{!AgentWorld N} `{!Programs N} `{Primitives} `{Unicode} `{ErrorText} `{Regexp}.
Context (a : Agent).

Abbreviation flow := (Agent.flow (T := T) (N := N)).

Definition allowed (program : bytes) : bool :=
  let l := AgentConfig.AllowedCommands (AgentConfig.RunWithSecret (a_Config a)) in
  let base := Base program in
  bool_decide (l = []) || existsb (λ p, beq p program || beq p base || beq (TrimSuffix base (Ext base)) p) l.

(** The text shown and whether it was cut. *)
Definition truncate (s : bytes) : bytes * bool :=
  let max := AgentConfig.MaxOutput (a_Config a) in
  if max <? zlen s then (take (Z.to_nat max) s ++ [x0a] ++ B["[truncated]"], true) else (s, false).

(** An expression that does not compile was refused before ([check_capture]). *)
Definition extractCapture (raw pattern : bytes) : result capture_error bytes :=
  if is_empty pattern then
    let v := TrimSpace raw in
    if is_empty v then Err PrintedNothing else if MaxValueBytes <? zlen v then Err CaptureTooLarge else Ok v
  else
    match re_Compile pattern with
    | None => Err NoMatch
    | Some re =>
        match re_FindSubmatch re raw with
        | Some (_ :: m :: _) =>
            if is_empty m then Err NoMatch else if MaxValueBytes <? zlen m then Err CaptureTooLarge else Ok m
        | _ => Err NoMatch
        end
    end.

Definition capture_retention (c : CaptureSpec) : bytes :=
  if is_empty (cs_Retention c) then AgentConfig.Retention (a_Config a) else cs_Retention c.

(** The checks of [capture_as] before anything runs. *)
Definition check_capture (c : CaptureSpec) : flow unit :=
  _ ← lift EStorage (Secrets.ValidateName (cs_Name c));
  _ ← (if is_empty (cs_Pattern c) then mret tt
       else match re_Compile (cs_Pattern c) with
            | None => throw EPattern
            | Some re => if re_NumSubexp re =? 1 then mret tt else throw EPattern
            end);
  now ← Now;
  _ ← lift EStorage (ParseRetention (capture_retention c) now);
  mret tt.

Definition run_timeout (n : Z) : Duration :=
  let timeout := if 0 <? n then seconds n else defaultRunTimeout in
  if maxRunTimeout <? timeout then maxRunTimeout else timeout.

(** The loop over [Env]: the injected entries and the names of the secrets. *)
Fixpoint resolve_env (env : list (bytes * string)) : flow (list bytes * list string) :=
  match env with
  | [] => mret ([], [])
  | (envName, secretName) :: env =>
      if negb (envNameRe envName) then throw EEnvName
      else
        _ ← lift EStorage (Secrets.ValidateName secretName);
        res ← store_get secretName;
        found ← lift EStorage res;
        if isInternalKind (mKind found.2) then throw (EStorage ErrNotFound)
        else
          _ ← redact_add secretName found.1;
          rest ← resolve_env env;
          mret ((envName ++ B["="] ++ found.1) :: rest.1, secretName :: rest.2)
  end.

(** The inherited environment without what is overridden, then what is injected. *)
Definition child_env (inherited : list bytes) (env : list (bytes * string)) (injected : list bytes) : list bytes :=
  filter (λ kv, (Cut kv x3d).1.1 ∉ env.*1) inherited ++ injected.

Definition environ : flow (list bytes) := λ s, (s, Ok (Environ (net s))).

Fixpoint consume (names : list string) : flow unit :=
  match names with
  | [] => mret tt
  | n :: names => _ ← store_delete n; consume names
  end.

Definition run_entry (program result detail : bytes) (fields : list (string * bytes)) : Event :=
  entry B["run_with_secret"] (sb (Base program)) [] result detail fields.

(** The exit code and whether the run timed out; an error that is neither an
    exit nor the deadline ends the flow. *)
Definition run_outcome (program : bytes) (names : list string) (r : run_result) : flow (Z * bool) :=
  match res_error r with
  | None => mret (0, res_deadline r)
  | Some (RunExit code) => mret (code, res_deadline r)
  | Some (RunOther text) =>
      if res_deadline r then mret (-1, true)
      else
        text ← redacted text;
        _ ← log (run_entry program B["start_failed"] text [("secrets", JoinByte (bs <$> names) x2c)]);
        throw (EStart text)
  end.

Definition capture_meta (c : CaptureSpec) : Metadata :=
  mkMetadata "" [] (capture_retention c) zero_time zero_time (cs_Purpose c) SourceCapture true [] 0 [].

Definition capture_message (c : CaptureSpec) (meta : Metadata) : bytes :=
  B["Stored the command output as "] ++ bs (cs_Name c) ++ B[" ("] ++ Itoa (SizeBytes meta) ++ B[" bytes) in "] ++
  BackendName meta ++ B[". It is marked sendable, so send_secret can hand it to a human."].

Definition no_match_message : bytes :=
  B["The command ran but nothing matched capture_as.pattern; nothing was stored."].

(** The end of [Run] with [capture_as]. *)
Definition capture (program : bytes) (fields : list (string * bytes)) (c : CaptureSpec) (out : RunOutput) (stdout stderr : bytes) : flow RunOutput :=
  let with_stderr (stored : string) (message : bytes) (err : bytes) : RunOutput :=
    let '(shown, cut) := truncate err in
    mkRunOutput (out_ExitCode out) [] shown cut (out_TimedOut out) stored (out_DurationMs out) message in
  match extractCapture stdout (cs_Pattern c) with
  | Err e =>
      _ ← log (run_entry program B["capture_failed"] (capture_error_text e) fields);
      err ← redacted stderr; mret (with_stderr "" no_match_message err)
  | Ok captured =>
      res ← store_put (cs_Name c) captured (capture_meta c);
      match res with
      | Err e => throw (ECapture e)
      | Ok meta =>
          _ ← redact_add (cs_Name c) captured;
          err ← redacted stderr;
          _ ← log (run_entry program B["captured"] [] (fields ++ [("stored_as", bs (cs_Name c))]));
          mret (with_stderr (cs_Name c) (capture_message c meta) err)
      end
  end.

(** The end of [Run] without it. *)
Definition show (program : bytes) (fields : list (string * bytes)) (input : RunInput) (timeout : Duration) (out : RunOutput) (stdout stderr : bytes) : flow RunOutput :=
  shown ← (if in_DiscardOutput input then mret ([], [], false)
           else
             o ← redacted stdout; e ← redacted stderr;
             let '(o, cut1) := truncate o in let '(e, cut2) := truncate e in mret (o, e, cut1 || cut2));
  _ ← log (run_entry program B["ran"] [] fields);
  mret (mkRunOutput (out_ExitCode out) shown.1.1 shown.1.2 shown.2 (out_TimedOut out) "" (out_DurationMs out)
          (if out_TimedOut out then B["The command was stopped after "] ++ Duration_String timeout ++ B["."] else [])).

Definition run_command (input : RunInput) (env : list bytes) : command :=
  mkCommand (in_Command input) env (in_Cwd input) (in_Stdin input) (run_timeout (in_TimeoutSeconds input)).

Definition run_fields (out : RunOutput) (names : list string) : list (string * bytes) :=
  [("exit_code", Itoa (out_ExitCode out)); ("secrets", JoinByte (bs <$> names) x2c); ("duration_ms", Itoa (out_DurationMs out))].

Definition Run (input : RunInput) : flow RunOutput :=
  if match in_Command input with [] => true | program :: _ => is_empty (TrimSpace program) end then throw ECommand
  else if negb (allowed (hd [] (in_Command input))) then throw ErrNotAllowed
  else
    let program := hd [] (in_Command input) in
    _ ← match in_CaptureAs input with Some c => check_capture c | None => mret tt end;
    secrets ← resolve_env (in_Env input);
    inherited ← environ;
    start ← Now;
    let cmd := run_command input (child_env inherited (in_Env input) secrets.1) in
    r ← with_net (run_program cmd);
    stop ← Now;
    outcome ← run_outcome program secrets.2 r;
    _ ← (if in_Consume input then consume secrets.2 else mret tt);
    let stdout := limitedBuffer maxCapturedBytes (res_stdout r) in
    let stderr := limitedBuffer maxCapturedBytes (res_stderr r) in
    let out := mkRunOutput outcome.1 [] [] false outcome.2 "" ((stop - start) ÷ Millisecond) [] in
    match in_CaptureAs input with
    | Some c => capture program (run_fields out secrets.2) c out stdout stderr
    | None => show program (run_fields out secrets.2) input (cmd_Timeout cmd) out stdout stderr
    end.
End run.

(** * What a run guarantees

    What running a program with secrets guarantees: what the program is given,
    and that none of it comes back in what is shown. *)

Import Client (w_now).

(** * Buffers *)

(** However the program cuts its output, the buffer holds its first bytes. *)
Lemma limitedBuffer_prefix max writes : 0 <= max → limitedBuffer max writes = take (Z.to_nat max) (mjoin writes).
Proof.
  intros Hmax. unfold limitedBuffer. assert (∀ buf, zlen buf <= max →
    foldl (limited_Write max) buf writes = take (Z.to_nat max) (buf ++ mjoin writes)) as Hb.
  { induction writes as [|p writes IH]; intros buf Hl; cbn [foldl mjoin list_join].
    - rewrite app_nil_r, take_ge; [done|]. unfold zlen in *. lia.
    - rewrite IH.
      + unfold limited_Write. destruct (Z.ltb_spec 0 (max - zlen buf)).
        * destruct (Z.ltb_spec (max - zlen buf) (zlen p)); [|by rewrite <- app_assoc].
          rewrite <- app_assoc, !(take_app buf), !take_app, !take_take. unfold zlen in *. f_equal.
          rewrite length_take. replace (Z.to_nat (max - Z.of_nat (length buf))) with (Z.to_nat max - length buf)%nat by lia.
          rewrite Nat.min_id. replace (_ - _ - _ `min` _)%nat with 0%nat by lia.
          replace (Z.to_nat max - length buf - length p)%nat with 0%nat by lia. by rewrite !take_0.
        * assert (zlen buf = max) as Hfull by lia. unfold zlen in *.
          rewrite !take_app_le by (rewrite <- ?Hfull, ?Nat2Z.id; lia). done.
      + unfold limited_Write. pose proof (zlen_nonneg p). destruct (Z.ltb_spec 0 (max - zlen buf)); [|done].
        destruct (Z.ltb_spec (max - zlen buf) (zlen p)); unfold zlen in *; rewrite length_app, ?length_take; lia. }
  apply (Hb []). done.
Qed.

(** * What a cut text can contain *)

Lemma truncate_infix {T} `{Backend T} (a : Agent) s f :
  x0a ∉ f → ¬ infix f B["[truncated]"] → infix f (truncate a s).1 → infix f s.
Proof.
  intros Hf Hno. unfold truncate. destruct (_ <? _); simpl; [|done].
  intros [Hi|Hi]%infix_around; [|done..]. etrans; [exact Hi|]. exists [], (drop (Z.to_nat (AgentConfig.MaxOutput (a_Config a))) s).
  by rewrite take_drop.
Qed.

Section run.
Context {T : Type} `{BackendOk T} {N : Type} `{!AgentWorld N} `{!Programs N} `{PrimitivesOk} `{Unicode} `{ErrorText} `{Regexp}.
Context (a : Agent).

(** * What the program is given *)

(** The secrets that are stored under the names, looked up one after the other,
    each at its reading of the clock; none of them is one of the agent's own
    records. *)
Fixpoint stored_values (env : list (bytes * string)) (m : Manager T) (n : N) : option (list bytes * Manager T * N) :=
  match env with
  | [] => Some ([], m, n)
  | (_, name) :: env =>
      let '(n, now) := w_now n in
      match Manager_Get now name m with
      | (m, Ok (value, meta)) =>
          if isInternalKind (mKind meta) then None
          else '(values, m, n) ← stored_values env m n; Some (value :: values, m, n)
      | (_, Err _) => None
      end
  end.

(** The entries of the environment that carry the values. *)
Definition env_entries (env : list (bytes * string)) (values : list bytes) : list bytes :=
  zip_with (λ x value, x.1 ++ B["="] ++ value) env values.

(** Every form of a value is registered. *)
Definition covered (r : Redact.Redactor) (value : bytes) : Prop :=
  Redact.minRedactLen <= zlen value →
  ∀ f, f ∈ Redact.forms_of value → Redact.minRedactLen <= zlen f → f ∈ Redact.f_bytes <$> r.

Definition grown (r r' : Redact.Redactor) : Prop :=
  (Redact.redactor_reaches r → Redact.redactor_reaches r') ∧ Redact.f_bytes <$> r ⊆ Redact.f_bytes <$> r'.

#[local] Instance grown_preorder : PreOrder grown.
Proof. split; [done|]. intros x y z [] []. split; [auto|by etrans]. Qed.

Lemma grown_Add r name value : grown r (Redact.Add name value r).
Proof. split; [by constructor|]. intros f. apply Redact.Add_keeps. Qed.

Lemma covered_grown r r' value : grown r r' → covered r value → covered r' value.
Proof. intros [_ Hsub] Hc Hl f Hf Hf6. apply Hsub. by apply Hc. Qed.

Lemma redact_add_ok name value (s s' : State (T := T) (N := N)) x :
  redact_add name value s = (s', Ok x) → redactor s' = Redact.Add (bs name) value (redactor s).
Proof. by intros [= <-]. Qed.

Lemma resolve_env_ok env (s s' : State (T := T) (N := N)) injected names :
  resolve_env env s = (s', Ok (injected, names)) →
  grown (redactor s) (redactor s') ∧
  ∃ values, stored_values env (secrets s) (net s) = Some (values, secrets s', net s') ∧
    injected = env_entries env values ∧ Forall (covered (redactor s')) values.
Proof.
  revert s injected names. induction env as [|[e n] env IH]; intros s injected names Hr; simpl in Hr.
  - injection Hr as <- <- _. split; [done|]. by exists [].
  - destruct (envNameRe e) eqn:Ee; [|done]. simpl in Hr.
    apply bind_ok in Hr as (s1 & [] & [-> _]%lift_ok & Hr). apply bind_ok in Hr as (s2 & res & Hg & Hr).
    rewrite store_get_eq in Hg. injection Hg as <- Hres.
    apply bind_ok in Hr as (s3 & [value meta] & [-> ->]%lift_ok & Hr). simpl in Hr.
    destruct (isInternalKind (mKind meta)) eqn:Ek; [done|].
    apply bind_ok in Hr as (s4 & [] & Hadd & Hr). apply bind_ok in Hr as (s5 & [inj' names'] & Hrest & [-> E]%ret_ok).
    injection E as -> _. injection Hadd as <-. destruct (IH _ _ _ Hrest) as [Hgrow (values & Hv & Hinj & Hcov)]. cbn [redactor secrets net] in *.
    split; [etrans; [apply grown_Add|exact Hgrow]|]. exists (value :: values). split_and!.
    + cbn [stored_values]. destruct (w_now (net s)) as [n1 now]. cbn [fst snd] in *.
      destruct (Manager_Get now n (secrets s)) as [m1 r1]. cbn [fst snd] in *. subst r1. by rewrite Ek, Hv.
    + simpl. by rewrite Hinj.
    + constructor; [|done]. eapply covered_grown; [exact Hgrow|]. intros Hl f. by apply Redact.Add_registers.
Qed.

(** * What is shown *)

(** Text that went through the redactor and was cut. *)
Definition screened (r : Redact.Redactor) (text : bytes) : Prop :=
  text = [] ∨ ∃ raw, text = (truncate a (Redact.Redact r raw)).1.

Lemma screened_hides r text f :
  Redact.redactor_reaches r → Redact.apart r f → screened r text → f ∈ Redact.f_bytes <$> r →
  x0a ∉ f → ¬ infix f B["[truncated]"] → ¬ infix f text.
Proof.
  intros Hr Ha [->|(raw & ->)] Hf Hnl Hno Hi.
  - destruct Hi as (u & v & E). destruct u, f; try done. pose proof (Redact.redactor_forms_ok _ Hr) as (_ & _ & Hl).
    apply list_elem_of_fmap in Hf as (g & Eg & Hg). eapply Forall_forall in Hl; [|exact Hg].
    unfold Redact.long_enough in Hl. rewrite <- Eg in Hl. by vm_compute in Hl.
  - apply truncate_infix in Hi; [|done..]. by eapply Redact.registered_hidden.
Qed.

Lemma redacted_ok text (s s' : State (T := T) (N := N)) out :
  redacted text s = (s', Ok out) → s' = s ∧ out = Redact.Redact (redactor s) text.
Proof. by intros [= <- <-]. Qed.

(** What is shown of what the program wrote. *)
Definition shown_text (r : Redact.Redactor) (writes : list bytes) : bytes :=
  (truncate a (Redact.Redact r (limitedBuffer maxCapturedBytes writes))).1.

Lemma show_ok program fields input timeout out stdout stderr (s s' : State (T := T) (N := N)) out' :
  show a program fields input timeout out stdout stderr s = (s', Ok out') →
  redactor s' = redactor s ∧
  out_Stdout out' = (if in_DiscardOutput input then [] else (truncate a (Redact.Redact (redactor s) stdout)).1) ∧
  out_Stderr out' = (if in_DiscardOutput input then [] else (truncate a (Redact.Redact (redactor s) stderr)).1).
Proof.
  unfold show. intros (s1 & [[o e] cut] & Hs & (s0 & [] & ->%log_ok & [-> ->]%ret_ok)%bind_ok)%bind_ok. simpl. destruct (in_DiscardOutput input).
  - by apply ret_ok in Hs as [-> [= -> -> _]].
  - apply bind_ok in Hs as (s2 & o1 & [-> ->]%redacted_ok & Hs). apply bind_ok in Hs as (s3 & e1 & [-> ->]%redacted_ok & Hs).
    destruct (truncate a (Redact.Redact (redactor s) stdout)) as [o2 c1] eqn:E1, (truncate a (Redact.Redact (redactor s) stderr)) as [e2 c2] eqn:E2.
    by apply ret_ok in Hs as [-> [= -> -> _]].
Qed.

Lemma capture_ok program fields c out stdout stderr (s s' : State (T := T) (N := N)) out' :
  capture a program fields c out stdout stderr s = (s', Ok out') →
  grown (redactor s) (redactor s') ∧ out_Stdout out' = [] ∧ out_Stderr out' = (truncate a (Redact.Redact (redactor s') stderr)).1.
Proof.
  unfold capture. destruct (extractCapture stdout (cs_Pattern c)) as [captured|e].
  - intros (s1 & res & (_ & _ & Hr1)%store_put_ok & Hc)%bind_ok. destruct res as [meta|]; [|done].
    apply bind_ok in Hc as (s2 & [] & Hadd%redact_add_ok & Hc). apply bind_ok in Hc as (s3 & err & [-> ->]%redacted_ok & Hc).
    apply bind_ok in Hc as (s4 & [] & ->%log_ok & [-> ->]%ret_ok). cbn [redactor].
    rewrite Hadd, Hr1. split; [apply grown_Add|]. by destruct (truncate _ _) as [shown cut].
  - intros (s1 & [] & ->%log_ok & Hc)%bind_ok. apply bind_ok in Hc as (s2 & err & [-> ->]%redacted_ok & [-> ->]%ret_ok).
    cbn [redactor]. split; [done|]. by destruct (truncate _ _) as [shown cut].
Qed.

(** ** The steps in between keep the redactor *)

Definition settled {A} (m : flow (T := T) (N := N) A) : Prop := ∀ s s' x, m s = (s', Ok x) → redactor s' = redactor s.

Lemma settled_bind {A B} (m : flow (T := T) (N := N) A) (f : A → flow B) :
  settled m → (∀ x, settled (f x)) → settled (m ≫= f).
Proof. intros Hm Hf s s' y (s1 & x & Hs1 & Hs2)%bind_ok. by rewrite (Hf _ _ _ _ Hs2), (Hm _ _ _ Hs1). Qed.

Lemma settled_ret {A} (x : A) : settled (mret x).
Proof. by intros s s' y [-> _]%ret_ok. Qed.

Lemma settled_throw {A} e : settled (throw (A := A) e).
Proof. done. Qed.

Lemma settled_lift {E A} (f : E → agent_error) (r : result E A) : settled (lift f r).
Proof. by intros s s' x [-> _]%lift_ok. Qed.

Lemma settled_net {A} (f : N → N * A) : settled (with_net f).
Proof. by intros s s' x [_ ->]%with_net_ok. Qed.

Lemma settled_store {A} (f : Manager T → Manager T * result storage_error A) : settled (on_store f).
Proof. intros s s' x Hs. unfold on_store in Hs. destruct (f (secrets s)). by injection Hs as <-. Qed.

Lemma settled_redacted text : settled (redacted text).
Proof. by intros s s' x [-> _]%redacted_ok. Qed.

Lemma settled_log e : settled (log e).
Proof. by intros s s' x ->%log_ok. Qed.

Ltac settled_steps :=
  repeat first
  [ progress intros
  | apply settled_bind | apply settled_ret | apply settled_throw | apply settled_lift | apply settled_net | apply settled_store
  | apply settled_redacted | apply settled_log
  | match goal with |- settled (match ?x with _ => _ end) => destruct x end ].

(** The checks of [capture_as] read the clock once. *)
Definition checked (input : RunInput) (n : N) : N := match in_CaptureAs input with Some _ => (w_now n).1 | None => n end.

Lemma check_capture_ok c (s s' : State (T := T) (N := N)) u :
  check_capture a c s = (s', Ok u) → secrets s' = secrets s ∧ redactor s' = redactor s ∧ net s' = (w_now (net s)).1.
Proof.
  unfold check_capture. intros (s1 & [] & [-> _]%lift_ok & Hc)%bind_ok. apply bind_ok in Hc as (s2 & [] & Hpat & Hc).
  assert (s2 = s) as ->.
  { destruct (is_empty _); [by apply ret_ok in Hpat as [-> _]|]. destruct (re_Compile _); [|done].
    destruct (_ =? 1); [by apply ret_ok in Hpat as [-> _]|done]. }
  apply bind_ok in Hc as (s3 & now & [Hn ->]%with_net_ok & Hc). apply bind_ok in Hc as (s4 & r & [-> _]%lift_ok & [-> _]%ret_ok).
  simpl. by rewrite Hn.
Qed.

Lemma settled_outcome program names r : settled (run_outcome program names r).
Proof. unfold run_outcome. settled_steps. Qed.

Lemma settled_consume names : settled (consume names).
Proof. induction names as [|n names IH]; simpl; unfold store_delete; settled_steps. exact IH. Qed.

(** * Running *)

(** A run that succeeds: the values it found, the program it ran with them, and
    what it shows of what the program wrote. *)
Lemma Run_ok input (s s' : State (T := T) (N := N)) out :
  Run a input s = (s', Ok out) →
  grown (redactor s) (redactor s') ∧
  ∃ values m n n' r, stored_values (in_Env input) (secrets s) (checked input (net s)) = Some (values, m, n) ∧
    run_program (run_command input (child_env (Environ n) (in_Env input) (env_entries (in_Env input) values))) (w_now n).1 = (n', r) ∧
    Forall (covered (redactor s')) values ∧
    (out_Stdout out = [] ∨ out_Stdout out = shown_text (redactor s') (res_stdout r)) ∧
    (out_Stderr out = [] ∨ out_Stderr out = shown_text (redactor s') (res_stderr r)).
Proof.
  unfold Run. destruct (match in_Command input with [] => _ | _ => _ end); [done|]. destruct (negb _); [done|].
  intros (s1 & [] & Hc & Hr)%bind_ok.
  assert (secrets s1 = secrets s ∧ redactor s1 = redactor s ∧ net s1 = checked input (net s)) as (Em & E1 & En).
  { unfold checked. destruct (in_CaptureAs input); [by eapply check_capture_ok|by apply ret_ok in Hc as [-> _]]. }
  apply bind_ok in Hr as (s2 & [injected names] & [Hg2 (values & Hv & -> & Hcov)]%resolve_env_ok & Hr).
  apply bind_ok in Hr as (s3 & inherited & E3 & Hr). injection E3 as <- <-.
  apply bind_ok in Hr as (s4 & start & [Hstart E4]%with_net_ok & Hr).
  apply bind_ok in Hr as (s5 & r & [Hprog E5]%with_net_ok & Hr). apply (f_equal redactor) in E4, E5. simpl in E4, E5.
  apply bind_ok in Hr as (s6 & stop & E6%settled_net & Hr). apply bind_ok in Hr as (s7 & outcome & E7%settled_outcome & Hr).
  apply bind_ok in Hr as (s8 & [] & Hcons & Hr).
  assert (redactor s8 = redactor s7) as E8.
  { destruct (in_Consume input); [by eapply settled_consume|by apply ret_ok in Hcons as [-> _]]. }
  assert (redactor s8 = redactor s2) as E by congruence. rewrite E1 in Hg2. rewrite Em, En in Hv.
  assert (grown (redactor s8) (redactor s') ∧
    (out_Stdout out = [] ∨ out_Stdout out = shown_text (redactor s') (res_stdout r)) ∧
    (out_Stderr out = [] ∨ out_Stderr out = shown_text (redactor s') (res_stderr r))) as (Hg8 & Ho & Herr).
  { destruct (in_CaptureAs input) as [c|].
    - apply capture_ok in Hr as (Hg & Hout & He). split; [exact Hg|]. split; [by left|by right].
    - apply show_ok in Hr as (-> & Ho & He). split; [done|]. destruct (in_DiscardOutput input); split; auto. }
  rewrite E in Hg8. split; [by etrans|]. exists values, (secrets s2), (net s2), (net s5), r. split; [exact Hv|].
  split; [by rewrite Hstart|]. split; [|done]. eapply Forall_impl; [exact Hcov|]. intros value. by apply covered_grown.
Qed.

Lemma shown_screened r text writes : text = [] ∨ text = shown_text r writes → screened r text.
Proof. intros [->| ->]; [by left|right; by eexists]. Qed.

(** C40. What a run that succeeds puts into the program's environment is what
    is stored under the names asked for at that moment, never one of the
    agent's own records, and none of it comes back.  What is shown of the
    program's output and of its errors is nothing, or what this program wrote,
    as far as the buffer holds it, redacted and cut; and it contains no value of
    six bytes and more, nor its base64, hexadecimal, URL or JSON form, whatever
    the program writes and wherever the text is cut.  The form must be of six
    bytes and more, free of line feeds and brackets, and not be part of the
    mark that stands for the cut text or of what the brackets of a redaction
    enclose. *)
Theorem run_hides_secrets input (s s' : State (T := T) (N := N)) out :
  Redact.redactor_reaches (redactor s) → Run a input s = (s', Ok out) →
  ∃ values m n n' r, stored_values (in_Env input) (secrets s) (checked input (net s)) = Some (values, m, n) ∧
    run_program (run_command input (child_env (Environ n) (in_Env input) (env_entries (in_Env input) values))) (w_now n).1 = (n', r) ∧
    (out_Stdout out = [] ∨ out_Stdout out = shown_text (redactor s') (res_stdout r)) ∧
    (out_Stderr out = [] ∨ out_Stderr out = shown_text (redactor s') (res_stderr r)) ∧
    ∀ value f, value ∈ values → Redact.minRedactLen <= zlen value → f ∈ Redact.forms_of value → Redact.minRedactLen <= zlen f →
      Redact.apart (redactor s') f → x0a ∉ f → ¬ infix f B["[truncated]"] →
      ¬ infix f (out_Stdout out) ∧ ¬ infix f (out_Stderr out).
Proof.
  intros Hreach Hrun. destruct (Run_ok _ _ _ _ Hrun) as ([Hg _] & values & m & n & n' & r & Hv & Hprog & Hall & Ho & He).
  exists values, m, n, n', r. split_and!; [done..|]. intros value f Hin Hl Hf Hf6 Hap Hnl Hno.
  eapply Forall_forall in Hall; [|exact Hin]. pose proof (Hall Hl f Hf Hf6) as Hreg. specialize (Hg Hreach).
  split; eapply screened_hides; try done; by eapply shown_screened.
Qed.
End run.

(** * A program that prints its environment *)

#[local] Existing Instance Config.config_ascii.
#[local] Existing Instance EnvelopeProps.toy_primitives.
#[local] Existing Instance EnvelopeProps.toy_primitives_ok.
#[local] Existing Instance Client.down.

Definition sample_agent_world : AgentWorld Time :=
  {| agent_net := Client.down; w_random n := (n, EnvelopeProps.sample_random); w_password n := (n, None) |}.
#[local] Existing Instance sample_agent_world.
#[local] Existing Instance plain_errors.

(** It writes its environment in pieces of seven bytes. *)
Fixpoint pieces (fuel : nat) (s : bytes) : list bytes :=
  match fuel, s with
  | S fuel, _ :: _ => take 7 s :: pieces fuel (drop 7 s)
  | _, _ => []
  end.

Definition sample_programs : Programs Time := {|
  Environ _ := [B["HOME=/root"]; B["TOKEN=old"]];
  run_program c n :=
    let text := mjoin ((λ kv, kv ++ [x0a]) <$> cmd_Env c) in
    (n + Second, mkRunResult (pieces (length text) text) [HexEncode B["hunter22"]] (Some (RunExit 3)) false);
|}.
#[local] Existing Instance sample_programs.

(** No pattern compiles. *)
Definition no_patterns : Regexp :=
  {| regex := Empty_set; re_Compile _ := None; re_NumSubexp _ := 0; re_FindSubmatch _ _ := None |}.
#[local] Existing Instance no_patterns.

Definition sample_run_agent : Agent :=
  mkAgent (AgentConfig.mkConfig B["https://relay.example"] [] [] B["memory"] [] [] [] false (AgentConfig.mkRunConfig [B["env"]] 60) [] AgentConfig.no_backends)
    (Client.mkClient B["https://relay.example"] [] []) B["https://relay.example"] false.

Definition sample_run_state : State (T := Secrets.Memory) (N := Time) :=
  mkState (100 * Second)
    (Manager_Put (100 * Second) "db" B["hunter22"]
       (mkMetadata "" [] RetentionUntilRevoked 0 0 B["demo"] [] false [] 0 KindSecret) sample_manager).1
    Redact.NewRedactor [].

Definition sample_run_input : RunInput :=
  mkRunInput [B["/usr/bin/env"]; B["-0"]] [(B["TOKEN"], "db"%string); (B["PASSWORD"], "db"%string)] [] [] 0 None false false.

Abbreviation sample_run := (Run sample_run_agent sample_run_input sample_run_state).

Definition sample_run_output : RunOutput :=
  mkRunOutput 3 (B["HOME=/root"] ++ [x0a] ++ B["TOKEN=[redacted:db]"] ++ [x0a] ++ B["PASSWORD=[redacted:db]"] ++ [x0a])
    B["[redacted:db]"] false false "" 1000 [].

Lemma sample_run_ok : sample_run = (sample_run.1, Ok sample_run_output).
Proof. apply injective_projections; [done|]. vm_compute. reflexivity. Qed.

Lemma sample_values :
  (λ x, x.1.1) <$> stored_values (in_Env sample_run_input) (secrets sample_run_state)
      (checked sample_run_input (net sample_run_state)) = Some [B["hunter22"]; B["hunter22"]].
Proof. vm_compute. reflexivity. Qed.

Lemma run_hides_secrets_witness :
  out_ExitCode sample_run_output = 3 ∧ ¬ infix B["hunter22"] (out_Stdout sample_run_output).
Proof.
  split; [reflexivity|].
  destruct (run_hides_secrets sample_run_agent sample_run_input sample_run_state sample_run.1 sample_run_output)
    as (values & m & n & n' & r & Hv & _ & _ & _ & Hh); [constructor|exact sample_run_ok|].
  assert (values = [B["hunter22"]; B["hunter22"]]) as -> by exact (Some_inj _ _ (eq_trans (eq_sym (f_equal (fmap (λ x, x.1.1)) Hv)) sample_values)).
  assert (Redact.minRedactLen <= zlen B["hunter22"]) as Hlen by (apply Z.leb_le; vm_compute; reflexivity).
  apply (Hh B["hunter22"] B["hunter22"]); [by left|exact Hlen|by left|exact Hlen|..].
  - apply Redact.apart_check. vm_compute. reflexivity.
  - apply (bool_decide_unpack _). vm_compute. exact I.
  - apply Contains_false. vm_compute. reflexivity.
Defined.

(** A limit of more than 292 years is no limit to the program but its end at
    once: the seconds wrap around before they are compared with the hour. *)
Example run_timeout_wraps : run_timeout 9223372037 < 0 ∧ run_timeout 3601 = Hour ∧ run_timeout 0 = 120 * Second.
Proof. split_and!; vm_compute; reflexivity. Qed.
