(* ===== verification/Mcp.v ===== *)
(** The tools of the MCP server: internal/mcpserver/server.go.

    The protocol library is outside of the model: it decodes a call into the
    input of a tool and encodes the answer.  A handler is a function of the
    server's state, which is the agent with its configuration and the state of
    the agent's flows. *)
From S2P Require Import Prelude GoStrings GoTime GoText GoOs Json JsonDoc Crypto Envelope Secrets Manager AuditLog Agent AgentProps Run.
From S2P Require AgentConfig Redact Client Config EnvelopeProps ManagerProps.
From Stdlib Require Import Strings.Byte.

(** ** What comes with a call

    A value of the form's content ([any]), the answer to the question that an
    earlier result asked, and what the client declared at initialization. *)
Inductive any := AnyBool (b : bool) | AnyString (s : bytes) | AnyOther.

Inductive input_response :=
  | ElicitResult (action : bytes) (content : gmap string any)
  | OtherResponse.

Record call_request := mkCallRequest {
  cr_Elicitation : bool; (* the session's client can elicit *)
  cr_InputResponses : gmap string input_response;
  cr_RequestState : bytes;
}.

(** [supportsElicitation] *)
Definition supportsElicitation (req : call_request) : bool := cr_Elicitation req.

Definition confirmed (content : gmap string any) : bool :=
  match content !! "confirm" with
  | None => false
  | Some (AnyBool b) => b
  | Some (AnyString s) => EqualFold s B["true"] || EqualFold s B["yes"]
  | Some AnyOther => false
  end.

Definition confirmRequestID : string := "confirm".

Definition accepted (r : input_response) : bool :=
  match r with
  | ElicitResult action content => beq action B["accept"] && confirmed content
  | OtherResponse => false
  end.

(** What a tool answers: its output, a question to the human with the state
    that the next call must bring along, or an error. *)
Inductive tool_result (A : Type) :=
  | Output (out : A)
  | InputRequired (message state : bytes)
  | ToolError (text : bytes).
Arguments Output {A} _.
Arguments InputRequired {A} _ _.
Arguments ToolError {A} _.

(** ** Inputs and outputs *)

Record RevealPasswordInput := mkRevealPasswordInput { rp_Required : option bool }.

Record RevealPasswordStatus := mkRevealPasswordStatus { rs_Required : bool; rs_Configured : bool; rs_Message : bytes }.

Record SecretInfo := mkSecretInfo {
  sec_Name : string; sec_Storage : bytes; sec_Retention : bytes; sec_CreatedAt : bytes; sec_ExpiresAt : bytes;
  sec_Sendable : bool; sec_Source : bytes; sec_Purpose : bytes; sec_SizeBytes : Z;
}.

Definition revealPasswordStatus (cfg : AgentConfig.Config) : RevealPasswordStatus :=
  let required := AgentConfig.RevealPasswordRequired cfg in
  let configured := negb (is_empty (AgentConfig.RevealPassword cfg)) in
  mkRevealPasswordStatus required configured
    (if required then B["Reveal links ask for the reveal password before they show a value. Remind the human to type the password they set; never ask them for it."]
     else if configured then B["A reveal password is set but not required right now, so reveal links open without it. Call reveal_password with required true to turn it on."]
     else B["No reveal password is set. If the human wants one, they run burndrop reveal-password set in a terminal (the password never goes through the chat); that also turns the requirement on."]).

Definition secret_info (m : Metadata) : SecretInfo :=
  mkSecretInfo (Name m) (BackendName m) (Secrets.Retention m) (Format_RFC3339 (CreatedAt m))
    (if IsZero (ExpiresAt m) then [] else Format_RFC3339 (ExpiresAt m))
    (Sendable m) (Source m) (Purpose m) (SizeBytes m).

(** [%q] of a name, which is plain ASCII when it has passed [ValidateName]. *)
Definition quoted (name : string) : bytes := x22 :: bs name ++ [x22].

Definition confirm_message (name : string) : bytes :=
  B["The agent wants to send the secret "] ++ quoted name ++ B[" to a person through a one-time reveal link. Allow it?"].

Definition declined : bytes := B["the human declined to send this secret"].

(** * The server *)

Section server.
Context {T : Type} `{Backend T} {N : Type} `{!AgentWorld N} `{!Programs N} `{Primitives} `{Unicode} `{ErrorText} `{Regexp}.

Abbreviation flow := (Agent.flow (T := T) (N := N)).
Abbreviation agent_state := (Agent.State (T := T) (N := N)).

Record server := mkServer { sv_agent : Agent; sv_state : agent_state }.

(** [ConfirmSend], and [ApplyRevealPassword]: nil, or a function that may change
    what it likes and says what went wrong. *)
Record Options := mkOptions {
  ConfirmSend : option bool;
  ApplyRevealPassword : option (bool → server → server * option bytes);
}.

Record handlers := mkHandlers {
  confirmSend : bool;
  applyRevealPassword : option (bool → server → server * option bytes);
}.

Definition New (opts : Options) : handlers := mkHandlers (default true (ConfirmSend opts)) (ApplyRevealPassword opts).

Definition handler (A : Type) : Type := server → server * tool_result A.

(** [fail]: the text of the error with known values redacted. *)
Definition fail {A} (text : bytes) (s : server) : tool_result A := ToolError (Redact.Redact (redactor (sv_state s)) text).

(** A handler that runs a flow and turns its error into one of the tool. *)
Definition run_flow {A B} (m : Agent → flow A) (out : A → B) : handler B := λ s,
  let '(st, r) := m (sv_agent s) (sv_state s) in
  let s := mkServer (sv_agent s) st in
  (s, match r with Ok x => Output (out x) | Err e => fail (error_text e) s end).

Definition requestSecret (input : RequestInput) : handler RequestOutput := run_flow (λ a, Request a input) id.

Definition fetchSecret (fuel : nat) (input : FetchInput) : handler FetchOutput := run_flow (λ a, Fetch a fuel input) id.

Definition send_state (name : string) : bytes := B["send:"] ++ bs name.

(** The end of [sendSecret]. *)
Definition send_now (input : SendInput) : handler SendOutput := run_flow (λ a, Send a input) id.

Definition refuse_declined (name : string) : handler SendOutput := λ s,
  let st := (log (entry B["send_secret"] name [] B["declined_by_human"] [] []) (sv_state s)).1 in
  (mkServer (sv_agent s) st, ToolError declined).

Definition sendSecret (h : handlers) (req : call_request) (input : SendInput) : handler SendOutput := λ s,
  let name := si_Name input in
  let '(st, r) := CanSend name (sv_state s) in
  let s := mkServer (sv_agent s) st in
  match r with
  | Err e => (s, fail (error_text e) s)
  | Ok _ =>
      if confirmSend h && supportsElicitation req then
        let state := send_state name in
        match cr_InputResponses req !! confirmRequestID with
        | None => (s, InputRequired (confirm_message name) state)
        | Some resp =>
            if negb (beq (cr_RequestState req) state) then (s, InputRequired (confirm_message name) state)
            else if negb (accepted resp) then refuse_declined name s
            else send_now input s
        end
      else send_now input s
  end.

Definition runWithSecret (input : RunInput) : handler RunOutput := run_flow (λ a, Run.Run a input) id.

Definition listSecrets : handler (list SecretInfo) := run_flow (λ _, List) (fmap secret_info).

Record DeleteOutput := mkDeleteOutput { Deleted : bool; del_Name : string }.

Definition deleteSecret (name : string) : handler DeleteOutput := run_flow (λ _, Delete name) (λ _, mkDeleteOutput true name).

Record RevokeOutput := mkRevokeOutput { rev_RequestID : bytes; rev_State : bytes }.

Definition revokeRequest (id : bytes) : handler RevokeOutput := run_flow (λ a, Revoke a id) (mkRevokeOutput id).

(** [SetRevealPasswordRequired] on the configuration of the agent. *)
Definition set_required (required : bool) (s : server) : server * option bytes :=
  let a := sv_agent s in
  match AgentConfig.SetRevealPasswordRequired required (a_Config a) with
  | Ok cfg => (mkServer (mkAgent cfg (a_Relay a) (a_PageOrigin a) (a_HasPassword a)) (sv_state s), None)
  | Err e => (s, Some (error_text (EConfig e)))
  end.

Definition revealPassword (h : handlers) (input : RevealPasswordInput) : handler RevealPasswordStatus := λ s,
  let '(s, err) := match rp_Required input with
                   | None => (s, None)
                   | Some required =>
                       match applyRevealPassword h with
                       | Some apply => apply required s
                       | None => set_required required s
                       end
                   end in
  (s, match err with
      | Some text => fail text s
      | None => Output (revealPasswordStatus (a_Config (sv_agent s)))
      end).

(** ** The table of tools *)

Inductive tool_call :=
  | request_secret (input : RequestInput)
  | fetch_secret (input : FetchInput)
  | send_secret (input : SendInput)
  | run_with_secret (input : RunInput)
  | list_secrets
  | delete_secret (name : string)
  | revoke_request (id : bytes)
  | reveal_password (input : RevealPasswordInput).

Inductive output :=
  | OutRequest (o : RequestOutput)
  | OutFetch (o : FetchOutput)
  | OutSend (o : SendOutput)
  | OutRun (o : RunOutput)
  | OutList (l : list SecretInfo)
  | OutDelete (o : DeleteOutput)
  | OutRevoke (o : RevokeOutput)
  | OutRevealPassword (o : RevealPasswordStatus).

Definition answer {A} (f : A → output) (m : handler A) : handler output := λ s,
  let '(s, r) := m s in
  (s, match r with
      | Output x => Output (f x)
      | InputRequired message state => InputRequired message state
      | ToolError text => ToolError text
      end).

(** [fuel] bounds the rounds of the client's wait in [fetch_secret]. *)
Definition call_tool (fuel : nat) (h : handlers) (req : call_request) (c : tool_call) : handler output :=
  match c with
  | request_secret i => answer OutRequest (requestSecret i)
  | fetch_secret i => answer OutFetch (fetchSecret fuel i)
  | send_secret i => answer OutSend (sendSecret h req i)
  | run_with_secret i => answer OutRun (runWithSecret i)
  | list_secrets => answer OutList listSecrets
  | delete_secret n => answer OutDelete (deleteSecret n)
  | revoke_request i => answer OutRevoke (revokeRequest i)
  | reveal_password i => answer OutRevealPassword (revealPassword h i)
  end.
End server.

(** * What leaves the server *)

(** Texts that are constants of the program. *)
Definition fixed_texts : list bytes :=
  [[]; declined; B["[truncated]"]; B["decrypt failed"]; B["the envelope is not a drop"];
   B["the secret name in the submission does not match the request"];
   B["the fingerprint shown to the human does not match this request"];
   B["the retention shown to the human does not match the request"];
   B["the purpose shown to the human does not match the request"];
   B["the storage description shown to the human does not match the request"];
   capture_error_text PrintedNothing; capture_error_text NoMatch; capture_error_text CaptureTooLarge].

Section props.
Context {T : Type} `{BackendOk T} {N : Type} `{!AgentWorld N} `{!Programs N} `{PrimitivesOk} `{Unicode} `{ErrorText} `{Regexp}.

Abbreviation flow := (Agent.flow (T := T) (N := N)).
Abbreviation agent_state := (Agent.State (T := T) (N := N)).

(** ** Flows and the audit trail *)

(** An entry whose detail is a constant or went through the redactor. *)
Definition detail_ok (r : Redact.Redactor) (e : Event) : Prop :=
  ev_Detail e ∈ fixed_texts ∨ ∃ raw, ev_Detail e = Redact.Redact r raw.

(** ** Every flow *)

(** The redactor stays one that was made by adding and removing. *)
Definition sane (r r' : Redact.Redactor) : Prop := Redact.redactor_reaches r → Redact.redactor_reaches r'.

(** A step that notes nothing. *)
Definition mute {A} (m : flow A) : Prop := ∀ s s' r, m s = (s', r) → trail s' = trail s ∧ sane (redactor s) (redactor s').

(** A step that notes what it may, each entry with the redactor it ends with. *)
Definition tells {A} (m : flow A) : Prop := ∀ s s' r, m s = (s', r) →
  sane (redactor s) (redactor s') ∧ ∃ new, trail s' = trail s ++ new ∧ Forall (detail_ok (redactor s')) new.

(** A step that notes nothing but its failure. *)
Definition tells_failure {A} (m : flow A) : Prop := tells m ∧ ∀ s s' x, m s = (s', Ok x) → trail s' = trail s.

(** A step that changes neither. *)
Definition still {A} (m : flow A) : Prop := ∀ s s' r, m s = (s', r) → trail s' = trail s ∧ redactor s' = redactor s.

Lemma bind_inv {A B} (m : flow A) (f : A → flow B) s s' r :
  (m ≫= f) s = (s', r) →
  (∃ s1 x, m s = (s1, Ok x) ∧ f x s1 = (s', r)) ∨ (∃ e, m s = (s', Err e) ∧ r = Err e).
Proof. unfold mbind, flow_bind. destruct (m s) as [s1 [x|e]]; [eauto|]. intros [= <- <-]. eauto. Qed.

Lemma still_mute {A} (m : flow A) : still m → mute m.
Proof. intros Hm s s' r [-> ->]%Hm. split; [done|by intros ?]. Qed.

Lemma mute_tells {A} (m : flow A) : mute m → tells m.
Proof. intros Hm s s' r [E Hs]%Hm. split; [done|]. exists []. rewrite E, app_nil_r. split; [done|constructor]. Qed.

Lemma mute_bind {A B} (m : flow A) (f : A → flow B) : mute m → (∀ x, mute (f x)) → mute (m ≫= f).
Proof.
  intros Hm Hf s s' r [(s1 & x & E1 & E2)|(e & E & _)]%bind_inv; [|by eapply Hm].
  apply Hf in E2 as [-> S2]. apply Hm in E1 as [-> S1]. split; [done|]. intros ?. auto.
Qed.

Lemma still_bind {A B} (m : flow A) (f : A → flow B) : still m → (∀ x, still (f x)) → still (m ≫= f).
Proof.
  intros Hm Hf s s' r [(s1 & x & E1 & E2)|(e & E & _)]%bind_inv; [|by eapply Hm].
  destruct (Hf _ _ _ _ E2) as [-> ->]. by apply Hm in E1.
Qed.

Lemma tells_failure_bind {A B} (m : flow A) (f : A → flow B) : tells_failure m → (∀ x, tells (f x)) → tells (m ≫= f).
Proof.
  intros [Hm Hmo] Hf s s' r [(s1 & x & E1 & E2)|(e & E & _)]%bind_inv; [|by eapply Hm].
  destruct (Hf _ _ _ _ E2) as (S2 & new & -> & Hnew). rewrite (Hmo _ _ _ E1). destruct (Hm _ _ _ E1) as [S1 _].
  split; [intros ?; auto|]. eauto.
Qed.

Lemma mute_tells_failure {A} (m : flow A) : mute m → tells_failure m.
Proof. intros Hm. split; [by apply mute_tells|]. intros s s' x. apply Hm. Qed.

Lemma tells_bind {A B} (m : flow A) (f : A → flow B) : mute m → (∀ x, tells (f x)) → tells (m ≫= f).
Proof. intros Hm. by apply tells_failure_bind, mute_tells_failure. Qed.

Lemma tells_still {A B} (m : flow A) (f : A → flow B) : tells m → (∀ x, still (f x)) → tells (m ≫= f).
Proof.
  intros Hm Hf s s' r [(s1 & x & E1 & E2)|(e & E & _)]%bind_inv; [|by eapply Hm].
  destruct (Hf _ _ _ _ E2) as [-> ->]. by eapply Hm.
Qed.

Lemma tells_log e : ev_Detail e ∈ fixed_texts → tells (log e).
Proof. intros He s s' r [= <- <-]. split; [by intros ?|]. exists [e]. split; [done|]. constructor; [by left|constructor]. Qed.

(** The text of an error, redacted and noted. *)
Lemma tells_redacted {B} text (g : bytes → Event) (k : bytes → flow B) :
  (∀ t, ev_Detail (g t) = t) → (∀ t, still (k t)) →
  tells (t ← redacted text; _ ← log (g t); k t).
Proof.
  intros Hg Hk s s' r E. unfold mbind, flow_bind, redacted, log in E.
  destruct (Hk _ _ _ _ E) as [-> ->]. split; [by intros ?|]. eexists. split; [reflexivity|]. constructor; [|constructor].
  right. exists text. simpl. by rewrite Hg.
Qed.

Lemma still_ret {A} (x : A) : still (mret x : flow A).
Proof. by intros s s' r [= <- _]. Qed.
Lemma still_throw {A} e : still (throw (A := A) e).
Proof. by intros s s' r [= <- _]. Qed.
Lemma still_redacted text : still (redacted text).
Proof. by intros s s' r [= <- _]. Qed.
Lemma still_environ : still environ.
Proof. by intros s s' r [= <- _]. Qed.
Lemma still_lift {E A} (f : E → agent_error) (x : result E A) : still (lift f x).
Proof. destruct x; [apply still_ret|apply still_throw]. Qed.
Lemma still_settle {A} (x : result agent_error A) : still (settle x).
Proof. destruct x; [apply still_ret|apply still_throw]. Qed.
Lemma still_net {A} (f : N → N * A) : still (with_net f).
Proof. intros s s' r. unfold with_net. destruct (f (net s)). by intros [= <- _]. Qed.
Lemma still_store {A} (f : Manager T → Manager T * result storage_error A) : still (on_store f).
Proof. intros s s' r. unfold on_store. destruct (f (secrets s)). by intros [= <- _]. Qed.
Lemma still_try {A} (m : flow A) : still m → still (try m).
Proof. intros Hm s s' r. unfold try. specialize (Hm s). destruct (m s) as [s1 r1]. intros [= <- _]. by eapply Hm. Qed.
Lemma mute_add name value : mute (redact_add name value).
Proof. intros s s' r [= <- _]. split; [done|]. intros ?. by constructor. Qed.
Lemma mute_remove name : mute (redact_remove name).
Proof. intros s s' r [= <- _]. split; [done|]. intros ?. by constructor. Qed.

Ltac still_steps :=
  repeat match goal with
  | |- ∀ _, _ => intros
  | |- still (match ?x with _ => _ end) => destruct x
  | |- still (_ ≫= _) => apply still_bind
  | |- still (try _) => apply still_try
  | |- still (mret _) => apply still_ret
  | |- still (throw _) => apply still_throw
  | |- still (redacted _) => apply still_redacted
  | |- still environ => apply still_environ
  | |- still (lift _ _) => apply still_lift
  | |- still (settle _) => apply still_settle
  | |- still (with_net _) => apply still_net
  | |- still (on_store _) => apply still_store
  | _ => progress unfold relay_call, Now, random, store_put, store_get, store_stat, store_list, store_delete
  end.

Lemma still_load_record {R} (c : codec R) version name id : still (load_record c version name id).
Proof. unfold load_record. still_steps. Qed.
Lemma still_load_all l : still (load_pending_all l).
Proof. induction l as [|m l IH]; simpl; unfold loadPending; still_steps; [done|apply still_load_record|done]. Qed.
Lemma still_savePending rec : still (savePending rec).
Proof. unfold savePending, record_retention. still_steps. Qed.
Lemma still_saveSent rec : still (saveSent rec).
Proof. unfold saveSent, record_retention. still_steps. Qed.
Lemma still_deletePending id : still (deletePending id).
Proof. unfold deletePending. still_steps. Qed.
Lemma still_consume names : still (consume names).
Proof. induction names; simpl; still_steps. done. Qed.

(** A failure that goes into the trail as it leaves. *)
Lemma tells_noting {A} ev name id res e : tells (noting (A := A) ev name id res e).
Proof. apply (tells_redacted (error_text e) (λ t, entry ev name id res t [])); [done|]. intros. apply still_throw. Qed.

Lemma tells_relay {A} ev name (f : Client.call (N := N) A) : tells_failure (relay_noting ev name f).
Proof.
  split.
  - apply tells_bind; [apply still_mute; still_steps|]. intros [x|e]; [apply mute_tells, still_mute; still_steps|apply tells_noting].
  - intros s s' x [Hc ->]%relay_noting_ok%relay_call_ok. done.
Qed.

Lemma tells_over rec st detail message : detail ∈ fixed_texts → tells (fetch_over rec st detail message).
Proof.
  intros Hd. apply tells_bind; [apply still_mute, still_deletePending|]. intros _.
  apply tells_still; [by apply tells_log|]. still_steps.
Qed.

Lemma tells_end {A} e (x : A) : ev_Detail e ∈ fixed_texts → tells (_ ← log e; mret x : flow A).
Proof. intros. apply tells_still; [by apply tells_log|]. still_steps. Qed.

Lemma tells_refused {A} e (x : agent_error) : ev_Detail e ∈ fixed_texts → tells (_ ← log e; throw x : flow A).
Proof. intros. apply tells_still; [by apply tells_log|]. still_steps. Qed.

Lemma nothing_fixed : [] ∈ fixed_texts.
Proof. by left. Qed.

Lemma checkEnvelope_fixed env rec reason : checkEnvelope env rec = Some reason → reason ∈ fixed_texts.
Proof. unfold checkEnvelope. intros E. repeat case_match; simplify_eq; unfold fixed_texts; set_solver. Qed.

Section flows.
Context (a : Agent).

Lemma still_ttl s : still (ttl a s).
Proof. unfold ttl. still_steps. Qed.
Lemma still_abandon id token : still (abandon a id token).
Proof. unfold abandon. still_steps. Qed.
Lemma still_abandon_reveal id token : still (abandon_reveal a id token).
Proof. unfold abandon_reveal. still_steps. Qed.
Lemma still_reveal_key key : still (reveal_key a key).
Proof. unfold reveal_key. still_steps. Qed.
Lemma still_drop_copy input : still (drop_copy input).
Proof. unfold drop_copy. still_steps. Qed.
Lemma still_fetch_id input : still (fetch_id input).
Proof. unfold fetch_id, Pending. still_steps. apply still_load_all. Qed.
Lemma still_await fuel rec wait : still (await_upload a fuel rec wait).
Proof. unfold await_upload. still_steps. Qed.
Lemma still_check_capture c : still (check_capture a c).
Proof. unfold check_capture. still_steps. Qed.
Lemma still_CanSend name : still (CanSend name).
Proof. unfold CanSend. still_steps. Qed.
Lemma still_List : still List.
Proof. unfold List. still_steps. Qed.

Ltac still_lemmas :=
  still_steps;
  try match goal with
  | |- still (load_record _ _ _ _) => apply still_load_record
  | |- still (savePending _) => apply still_savePending
  | |- still (saveSent _) => apply still_saveSent
  | |- still (deletePending _) => apply still_deletePending
  | |- still (ttl _ _) => apply still_ttl
  | |- still (abandon _ _ _) => apply still_abandon
  | |- still (abandon_reveal _ _ _) => apply still_abandon_reveal
  | |- still (reveal_key _ _) => apply still_reveal_key
  | |- still (drop_copy _) => apply still_drop_copy
  | |- still (fetch_id _) => apply still_fetch_id
  | |- still (await_upload _ _ _ _) => apply still_await
  end.

Ltac tells_known := fail.

(** Steps that note nothing come off the front. *)
Ltac tells_steps :=
  repeat match goal with
  | |- ∀ _, _ => intros
  | |- tells (match ?x with _ => _ end) => destruct x eqn:?
  | |- tells (redacted _ ≫= _) => apply tells_redacted; [done|]
  | |- tells (log _ ≫= λ _, throw _) => apply tells_refused, nothing_fixed
  | |- tells (log _ ≫= λ _, mret _) => apply tells_end, nothing_fixed
  | |- tells (relay_noting _ _ _ ≫= _) => apply tells_failure_bind; [apply tells_relay|]
  | |- tells (redact_add _ _ ≫= _) => apply tells_bind; [apply mute_add|]
  | |- tells (redact_remove _ ≫= _) => apply tells_bind; [apply mute_remove|]
  | |- tells (_ ≫= _) => apply tells_bind; [solve [apply still_mute; still_lemmas]|]
  | |- tells (noting _ _ _ _ _) => apply tells_noting
  | |- tells (fetch_over _ _ _ _) => apply tells_over; try apply nothing_fixed
  | |- tells _ => first [tells_known | solve [apply mute_tells, still_mute; still_lemmas]]
  end.

Lemma tells_Request input : tells (Request a input).
Proof. unfold Request. tells_steps. Qed.

Lemma tells_fetchUploaded rec : tells (fetchUploaded a rec).
Proof.
  unfold fetchUploaded, note_fetch, safeErr. tells_steps.
  - by eapply checkEnvelope_fixed.
  - apply still_throw.
  - apply (bool_decide_unpack _). vm_compute. exact I.
Qed.

Ltac tells_known ::= apply tells_fetchUploaded.

Lemma tells_Fetch fuel input : tells (Fetch a fuel input).
Proof. unfold Fetch, loadPending. tells_steps. Qed.

Lemma tells_Send input : tells (Send a input).
Proof. unfold Send. tells_steps. Qed.

Lemma tells_Delete name : tells (Delete name).
Proof. unfold Delete. tells_steps. Qed.

Lemma tells_Revoke id : tells (Revoke a id).
Proof. unfold Revoke, revokeSent, loadPending, loadSent, deleteSent. tells_steps. Qed.

Lemma tells_outcome program names r : tells_failure (run_outcome program names r).
Proof.
  split.
  - unfold run_outcome. tells_steps. apply still_throw.
  - intros s s' x. unfold run_outcome. repeat case_match; try (by intros [-> _]%ret_ok). done.
Qed.

Lemma mute_resolve_env env : mute (resolve_env env).
Proof.
  induction env as [|[e n] env IH]; simpl; [apply still_mute; still_steps|]. destruct (negb _); [apply still_mute; still_steps|].
  apply mute_bind; [apply still_mute; still_steps|]. intros _.
  apply mute_bind; [apply still_mute; still_steps|]. intros res.
  apply mute_bind; [apply still_mute; still_steps|]. intros found.
  destruct (isInternalKind _); [apply still_mute; still_steps|].
  apply mute_bind; [apply mute_add|]. intros _. apply mute_bind; [exact IH|]. intros rest. apply still_mute; still_steps.
Qed.

Lemma tells_capture program fields c out stdout stderr : tells (capture a program fields c out stdout stderr).
Proof.
  unfold capture. tells_steps.
  apply tells_still; [apply tells_log|]. 2: still_steps. destruct e; apply (bool_decide_unpack _); vm_compute; exact I.
Qed.

Lemma tells_show program fields input timeout out stdout stderr : tells (show a program fields input timeout out stdout stderr).
Proof. unfold show. tells_steps. Qed.

Lemma tells_Run input : tells (Run.Run a input).
Proof.
  unfold Run.Run. destruct (match in_Command input with [] => true | _ => _ end); [apply mute_tells, still_mute, still_throw|].
  destruct (negb _); [apply mute_tells, still_mute, still_throw|].
  apply tells_bind; [apply still_mute; destruct (in_CaptureAs input); [apply still_check_capture|apply still_ret]|]. intros _.
  apply tells_bind; [apply mute_resolve_env|]. intros found.
  do 4 (apply tells_bind; [apply still_mute; still_steps|]; intros ?).
  apply tells_failure_bind; [apply tells_outcome|]. intros outcome.
  apply tells_bind; [apply still_mute; destruct (in_Consume input); [apply still_consume|apply still_ret]|]. intros _.
  destruct (in_CaptureAs input); [apply tells_capture|apply tells_show].
Qed.
End flows.

(** ** Every tool *)

(** Text that is a constant of the program or went through the redactor. *)
Definition text_ok (r : Redact.Redactor) (t : bytes) : Prop :=
  t ∈ fixed_texts ∨ (∃ raw, t = Redact.Redact r raw) ∨ ∃ a, screened a r t.

(** The texts that come from outside of the program: errors, and what a
    command wrote. *)
Definition texts_of (out : output) : list bytes := match out with OutRun o => [out_Stdout o; out_Stderr o] | _ => [] end.

Definition shown (r : tool_result output) : list bytes :=
  match r with Output o => texts_of o | InputRequired _ _ => [] | ToolError t => [t] end.

Abbreviation tool_server := (server (T := T) (N := N)).

Definition fine (s s' : tool_server) (texts : list bytes) : Prop :=
  sane (redactor (sv_state s)) (redactor (sv_state s')) ∧
  (∃ new, trail (sv_state s') = trail (sv_state s) ++ new ∧ Forall (detail_ok (redactor (sv_state s'))) new) ∧
  Forall (text_ok (redactor (sv_state s'))) texts.

Definition discreet (m : handler (T := T) (N := N) output) : Prop := ∀ s s' r, m s = (s', r) → fine s s' (shown r).

(** A step before that notes nothing. *)
Lemma fine_after (s s1 s' : tool_server) texts :
  trail (sv_state s1) = trail (sv_state s) → redactor (sv_state s1) = redactor (sv_state s) → fine s1 s' texts → fine s s' texts.
Proof. unfold fine. intros Ht Hr. by rewrite Ht, Hr. Qed.

Lemma fine_same (s s' : tool_server) texts :
  sv_state s' = sv_state s → Forall (text_ok (redactor (sv_state s'))) texts → fine s s' texts.
Proof.
  intros E Ht. split; [rewrite E; by intros ?|]. split; [|done]. exists []. rewrite E, app_nil_r. split; [done|constructor].
Qed.

Lemma fail_ok (s : tool_server) text (r : tool_result output) :
  r = fail text s → Forall (text_ok (redactor (sv_state s))) (shown r).
Proof. intros ->. constructor; [|constructor]. right. left. by exists text. Qed.

(** A tool that runs one flow. *)
Lemma discreet_flow {A B} (m : Agent → flow A) (out : A → B) (f : B → output) :
  (∀ a, tells (m a)) →
  (∀ a s s' x, m a s = (s', Ok x) → Forall (text_ok (redactor s')) (texts_of (f (out x)))) →
  discreet (answer f (run_flow m out)).
Proof.
  intros Ht Ho s s' r. unfold answer, run_flow. destruct (m (sv_agent s) (sv_state s)) as [st [x|e]] eqn:Em; intros [= <- <-];
    destruct (Ht _ _ _ _ Em) as [Hs Hnew]; (split; [exact Hs|]); (split; [exact Hnew|]).
  - by eapply Ho.
  - by eapply (fail_ok (mkServer (sv_agent s) st)).
Qed.

Lemma discreet_quiet {A B} (m : Agent → flow A) (out : A → B) (f : B → output) :
  (∀ a, tells (m a)) → (∀ x, texts_of (f x) = []) → discreet (answer f (run_flow m out)).
Proof. intros Ht Hx. apply discreet_flow; [done|]. intros. rewrite Hx. constructor. Qed.

Lemma discreet_send h req input : discreet (answer OutSend (sendSecret h req input)).
Proof.
  intros s s' r. unfold answer at 1, sendSecret. destruct (CanSend _ _) as [st res] eqn:Ec.
  apply still_CanSend in Ec as [Etr Ered]. intros E. apply (fine_after s (mkServer (sv_agent s) st)); [done..|].
  destruct res as [u|e]; [|injection E as <- <-; apply fine_same; [done|by eapply fail_ok]].
  assert (discreet (answer OutSend (send_now input))) as Hnow by (apply (discreet_quiet (λ a, Send a input)); [intros a; apply tells_Send|done]).
  destruct (_ && _); [|by eapply Hnow].
  destruct (cr_InputResponses req !! _) as [resp|]; [|injection E as <- <-; by apply fine_same].
  destruct (negb _); [injection E as <- <-; by apply fine_same|].
  destruct (negb _); [|by eapply Hnow]. injection E as <- <-. split; [by intros ?|]. split.
  - eexists. split; [reflexivity|]. constructor; [|constructor]. left. apply nothing_fixed.
  - constructor; [|constructor]. left. right. by left.
Qed.

(** What changes the setting of the reveal password leaves the flows' state
    alone. *)
Definition apply_apart (h : handlers (T := T) (N := N)) : Prop :=
  ∀ apply required s, applyRevealPassword h = Some apply → sv_state (apply required s).1 = sv_state s.

Lemma discreet_reveal_password h input : apply_apart h → discreet (answer OutRevealPassword (revealPassword h input)).
Proof.
  intros Ha s s' r. unfold answer, revealPassword. destruct (match rp_Required input with None => _ | _ => _ end) as [s1 err] eqn:E.
  assert (sv_state s1 = sv_state s) as Hs1.
  { destruct (rp_Required input) as [required|]; [|by injection E as <- _].
    destruct (applyRevealPassword h) as [apply|] eqn:Eh.
    - specialize (Ha apply required s Eh). by rewrite E in Ha.
    - unfold set_required in E. destruct (AgentConfig.SetRevealPasswordRequired _ _); by injection E as <- _. }
  intros [= <- <-]. apply fine_same; [done|]. destruct err as [text|]; [by eapply fail_ok|constructor].
Qed.

Lemma discreet_call fuel h req c : apply_apart h → discreet (call_tool fuel h req c).
Proof.
  intros Ha. destruct c; cbn [call_tool].
  - apply discreet_quiet; [intros; apply tells_Request|done].
  - apply discreet_quiet; [intros; apply tells_Fetch|done].
  - apply discreet_send.
  - apply discreet_flow; [intros; apply tells_Run|].
    intros a s s' x (_ & ? & ? & ? & ? & ? & _ & _ & _ & Ho%shown_screened & He%shown_screened)%Run_ok. simpl.
    constructor; [|constructor; [|constructor]]; right; right; by exists a.
  - apply discreet_quiet; [intros; apply mute_tells, still_mute, still_List|done].
  - apply discreet_quiet; [intros; apply tells_Delete|done].
  - apply discreet_quiet; [intros; apply tells_Revoke|done].
  - by apply discreet_reveal_password.
Qed.

(** A form that can be told from the program's own words. *)
Definition distinct_form (f : bytes) : Prop := x0a ∉ f ∧ ∀ t, t ∈ fixed_texts → ¬ infix f t.

Lemma text_ok_hides r t f :
  Redact.redactor_reaches r → Redact.apart r f → f ∈ Redact.f_bytes <$> r → distinct_form f → text_ok r t → ¬ infix f t.
Proof.
  intros Hr Hm Hf [Hnl Hfix] [Ht|[(raw & ->)|(a & Hs)]]; [by apply Hfix|by apply Redact.registered_hidden|].
  eapply screened_hides; try done. apply Hfix. apply (bool_decide_unpack _). vm_compute. exact I.
Qed.

(** C8. No tool of the MCP server gives a secret away.  Whatever tool is called,
    in whatever state of the agent and with whatever outcome, no registered
    form of a known value (the value, or its base64, hexadecimal, URL or JSON
    form) occurs in the text of the error that the call returns, in what a
    command is shown to have written, or in the details of the entries that the
    call adds to the audit log.  The form itself must be free of line feeds and
    brackets, and not be part of one of the program's own messages or of what
    the brackets of a redaction enclose; nothing is asked of the other forms.
    What the server's host does to change the setting of the reveal password
    must leave the secrets, the redactor and the log alone. *)
Theorem tools_hide_secrets fuel h req c (s s' : tool_server) r :
  apply_apart h → Redact.redactor_reaches (redactor (sv_state s)) → call_tool fuel h req c s = (s', r) →
  ∃ new, trail (sv_state s') = trail (sv_state s) ++ new ∧
    ∀ f, f ∈ Redact.f_bytes <$> redactor (sv_state s') → Redact.apart (redactor (sv_state s')) f → distinct_form f →
      Forall (λ t, ¬ infix f t) (shown r) ∧ Forall (λ e, ¬ infix f (ev_Detail e)) new.
Proof.
  intros Ha Hr Hc. destruct (discreet_call _ _ _ _ Ha _ _ _ Hc) as (Hs & (new & Hnew & Hdet) & Htext).
  exists new. split; [done|]. intros f Hf Hm Hd. split.
  - eapply Forall_impl; [exact Htext|]. intros t. by apply text_ok_hides; [apply Hs|..].
  - eapply Forall_impl; [exact Hdet|]. intros e He. eapply text_ok_hides; [by apply Hs|done..|].
    destruct He as [He|He]; [by left|by right; left].
Qed.

(** A look at the metadata of a secret. *)
Lemma CanSend_looks name (s s' : agent_state) r :
  CanSend name s = (s', r) →
  (net s' = net s ∨ net s' = (Client.w_now (net s)).1) ∧
  (secrets s' = secrets s ∨ ∃ now, secrets s' = (Manager_Stat now name (secrets s)).1).
Proof.
  unfold CanSend. destruct (Secrets.ValidateName name); [|intros [= <- _]; auto].
  unfold store_stat, Now, with_net, on_store, lift, mbind, flow_bind, mret, flow_ret. destruct (Client.w_now (net s)) as [n now]. simpl.
  destruct (Manager_Stat now name (secrets s)) as [m [meta|e]] eqn:Em; simpl; intros E;
    assert (s' = mkState n m (redactor s) (trail s)) as -> by (repeat case_match; by injection E as <- _);
    (split; [by right|]); right; exists now; by rewrite Em.
Qed.

(** A call that goes no further than that. *)
Definition only_looked (name : string) (s s' : tool_server) : Prop :=
  sv_agent s' = sv_agent s ∧ redactor (sv_state s') = redactor (sv_state s) ∧ trail (sv_state s) `prefix_of` trail (sv_state s') ∧
  (net (sv_state s') = net (sv_state s) ∨ net (sv_state s') = (Client.w_now (net (sv_state s))).1) ∧
  (secrets (sv_state s') = secrets (sv_state s) ∨
   ∃ now, secrets (sv_state s') = (Manager_Stat now name (secrets (sv_state s))).1).

(** C9. A secret goes to a person only with the human's consent, where the
    client can ask for it: either the call brings an accepted and confirmed
    answer to the question about this very secret, or no link comes out and
    nothing is changed: the relay is not contacted, the value is not read, and
    all that happens is a look at the secret's metadata and a note in the audit
    log. *)
Theorem send_needs_consent h req input (s s' : tool_server) r :
  confirmSend h = true → supportsElicitation req = true → sendSecret h req input s = (s', r) →
  (∃ content, cr_InputResponses req !! confirmRequestID = Some (ElicitResult B["accept"] content) ∧
     confirmed content = true ∧ cr_RequestState req = B["send:"] ++ bs (si_Name input)) ∨
  ((∀ out, r ≠ Output out) ∧ only_looked (si_Name input) s s').
Proof.
  intros Hc He. unfold sendSecret. rewrite Hc, He. cbn [andb].
  destruct (CanSend (si_Name input) (sv_state s)) as [st res] eqn:Ec.
  destruct (CanSend_looks _ _ _ _ Ec) as [Hn Hm]. apply still_CanSend in Ec as [Etr Ered].
  assert (∀ more ag, ag = sv_agent s →
    only_looked (si_Name input) s (mkServer ag (mkState (net st) (secrets st) (redactor st) (trail st ++ more)))) as Hlook.
  { intros more ag ->. split_and!; simpl; try done. rewrite Etr. by exists more. }
  assert (only_looked (si_Name input) s (mkServer (sv_agent s) st)) as Hlook0.
  { specialize (Hlook [] _ eq_refl). rewrite app_nil_r in Hlook. by destruct st. }
  destruct res as [u|e]; [|intros [= <- <-]; by right].
  destruct (cr_InputResponses req !! confirmRequestID) as [resp|]; [|intros [= <- <-]; by right].
  destruct (beq (cr_RequestState req) _) eqn:Est; cbn [negb]; [|intros [= <- <-]; by right].
  unfold beq in Est. apply bool_decide_eq_true in Est.
  destruct (accepted resp) eqn:Ea; cbn [negb]; [|intros [= <- <-]; right; split; [done|by apply Hlook]].
  intros _. left. destruct resp as [action content|]; [|done]. simpl in Ea. apply andb_true_iff in Ea as [Eact Econf].
  unfold beq in Eact. apply bool_decide_eq_true in Eact as ->. by exists content.
Qed.
End props.

(** * Calls *)

#[local] Existing Instance Config.config_ascii.
#[local] Existing Instance EnvelopeProps.toy_primitives.
#[local] Existing Instance EnvelopeProps.toy_primitives_ok.
#[local] Existing Instance Run.sample_agent_world.
#[local] Existing Instance Run.sample_programs.
#[local] Existing Instance Run.no_patterns.
#[local] Existing Instance plain_errors.

Definition sample_handlers : handlers (T := Secrets.Memory) (N := Time) := New (mkOptions None None).

Definition sample_server : server (T := Secrets.Memory) (N := Time) := mkServer sample_run_agent sample_run_state.

Definition no_answer : call_request := mkCallRequest true ∅ [].

Definition sample_call : tool_call := run_with_secret sample_run_input.

Abbreviation sample_answer := (call_tool 0 sample_handlers no_answer sample_call sample_server).

(** The command prints its environment: the secret is stored, registered,
    given to the command and not shown. *)
Lemma tools_hide_secrets_witness :
  sample_answer.2 = Output (OutRun sample_run_output) ∧
  Forall (λ t, ¬ infix B["hunter22"] t) [out_Stdout sample_run_output; out_Stderr sample_run_output].
Proof.
  assert (sample_answer.2 = Output (OutRun sample_run_output)) as Hr by (vm_compute; reflexivity).
  split; [exact Hr|].
  destruct (tools_hide_secrets 0 sample_handlers no_answer sample_call sample_server sample_answer.1 sample_answer.2) as (new & _ & Hh).
  - intros apply required s E. discriminate E.
  - constructor.
  - apply surjective_pairing.
  - destruct (Hh B["hunter22"]) as [Ht _].
    + apply (bool_decide_unpack _). vm_compute. exact I.
    + apply Redact.apart_check. vm_compute. reflexivity.
    + split; [apply (bool_decide_unpack _); vm_compute; exact I|].
      assert (Forall (λ t, Contains t B["hunter22"] = false) fixed_texts) as Hall by (vm_compute; repeat constructor).
      intros t Hin. eapply Forall_forall in Hall; [|exact Hin]. by apply Contains_false.
    + rewrite Hr in Ht. exact Ht.
Defined.

Definition sendable_state : State (T := Secrets.Memory) (N := Time) :=
  mkState (100 * Second)
    (Manager_Put (100 * Second) "db" B["hunter22"]
       (mkMetadata "" [] RetentionUntilRevoked 0 0 B["demo"] [] true [] 0 KindSecret) ManagerProps.sample_manager).1
    Redact.NewRedactor [].

(** The human has agreed to another secret. *)
Definition other_consent : call_request :=
  mkCallRequest true {[ confirmRequestID := ElicitResult B["accept"] {[ "confirm"%string := AnyBool true ]} ]} B["send:other"].

Abbreviation asked_again :=
  (sendSecret sample_handlers other_consent (mkSendInput "db" [] false) (mkServer sample_run_agent sendable_state)).

Lemma send_needs_consent_witness :
  asked_again.2 = InputRequired (confirm_message "db") B["send:db"] ∧
  only_looked "db" (mkServer sample_run_agent sendable_state) asked_again.1.
Proof.
  split; [vm_compute; reflexivity|].
  destruct (send_needs_consent sample_handlers other_consent (mkSendInput "db" [] false) (mkServer sample_run_agent sendable_state)
              asked_again.1 asked_again.2) as [(content & _ & _ & E)|[_ Hl]].
  - reflexivity.
  - reflexivity.
  - apply surjective_pairing.
  - discriminate E.
  - exact Hl.
Defined.
