(* ===== verification/Wire.v ===== *)
(** Client and relay together: the bytes of a request that the client sends and
    the relay reads, the bytes of a response that the relay sends and the
    client reads. *)
From S2P Require Import Prelude Base64 Tokens GoStrings GoTime GoSort GoText Json JsonDoc JsonDocProps Crypto Envelope.
From S2P Require Import EnvelopeProps RelayTypes StoreSpec StoreHistory RateLimit Config Server Handlers HandlersInv System SystemProps.
From S2P Require Memory GoFloat Client.
From Stdlib Require Import Strings.Byte.

Import Client (World, HttpRequest, h_Method, h_URL, h_Header, h_Body, any, AStr, AInt, any_json, marshal_map).

(** * The wire *)

(** The relay's view of a request that reached it. *)
Definition delivered (c : Client.Client) (hr : HttpRequest) (r : Request) : Prop :=
  r_Method r = h_Method hr ∧ Client.Origin c ++ r_Path r = h_URL hr ∧ r_Body r = h_Body hr ∧
  ∀ k v, (k, v) ∈ h_Header hr → r_Header r k = v.

Section render.
Context (unknown_field_text : bytes → bytes). (* the text of the decoder's error *)

Definition rval_json (v : rval) : json :=
  match v with
  | VStr s => JStr (marshal_text s)
  | VInt n => JNum (Itoa n)
  | VBool b => JBool b
  | VUnknownField name => JStr (marshal_text (unknown_field_text name))
  end.

Definition member_less (x y : bytes * json) : bool := String.ltb (sb x.1) (sb y.1).

(** [Encoder.Encode] of a map: the members in the order of their names, a line
    break at the end. *)
Definition render (b : rbody) : bytes :=
  match b with
  | JsonBody ms => write_json (JObj (sort_stable member_less ((λ m, (m.1, rval_json m.2)) <$> ms))) ++ [x0a]
  | TextBody s | HtmlBody s => s
  | NoBody => []
  end.
End render.

(** * Requests *)

Definition any_ok (a : any) : Prop :=
  match a with AStr s => ValidUtf8 s = true | AInt _ => True end.

Lemma any_writable d a : any_ok a → writable d (any_json a).
Proof.
  destruct a as [s|n]; intros Ha; constructor; [intros t; apply scan_marshal|apply Itoa_lexeme].
Qed.

Lemma Decode_object {R} (fields : list (bytes * setter R)) zero ms q :
  Forall (λ m, ValidUtf8 m.1 = true ∧ writable 0%nat m.2) ms → store_members fields ms zero = Ok q →
  Decode fields zero (write_json (JObj ms)) = (Ok q, []).
Proof.
  intros Hw Hq. unfold Decode.
  pose proof (read_write_json (JObj ms) 1%nat 0 (S (length (write_json (JObj ms)))) []) as Hr. rewrite app_nil_r in Hr.
  rewrite Hr; [by rewrite Hq|by constructor|done|lia|by left].
Qed.

Lemma Decode_map {R} (fields : list (bytes * setter R)) zero (l : list (string * any)) q :
  Forall (λ x, ValidUtf8 (bs x.1) = true ∧ any_ok x.2) l →
  store_members fields ((λ x, (bs x.1, any_json x.2)) <$> sort_stable key_less l) zero = Ok q →
  Decode fields zero (marshal_map l) = (Ok q, []).
Proof.
  intros Hl Hq. apply Decode_object; [|done]. apply Forall_fmap, Forall_forall. intros x Hx.
  rewrite elem_of_sort_stable in Hx. rewrite Forall_forall in Hl. destruct (Hl x Hx).
  split; [done|]. by apply any_writable.
Qed.

(** Name the written form of every valid text. *)
Ltac hide_texts :=
  repeat match goal with
  | |- context [marshal_text ?s] =>
      let q := fresh "q" in let E := fresh "E" in
      pose proof (unquote_marshal s ltac:(assumption)) as E; revert E;
      generalize (marshal_text s); intros q E; rewrite <- E; clear E
  end.

(** Sort by names that are known. *)
Ltac sort_keys :=
  unfold sort_stable; cbn [foldr insert_before];
  repeat (match goal with
  | |- context [key_less ?x ?y] => let b := eval vm_compute in (key_less x y) in change (key_less x y) with b
  end; cbn [insert_before]; cbv iota).

Ltac hide_numbers :=
  repeat match goal with
  | |- context [Itoa ?n] =>
      let q := fresh "q" in let E := fresh "E" in
      pose proof (int64_of_Itoa n ltac:(assumption)) as E; revert E;
      generalize (Itoa n); intros q E
  end.

Section requests.
Context {T : Type} `{Store T} `{!StoreWait T} `{Buckets} `{Unicode}.
Context (cl : Client.Client) (s : Server T) (r : Request).
Context (Hname : Client.cName cl ≠ []).

Lemma decodeJSON_delivered {R} (fields : list (bytes * setter R)) zero path l auth q :
  delivered cl (Client.post_request cl path l auth) r → zlen (marshal_map l) <= body_limit (cfg s) →
  Decode fields zero (marshal_map l) = (Ok q, []) →
  decodeJSON fields zero r s = (s, inr q).
Proof using Hname.
  intros (Hm & Hp & Hb & Hh) Hlim Hd. simpl in Hb.
  assert (r_Header r ClientHeader = Client.cName cl) as Hc by (apply Hh; simpl; set_solver).
  assert (r_Header r B["Content-Type"] = B["application/json"]) as Hct by (apply Hh; simpl; set_solver).
  unfold decodeJSON, mbind, handler_bind, config.
  assert (is_empty (r_Header r ClientHeader) = false) as -> by (rewrite Hc; by apply bool_decide_eq_false).
  assert (beq (media_type r) B["application/json"] = true) as ->.
  { unfold media_type. rewrite Hct. reflexivity. }
  cbn [negb]. rewrite Hb, take_ge by (unfold zlen in Hlim; lia). by rewrite Hd.
Qed.

Lemma utf8_encode b : ValidUtf8 (encode b) = true.
Proof. apply ValidUtf8_ascii. by apply (decode_ascii _ b), decode_encode. Qed.

(** The body is read into [q], when it is within the limit. *)
Definition reads_as {R} (fields : list (bytes * setter R)) (zero : R) (path : bytes) (l : list (string * any)) (auth : bool) (q : R) : Prop :=
  delivered cl (Client.post_request cl path l auth) r → zlen (marshal_map l) <= body_limit (cfg s) →
  decodeJSON fields zero r s = (s, inr q).

Ltac decodes :=
  apply Decode_map; [repeat (apply Forall_cons; split; [split; [done|first [done|by apply utf8_encode]]|]); apply Forall_nil_2|];
  unfold Client.fetch_req, Client.open_req, Client.revoke_req, Client.upload_req, Client.createDrop_req, Client.createReveal_req,
    Client.status_req, Client.whole_seconds; sort_keys; cbn -[store_members marshal_text Itoa Z.quot]; hide_texts; hide_numbers;
  cbn -[unquote int64_of Z.quot];
  repeat match goal with E : int64_of _ = Some _ |- _ => rewrite E; clear E end; reflexivity.

Ltac reads := intros; unfold reads_as; intros; eapply decodeJSON_delivered; [eassumption..|]; decodes.

Lemma decode_fetch id tok :
  ValidUtf8 id = true → ValidUtf8 tok = true →
  Decode fetch_fields (mkFetch [] []) (marshal_map (Client.fetch_req id tok)) = (Ok (mkFetch id tok), []).
Proof. intros. decodes. Qed.

Lemma reads_fetch id tok :
  ValidUtf8 id = true → ValidUtf8 tok = true →
  reads_as fetch_fields (mkFetch [] []) B["/api/v1/drops/fetch"] (Client.fetch_req id tok) true (mkFetch id tok).
Proof using Hname. reads. Qed.

Lemma reads_open id tok :
  ValidUtf8 id = true → ValidUtf8 tok = true →
  reads_as open_fields (mkOpen [] []) B["/api/v1/reveals/open"] (Client.open_req id tok) false (mkOpen id tok).
Proof using Hname. reads. Qed.

Lemma reads_revoke path id tok :
  ValidUtf8 id = true → ValidUtf8 tok = true →
  reads_as token_fields (mkToken [] []) path (Client.revoke_req id tok) false (mkToken id tok).
Proof using Hname. reads. Qed.

Lemma reads_upload id tok com ct :
  ValidUtf8 id = true → ValidUtf8 tok = true → ValidUtf8 com = true →
  reads_as upload_fields (mkUpload [] [] [] []) B["/api/v1/drops/upload"] (Client.upload_req id tok com ct) false
    (mkUpload id tok com (encode ct)).
Proof using Hname. pose proof (utf8_encode ct). reads. Qed.

(** A [Duration] in whole seconds is a machine integer. *)
Lemma whole_seconds_range d : - 2 ^ 63 <= d < 2 ^ 63 → - 2 ^ 63 <= Z.quot d Second < 2 ^ 63.
Proof. unfold Second. lia. Qed.

Lemma reads_createDrop com ttl :
  ValidUtf8 com = true → - 2 ^ 63 <= ttl < 2 ^ 63 →
  reads_as createDrop_fields (mkCreateDrop 0 []) B["/api/v1/drops"] (Client.createDrop_req com ttl) true
    (mkCreateDrop (Z.quot ttl Second) com).
Proof using Hname. intros ? ?%whole_seconds_range. reads. Qed.

Lemma reads_createReveal ct ttl :
  - 2 ^ 63 <= ttl < 2 ^ 63 →
  reads_as createReveal_fields (mkCreateReveal 0 []) B["/api/v1/reveals"] (Client.createReveal_req ct ttl) true
    (mkCreateReveal (Z.quot ttl Second) (encode ct)).
Proof using Hname. intros ?%whole_seconds_range. pose proof (utf8_encode ct). reads. Qed.

Lemma reads_status path id wait w :
  ValidUtf8 id = true → ValidUtf8 w = true → - 2 ^ 63 <= wait < 2 ^ 63 →
  reads_as status_fields (mkStatusReq [] 0 []) path (Client.status_req id wait w) false
    (mkStatusReq id (Z.quot wait Second) w).
Proof using Hname. intros ? ? ?%whole_seconds_range. reads. Qed.
End requests.

(** * Responses *)

(** Sort members by names that are known. *)
Ltac sort_members :=
  unfold sort_stable; cbn [foldr insert_before fmap list_fmap fst snd rval_json];
  repeat (match goal with
  | |- context [member_less ?x ?y] => let b := eval vm_compute in (member_less x y) in change (member_less x y) with b
  end; cbn [insert_before]; cbv iota).

Section responses.
Context (uft : bytes → bytes).

Lemma Unmarshal_members {R} (fs : list (JsonDoc.field R)) zero ms out :
  Forall (λ m, ValidUtf8 m.1 = true ∧ writable 0 m.2) ms → dec_members fs ms zero = Some out →
  Unmarshal (struct_codec fs zero) (write_json (JObj ms) ++ [x0a]) zero = Some out.
Proof.
  intros Hw Hd. unfold Unmarshal. rewrite (parse_write_json _ 1); [done|by constructor|done|by right].
Qed.

Definition rval_ok (v : rval) : Prop :=
  match v with VStr s => ValidUtf8 s = true | VInt n => True | VBool _ => True | VUnknownField n => ValidUtf8 (uft n) = true end.

Lemma Unmarshal_render {R} (fs : list (JsonDoc.field R)) zero ms out :
  Forall (λ m, ValidUtf8 m.1 = true ∧ rval_ok m.2) ms →
  dec_members fs (sort_stable member_less ((λ m, (m.1, rval_json uft m.2)) <$> ms)) zero = Some out →
  Unmarshal (struct_codec fs zero) (render uft (JsonBody ms)) zero = Some out.
Proof.
  intros Hm Hd. unfold render. apply Unmarshal_members; [|done]. apply Forall_forall. intros x Hx.
  rewrite elem_of_sort_stable in Hx. apply list_elem_of_fmap in Hx as (m & -> & Hm').
  rewrite Forall_forall in Hm. destruct (Hm _ Hm') as [Hk Hv]. split; [done|].
  destruct m as [k [v|n|b|n]]; constructor; try (intros t; apply scan_marshal). apply Itoa_lexeme.
Qed.

(** The answer to a fetch or an open: the ciphertext and a time. *)
Lemma client_reads_secret names key ct time :
  names = [B["ciphertext"]; key] → key = B["uploaded_at"] ∨ key = B["created_at"] → ValidUtf8 time = true →
  Unmarshal (Client.texts names) (render uft (JsonBody [(B["ciphertext"], VStr (encode ct)); (key, VStr time)])) (JsonDoc.c_zero (Client.texts names))
  = Some [encode ct; time].
Proof.
  intros -> Hkey Ht. pose proof (utf8_encode ct). unfold Client.texts.
  apply Unmarshal_render; [repeat (apply Forall_cons; split; [split; [by destruct Hkey as [->| ->]|done]|]); apply Forall_nil_2|].
  destruct Hkey as [->| ->]; sort_members; cbn -[dec_members marshal_text]; hide_texts; reflexivity.
Qed.
End responses.

(** ** Times are plain text *)

Lemma utf8_rfc3339 t : ValidUtf8 (rfc3339 t) = true.
Proof. unfold rfc3339. case_match; [done|]. apply plain_utf8, plain_format. constructor. Qed.

(** What the client makes of a refusal of the relay's store: the state the slot
    is in, when there is one. *)
Lemma client_reads_refusal uft (op : hop) err :
  op = HRevoke →
  let w := storeError err op in
  ∃ e, Client.decodeError (w_status w) (render uft (w_body w)) = Client.ERelay e ∧
    Client.re_State e = match err with StateError st _ => bs (State_string st) | _ => [] end ∧
    beq (Client.re_Code e) Client.CodeNotFound = match err with ErrNotFound | ErrWrongKind => true | _ => false end.
Proof.
  intros ->. destruct err as [| | | | |st at_]; [eexists; split; [vm_compute; reflexivity|split; reflexivity]..|].
  assert (ValidUtf8 (bs (State_string st)) = true) as Hst by (by destruct st).
  pose proof (utf8_rfc3339 at_) as Hat. unfold storeError. cbn [bool_decide]. rewrite !bool_decide_eq_false_2 by naive_solver.
  set (extra := if IsZero at_ then [] else _). set (w := writeError _ _ _).
  assert (Unmarshal Client.error_body (render uft (w_body w)) (JsonDoc.c_zero Client.error_body) =
    Some [B["gone"]; []; bs (State_string st); if IsZero at_ then [] else rfc3339 at_]) as Hu.
  { unfold w, writeError, writeJSON, w_body, extra, Client.error_body, Client.texts. change (StatusGone =? StatusUnauthorized) with false.
    cbv iota. generalize (bs (State_string st)) Hst. intros s Hs. generalize (rfc3339 at_) Hat. intros t Ht.
    destruct (IsZero at_); apply Unmarshal_render; try (repeat (apply Forall_cons; split; [split; done|]); apply Forall_nil_2);
      sort_members; cbn -[dec_members marshal_text]; hide_texts; reflexivity. }
  unfold Client.decodeError. rewrite Hu. eexists. split; [reflexivity|]. split; reflexivity.
Qed.

(** What the client makes of a time the relay wrote: the whole second. *)
Lemma format_seconds t : format_with [] t = format_with [] (t - t mod Second).
Proof. unfold format_with. by replace ((t - t mod Second) / Second) with (t / Second) by (unfold Second; lia). Qed.

Lemma parseTime_rfc3339 t :
  0 <= (year_of (t / Second / 86400)).1 < 10000 → Client.parseTime (rfc3339 t) = t - t mod Second.
Proof.
  intros Hy. unfold rfc3339, IsZero. destruct (Z.eqb_spec t zero_time) as [->|Hne]; [done|].
  unfold Client.parseTime, Format_RFC3339. rewrite format_seconds.
  assert (is_empty (format_with [] (t - t mod Second)) = false) as ->.
  { unfold format_with. destruct (civil _) as [[y m] d]. apply bool_decide_eq_false. intros E.
    apply (f_equal length) in E. rewrite !length_app in E. simpl in E. lia. }
  rewrite Parse_format; [done| |].
  - simpl. f_equal. unfold Second. lia.
  - by replace ((t - t mod Second) / Second) with (t / Second) by (unfold Second; lia).
Qed.

(** * What the client gets is what was stored *)

Lemma valid_token_utf8 s : valid_token s = true → ValidUtf8 s = true.
Proof.
  unfold valid_token, ValidToken. destruct (slen (sb s) =? TokenLen); [|done].
  unfold DecodeString. rewrite bs_sb. destruct (decode s) as [b|] eqn:E; [|done]. intros _.
  apply ValidUtf8_ascii. by eapply decode_ascii.
Qed.

Section end_to_end.
Context {T : Type} `{StoreOk T} `{Buckets} `{Unicode}.
Context (c : Config) (o : StoreOptions) (a : System (T := T)) (Hrun : system_reaches c o a).
Context (uft : bytes → bytes) {N : Type} `{!World N}.

(** The client's exchange is the answer [x] of the run, on its way there and
    back. *)
Definition exchanged (cl : Client.Client) (hr : HttpRequest) (x : answer) (n n' : N) : Prop :=
  delivered cl hr (a_request x) ∧ x ∈ answers a ∧
  Client.http_do hr n = (n', inr (w_status (a_response x), inl (render uft (w_body (a_response x))))) ∧
  zlen (render uft (w_body (a_response x))) <= Client.maxResponse.

Lemma decoded_map {R} (fields : list (bytes * setter R)) zero cl path l auth x q :
  delivered cl (Client.post_request cl path l auth) x → zlen (marshal_map l) <= body_limit c →
  Decode fields zero (marshal_map l) = (Ok q, []) → decoded fields zero c x = Ok q.
Proof.
  intros (_ & _ & Hb & _) Hl Hd. unfold decoded. simpl in Hb. rewrite Hb, take_ge by (unfold zlen in Hl; lia). by rewrite Hd.
Qed.

(** C5. What a client fetches is what was uploaded.  The relay may have served any
    other requests, in any order: when a client's fetch is answered by the
    relay and succeeds, the bytes it returns are the ciphertext of an
    acknowledged upload, made with the upload token and the commitment of the
    slot, and the fetch token that the client presented is the one that was
    announced when the slot was created. *)
Theorem fetched_was_uploaded cl id tok ct u x n n' :
  valid_token id = true → valid_token tok = true → zlen (marshal_map (Client.fetch_req id tok)) <= body_limit c →
  exchanged cl (Client.post_request cl B["/api/v1/drops/fetch"] (Client.fetch_req id tok) true) x n n' →
  w_status (a_response x) = StatusOK →
  Client.Fetch cl id tok n = (n', Ok (ct, u)) →
  ∃ d, ID d = sb id ∧ dKind d = KindDrop ∧ TokenB d = HashToken (sb tok) ∧
    Exists (created_by c d) (answers a) ∧ Exists (uploaded_by c (sb id) (TokenA d) (dCommitment d) ct) (answers a).
Proof using Hrun.
  intros Hid%valid_token_utf8 Htok%valid_token_utf8 Hlim (Hdel & Hx & Hdo & Hmax) Hst Hf.
  assert (decoded fetch_fields (mkFetch [] []) c (a_request x) = Ok (mkFetch id tok)) as Hq.
  { eapply decoded_map; [exact Hdel|done|]. by apply decode_fetch. }
  assert (route_for c (a_request x) = Some RFetch) as Hrt.
  { destruct Hdel as (Hm & Hp & _). simpl in Hm, Hp. apply app_inv_head in Hp. unfold route_for. by rewrite Hm, Hp. }
  assert (serves c (sb id) x = true) as Hs.
  { unfold serves, serves_secret, read_id. rewrite Hrt, Hst, Hq. simpl. by apply bool_decide_eq_true. }
  destruct (so_history _ _ _ (system_reaches_ok c o a Hrun)) as (h & _ & Hex).
  destruct (ex_sourced _ _ _ Hex x (sb id) Hx Hs) as (rt & tok' & ct' & d & Hrt' & [Hin [u' Hbody]] & HidD & Hcr & Hup).
  rewrite Hrt in Hrt'. injection Hrt' as <-. destruct Hin as (q & Hq' & Hqid & Hqtok). rewrite Hq in Hq'.
  injection Hq' as <-. simpl in Hqid, Hqtok. subst tok'. destruct Hup as (Hk & HtB & Hup).
  enough (ct = ct') as -> by eauto 10.
  rewrite Hbody in Hdo, Hmax. rewrite Hst in Hdo.
  revert Hf. unfold Client.Fetch, Client.post, Client.do_request, mbind, Client.call_bind. rewrite Hdo.
  rewrite take_ge by (unfold zlen in Hmax; lia).
  change (negb (Z.quot StatusOK 100 =? 2)) with false. cbv iota. unfold Client.unmarshal_into, Client.fetched_body.
  rewrite (client_reads_secret uft _ B["uploaded_at"]) by (auto using utf8_rfc3339).
  unfold Client.decode_ciphertext. cbn [Client.text nth mret Client.call_ret]. unfold mret, Client.call_ret.
  rewrite decode_encode. congruence.
Qed.
End end_to_end.

(** * A client and a relay, run together *)

#[local] Existing Instance countdown.
#[local] Existing Instance config_ascii.
#[local] Existing Instance Memory.memory_store.

Definition header_of (hs : list (bytes * bytes)) (k : bytes) : bytes :=
  match list_find (λ h, h.1 = k) hs with Some (_, (_, v)) => v | None => [] end.

Definition receive (origin : bytes) (hr : HttpRequest) : Request :=
  mkRequest (h_Method hr) [] (drop (length origin) (h_URL hr)) false B["192.0.2.1:4000"] (header_of (h_Header hr)) (h_Body hr).

Definition sample_client : Client.Client := Client.mkClient B["https://relay.example"] sample_agent B["cli/1"].

(** The relay answers at once. *)
Definition arrive (a : System (T := Memory.Memory)) (hr : HttpRequest) : System :=
  drive1 a (Send (sample_env 100 x00) (receive (Client.Origin sample_client) hr)).

Definition latest (a : System (T := Memory.Memory)) : option Response := a_response <$> head (answers a).

Definition sample_world : World (System (T := Memory.Memory)) := {|
  Client.http_do hr a :=
    let a := arrive a hr in
    (a, match latest a with
        | Some w => inr (w_status w, inl (render id (w_body w)))
        | None => inl (Client.mkTransport false)
        end);
  Client.w_now a := (a, 100 * Second);
  Client.w_sleep _ a := a;
  Client.ctx_err _ := None;
|}.
#[local] Existing Instance sample_world.

Lemma http_do_sample hr a :
  Client.http_do hr a =
  (arrive a hr, match latest (arrive a hr) with
                | Some w => inr (w_status w, inl (render id (w_body w)))
                | None => inl (Client.mkTransport false)
                end).
Proof. reflexivity. Qed.

(** A drop is created and filled, then fetched. *)
Definition client_session : result Client.client_error (bytes * Time) :=
  ((d ← Client.CreateDrop sample_client sample_com Hour;
    _ ← Client.Upload sample_client (Client.dc_ID d) (Client.dc_UploadToken d) sample_com sample_ciphertext;
    Client.Fetch sample_client (Client.dc_ID d) (Client.dc_FetchToken d)) sample_start).2.

Example client_session_ok : client_session = Ok (sample_ciphertext, 100 * Second).
Proof. vm_compute. reflexivity. Qed.

Definition filled : System (T := Memory.Memory) :=
  arrive
    (arrive sample_start (Client.post_request sample_client B["/api/v1/drops"] (Client.createDrop_req sample_com Hour) true))
    (Client.post_request sample_client B["/api/v1/drops/upload"]
       (Client.upload_req (sample_tok x00) (sample_tok x01) sample_com sample_ciphertext) false).

Definition fetch_sent : HttpRequest :=
  Client.post_request sample_client B["/api/v1/drops/fetch"] (Client.fetch_req (sample_tok x00) (sample_tok x02)) true.
Abbreviation fetched := (arrive filled fetch_sent).

Lemma arrive_reaches a hr :
  system_reaches sample_config sample_options a → system_reaches sample_config sample_options (arrive a hr).
Proof.
  intros Ha. unfold arrive. set (m := Send _ _). change (drive1 a m) with (foldl drive1 a [m]). by apply drive_reaches.
Qed.

Lemma fetched_reaches : system_reaches sample_config sample_options fetched.
Proof. unfold filled. do 3 apply arrive_reaches. apply sample_starts. Qed.

(** The answer to the fetch. *)
Definition fetch_answer : answer :=
  default (mkAnswer (receive (Client.Origin sample_client) fetch_sent) healthz) (head (answers fetched)).

Lemma fetched_was_uploaded_witness :
  ∃ d, ID d = sb (sample_tok x00) ∧
    Exists (uploaded_by sample_config (sb (sample_tok x00)) (TokenA d) (dCommitment d) sample_ciphertext) (answers fetched).
Proof.
  assert (a_request fetch_answer = receive (Client.Origin sample_client) fetch_sent) as Hreq by (vm_compute; reflexivity).
  assert (latest fetched = Some (a_response fetch_answer)) as Hlat by (vm_compute; reflexivity).
  assert (Client.http_do fetch_sent filled =
    (fetched, inr (w_status (a_response fetch_answer), inl (render id (w_body (a_response fetch_answer)))))) as Hdo.
  { by rewrite http_do_sample, Hlat. }
  destruct (fetched_was_uploaded sample_config sample_options fetched fetched_reaches id sample_client (sample_tok x00) (sample_tok x02)
    sample_ciphertext (100 * Second) fetch_answer filled fetched) as (d & Hid & _ & _ & _ & Hup).
  - vm_compute. reflexivity.
  - vm_compute. reflexivity.
  - vm_compute. discriminate.
  - split; [|split; [|split]].
    + rewrite Hreq. split_and!; try (vm_compute; reflexivity). intros k v Hkv.
      cut (Forall (λ h, header_of (h_Header fetch_sent) h.1 = h.2) (h_Header fetch_sent)).
      { rewrite Forall_forall. intros Hall. exact (Hall (k, v) Hkv). }
      repeat (apply Forall_cons_2; [vm_compute; reflexivity|]). apply Forall_nil_2.
    + apply head_Some_elem_of. vm_compute. reflexivity.
    + exact Hdo.
    + vm_compute. discriminate.
  - vm_compute. reflexivity.
  - unfold Client.Fetch, Client.post, Client.do_request, mbind, Client.call_bind. fold fetch_sent. rewrite Hdo.
    generalize fetched. intros n. vm_compute. reflexivity.
  - exists d. split; [exact Hid|exact Hup].
Defined.
