(* ===== verification/Exchange.v ===== *)
(** An exchange between an agent and a human: what the human submits through
    the agent's link is what the agent stores, and what the agent sends is what
    the human is shown. *)
From S2P Require Import Prelude GoStrings GoTime GoText Json Crypto Envelope EnvelopeProps Secrets Manager Agent AgentProps.
From S2P Require Import Human JsonDoc ManagerProps.
From S2P Require Tokens Base64 GoNet Link LinkProps Client AgentConfig Redact Memory Config RateLimit System SystemProps Wire.
From Stdlib Require Import Strings.Byte.

Import Client (World, w_now).

(** * The human's commands *)

Section human.
Context {N : Type} `{!Terminal N} `{Primitives} `{Unicode}.

Lemma cli_bind_ok {A B} (m : cli (N := N) A) (f : A → cli B) n n' b :
  (m ≫= f) n = (n', Ok b) → ∃ n1 x, m n = (n1, Ok x) ∧ f x n1 = (n', Ok b).
Proof. apply state_bind_ok. Qed.

Lemma cli_lift_ok {E A} (f : E → human_error) (r : result E A) (n n' : N) x :
  cli_lift f r n = (n', Ok x) → n' = n ∧ r = Ok x.
Proof. destruct r; simpl; [by intros [= -> ->]|done]. Qed.

Lemma cli_world_ok {A} (f : N → N * A) n n' x : cli_world f n = (n', Ok x) → f n = (n', x).
Proof. unfold cli_world. destruct (f n). by intros [= -> ->]. Qed.

Lemma cli_call_ok {A} g (f : Client.call (N := N) A) n n' x : cli_call g f n = (n', Ok x) → f n = (n', Ok x).
Proof. unfold cli_call. intros (n1 & r & Hr%cli_world_ok & [-> ->]%cli_lift_ok)%cli_bind_ok. done. Qed.

(** A submission that succeeds ends with the upload of the sealed value. *)
Lemma cmdDrop_ok version raw file yes (n n' : N) :
  cmdDrop version raw file yes n = (n', Ok tt) →
  ∃ d page rc n1 n2 value r sealed n3,
    Link.ParseDrop raw = Ok (d, page) ∧
    Client.New (Link.Drop_RelayOrigin d page) [] (B["burndrop-cli/"] ++ version) = Some rc ∧
    readValue file n1 = (n2, Ok value) ∧ value ≠ [] ∧
    SealEnvelope (Link.dRecipientKey d) (drop_envelope d value) r = Ok sealed ∧
    Client.Upload rc (Link.dID d) (Link.dUploadToken d) (bs (Tokens.Commitment (Link.dRecipientKey d))) sealed n3 = (n', Ok tt).
Proof.
  unfold cmdDrop. intros (n0 & u & [-> _]%cli_lift_ok & Hf)%cli_bind_ok. apply cli_bind_ok in Hf as (n1 & [d page] & [-> Hd]%cli_lift_ok & Hf).
  apply cli_bind_ok in Hf as (n1 & rc & Hrc & Hf). apply cli_bind_ok in Hf as (n2 & st & Hst & Hf).
  case_match; [done|]. apply cli_bind_ok in Hf as (n3 & ok & Hok & Hf). case_match; [done|].
  apply cli_bind_ok in Hf as (n4 & value & Hv & Hf). destruct (is_empty value) eqn:He; [done|].
  apply cli_bind_ok in Hf as (n5 & pub & [-> Hk]%cli_lift_ok & Hf).
  apply cli_bind_ok in Hf as (n6 & r & Hr%cli_world_ok & Hf).
  apply cli_bind_ok in Hf as (n7 & sealed & [-> Hs]%cli_lift_ok & Hu%cli_call_ok).
  unfold KeyFromBytes in Hk. case_match; [|done]. injection Hk as <-.
  exists d, page, rc, n3, n4, value, r, sealed, n6. split_and!; try done.
  - unfold connect in Hrc. destruct (Client.New _ _ _); [|done]. by injection Hrc as _ ->.
  - by apply bool_decide_eq_false in He.
Qed.
End human.

(** * Names and links *)

(** Setting the secret changes nothing else. *)
Lemma SetSecret_fields value e :
  let e' := SetSecret value e in
  eType e' = eType e ∧ eName e' = eName e ∧ ePurpose e' = ePurpose e ∧ eStorage e' = eStorage e ∧
  eRetention e' = eRetention e ∧ eFingerprint e' = eFingerprint e.
Proof. unfold SetSecret. by case_match. Qed.

Lemma drop_envelope_name d value : eName (drop_envelope d value) = Link.dName d.
Proof. unfold drop_envelope. by destruct (SetSecret_fields value (mkEnvelope 1 TypeDrop (Link.dName d) (Link.dPurpose d) (Link.dStorage d) (Link.dRetention d) (bs (Link.Drop_Fingerprint d)) [] [])) as (_ & -> & _). Qed.

Lemma beq_refl s : beq s s = true.
Proof. unfold beq. by apply bool_decide_eq_true. Qed.

Section exchange.
Context {T : Type} `{BackendOk T} {N : Type} `{!AgentWorld N} `{PrimitivesOk} `{Unicode} `{ErrorText} (a : Agent).
Context {M : Type} `{!Terminal M} (version : bytes).

(** The page of the agent and the relay it talks to, in normal form. *)
Definition origins_ok : Prop :=
  LinkProps.canonical_origin (a_PageOrigin a) ∧ Link.NormalizeOrigin (Client.Origin (a_Relay a)) = Ok (Client.Origin (a_Relay a)).

Lemma link_relay_ok : origins_ok → LinkProps.relay_ok (link_relay a).
Proof.
  intros [_ Hr]. unfold link_relay, LinkProps.relay_ok. case_match; [by left|]. right. split; [|done].
  destruct (Client.Origin (a_Relay a)); [|done]. by vm_compute in Hr.
Qed.

(** Whichever way the link names it, the human's relay is the agent's. *)
Lemma relay_of_link d :
  origins_ok → Link.dRelay d = link_relay a → Link.Drop_RelayOrigin d (a_PageOrigin a) = Client.Origin (a_Relay a).
Proof.
  intros [_ Hr] Hd. unfold Link.Drop_RelayOrigin. rewrite Hd. unfold link_relay.
  destruct (beq (Client.Origin (a_Relay a)) (a_PageOrigin a)) eqn:E.
  - by apply bool_decide_eq_true in E as ->.
  - destruct (Client.Origin (a_Relay a)); [by vm_compute in Hr|done].
Qed.

Lemma parsed_length raw d page : Link.ParseDrop raw = Ok (d, page) → zlen raw <= 8192.
Proof.
  unfold Link.ParseDrop, Link.Parse, Link.split. destruct (Z.ltb_spec 8192 (zlen raw)); [done|lia].
Qed.

(** The envelope the human's command makes is the one the agent expects. *)
Lemma drop_envelope_matches input created pub priv now value :
  checkEnvelope (drop_envelope (request_link a input created pub) value) (request_record a input created pub priv now) = None.
Proof.
  unfold checkEnvelope, drop_envelope. set (e := mkEnvelope _ _ _ _ _ _ _ _ _).
  destruct (SetSecret_fields value e) as (-> & -> & -> & -> & -> & ->). unfold e, request_link, request_record, Link.Drop_Fingerprint.
  cbn [eType eName ePurpose eStorage eRetention eFingerprint pr_Name pr_Purpose pr_Storage pr_Retention pr_Fingerprint
    Link.dName Link.dPurpose Link.dStorage Link.dRetention Link.dRecipientKey].
  rewrite !beq_refl. by rewrite andb_false_r.
Qed.

(** C3. A secret gets through.  A human submits a value through the link that the
    agent made, with the terminal command; then the upload that ended it went
    to the agent's relay with the agent's slot, upload token and commitment,
    and when the relay hands the uploaded bytes out, the agent stores exactly
    the value under the name it asked for, unless the store fails; it then
    knows the value for redaction and forgets the request. *)
Theorem submitted_secret_is_stored input (s s1 : State (T := T) (N := N)) out file yes (m m' : M) :
  origins_ok → Request a input s = (s1, Ok out) → cmdDrop version (ro_Link out) file yes m = (m', Ok tt) →
  ∃ rec pub value sealed rc s0 saved m1 m2 m3,
    savePending rec s0 = (saved, Ok (Ok tt)) ∧ same_but_trail saved s1 ∧ pr_DropID rec = ro_RequestID out ∧ pr_Name rec = ri_Name input ∧
    readValue file m1 = (m2, Ok value) ∧ value ≠ [] ∧
    Client.Origin rc = Client.Origin (a_Relay a) ∧
    Client.Upload rc (pr_DropID rec) (pr_UploadToken rec) (bs (Tokens.Commitment pub)) sealed m3 = (m', Ok tt) ∧
    pr_PublicKey rec = Some pub ∧
    ∀ s2 t n, Client.Fetch (a_Relay a) (pr_DropID rec) (pr_FetchToken rec) (net s2) = (n, Ok (sealed, t)) →
      match Manager_Put (w_now n).2 (pr_Name rec) value (drop_meta rec) (secrets s2) with
      | (mg, Err e) => (fetchUploaded a rec s2).2 = Err (ELost e)
      | (mg, Ok meta) => ∃ s3 o, fetchUploaded a rec s2 = (s3, Ok o) ∧ fo_Status o = StatusStored ∧
          secrets s3 = (Manager_Delete (pendingName (pr_DropID rec)) mg).1 ∧
          redactor s3 = Redact.Add (bs (pr_Name rec)) value (redactor s2)
      end.
Proof.
  intros Ho (r & pub & priv & lifetime & created & now & n0 & n1 & s0 & saved & Hname & Hkey & _ & Hb & _ & _ & Hsave & Hsaved & Hid & _)%Request_ok
    (d & page & rc & m1 & m2 & value & r' & sealed & m3 & Hd & Hrc & Hv & Hne & Hs & Hu)%cmdDrop_ok.
  assert (LinkProps.relay_ok (Link.dRelay (request_link a input created pub))) as Hrel by by apply link_relay_ok.
  rewrite (LinkProps.drop_link_roundtrip _ _ _ (proj1 Ho) Hrel Hb (parsed_length _ _ _ Hd)) in Hd.
  injection Hd as <- <-. rewrite (relay_of_link (request_link a input created pub) Ho eq_refl) in Hrc.
  exists (request_record a input created pub priv now), pub, value, sealed, rc, s0, saved, m1, m2, m3.
  unfold GenerateKeyPair in Hkey. destruct (box_GenerateKey r) as [[p p']|] eqn:Eg; [|done]. injection Hkey as -> ->.
  pose proof (generated_lengths _ _ _ Eg) as [Hlp Hls]. pose proof (generated_keypair _ _ _ Eg) as Hkp.
  split_and!; try done.
  { unfold Client.New in Hrc. rewrite (proj2 Ho) in Hrc. by injection Hrc as <-. }
  intros s2 t n Hf. eapply fetchUploaded_stores; [done..| |by apply drop_envelope_matches|apply secret_roundtrip].
  eapply open_seal_envelope; [exact Hkp| |exact Hs].
  rewrite drop_envelope_name. by apply ValidUtf8_ascii, ValidateName_ascii.
Qed.
End exchange.

(** * Opening *)

(** ** A reveal link is never too long *)

Lemma QueryEscape_length s : zlen (GoNet.QueryEscape s) <= 3 * zlen s.
Proof.
  induction s as [|b s IH]; [done|]. cbn [GoNet.QueryEscape]. rewrite zlen_app, zlen_cons.
  assert (zlen (GoNet.escape_byte b) <= 3) by (unfold GoNet.escape_byte; repeat case_match; done). lia.
Qed.

Fixpoint fields_bound (fs : list (bytes * bytes)) : Z :=
  match fs with [] => 0 | f :: fs => zlen f.1 + 2 + 3 * zlen f.2 + fields_bound fs end.

Lemma encodeFields_length fs : zlen (Link.encodeFields fs) <= fields_bound fs.
Proof.
  unfold Link.encodeFields. induction fs as [|f fs IH]; [done|]. cbn [fmap list_fmap fields_bound].
  pose proof (JoinByte_cons_length (Link.encode_field f) (Link.encode_field <$> fs) x26) as Hj.
  assert (zlen (Link.encode_field f) = zlen f.1 + (1 + zlen (GoNet.QueryEscape f.2))) as He.
  { unfold Link.encode_field. by rewrite zlen_app, zlen_cons. }
  pose proof (QueryEscape_length (f.2)). unfold fmap in *. lia.
Qed.

Lemma fields_bound_app fs gs : fields_bound (fs ++ gs) = fields_bound fs + fields_bound gs.
Proof. induction fs as [|f fs IH]; simpl; lia. Qed.

Section links.
Context `{Unicode}.

Lemma canonical_length o : Link.NormalizeOrigin o = Ok o → zlen o <= 512.
Proof. unfold Link.NormalizeOrigin. destruct (Z.ltb_spec 512 (zlen o)); [done|lia]. Qed.

Lemma token_length s : Tokens.ValidToken (sb s) = true → zlen s = 22.
Proof.
  unfold Tokens.ValidToken. case_match eqn:E; [|done]. intros _. apply Z.eqb_eq in E. unfold slen in E. by rewrite bs_sb in E.
Qed.

Lemma reveal_link_fits r page raw :
  LinkProps.canonical_origin page → LinkProps.relay_ok (Link.rRelay r) → zlen (Link.rName r) <= 100 →
  Link.Reveal_Build r page = Ok raw → zlen raw <= 8192.
Proof.
  intros Hp Hr Hn (u & Hv & (o & Ho & Heq)%result_bind_ok)%result_bind_ok.
  rewrite (proj1 Hp) in Ho. injection Ho as <-. pose proof (canonical_length _ (proj1 Hp)) as Hpl. injection Heq as <-.
  unfold Link.Reveal_Validate in Hv.
  apply result_bind_ok in Hv as (? & _ & Hv). apply result_bind_ok in Hv as (? & Hi%guard_err_ok%token_length & Hv).
  apply result_bind_ok in Hv as (? & Ht%guard_err_ok%token_length & Hv).
  apply result_bind_ok in Hv as (? & Hk%guard_err_ok%Z.eqb_eq & Hv). apply result_bind_ok in Hv as (? & _ & Hs%guard_err_ok).
  rewrite !zlen_app, !zlen_cons. pose proof (encodeFields_length (Link.reveal_fields r)) as Hf.
  assert (fields_bound (Link.reveal_fields r) <= 4000); [|lia].
  unfold Link.reveal_fields. rewrite !fields_bound_app. rewrite LinkProps.relay_field_ok by done.
  cbn [fields_bound fst snd]. rewrite Hi, Ht, Base64.encode_length, Hk.
  assert (fields_bound (if 0 <? zlen (Link.rSalt r) then [(B["s"], Base64.encode (Link.rSalt r))] else []) <= 100) as Hsalt.
  { destruct (0 <? _); [|done]. cbn [fields_bound fst snd]. rewrite Base64.encode_length. change (zlen B["s"]) with 1.
    unfold SaltSize in Hs. apply orb_true_iff in Hs as [Hs|Hs]; apply Z.eqb_eq in Hs; lia. }
  assert (fields_bound (if is_empty (Link.rRelay r) then [] else [(B["r"], Link.rRelay r)]) <= 1539) as Hrel.
  { destruct (is_empty (Link.rRelay r)) eqn:E; [done|]. cbn [fields_bound fst snd]. change (zlen B["r"]) with 1.
    destruct Hr as [Hr|[_ Hr%canonical_length]]; [by rewrite Hr in E|lia]. }
  assert (zlen (if Link.rKeepsCopy r then B["1"] else B["0"]) = 1) as -> by by destruct (Link.rKeepsCopy r).
  unfold Tokens.KeySize. change (zlen Link.Version) with 1.
  change (zlen B["v"]) with 1. change (zlen B["i"]) with 1. change (zlen B["o"]) with 1. change (zlen B["k"]) with 1.
  change (zlen B["n"]) with 1. change (zlen B["c"]) with 1. lia.
Qed.
End links.

(** ** What a session can fail with *)

(** The relay, the human or the terminal, not the link or the ciphertext. *)
Definition outside_failure (e : human_error) : Prop :=
  match e with
  | LinkGone | LinkUsed _ | Cancelled | NeedsConfirmation | InputFailed | OutputFailed | HClient _ => True
  | _ => False
  end.

(** The states of a session that polls one reveal, opens it, and asks the human. *)
Inductive session {N : Type} `{!Terminal N} (id tok : bytes) (n0 : N) : N → Prop :=
  | session_start : session id tok n0 n0
  | session_status rc n : session id tok n0 n → session id tok n0 (Client.RevealStatus rc id 0 [] n).1
  | session_open rc n : session id tok n0 n → session id tok n0 (Client.Open rc id tok n).1
  | session_line n : session id tok n0 n → session id tok n0 (t_line n).1
  | session_hidden n : session id tok n0 n → session id tok n0 (t_hidden n).1
  | session_write b n : session id tok n0 n → session id tok n0 (t_write b n).1.

Section yields.
Context {N : Type} `{!Terminal N} `{Primitives} `{Unicode} (id tok : bytes) (n0 : N).

(** From any state of the session the command gives a [P], or fails for a
    reason outside of it. *)
Definition yields {A} (m : cli (N := N) A) (P : A → Prop) : Prop :=
  ∀ n, session id tok n0 n →
    session id tok n0 (m n).1 ∧ match (m n).2 with Ok x => P x | Err e => outside_failure e end.

Lemma yields_bind {A B} (m : cli (N := N) A) (f : A → cli B) P Q :
  yields m P → (∀ x, P x → yields (f x) Q) → yields (m ≫= f) Q.
Proof.
  intros Hm Hf n Hn. unfold mbind, cli_bind. destruct (Hm n Hn) as [Hs Hr]. destruct (m n) as [n' [x|e]]; [|done]. by apply Hf.
Qed.

Lemma yields_ret {A} (x : A) (P : A → Prop) : P x → yields (mret x) P.
Proof. by intros Hx n. Qed.

Lemma yields_fail {A} e (P : A → Prop) : outside_failure e → yields (cli_fail e) P.
Proof. by intros He n. Qed.

Lemma yields_lift {E A} (f : E → human_error) (r : result E A) x (P : A → Prop) : r = Ok x → P x → yields (cli_lift f r) P.
Proof. intros -> Hx n. done. Qed.

Lemma yields_call {A} g (f : Client.call (N := N) A) (P : A → Prop) :
  (∀ e, outside_failure (g e)) → (∀ n, session id tok n0 n → session id tok n0 (f n).1) →
  (∀ n n' x, session id tok n0 n → f n = (n', Ok x) → P x) → yields (cli_call g f) P.
Proof.
  intros Hg Hs Hf n Hn. specialize (Hs n Hn). unfold cli_call, cli_world, mbind, cli_bind.
  destruct (f n) as [n' [x|e]] eqn:E; (split; [done|]); [exact (Hf _ _ _ Hn E)|apply Hg].
Qed.

Lemma yields_read (f : N → N * option bytes) :
  (∀ n, session id tok n0 n → session id tok n0 (f n).1) → yields (cli_read f) (λ _, True).
Proof.
  intros Hs n Hn. specialize (Hs n Hn). unfold cli_read, cli_world, mbind, cli_bind. by destruct (f n) as [n' [b|]].
Qed.

Lemma yields_line : yields (cli_read t_line) (λ _, True).
Proof. apply yields_read. apply session_line. Qed.

Lemma yields_interactive : yields interactive (λ _, True).
Proof. by intros n. Qed.

Lemma yields_confirm yes : yields (confirm yes) (λ _, True).
Proof.
  unfold confirm. destruct yes; [by apply yields_ret|]. eapply yields_bind; [apply yields_interactive|]. intros tty _.
  destruct (negb tty); [by apply yields_fail|]. eapply yields_bind; [apply yields_line|]. intros line _. by apply yields_ret.
Qed.

Lemma yields_readSecret P : (∀ n n' pw, session id tok n0 n → readSecret n = (n', Ok pw) → P pw) → yields readSecret P.
Proof.
  intros HP n Hn.
  assert (yields readSecret (λ _, True)) as Hy.
  { unfold readSecret. eapply yields_bind; [apply yields_interactive|]. intros [] _; [apply yields_read; apply session_hidden|].
    eapply yields_bind; [apply yields_line|]. intros line _. by apply yields_ret. }
  destruct (Hy n Hn) as [Hs Hr]. destruct (readSecret n) as [n' [pw|e]] eqn:E; (split; [done|]); [exact (HP _ _ _ Hn E)|done].
Qed.

Lemma yields_show_value value : yields (show_value value) (λ v, v = value).
Proof.
  intros n Hn. apply (session_write _ _ _ value) in Hn. unfold show_value, cli_world, mbind, cli_bind.
  destruct (t_write value n) as [n1 []]; [|done]. simpl.
  destruct (last value) as [b|]; [|done]. case_bool_decide; [done|]. apply (session_write _ _ _ [x0a]) in Hn. simpl in Hn.
  by destruct (t_write [x0a] n1).
Qed.

Lemma status_error_outside e : outside_failure (status_error e).
Proof. unfold status_error. by case_match. Qed.
End yields.

Section sending.
Context {T : Type} `{BackendOk T} {N : Type} `{!AgentWorld N} `{PrimitivesOk} `{Unicode} `{ErrorText} (a : Agent).

(** Reading random bytes gives as many as were asked for. *)
Definition random_ok : Prop := ∀ (n : N) k b, 0 <= k → (w_random n).2 k = Some b → zlen b = k.

Lemma salt_of_password key p salt encKey : RevealKeyWithPassword key p salt = Ok encKey → 0 < zlen salt.
Proof.
  unfold RevealKeyWithPassword, PasswordKey. intros (pw & Hp & _)%result_bind_ok.
  destruct (Z.eqb_spec (zlen salt) SaltSize) as [->|]; [done|]. by rewrite orb_true_r in Hp.
Qed.

(** The human's part, given a link that parses and what was sealed for it. *)
Lemma cmdOpen_yields {M : Type} `{!Terminal M} (version : bytes) (m : M) raw yes r page ct env value encKey :
  is_empty raw = false → Link.ParseReveal raw = Ok (r, page) →
  is_ok (Link.NormalizeOrigin (Link.Reveal_RelayOrigin r page)) = true → zlen (Link.rKey r) = Tokens.KeySize →
  DecryptEnvelope encKey ct (Link.Reveal_AAD r) = Ok env → SecretBytes env = Some value →
  let in_session := session (Link.rID r) (Link.rRevealToken r) m in
  (∀ rc m1 m2 c t, in_session m1 → Client.Open rc (Link.rID r) (Link.rRevealToken r) m1 = (m2, Ok (c, t)) → c = ct) →
  (if Link.PasswordProtected r
   then ∀ m1 m2 pw, in_session m1 → readSecret m1 = (m2, Ok pw) → RevealKeyWithPassword (Link.rKey r) pw (Link.rSalt r) = Ok encKey
   else encKey = Link.rKey r) →
  yields (Link.rID r) (Link.rRevealToken r) m (cmdOpen version raw yes) (λ v, v = value).
Proof.
  intros Hraw Hp Ho Hk Hdec Hv in_session Hct Hpw. unfold cmdOpen.
  eapply (yields_bind _ _ _ _ _ (λ _, True)); [eapply (yields_lift _ _ _ _ _ tt); [by rewrite Hraw|done]|intros _ _].
  eapply (yields_bind _ _ _ _ _ (λ x, x = (r, page))); [eapply yields_lift; [by rewrite Hp|done]|intros _ ->].
  eapply (yields_bind _ _ _ _ _ (λ _, True)).
  { unfold connect, Client.New. destruct (Link.NormalizeOrigin _); [by apply yields_ret|done]. }
  intros rc _. eapply (yields_bind _ _ _ _ _ (λ _, True)); [apply yields_call; [apply status_error_outside|apply session_status|done]|]. intros st _.
  destruct (negb _); [by apply yields_fail|]. eapply yields_bind; [apply yields_confirm|]. intros ok _.
  destruct (negb ok); [by apply yields_fail|].
  eapply (yields_bind _ _ _ _ _ (λ k, k = Link.rKey r)).
  { eapply yields_lift; [|done]. unfold KeyFromBytes. by rewrite Hk. }
  intros k ->.
  set (P := λ pw, if Link.PasswordProtected r then RevealKeyWithPassword (Link.rKey r) pw (Link.rSalt r) = Ok encKey else True).
  eapply (yields_bind _ _ _ _ _ P).
  { unfold P. destruct (Link.PasswordProtected r); [|by apply yields_ret].
    eapply yields_bind; [apply yields_readSecret, Hpw|]. intros pw Hk'.
    destruct (is_empty pw); [by apply yields_fail|by apply yields_ret]. }
  intros pw HP. eapply (yields_bind _ _ _ _ _ (λ x, x.1 = ct)).
  { apply yields_call; [done|apply session_open|]. intros n n' [c t] Hn Hopen. by eapply Hct. }
  intros [c t] Hc. simpl in Hc. subst c. eapply (yields_bind _ _ _ _ _ (λ x, x = env)).
  { unfold P in HP. destruct (Link.PasswordProtected r).
    - unfold decryptWithPassword, password_attempts. eapply yields_bind; [by apply (yields_lift _ _ _ _ _ encKey (λ k, k = encKey) HP)|].
      intros _ ->. rewrite Hdec. by apply yields_ret.
    - subst encKey. eapply yields_lift; [by rewrite Hdec|done]. }
  intros _ ->. rewrite Hv. apply yields_show_value.
Qed.

Lemma relay_of_reveal r :
  origins_ok a → Link.rRelay r = link_relay a → Link.Reveal_RelayOrigin r (a_PageOrigin a) = Client.Origin (a_Relay a).
Proof. intros Ho Hd. exact (relay_of_link a (Link.mkDrop (Link.rRelay r) [] [] [] [] [] [] []) Ho Hd). Qed.

Lemma built_nonempty r page raw : Link.Reveal_Build r page = Ok raw → is_empty raw = false.
Proof.
  intros (u & _ & (o & _ & [= <-])%result_bind_ok)%result_bind_ok. apply bool_decide_eq_false. intros E.
  apply (f_equal length) in E. rewrite !length_app in E. simpl in E. lia.
Qed.

Lemma built_key r page raw : Link.Reveal_Build r page = Ok raw → zlen (Link.rKey r) = Tokens.KeySize.
Proof.
  intros (u & Hv & _)%result_bind_ok. unfold Link.Reveal_Validate in Hv. do 3 apply result_bind_ok in Hv as (? & _ & Hv).
  by apply result_bind_ok in Hv as (? & ?%guard_err_ok%Z.eqb_eq & _).
Qed.

(** C4. A secret that the agent sends is shown to the human.  What the agent sends
    is what a lookup of the name gave, marked sendable; and whoever opens the link with
    the terminal command, when the relay hands out the ciphertext it was given
    during the session and, where the agent asked for it, the reveal password
    is typed, sees exactly the stored value or fails for a reason outside of
    the exchange (the relay's or the terminal's error, a link that was used, a
    human who cancels): never because the link, the key, the password or the
    ciphertext would not do. *)
Theorem sent_secret_is_shown input (s s' : State (T := T) (N := N)) out :
  origins_ok a → random_ok → Send a input s = (s', Ok out) →
  ∃ now value meta ct created password lifetime (n n' : N),
    (Manager_Get now (si_Name input) (secrets s)).2 = Ok (value, meta) ∧ Sendable meta = true ∧
    Client.CreateReveal (a_Relay a) ct lifetime n = (n', Ok created) ∧
    redactor s' = Redact.Add (bs (si_Name input)) value (redactor s) ∧
    (so_PasswordProtected out = true ↔ AgentConfig.RevealPasswordRequired (a_Config a) = true) ∧
    (so_PasswordProtected out = true → ∃ n n', w_password n = (n', Some password)) ∧
    ∀ (M : Type) (TM : Terminal M) version yes (m m' : M) r,
      let in_session := session (Client.rc_ID created) (Client.rc_RevealToken created) m in
      (∀ rc m1 m2 c t, in_session m1 →
         Client.Open rc (Client.rc_ID created) (Client.rc_RevealToken created) m1 = (m2, Ok (c, t)) → c = ct) →
      (so_PasswordProtected out = true → ∀ m1 m2 pw, in_session m1 → readSecret m1 = (m2, Ok pw) → pw = password) →
      cmdOpen version (so_Link out) yes m = (m', r) →
      match r with Ok v => v = value | Err e => outside_failure e end.
Proof.
  intros Ho Hrand (now & value & meta & rk & n0 & key & encKey & salt & password & ct & lifetime & created & n & n' & Hname & Hget &
    Hsend & _ & _ & Hseal & Henc & Hcr & Hb & Hred & _ & Hprot)%Send_ok.
  set (link := send_link a (si_Name input) (negb (si_DeleteAfter input)) created key salt) in *.
  assert (Link.ParseReveal (so_Link out) = Ok (link, a_PageOrigin a)) as Hparse.
  { assert (LinkProps.relay_ok (Link.rRelay link)) as Hrel by exact (link_relay_ok a Ho).
    apply LinkProps.reveal_link_roundtrip; [apply Ho|done|done|].
    eapply reveal_link_fits; [apply Ho|done| |exact Hb]. by apply name_length. }
  assert (DecryptEnvelope encKey ct (Link.Reveal_AAD link) = Ok (send_envelope (si_Name input) value)) as Hdec.
  { eapply decrypt_encrypt_envelope; [intros b; by apply Hrand| |exact Henc]. unfold send_envelope.
    destruct (SetSecret_fields value (mkEnvelope 1 TypeReveal (bs (si_Name input)) [] [] [] [] [] [])) as (_ & -> & _).
    by apply ValidUtf8_ascii, ValidateName_ascii. }
  assert (so_PasswordProtected out = Link.PasswordProtected link) as Hpp.
  { rewrite Hprot. unfold Link.PasswordProtected, is_empty, link. cbn [send_link Link.rSalt]. by destruct salt as [|b l]. }
  exists now, value, meta, ct, created, (default [] password), lifetime, n, n'.
  assert (if Link.PasswordProtected link
    then AgentConfig.RevealPasswordRequired (a_Config a) = true ∧ (∃ n n', w_password n = (n', Some (default [] password))) ∧
         RevealKeyWithPassword key (default [] password) salt = Ok encKey
    else AgentConfig.RevealPasswordRequired (a_Config a) = false ∧ encKey = key) as Hcase.
  { unfold Link.PasswordProtected, link. cbn [send_link Link.rSalt].
    destruct password as [p|]; simpl in Hseal |- *; [|by destruct Hseal as (-> & -> & ->)].
    destruct Hseal as (? & _ & Hk & ?). pose proof (salt_of_password _ _ _ _ Hk) as Hlen. by destruct (Z.ltb_spec 0 (zlen salt)); [|lia]. }
  rewrite Hpp. split_and!; try done.
  - by destruct (Link.PasswordProtected link); destruct Hcase as [-> _].
  - by destruct (Link.PasswordProtected link); [destruct Hcase as (_ & ? & _)|].
  - intros M TM version yes m m' r in_session Hct Hpw Hopen.
    destruct (cmdOpen_yields version m (so_Link out) yes link (a_PageOrigin a) ct (send_envelope (si_Name input) value) value encKey) with (n := m) as [_ Hr];
      [by eapply built_nonempty|exact Hparse| |by eapply built_key|exact Hdec|apply secret_roundtrip|exact Hct| |constructor|].
    + by rewrite (relay_of_reveal link Ho eq_refl), (proj2 Ho).
    + destruct (Link.PasswordProtected link); [|by destruct Hcase].
      intros m1 m2 pw Hm1 ->%Hpw; [|done|done]. by destruct Hcase as (_ & _ & ?).
    + by rewrite Hopen in Hr.
Qed.
End sending.

(** * Revoking *)

Section revoking.
Context {T : Type} `{BackendOk T} {N : Type} `{!AgentWorld N} `{PrimitivesOk} `{Unicode} `{ErrorText} (a : Agent).
Context {R : Type} `{HandlersInv.StoreOk R} `{RateLimit.Buckets}.

(** What a report says of the slot that the relay then has: that it is gone, that
    it is in the final state that is reported, or, when nothing is reported,
    that it is live, since neither of its tokens was presented. *)
Definition report_holds (token : Tokens.Hash) (slot : option RelayTypes.Drop) (said : option bytes) : Prop :=
  match slot, said with
  | None, Some state => state = Client.StateExpired
  | Some d, Some state =>
      RelayTypes.Terminal (RelayTypes.dState d) = true ∧ state = bs (RelayTypes.State_string (RelayTypes.dState d))
  | Some d, None => RelayTypes.live d = true ∧ RelayTypes.TokenA d ≠ token ∧ RelayTypes.TokenB d ≠ token
  | None, None => False
  end.

(** What the client makes of the store's answer. *)
Lemma reported_answer uft (res : result RelayTypes.store_error unit) :
  let w := match res with
           | Ok _ => Server.writeJSON Server.StatusOK [(B["state"], Server.VStr (bs (RelayTypes.State_string RelayTypes.StateRevoked)))]
           | Err e => Handlers.storeError e Handlers.HRevoke
           end in
  zlen (Wire.render uft (Server.w_body w)) <= Client.maxResponse →
  reported (inr (Server.w_status w, inl (Wire.render uft (Server.w_body w)))) =
    match res with
    | Ok _ => Some Client.StateRevoked
    | Err (RelayTypes.StateError st _) => if is_empty (bs (RelayTypes.State_string st)) then None else Some (bs (RelayTypes.State_string st))
    | Err RelayTypes.ErrNotFound | Err RelayTypes.ErrWrongKind => Some Client.StateExpired
    | Err _ => None
    end.
Proof.
  destruct res as [u|err]; intros w Hmax; [done|]. subst w. unfold reported. rewrite take_ge by (unfold zlen in Hmax; lia).
  destruct (Wire.client_reads_refusal uft Handlers.HRevoke err eq_refl) as (e & -> & -> & ->).
  assert (Z.quot (Server.w_status (Handlers.storeError err Handlers.HRevoke)) 100 =? 2 = false) as ->.
  { by destruct err. }
  destruct err as [| | | | |st at_]; try done. by destruct st.
Qed.

(** The answer of the relay to a revocation, and the slot it leaves. *)
Lemma revocation_settles uft e (srv : Server.Server R) id tok :
  HandlersInv.st_inv (Server.store srv) →
  ∃ srv' w, (Handlers.proceed (Handlers.PRevoke id tok) e srv = (srv', inl w) ∨
             Handlers.proceed (Handlers.PRevoke id tok) e srv = (srv', inr (inl w))) ∧
    (zlen (Wire.render uft (Server.w_body w)) <= Client.maxResponse →
     report_holds tok (StoreSpec.slots (HandlersInv.st_abs (Server.store srv')) !! id)
       (reported (inr (Server.w_status w, inl (Wire.render uft (Server.w_body w)))))).
Proof.
  intros Hinv. destruct (HandlersInv.st_op (Server.e_store e 0%nat) (RelayTypes.OpRevoke id tok) (Server.store srv) I Hinv) as [_ Hop].
  simpl in Hop. unfold Handlers.proceed, Server.call_store, mbind, Server.handler_bind.
  destruct (RelayTypes.Revoke (Server.e_store e 0%nat) id tok (Server.store srv)) as [t res].
  simpl in Hop. unfold RelayTypes.mapr in Hop. destruct (StoreSpec.spec_revoke _ _ _ _) as [sp res'] eqn:Hsp.
  injection Hop as -> ->. pose proof (reported_answer uft res) as Hrep.
  match type of Hrep with let w := ?x in _ => exists (Server.set_store t srv), x end.
  split; [destruct res; [by right|by left]|]. intros Hmax. rewrite (Hrep Hmax). cbn [Server.store Server.set_store].
  unfold StoreSpec.spec_revoke in Hsp. apply StoreHistory.on_slot_inv in Hsp as [(Hno & -> & ->)|(d & d' & Hd & Hf & ->)].
  - by rewrite Hno.
  - cbn [StoreSpec.slots]. rewrite lookup_insert_eq. clear Hrep Hd.
    destruct res as [u|err].
    + apply StoreHistory.slot_revoke_ok in Hf as (_ & _ & ->). done.
    + revert Hf. unfold StoreSpec.slot_revoke, StoreSpec.refuse, RelayTypes.stateError.
      set (x := StoreSpec.observe _ d). destruct (RelayTypes.Terminal (RelayTypes.dState x)) eqn:Ht.
      * intros [= <- <-]. revert Ht. unfold report_holds. by destruct (RelayTypes.dState x).
      * case_decide as Htok; [|done]. intros [= <- <-]. simpl. split; [unfold RelayTypes.live; by rewrite Ht|]. tauto.
Qed.

(** C35. Revoking believes the relay, and the relay's word holds. The agent
    sends one revocation, of the slot its record names and with the record's
    own token; it reports what the answer says ([reported]: revoked for a
    success, otherwise the state the error names, or expired when the relay
    does not know the slot) and then deletes the record of the request, or of
    the unopened link; an answer that says nothing of the slot, or none, is an
    error, and the record stays. And when the relay's store answers, with a
    body of at most the megabyte that the client reads, what the client reads
    in it is the final state that the slot then is in, revoked now or final
    before, or expired because there is no such slot; nothing is read exactly
    when the slot stays live, because the token is neither of its own. *)
Theorem revoke_reports_the_relay :
  (∀ id (s m : State (T := T) (N := N)) rec, loadPending id s = (m, Ok rec) →
     match reported (Client.http_do (revocation a B["/api/v1/drops/revoke"] (pr_DropID rec) (pr_UploadToken rec)) (net m)).2 with
     | Some state => (Revoke a id s).2 = Ok state ∧ secrets (Revoke a id s).1 = (Manager_Delete (pendingName (pr_DropID rec)) (secrets m)).1
     | None => is_ok (Revoke a id s).2 = false ∧ secrets (Revoke a id s).1 = secrets m
     end) ∧
  (∀ id (s m0 m : State (T := T) (N := N)) rec, loadPending id s = (m0, Err ErrNoPending) → loadSent id m0 = (m, Ok rec) →
     match reported (Client.http_do (revocation a B["/api/v1/reveals/revoke"] (sr_DropID rec) (sr_RevokeToken rec)) (net m)).2 with
     | Some state => (Revoke a id s).2 = Ok state ∧ secrets (Revoke a id s).1 = (Manager_Delete (sentName (sr_DropID rec)) (secrets m)).1
     | None => is_ok (Revoke a id s).2 = false ∧ secrets (Revoke a id s).1 = secrets m
     end) ∧
  (∀ uft e (srv : Server.Server R) id tok, HandlersInv.st_inv (Server.store srv) →
     ∃ srv' w, (Handlers.proceed (Handlers.PRevoke id tok) e srv = (srv', inl w) ∨
                Handlers.proceed (Handlers.PRevoke id tok) e srv = (srv', inr (inl w))) ∧
       (zlen (Wire.render uft (Server.w_body w)) <= Client.maxResponse →
        report_holds tok (StoreSpec.slots (HandlersInv.st_abs (Server.store srv')) !! id)
          (reported (inr (Server.w_status w, inl (Wire.render uft (Server.w_body w))))))).
Proof.
  split_and!; [intros id s m rec Hl|intros id s m0 m rec Hl Hs|apply revocation_settles].
  - unfold Revoke, try, mbind, flow_bind. rewrite Hl. by apply revocation_spec.
  - unfold Revoke, try, mbind, flow_bind. rewrite Hl. unfold revokeSent, mbind, flow_bind. rewrite Hs. by apply revocation_spec.
Qed.
End revoking.

(** * Concrete runs

    An agent, a human and a relay run together: concrete runs of the flows, and
    the theorems about them at these runs. *)

Import Client (World, w_now).

#[local] Existing Instance RateLimit.countdown.
#[local] Existing Instance Config.config_ascii.
#[local] Existing Instance Memory.memory_store.
#[local] Existing Instance SystemProps.memory_wait.
#[local] Existing Instance SystemProps.memory_ok.
#[local] Existing Instance Wire.sample_world.
#[local] Existing Instance toy_primitives.
#[local] Existing Instance toy_primitives_ok.

Abbreviation relay_world := (System.System (T := Memory.Memory)).

Definition sample_agent_world : AgentWorld relay_world :=
  {| agent_net := Wire.sample_world; w_random n := (n, sample_random); w_password n := (n, Some B["open sesame"]) |}.

Definition sample_terminal : Terminal relay_world := {|
  terminal_net := Wire.sample_world;
  t_random n := (n, sample_random);
  t_interactive _ := false;
  t_line n := (n, Some (B["open sesame"] ++ [x0a]));
  t_rest _ n := (n, Some (B["s3cret value"] ++ [x0a]));
  t_hidden n := (n, None);
  t_file _ n := (n, None);
  t_write _ n := (n, true);
|}.
#[local] Existing Instance sample_agent_world.
#[local] Existing Instance plain_errors.
#[local] Existing Instance sample_terminal.

Definition demo_config : AgentConfig.Config :=
  AgentConfig.mkConfig B["https://relay.example"] [] [] B["memory"] [] [] B["env:PW"] true (AgentConfig.mkRunConfig [] 0) [] AgentConfig.no_backends.

Definition demo_agent : Agent := New demo_config Wire.sample_client true.
Definition demo_state : State (T := Secrets.Memory) (N := relay_world) := mkState SystemProps.sample_start sample_manager Redact.NewRedactor [].
Definition demo_input : RequestInput := mkRequestInput "db-password" B["deploy the <app>"] [] true [].

Abbreviation requested := (Request demo_agent demo_input demo_state).

Definition outcome {E A} (r : result E A) : option A := match r with Ok x => Some x | Err _ => None end.

Definition after_request : State (T := Secrets.Memory) (N := relay_world) := requested.1.
Definition demo_out : RequestOutput := default (request_output zero_pending [] [] []) (outcome requested.2).

(** The human submits, then the agent fetches. *)
Abbreviation submitted := (cmdDrop B["dev"] (ro_Link demo_out) [] true (net after_request)).
Definition after_submission : State (T := Secrets.Memory) (N := relay_world) :=
  mkState submitted.1 (secrets after_request) (redactor after_request) (trail after_request).
Abbreviation fetch_run := (Fetch demo_agent 3 (mkFetchInput [] 0) after_submission).

Definition held (s : State (T := Secrets.Memory) (N := relay_world)) (name : string) : option bytes :=
  fst <$> entries (persistent (secrets s)) !! name.

(** The agent asks, the human submits, the agent fetches. *)
Example exchange_runs :
  submitted.2 = Ok tt ∧ (fo_Status <$> outcome fetch_run.2) = Some StatusStored ∧
  held fetch_run.1 "db-password" = Some B["s3cret value"].
Proof. split_and!; vm_compute; reflexivity. Qed.

Lemma demo_origins : origins_ok demo_agent.
Proof.
  split; [|vm_compute; reflexivity]. split; [vm_compute; reflexivity|]. exists B["https"], B["relay.example"].
  split; [by left|]. split; [|vm_compute; reflexivity]. repeat split; decided || reflexivity.
Qed.

Lemma pair_ok {A B} (p : A * B) y : p.2 = y → p = (p.1, y).
Proof. destruct p. by intros <-. Qed.

Lemma requested_ok : requested = (after_request, Ok demo_out).
Proof. apply (pair_ok requested). vm_compute. reflexivity. Qed.

Lemma submitted_ok : submitted = (submitted.1, Ok tt).
Proof. apply (pair_ok submitted). vm_compute. reflexivity. Qed.

Lemma submitted_secret_is_stored_witness :
  ∃ rec (value : bytes), pr_DropID rec = ro_RequestID demo_out ∧ pr_Name rec = "db-password" ∧ value ≠ [].
Proof.
  destruct (submitted_secret_is_stored demo_agent B["dev"] demo_input demo_state after_request demo_out [] true
    (net after_request) submitted.1) as (rec & pub & value & sealed & rc & s0 & saved & m1 & m2 & m3 & _ & _ & Hid & Hn & _ & Hv & _).
  - exact demo_origins.
  - exact requested_ok.
  - exact submitted_ok.
  - exists rec, value. split; [exact Hid|]. split; [exact Hn|exact Hv].
Defined.

(** What the fetch stored was the submission. *)
Lemma fetch_stores_matching_witness :
  is_ok fetch_run.2 = true ∧ ∃ rec, was_pending rec after_submission ∧ fetch_effect demo_agent rec after_submission fetch_run.1 fetch_run.2.
Proof.
  assert (is_ok fetch_run.2 = true) as Hok by (vm_compute; reflexivity). split; [exact Hok|].
  destruct (fetch_stores_matching demo_agent 3 (mkFetchInput [] 0) after_submission fetch_run.1 fetch_run.2
    (surjective_pairing _)) as [H|[_ H]]; [exact H|congruence].
Defined.

(** A record of its own. *)
Definition demo_record : pendingRecord :=
  mkPending 1 (SystemProps.sample_tok x00) (SystemProps.sample_tok x02) (SystemProps.sample_tok x01) (Some (replicate 32 x07))
    (Some (replicate 32 x07)) "db-password" B["deploy <it>"] RetentionUntilRevoked B["memory"] true B["0000-1111-2222-3333"]
    (100 * Second + 5) (3700 * Second + 1).

Abbreviation saved := (savePending demo_record demo_state).

Lemma pending_survives_witness :
  (loadPending (pr_DropID demo_record) saved.1).2 = Ok demo_record ∨
  ∃ e, e ≠ ErrNotFound ∧ (loadPending (pr_DropID demo_record) saved.1).2 = Err (EStorage e).
Proof.
  apply (pending_survives demo_record demo_state saved.1 (loadPending (pr_DropID demo_record) saved.1).1).
  - repeat split; vm_compute; try reflexivity; eexists; reflexivity.
  - split; [apply always_healthy|]. intros b retention now _ expires _ _. apply always_accepts.
  - vm_compute. reflexivity.
  - vm_compute. reflexivity.
  - apply (pair_ok saved). vm_compute. reflexivity.
  - vm_compute. reflexivity.
  - apply surjective_pairing.
Defined.

(** A link taken back before anyone used it. *)
Abbreviation revoke_run := (Revoke demo_agent (ro_RequestID demo_out) after_request).

Abbreviation loaded := (loadPending (ro_RequestID demo_out) after_request).
Definition loaded_record : pendingRecord := default zero_pending (outcome loaded.2).

Lemma loaded_ok : loaded = (loaded.1, Ok loaded_record).
Proof. apply pair_ok. vm_compute. reflexivity. Qed.

Definition relay_said : option bytes :=
  reported (@Client.http_do _ agent_net (revocation demo_agent B["/api/v1/drops/revoke"] (pr_DropID loaded_record) (pr_UploadToken loaded_record)) (net loaded.1)).2.

Lemma relay_said_revoked : relay_said = Some Client.StateRevoked.
Proof. vm_compute. reflexivity. Qed.

Lemma revoke_reports_the_relay_witness :
  relay_said = Some Client.StateRevoked ∧ revoke_run.2 = Ok Client.StateRevoked ∧
  secrets revoke_run.1 = (Manager_Delete (pendingName (pr_DropID loaded_record)) (secrets loaded.1)).1.
Proof.
  split; [exact relay_said_revoked|].
  pose proof (proj1 (revoke_reports_the_relay (R := Memory.Memory) demo_agent) (ro_RequestID demo_out) after_request loaded.1 loaded_record loaded_ok)
    as Hr.
  pose proof relay_said_revoked as Hs. unfold relay_said in Hs. rewrite Hs in Hr. exact Hr.
Defined.

(** ** Sending *)

Definition stored_state (sendable : bool) : State (T := Secrets.Memory) (N := relay_world) :=
  mkState SystemProps.sample_start
    (Manager_Put (100 * Second) "api-key" B["k3y"]
       (mkMetadata "" [] RetentionUntilRevoked 0 0 B["demo"] [] sendable [] 0 KindSecret) sample_manager).1
    Redact.NewRedactor [].

Definition demo_send : SendInput := mkSendInput "api-key" B["30m"] true.
Abbreviation send_run := (Send demo_agent demo_send (stored_state true)).
Definition send_out : SendOutput :=
  default (mkSendOutput [] [] 0 false false [] []) (outcome send_run.2).
Abbreviation open_run := (cmdOpen B["dev"] (so_Link send_out) true (net send_run.1)).

(** The agent sends and drops its copy, the human types the password and sees
    the value; a second opening finds the link used. *)
Example reveal_runs :
  so_PasswordProtected send_out = true ∧ so_KeepsCopy send_out = false ∧ held send_run.1 "api-key" = None ∧
  open_run.2 = Ok B["k3y"] ∧ (cmdOpen B["dev"] (so_Link send_out) true open_run.1).2 = Err (LinkUsed B["opened"]).
Proof. split_and!; vm_compute; reflexivity. Qed.

Lemma unsendable_not_sent_witness :
  (Send demo_agent demo_send (stored_state false)).2 = Err ErrNotSendable ∧
  trail (Send demo_agent demo_send (stored_state false)).1 =
    [entry B["send_secret"] "api-key" [] B["refused_not_sendable"] [] []].
Proof.
  rewrite (unsendable_not_sent demo_agent demo_send (stored_state false) (1800 * Second) B["k3y"]
    (mkMetadata "api-key" B["memory"] RetentionUntilRevoked (100 * Second) 0 B["demo"] B["drop"] false [] 3 KindSecret));
    [|vm_compute; reflexivity..].
  split; vm_compute; reflexivity.
Defined.

(** A terminal whose network is down: what is opened on it fails from outside. *)
Definition offline_world : World unit := {|
  Client.http_do _ n := (n, inl (Client.mkTransport false));
  Client.w_now n := (n, 0);
  Client.w_sleep _ n := n;
  Client.ctx_err _ := None;
|}.
Definition offline : Terminal unit := {|
  terminal_net := offline_world; t_random n := (n, sample_random); t_interactive _ := true; t_line n := (n, None);
  t_rest _ n := (n, None); t_hidden n := (n, Some B["open sesame"]); t_file _ n := (n, None); t_write _ n := (n, true)
|}.

Lemma sent_secret_is_shown_witness :
  ∃ value meta, Sendable meta = true ∧ redactor send_run.1 = Redact.Add B["api-key"] value Redact.NewRedactor ∧
    match (@cmdOpen unit offline _ _ B["dev"] (so_Link send_out) true tt).2 with
    | Ok v => v = value
    | Err e => outside_failure e
    end.
Proof.
  destruct (sent_secret_is_shown demo_agent demo_send (stored_state true) send_run.1 send_out)
    as (now & value & meta & ct & created & password & lifetime & n & n' & _ & Hs & _ & Hr & _ & Hpw & Hopen).
  - exact demo_origins.
  - intros n k b Hk [= <-]. unfold zlen. rewrite length_replicate. lia.
  - apply (pair_ok send_run). vm_compute. reflexivity.
  - exists value, meta. split; [exact Hs|]. split; [exact Hr|].
    apply (Hopen unit offline B["dev"] true tt (@cmdOpen unit offline _ _ B["dev"] (so_Link send_out) true tt).1).
    + intros rc m1 m2 c t _ Ho. discriminate Ho.
    + intros Hp m1 m2 pw _ Hread. destruct (Hpw Hp) as (x & y & Hw). injection Hw as _ <-. injection Hread as _ <-. reflexivity.
    + apply surjective_pairing.
Defined.
