(* ===== verification/FileAtomic.v ===== *)
(** Writing a file atomically: internal/storage/index.go [writeFileAtomic].

    The model keeps the disk after every system call.  What processes see of a
    file is not yet what survives when the machine stops: until a [Sync] the
    contents of a file may be lost in part or in whole, and a change of a
    directory may not have reached the disk although later ones did not
    either. *)
From S2P Require Import Prelude.

Abbreviation FS := (gmap string bytes).

(** What processes see, and the files whose contents have not been forced to
    the disk. *)
Record Disk := mkDisk { seen : FS; loose : gset string }.

Definition settled (fs : FS) : Disk := mkDisk fs ∅.

(** What the disk may hold when the machine starts again: a file that is loose
    has any contents at all. *)
Definition crashed (d : Disk) (fs : FS) : Prop :=
  ∀ name, if decide (name ∈ loose d) then seen d !! name = None ∧ fs !! name = None ∨ is_Some (seen d !! name) ∧ is_Some (fs !! name)
          else fs !! name = seen d !! name.

(** The machine stops after the last of these states; the disk is left with
    the directory as it was then or at any moment before. *)
Definition crashed_within (states : list Disk) (fs : FS) : Prop := Exists (λ d, crashed d fs) states.

(** * System calls *)

Definition d_create (name : string) (d : Disk) : Disk := mkDisk (<[name := []]> (seen d)) ({[name]} ∪ loose d).
Definition d_write (name : string) (b : bytes) (d : Disk) : Disk := mkDisk (<[name := b]> (seen d)) ({[name]} ∪ loose d).
Definition d_sync (name : string) (d : Disk) : Disk := mkDisk (seen d) (loose d ∖ {[name]}).
Definition d_remove (name : string) (d : Disk) : Disk := mkDisk (delete name (seen d)) (loose d ∖ {[name]}).

(** [os.Rename] moves the file, forced to the disk or not. *)
Definition d_rename (old new : string) (d : Disk) : Disk :=
  match seen d !! old with
  | None => d
  | Some b =>
      mkDisk (<[new := b]> (delete old (seen d)))
        (if decide (old ∈ loose d) then {[new]} ∪ (loose d ∖ {[old]}) else loose d ∖ {[new]})
  end.

(** The fate of each system call. *)
Record Faults := mkFaults {
  f_create : bool;
  f_chmod : bool;
  f_chmod_permission : bool; (* the failure is [os.ErrPermission] *)
  f_write : option nat; (* fails after this many bytes *)
  f_sync : bool;
  f_close : bool;
  f_rename : bool;
  f_remove : bool;
}.

Definition no_faults : Faults := mkFaults false false false None false false false false.

(** [os.Remove(tmpName)]; its failure is ignored. *)
Definition cleanup (w : Faults) (tmp : string) (d : Disk) : Disk := if f_remove w then d else d_remove tmp d.

(** The states the disk goes through, and whether the call succeeds; [tmp] is
    the name [os.CreateTemp] came up with. *)
Definition writeFileAtomic (w : Faults) (path tmp : string) (data : bytes) (d : Disk) : list Disk * bool :=
  if f_create w then ([d], false)
  else
    let created := d_create tmp d in
    if f_chmod w && negb (f_chmod_permission w) then ([d; created; cleanup w tmp created], false)
    else
      match f_write w with
      | Some n =>
          let torn := d_write tmp (take n data) created in
          ([d; created; torn; cleanup w tmp torn], false)
      | None =>
          let written := d_write tmp data created in
          if f_sync w then ([d; created; written; cleanup w tmp written], false)
          else
            let synced := d_sync tmp written in
            if f_close w || f_rename w then ([d; created; written; synced; cleanup w tmp synced], false)
            else ([d; created; written; synced; d_rename tmp path synced], true)
      end.

(** * What may be seen, and what may be left

    One state of the replacement of [path]: the temporary file has any
    contents, forced to the disk or not, or [path] has been replaced by data
    that has. *)
Definition on_the_way (path tmp : string) (data : bytes) (fs : FS) (d : Disk) : Prop :=
  (∃ t, seen d = partial_alter (λ _, t) tmp fs ∧ loose d ⊆ {[tmp]}) ∨
  (seen d = <[path := data]> fs ∧ loose d = ∅).

Definition old_or_new (path tmp : string) (data : bytes) (fs s : FS) : Prop :=
  (s !! path = fs !! path ∨ s !! path = Some data) ∧ ∀ other, other ≠ path → other ≠ tmp → s !! other = fs !! other.

Lemma inserted_seen path tmp data fs : old_or_new path tmp data fs (<[path := data]> fs).
Proof. split; [right; by rewrite lookup_insert_eq|]. intros. by rewrite lookup_insert_ne. Qed.

Lemma on_the_way_seen path tmp data fs d :
  tmp ≠ path → on_the_way path tmp data fs d → old_or_new path tmp data fs (seen d).
Proof.
  intros Hne [(t & -> & _)|[-> _]]; [split|apply inserted_seen].
  - left. by rewrite lookup_partial_alter_ne.
  - intros. by rewrite lookup_partial_alter_ne.
Qed.

Lemma crashed_firm d fs name : crashed d fs → name ∉ loose d → fs !! name = seen d !! name.
Proof. intros Hc Hn. specialize (Hc name). by rewrite decide_False in Hc. Qed.

Lemma on_the_way_crashed path tmp data fs d s :
  tmp ≠ path → on_the_way path tmp data fs d → crashed d s → old_or_new path tmp data fs s.
Proof.
  intros Hne Hd Hc. pose proof (on_the_way_seen _ _ _ _ _ Hne Hd) as [Hp Ho].
  assert (∀ name, name ≠ tmp → s !! name = seen d !! name) as Hs.
  { intros name Hn. apply crashed_firm; [done|]. destruct Hd as [(t & _ & Hl)|[_ Hl]]; set_solver. }
  split; [by rewrite Hs|]. intros other H1 H2. rewrite Hs by done. by apply Ho.
Qed.

(** The states of a call, one after the other. *)
Lemma way_start path tmp data fs : on_the_way path tmp data fs (settled fs).
Proof. left. exists (fs !! tmp). by rewrite partial_alter_self. Qed.

Section way.
Context (path tmp : string) (data : bytes) (fs : FS).

(** The temporary file is there. *)
Definition temporary (b : bytes) (d : Disk) : Prop := seen d = <[tmp := b]> fs ∧ loose d ⊆ {[tmp]}.

Lemma temporary_way b d : temporary b d → on_the_way path tmp data fs d.
Proof. intros [Hs Hl]. left. by exists (Some b). Qed.

Lemma create_way : temporary [] (d_create tmp (settled fs)).
Proof. split; [done|]. simpl. set_solver. Qed.

Lemma write_way b c d : temporary b d → temporary c (d_write tmp c d).
Proof. intros [Hs Hl]. split; simpl; [|set_solver]. by rewrite Hs, insert_insert_eq. Qed.

Lemma sync_way b d : temporary b d → temporary b (d_sync tmp d) ∧ loose (d_sync tmp d) = ∅.
Proof. intros [Hs Hl]. repeat split; simpl; [done|set_solver..]. Qed.

Context (Htmp : fs !! tmp = None).

Lemma cleanup_way w b d :
  temporary b d → on_the_way path tmp data fs (cleanup w tmp d) ∧
  (tmp ≠ path → seen (cleanup w tmp d) !! path = fs !! path) ∧ (f_remove w = false → cleanup w tmp d = settled fs).
Proof using Htmp.
  intros [Hs Hl]. unfold cleanup. destruct (f_remove w); [split; [by apply (temporary_way b)|]; split; [|done]|].
  - intros Hne. by rewrite Hs, lookup_insert_ne.
  - assert (d_remove tmp d = settled fs) as ->; [|split_and!; [apply way_start|done..]].
    unfold d_remove, settled. rewrite Hs, delete_insert_id by done. f_equal. set_solver.
Qed.

Lemma rename_way d :
  temporary data d → loose d = ∅ → d_rename tmp path d = settled (<[path := data]> fs).
Proof using Htmp.
  intros [Hs _] Hl. unfold d_rename, settled. rewrite Hs, lookup_insert_eq, delete_insert_id, Hl by done.
  rewrite decide_False by set_solver. f_equal. set_solver.
Qed.
End way.

(** Every state of a call is on the way. *)
Ltac states := rewrite !Forall_cons, Forall_nil; split_and!; eauto.

(** C37. At every moment of a write, whichever system call fails, the file is
    seen with either all of its old contents or all of the new; and whenever
    the machine stops, that is what the file holds when it starts again, though
    whatever was not forced to the disk by then may be lost or torn and the
    directory may be back at an earlier moment of the write.  No other file but
    the temporary one is touched.  The call succeeds exactly when it ends with
    the new contents in place, and then they are on the disk and the temporary
    file is gone; when it fails, the file has its old contents, and the
    temporary file is removed if it can be. *)
Theorem write_atomic w path tmp data fs states ok :
  tmp ≠ path → fs !! tmp = None → writeFileAtomic w path tmp data (settled fs) = (states, ok) →
  (∀ d, d ∈ states → old_or_new path tmp data fs (seen d)) ∧
  (∀ s, crashed_within states s → old_or_new path tmp data fs s) ∧
  ∃ final, last states = Some final ∧
    (if ok then final = settled (<[path := data]> fs)
     else seen final !! path = fs !! path ∧ (f_remove w = false → final = settled fs)).
Proof.
  intros Hne Htmp Hw.
  assert (Forall (on_the_way path tmp data fs) states ∧ ∃ final, last states = Some final ∧
    (if ok then final = settled (<[path := data]> fs)
     else seen final !! path = fs !! path ∧ (f_remove w = false → final = settled fs))) as [Hall Hlast].
  { pose proof (way_start path tmp data fs) as H0. pose proof (create_way tmp fs) as H1.
    pose proof (λ b d, temporary_way path tmp data fs b d) as Hway.
    pose proof (λ w b d, cleanup_way path tmp data fs Htmp w b d) as Hend.
    unfold writeFileAtomic in Hw. destruct (f_create w); [injection Hw as <- <-; split; [by apply Forall_singleton|by eexists]|].
    destruct (_ && _).
    { destruct (Hend w _ _ H1) as (He & Hp & Hr). injection Hw as <- <-. split; [|by eexists; split_and!; auto].
      states. }
    destruct (f_write w) as [n|].
    { pose proof (write_way tmp fs _ (take n data) _ H1) as H2. destruct (Hend w _ _ H2) as (He & Hp & Hr).
      injection Hw as <- <-. split; [|by eexists; split_and!; auto]. states. }
    pose proof (write_way tmp fs _ data _ H1) as H2. destruct (f_sync w).
    { destruct (Hend w _ _ H2) as (He & Hp & Hr).
      injection Hw as <- <-. split; [|by eexists; split_and!; auto]. states. }
    destruct (sync_way tmp fs _ _ H2) as [H3 Hl]. destruct (_ || _); injection Hw as <- <-.
    - destruct (Hend w _ _ H3) as (He & Hp & Hr).
      split; [|by eexists; split_and!; auto]. states.
    - pose proof (rename_way path tmp data fs Htmp _ H3 Hl) as Hren. split; [|by eexists].
      states. right. by rewrite Hren. }
  rewrite Forall_forall in Hall. split_and!; [|intros s (d & Hd & Hc)%Exists_exists|done].
  - intros d Hd. apply on_the_way_seen; auto.
  - eapply on_the_way_crashed; eauto.
Qed.

Definition sample_fs : FS := {[ "index.json" := bs "old" ]}.

Lemma write_atomic_witness :
  (writeFileAtomic no_faults "index.json" ".index.json.1.tmp" (bs "new") (settled sample_fs)).2 = true ∧
  (∀ s, crashed_within (writeFileAtomic no_faults "index.json" ".index.json.1.tmp" (bs "new") (settled sample_fs)).1 s →
    s !! "index.json" = Some (bs "old") ∨ s !! "index.json" = Some (bs "new")).
Proof.
  destruct (write_atomic no_faults "index.json" ".index.json.1.tmp" (bs "new") sample_fs _ _
    ltac:(discriminate) eq_refl (surjective_pairing _)) as (_ & Hall & _).
  split; [reflexivity|]. intros s Hs. apply (Hall s Hs).
Defined.
