(* ===== verification/Keychain.v ===== *)
(** The backend in the credential store of the operating system:
    internal/storage/keychain.go.

    The store itself (github.com/zalando/go-keyring) is a parameter: entries of
    text by service and user, any call of which may fail. *)
From S2P Require Import Prelude GoStrings GoTime GoText Json Secrets Records.
From Stdlib Require Import Strings.Byte.

(** * The credential store *)

Inductive keyring_error := KNotFound | KUnsupported | KOther.

#[export] Instance keyring_error_eq_dec : EqDecision keyring_error.
Proof. solve_decision. Defined.

Class Keyring (K : Type) := {
  kr_Set : bytes → bytes → bytes → K → K * result keyring_error unit;
  kr_Get : bytes → bytes → K → K * result keyring_error bytes;
  kr_Delete : bytes → bytes → K → K * result keyring_error unit;
}.

(** What a call that fails leaves of its own entry is open, every other entry
    stays; a lookup changes nothing. *)
Class KeyringOk (K : Type) `{Keyring K} := {
  kr_view : K → gmap (bytes * bytes) bytes;
  kr_set_ok s u v k : (kr_Set s u v k).2 = Ok tt → kr_view (kr_Set s u v k).1 = <[(s, u) := v]> (kr_view k);
  kr_set_other s u v k i : i ≠ (s, u) → kr_view (kr_Set s u v k).1 !! i = kr_view k !! i;
  kr_get_view s u k : kr_view (kr_Get s u k).1 = kr_view k;
  kr_get_ok s u k v : (kr_Get s u k).2 = Ok v → kr_view k !! (s, u) = Some v;
  kr_get_missing s u k : (kr_Get s u k).2 = Err KNotFound → kr_view k !! (s, u) = None;
  kr_delete_ok s u k : (kr_Delete s u k).2 = Ok tt →
    is_Some (kr_view k !! (s, u)) ∧ kr_view (kr_Delete s u k).1 = delete (s, u) (kr_view k);
  kr_delete_missing s u k : (kr_Delete s u k).2 = Err KNotFound →
    kr_view k !! (s, u) = None ∧ kr_view (kr_Delete s u k).1 = kr_view k;
  kr_delete_other s u k i : i ≠ (s, u) → kr_view (kr_Delete s u k).1 !! i = kr_view k !! i;
}.

Definition wrapKeyring {A} (r : result keyring_error A) : result storage_error A :=
  match r with
  | Ok a => Ok a
  | Err KNotFound => Err ErrNotFound
  | Err KUnsupported => Err ErrUnavailable
  | Err KOther => Err ErrOther
  end.

(** [strconv.Atoi] *)
Definition Atoi (s : bytes) : option Z :=
  match s with
  | b :: ds =>
      if decide (b = x2b) then (if bool_decide (head ds = Some x2d) then None else int64_of ds) else int64_of s
  | [] => None
  end.

(** * The backend *)

Definition DefaultKeychainService : bytes := B["burndrop"].
Definition KeychainVaultKeyEntry : bytes := B["vault-identity"].
Definition keychain_Name : bytes := B["keychain"].
Definition chunkHeader : bytes := B["burndrop-chunks:"].
Definition chunkUser (name : string) (i : Z) : bytes := bs name ++ B["#"] ++ Itoa i.
Definition max_chunks : Z := 1000.

Section keychain.
Context {K : Type} `{Keyring K}.

Record Keychain := mkKeychain { kService : bytes; chunkSize : Z; kStore : K }.

Definition NewKeychain (windows : bool) (service : bytes) (k : K) : Keychain :=
  mkKeychain (if is_empty service then DefaultKeychainService else service)
    (if windows then 2000 else 2 ^ 20) k.

(** One call of the store. *)
Definition on_keyring {A} (f : bytes → K → K * A) (k : Keychain) : Keychain * A :=
  let '(s, a) := f (kService k) (kStore k) in (mkKeychain (kService k) (chunkSize k) s, a).

Definition keyring_Set (user value : bytes) : Keychain → Keychain * result keyring_error unit :=
  on_keyring (λ s, kr_Set s user value).
Definition keyring_Get (user : bytes) : Keychain → Keychain * result keyring_error bytes :=
  on_keyring (λ s, kr_Get s user).
Definition keyring_Delete (user : bytes) : Keychain → Keychain * result keyring_error unit :=
  on_keyring (λ s, kr_Delete s user).

(** Numbered entries from [i] on, until the first gap. *)
Fixpoint deleteChunks_from (fuel : nat) (name : string) (i : Z) (k : Keychain) : Keychain * result storage_error unit :=
  match fuel with
  | O => (k, Ok tt)
  | S fuel =>
      match keyring_Delete (chunkUser name i) k with
      | (k, Err KNotFound) => (k, Ok tt)
      | (k, Err e) => (k, wrapKeyring (Err e))
      | (k, Ok _) => deleteChunks_from fuel name (i + 1) k
      end
  end.

Definition deleteChunks (name : string) : Keychain → Keychain * result storage_error unit :=
  deleteChunks_from (Z.to_nat max_chunks) name 0.

(** [rec[start:end]] of part [i]. *)
Definition chunk (size i : Z) (rec : bytes) : bytes :=
  take (Z.to_nat (Z.min ((i + 1) * size) (zlen rec) - i * size)) (drop (Z.to_nat (i * size)) rec).

Definition chunk_count (size : Z) (rec : bytes) : Z := (zlen rec + size - 1) / size.

Fixpoint put_chunks (todo : nat) (name : string) (i : Z) (rec : bytes) (k : Keychain)
    : Keychain * result keyring_error unit :=
  match todo with
  | O => (k, Ok tt)
  | S todo =>
      match keyring_Set (chunkUser name i) (chunk (chunkSize k) i rec) k with
      | (k, Err e) => ((deleteChunks name k).1, Err e)
      | (k, Ok _) => put_chunks todo name (i + 1) rec k
      end
  end.

Definition keychain_Put (name : string) (value : bytes) (meta : Metadata) (k : Keychain)
    : Keychain * result storage_error unit :=
  match ValidateName name with
  | Err e => (k, Err e)
  | Ok _ =>
      match encodeRecord (stamp keychain_Name name value meta) value with
      | Err e => (k, Err e)
      | Ok rec =>
          let k := (deleteChunks name k).1 in
          if zlen rec <=? chunkSize k then
            let '(k, r) := keyring_Set (bs name) rec k in (k, wrapKeyring r)
          else
            let n := chunk_count (chunkSize k) rec in
            match put_chunks (Z.to_nat n) name 0 rec k with
            | (k, Err e) => (k, wrapKeyring (Err e))
            | (k, Ok _) => let '(k, r) := keyring_Set (bs name) (chunkHeader ++ Itoa n) k in (k, wrapKeyring r)
            end
      end
  end.

(** The parts of a record, one after the other. *)
Fixpoint get_chunks (todo : nat) (name : string) (i : Z) (k : Keychain) : Keychain * result keyring_error bytes :=
  match todo with
  | O => (k, Ok [])
  | S todo =>
      match keyring_Get (chunkUser name i) k with
      | (k, Err e) => (k, Err e)
      | (k, Ok part) =>
          match get_chunks todo name (i + 1) k with
          | (k, Err e) => (k, Err e)
          | (k, Ok rest) => (k, Ok (part ++ rest))
          end
      end
  end.

Definition header_count (s : bytes) : option Z :=
  n ← Atoi (TrimPrefix s chunkHeader); if (n <=? 0) || (max_chunks <? n) then None else Some n.

Definition keychain_Get (name : string) (k : Keychain) : Keychain * result storage_error (bytes * Metadata) :=
  match ValidateName name with
  | Err e => (k, Err e)
  | Ok _ =>
      match keyring_Get (bs name) k with
      | (k, Err e) => (k, wrapKeyring (Err e))
      | (k, Ok s) =>
          if HasPrefix s chunkHeader then
            match header_count s with
            | None => (k, Err ErrOther)
            | Some n =>
                match get_chunks (Z.to_nat n) name 0 k with
                | (k, Err e) => (k, wrapKeyring (Err e))
                | (k, Ok s) => (k, decodeRecord s)
                end
            end
          else (k, decodeRecord s)
      end
  end.

Definition keychain_Delete (name : string) (k : Keychain) : Keychain * result storage_error unit :=
  match ValidateName name with
  | Err e => (k, Err e)
  | Ok _ =>
      match keyring_Get (bs name) k with
      | (k, Err e) => (k, wrapKeyring (Err e))
      | (k, Ok s) =>
          let k := if HasPrefix s chunkHeader then (deleteChunks name k).1 else k in
          let '(k, r) := keyring_Delete (bs name) k in (k, wrapKeyring r)
      end
  end.

(** Credential stores cannot be enumerated. *)
Definition keychain_List (k : Keychain) : Keychain * result storage_error (list Metadata) := (k, Err ErrUnavailable).

(** A test entry is written, read and deleted under a random name. *)
Definition keychain_Probe_with (nonce : option bytes) (k : Keychain) : Keychain * Probe :=
  match nonce with
  | None => (k, mkProbe false B["random source unavailable"] 0)
  | Some nonce =>
      let user := B["probe-"] ++ HexEncode nonce in
      match keyring_Set user B["probe"] k with
      | (k, Err _) => (k, mkProbe false B["credential store unavailable"] 0)
      | (k, Ok _) =>
          let '(k, r) := keyring_Get user k in
          let k := (keyring_Delete user k).1 in
          match r with
          | Ok v => if beq v B["probe"] then (k, mkProbe true B["credential store"] 90)
                    else (k, mkProbe false B["credential store could not read back a test entry"] 0)
          | Err _ => (k, mkProbe false B["credential store could not read back a test entry"] 0)
          end
      end
  end.

(** ** Entries of text, for the key of the age vault *)

Definition GetRaw (user : bytes) (k : Keychain) : Keychain * result storage_error bytes :=
  let '(k, r) := keyring_Get user k in (k, wrapKeyring r).

Definition SetRaw (user value : bytes) (k : Keychain) : Keychain * result storage_error unit :=
  let '(k, r) := keyring_Set user value k in (k, wrapKeyring r).

Definition DeleteRaw (user : bytes) (k : Keychain) : Keychain * result storage_error unit :=
  let '(k, r) := keyring_Delete user k in
  (k, match wrapKeyring r with Err ErrNotFound => Ok tt | r => r end).

(** The nonce of the interface's probe is fixed; it reads and writes only its
    own entry. *)
#[export] Instance keychain_backend : Backend Keychain := {
  b_Name := keychain_Name; b_Probe k := (keychain_Probe_with (Some (replicate 8 x00)) k).2;
  b_Put := keychain_Put; b_Get := keychain_Get; b_Delete := keychain_Delete; b_List := keychain_List }.
End keychain.

Arguments Keychain K : clear implicits.
