(* ===== verification/KeychainProps.v ===== *)
(** The credential store keeps the contract of a backend, whatever the size of
    the parts a record is cut into. *)
From S2P Require Import Prelude GoStrings GoTime GoText Json JsonDoc JsonDocProps Secrets Records Keychain.
From Stdlib Require Import Strings.Byte.

(** * Names of entries *)

Lemma name_no_hash n : is_ok (ValidateName n) = true → x23 ∉ bs n.
Proof.
  unfold ValidateName. destruct (nameRe (bs n)) eqn:E; [|done]. intros _ Hin. unfold nameRe in E.
  destruct (bs n) as [|b l]; [done|]. breflect. apply elem_of_cons in Hin as [<-|Hin]; [done|].
  match goal with H : forallb _ _ = true |- _ => rewrite forallb_forall in H; apply list_elem_of_In, H in Hin end. done.
Qed.

Lemma chunkUser_name n i m j :
  is_ok (ValidateName n) = true → is_ok (ValidateName m) = true → chunkUser n i = chunkUser m j → n = m.
Proof.
  intros Hn%name_no_hash Hm%name_no_hash E. unfold chunkUser in E.
  pose proof (IndexByte_app (bs n) x23 (Itoa i) Hn) as H1. pose proof (IndexByte_app (bs m) x23 (Itoa j) Hm) as H2.
  change (bs n ++ B["#"] ++ Itoa i) with (bs n ++ x23 :: Itoa i) in E. rewrite E in H1.
  change (B["#"] ++ Itoa j) with (x23 :: Itoa j) in H1. rewrite H2 in H1. injection H1 as Hl.
  apply app_inj_1 in E as [E _]; [by apply bs_inj|done].
Qed.

Lemma chunkUser_plain n m i : is_ok (ValidateName m) = true → chunkUser n i ≠ bs m.
Proof. intros Hm%name_no_hash E. apply Hm. rewrite <- E. unfold chunkUser. set_solver. Qed.

Lemma chunkUser_inj n i j : 0 <= i < 2 ^ 63 → 0 <= j < 2 ^ 63 → chunkUser n i = chunkUser n j → i = j.
Proof.
  intros Hi Hj E. unfold chunkUser in E. apply app_inv_head, app_inv_head in E.
  assert (Some i = Some j) as Hs by (rewrite <- (int64_of_Itoa i), <- (int64_of_Itoa j) by lia; by rewrite E).
  by injection Hs.
Qed.

Lemma Atoi_Itoa n : 0 <= n < 2 ^ 63 → Atoi (Itoa n) = Some n.
Proof.
  intros Hn. rewrite <- (int64_of_Itoa n) by lia. unfold Atoi.
  destruct (Itoa_lexeme n) as (sg & b & ds & -> & Hsg & Hb).
  destruct Hsg as [->| ->]; simpl; [|done]. rewrite decide_False; [done|].
  intros ->. by destruct Hb as [[? _]|[_ [Hd _]%Forall_cons]].
Qed.

Section keychain.
Context {K : Type} `{KeyringOk K}.

Definition stored_entries (k : Keychain K) : gmap (bytes * bytes) bytes := kr_view (kStore k).
Definition same_config (k k' : Keychain K) : Prop := kService k' = kService k ∧ chunkSize k' = chunkSize k.

#[export] Instance same_config_preorder : PreOrder same_config.
Proof. split; [done|]. intros a b c [] []. split; congruence. Qed.

Lemma Set_spec user value k :
  let '(k', r) := keyring_Set user value k in
  same_config k k' ∧
  (r = Ok tt → stored_entries k' = <[(kService k, user) := value]> (stored_entries k)) ∧
  ∀ i, i ≠ (kService k, user) → stored_entries k' !! i = stored_entries k !! i.
Proof.
  unfold keyring_Set, on_keyring, stored_entries. pose proof (kr_set_ok (kService k) user value (kStore k)) as Hok.
  pose proof (λ i, kr_set_other (kService k) user value (kStore k) i) as Ho. by destruct (kr_Set _ _ _ _) as [s r].
Qed.

Lemma Get_spec user k :
  let '(k', r) := keyring_Get user k in
  same_config k k' ∧ stored_entries k' = stored_entries k ∧
  match r with
  | Ok v => stored_entries k !! (kService k, user) = Some v
  | Err e => e = KNotFound → stored_entries k !! (kService k, user) = None
  end.
Proof.
  unfold keyring_Get, on_keyring, stored_entries. pose proof (kr_get_ok (kService k) user (kStore k)) as Hok.
  pose proof (kr_get_missing (kService k) user (kStore k)) as Hm. pose proof (kr_get_view (kService k) user (kStore k)) as Hv.
  destruct (kr_Get _ _ _) as [s [v|e]]; simpl in *; split_and!; try done; [by apply Hok|by intros ->; apply Hm].
Qed.

Lemma Delete_spec user k :
  let '(k', r) := keyring_Delete user k in
  same_config k k' ∧
  (r = Ok tt → is_Some (stored_entries k !! (kService k, user)) ∧ stored_entries k' = delete (kService k, user) (stored_entries k)) ∧
  (r = Err KNotFound → stored_entries k !! (kService k, user) = None ∧ stored_entries k' = stored_entries k) ∧
  ∀ i, i ≠ (kService k, user) → stored_entries k' !! i = stored_entries k !! i.
Proof.
  unfold keyring_Delete, on_keyring, stored_entries. pose proof (kr_delete_ok (kService k) user (kStore k)) as Hok.
  pose proof (kr_delete_missing (kService k) user (kStore k)) as Hm.
  pose proof (λ i, kr_delete_other (kService k) user (kStore k) i) as Ho. by destruct (kr_Delete _ _ _) as [s r].
Qed.

(** * Parts *)

(** Everything but the parts of a name. *)
Definition outside (k : Keychain K) (name : string) (i : bytes * bytes) : Prop := ∀ j, i ≠ (kService k, chunkUser name j).

(** [k'] is [k] but for parts of the name. *)
Definition parts_differ (name : string) (k k' : Keychain K) : Prop :=
  same_config k k' ∧ ∀ i, outside k name i → stored_entries k' !! i = stored_entries k !! i.

#[export] Instance parts_differ_preorder name : PreOrder (parts_differ name).
Proof.
  split; [done|]. intros a b c [Hab Ha] [Hbc Hb]. split; [by etrans|]. intros i Hi. rewrite Hb; [by apply Ha|].
  intros j. rewrite (proj1 Hab). apply Hi.
Qed.

Lemma deleteChunks_parts name k : parts_differ name k (deleteChunks name k).1.
Proof.
  unfold deleteChunks. generalize (Z.to_nat max_chunks) 0. intros fuel. revert k.
  induction fuel as [|fuel IH]; intros k i; [done|]. cbn [deleteChunks_from].
  pose proof (Delete_spec (chunkUser name i) k) as Hd. destruct (keyring_Delete _ k) as [k1 r].
  destruct Hd as (Hc & _ & _ & Ho). assert (parts_differ name k k1) as H1 by (split; [done|]; intros j Hj; by apply Ho).
  destruct r as [u|[]]; [by etrans; [|apply IH]|done..].
Qed.

Lemma put_chunks_parts todo name i rec k : parts_differ name k (put_chunks todo name i rec k).1.
Proof.
  revert i k. induction todo as [|todo IH]; intros i k; [done|]. cbn [put_chunks].
  pose proof (Set_spec (chunkUser name i) (chunk (chunkSize k) i rec) k) as Hs. destruct (keyring_Set _ _ k) as [k1 r].
  destruct Hs as (Hc & _ & Ho). assert (parts_differ name k k1) as H1 by (split; [done|]; intros j Hj; by apply Ho).
  destruct r as [u|e]; [by etrans; [|apply IH]|]. etrans; [exact H1|apply deleteChunks_parts].
Qed.

Lemma put_chunks_ok todo name i rec k k' :
  put_chunks todo name i rec k = (k', Ok tt) → 0 <= i → i + Z.of_nat todo < 2 ^ 63 →
  (∀ j, i <= j < i + Z.of_nat todo →
     stored_entries k' !! (kService k, chunkUser name j) = Some (chunk (chunkSize k) j rec)) ∧
  (∀ j, 0 <= j < i → stored_entries k' !! (kService k, chunkUser name j) = stored_entries k !! (kService k, chunkUser name j)).
Proof.
  revert i k. induction todo as [|todo IH]; intros i k; cbn [put_chunks]; [intros [= <-]; split; [lia|done]|].
  pose proof (Set_spec (chunkUser name i) (chunk (chunkSize k) i rec) k) as Hs. destruct (keyring_Set _ _ k) as [k1 [[]|e]]; [|done].
  destruct Hs as ((Hsv & Hsz) & Hok & Ho). specialize (Hok eq_refl). intros Hp Hi Hlt. apply IH in Hp as [Ha Hb]; [|lia..].
  rewrite Hsv, Hsz in Ha. rewrite Hsv in Hb. split.
  - intros j Hj. destruct (decide (j = i)) as [->|Hne]; [|apply Ha; lia].
    rewrite Hb by lia. by rewrite Hok, lookup_insert_eq.
  - intros j Hj. rewrite Hb by lia. apply Ho. intros [= E]. apply chunkUser_inj in E; lia.
Qed.

(** What the parts make. *)
Fixpoint read_chunks (m : gmap (bytes * bytes) bytes) (svc : bytes) (todo : nat) (name : string) (i : Z) : option bytes :=
  match todo with
  | O => Some []
  | S todo => p ← m !! (svc, chunkUser name i); rest ← read_chunks m svc todo name (i + 1); Some (p ++ rest)
  end.

Lemma chunk_step size i rec : 0 < size → 0 <= i → i * size <= zlen rec →
  chunk size i rec ++ drop (Z.to_nat ((i + 1) * size)) rec = drop (Z.to_nat (i * size)) rec.
Proof.
  intros Hs Hi Hl. unfold chunk. rewrite <- (take_drop (Z.to_nat size) (drop (Z.to_nat (i * size)) rec)) at 2.
  rewrite drop_drop. replace (Z.to_nat (i * size) + Z.to_nat size)%nat with (Z.to_nat ((i + 1) * size)) by lia.
  f_equal. destruct (Z.le_ge_cases ((i + 1) * size) (zlen rec)).
  - f_equal. lia.
  - rewrite !take_ge; [done|..]; rewrite length_drop; unfold zlen in *; lia.
Qed.

Lemma read_chunks_join m svc size rec name todo i :
  0 < size → 0 <= i → i + Z.of_nat todo = chunk_count size rec →
  (∀ j, i <= j < i + Z.of_nat todo → m !! (svc, chunkUser name j) = Some (chunk size j rec)) →
  read_chunks m svc todo name i = Some (drop (Z.to_nat (i * size)) rec).
Proof.
  intros Hs. revert i. induction todo as [|todo IH]; intros i Hi Hn Hm; cbn [read_chunks].
  - rewrite drop_ge; [done|]. unfold chunk_count in Hn. unfold zlen in *. nia.
  - rewrite Hm by lia. simpl. rewrite IH; [|lia|lia|intros j Hj; apply Hm; lia]. simpl.
    rewrite chunk_step; [done|lia|lia|]. unfold chunk_count in Hn. nia.
Qed.

(** * Reading an entry *)

Definition read_record (s : bytes) : option (bytes * Metadata) := match decodeRecord s with Ok x => Some x | Err _ => None end.

Definition read_entry (m : gmap (bytes * bytes) bytes) (svc : bytes) (name : string) : option (bytes * Metadata) :=
  s ← m !! (svc, bs name);
  if HasPrefix s chunkHeader then
    n ← header_count s; s ← read_chunks m svc (Z.to_nat n) name 0; read_record s
  else read_record s.

Lemma read_chunks_ext m1 m2 svc todo name i :
  (∀ j, m1 !! (svc, chunkUser name j) = m2 !! (svc, chunkUser name j)) →
  read_chunks m1 svc todo name i = read_chunks m2 svc todo name i.
Proof. intros Hm. revert i. induction todo as [|todo IH]; intros i; [done|]. cbn [read_chunks]. by rewrite Hm, IH. Qed.

Lemma read_entry_ext m1 m2 svc name :
  m1 !! (svc, bs name) = m2 !! (svc, bs name) →
  (∀ j, m1 !! (svc, chunkUser name j) = m2 !! (svc, chunkUser name j)) → read_entry m1 svc name = read_entry m2 svc name.
Proof.
  intros Hn Hm. unfold read_entry. rewrite Hn. destruct (m2 !! _) as [s|]; [|done]. simpl. destruct (HasPrefix s _); [|done].
  destruct (header_count s) as [n|]; [|done]. simpl. by rewrite (read_chunks_ext m1 m2).
Qed.

Lemma get_chunks_spec todo name i k :
  let '(k', r) := get_chunks todo name i k in
  same_config k k' ∧ stored_entries k' = stored_entries k ∧
  match r with
  | Ok s => read_chunks (stored_entries k) (kService k) todo name i = Some s
  | Err e => e = KNotFound → read_chunks (stored_entries k) (kService k) todo name i = None
  end.
Proof.
  revert i k. induction todo as [|todo IH]; intros i k; [done|]. cbn [get_chunks read_chunks].
  pose proof (Get_spec (chunkUser name i) k) as Hg. destruct (keyring_Get _ k) as [k1 [p|e]].
  2:{ destruct Hg as (? & ? & Hg). split_and!; [done..|]. intros He. by rewrite Hg. }
  destruct Hg as (Hc & He & Hp). rewrite Hp. simpl. specialize (IH (i + 1) k1).
  destruct (get_chunks todo name (i + 1) k1) as [k2 [rest|e]]; destruct IH as (Hc2 & He2 & Hr);
    rewrite He, (proj1 Hc) in *; (split_and!; [by etrans|done|]).
  - by rewrite Hr.
  - intros ->. by rewrite Hr.
Qed.

Lemma keychain_get_spec name k :
  is_ok (ValidateName name) = true →
  let '(k', r) := keychain_Get name k in
  same_config k k' ∧ stored_entries k' = stored_entries k ∧
  match r with
  | Ok x => read_entry (stored_entries k) (kService k) name = Some x
  | Err e => e = ErrNotFound → read_entry (stored_entries k) (kService k) name = None
  end.
Proof.
  intros Hn. unfold keychain_Get, read_entry. destruct (ValidateName name); [|done].
  pose proof (Get_spec (bs name) k) as Hg. destruct (keyring_Get _ k) as [k1 [s|e]]; destruct Hg as (Hc & He & Hg).
  2:{ split_and!; [done..|]. destruct e; [intros _; by rewrite Hg|discriminate..]. }
  rewrite Hg. simpl. destruct (HasPrefix s chunkHeader).
  - destruct (header_count s) as [n|]; simpl; [|split_and!; [done..|discriminate]].
    pose proof (get_chunks_spec (Z.to_nat n) name 0 k1) as Hs. destruct (get_chunks _ _ _ k1) as [k2 [s'|e]];
      destruct Hs as (Hc2 & He2 & Hs); rewrite He, (proj1 Hc) in *; (split_and!; [by etrans|congruence|]).
    + rewrite Hs. simpl. unfold read_record. destruct (decodeRecord s') eqn:Ed; [done|]. by intros _.
    + destruct e; [intros _; by rewrite Hs|discriminate..].
  - split_and!; [done..|]. unfold read_record. destruct (decodeRecord s) eqn:Ed; [done|]. by intros _.
Qed.
(** A lookup of [user] that the store answers with an error, other than that
    there is no such entry, while it holds what [k] holds. *)
Definition lookup_fails (k : Keychain K) (user : bytes) (e : keyring_error) : Prop :=
  e ≠ KNotFound ∧ ∃ q, kr_view q = stored_entries k ∧ (kr_Get (kService k) user q).2 = Err e.

Lemma keyring_get_answer user k v :
  stored_entries k !! (kService k, user) = Some v →
  (keyring_Get user k).2 = Ok v ∨ ∃ e, lookup_fails k user e ∧ (keyring_Get user k).2 = Err e.
Proof.
  intros Hv. pose proof (Get_spec user k) as Hg. unfold keyring_Get, on_keyring in *.
  destruct (kr_Get (kService k) user (kStore k)) as [q r] eqn:E. destruct r as [v'|e]; destruct Hg as (_ & _ & Hg).
  - left. simpl. congruence.
  - right. exists e. split; [|done]. split; [intros ->; by rewrite Hg in Hv|]. exists (kStore k). by rewrite E.
Qed.

Lemma lookup_fails_same k k' user e :
  same_config k k' → stored_entries k' = stored_entries k → lookup_fails k' user e → lookup_fails k user e.
Proof. intros [Hs _] He [? (q & Hq & Hr)]. split; [done|]. exists q. by rewrite <- He, <- Hs. Qed.

Lemma get_chunks_answer todo name i k s :
  read_chunks (stored_entries k) (kService k) todo name i = Some s →
  (get_chunks todo name i k).2 = Ok s ∨
  ∃ j e, lookup_fails k (chunkUser name j) e ∧ (get_chunks todo name i k).2 = Err e.
Proof.
  revert i k s. induction todo as [|todo IH]; intros i k s; cbn [read_chunks get_chunks]; [intros [= <-]; by left|].
  intros (p & Hp & (rest & Hrest & [= <-])%bind_Some)%bind_Some.
  pose proof (Get_spec (chunkUser name i) k) as Hg. pose proof (keyring_get_answer _ _ _ Hp) as Ha.
  destruct (keyring_Get (chunkUser name i) k) as [k1 r1]. simpl in Ha.
  destruct Ha as [->|(e & Hf & ->)]; [|right; eauto].
  destruct Hg as (Hc & He & _). destruct (IH (i + 1) k1 rest) as [Hr|(j & e & Hf & Hr)]; [by rewrite He, (proj1 Hc)|..].
  - destruct (get_chunks todo name (i + 1) k1) as [k2 r2]. simpl in Hr. subst r2. by left.
  - destruct (get_chunks todo name (i + 1) k1) as [k2 r2]. simpl in Hr. subst r2. right.
    exists j, e. split; [by eapply lookup_fails_same|done].
Qed.

(** [Get] fails to return an entry that is there only when a lookup of the
    entry or of one of its parts fails, and then with that failure. *)
Lemma keychain_get_answer name k x :
  is_ok (ValidateName name) = true → read_entry (stored_entries k) (kService k) name = Some x →
  (keychain_Get name k).2 = Ok x ∨
  ∃ user e, (user = bs name ∨ ∃ j, user = chunkUser name j) ∧ lookup_fails k user e ∧
    (keychain_Get name k).2 = wrapKeyring (Err e).
Proof.
  intros Hn. unfold keychain_Get, read_entry. destruct (ValidateName name); [|done].
  intros (s & Hs & Hx)%bind_Some.
  pose proof (Get_spec (bs name) k) as Hg. pose proof (keyring_get_answer _ _ _ Hs) as Ha.
  destruct (keyring_Get (bs name) k) as [k1 r1]. simpl in Ha.
  destruct Ha as [->|(e & Hf & ->)]; [|right; exists (bs name), e; auto].
  destruct Hg as (Hc & He & _).
  assert (∀ t, read_record t = Some x → decodeRecord t = Ok x) as Hrec
    by (intros t; unfold read_record; destruct (decodeRecord t); congruence).
  destruct (HasPrefix s chunkHeader); [|left; by apply Hrec].
  apply bind_Some in Hx as (n & -> & (t & Ht & Hx)%bind_Some).
  destruct (get_chunks_answer (Z.to_nat n) name 0 k1 t) as [Hr|(j & e & Hf & Hr)]; [by rewrite He, (proj1 Hc)|..];
    destruct (get_chunks _ _ _ k1) as [k2 r2]; simpl in Hr; subst r2.
  - left. by apply Hrec.
  - right. exists (chunkUser name j), e. split; [by right; eexists|]. split; [by eapply lookup_fails_same|done].
Qed.

(** * The backend as a map *)

Definition entry_names (k : Keychain K) : gset string :=
  list_to_set ((λ x, sb x.1.2) <$> map_to_list (stored_entries k)).

Definition keychain_view (k : Keychain K) : gmap string (bytes * Metadata) :=
  map_imap (λ n _, if is_ok (ValidateName n) then read_entry (stored_entries k) (kService k) n else None)
    (gset_to_gmap tt (entry_names k)).

Lemma keychain_view_lookup k n :
  keychain_view k !! n = if is_ok (ValidateName n) then read_entry (stored_entries k) (kService k) n else None.
Proof.
  unfold keychain_view. rewrite map_lookup_imap, lookup_gset_to_gmap. destruct (decide (n ∈ entry_names k)) as [Hn|Hn].
  - by rewrite option_guard_True.
  - rewrite option_guard_False by done. simpl. destruct (is_ok _); [|done]. unfold read_entry.
    destruct (stored_entries k !! (kService k, bs n)) as [s|] eqn:E; [|done]. exfalso. apply Hn. unfold entry_names.
    rewrite elem_of_list_to_set, list_elem_of_fmap. exists ((kService k, bs n), s). simpl.
    split; [by rewrite sb_bs|]. by apply elem_of_map_to_list.
Qed.

(** A value the store can hold: its metadata is text, and its record has no
    more parts than are read back. *)
Definition keychain_accepts (name : string) (value : bytes) (meta : Metadata) (k : Keychain K) : Prop :=
  meta_ok (stamp keychain_Name name value meta) ∧ 0 < chunkSize k ∧
  ∀ rec, encodeRecord (stamp keychain_Name name value meta) value = Ok rec → chunk_count (chunkSize k) rec <= max_chunks.

(** Another name reads the same when only this one's entries changed. *)
Lemma other_entry k k' name n :
  same_config k k' → is_ok (ValidateName name) = true → is_ok (ValidateName n) = true → n ≠ name →
  (∀ i, i ≠ (kService k, bs name) → outside k name i → stored_entries k' !! i = stored_entries k !! i) →
  read_entry (stored_entries k') (kService k') n = read_entry (stored_entries k) (kService k) n.
Proof.
  intros [-> _] Hname Hn Hne Ho. apply read_entry_ext.
  - apply Ho; [|intros j [= E]; by apply (chunkUser_plain name n j Hn)]. intros [= E]. by apply bs_inj in E.
  - intros j. apply Ho; [intros [= E]; by apply (chunkUser_plain n name j Hname)|].
    intros j' [= E]. by apply chunkUser_name in E.
Qed.

Lemma view_other k k' name :
  same_config k k' → is_ok (ValidateName name) = true →
  (∀ i, i ≠ (kService k, bs name) → outside k name i → stored_entries k' !! i = stored_entries k !! i) →
  ∀ n, n ≠ name → keychain_view k' !! n = keychain_view k !! n.
Proof.
  intros Hc Hname Ho n Hn. rewrite !keychain_view_lookup. destruct (is_ok (ValidateName n)) eqn:E; [|done].
  by apply (other_entry k k' name).
Qed.

(** What [Put] writes is outside the entries of all other names. *)
Lemma keychain_put_touches name value meta k i :
  i ≠ (kService k, bs name) → outside k name i →
  stored_entries (keychain_Put name value meta k).1 !! i = stored_entries k !! i.
Proof.
  intros Hi Ho. unfold keychain_Put. destruct (ValidateName name); [|done]. destruct (encodeRecord _ _) as [rec|]; [|done].
  destruct (deleteChunks_parts name k) as [[Hs _] Hd]. set (k1 := (deleteChunks name k).1) in *. cbn zeta.
  destruct (zlen rec <=? chunkSize k1).
  - pose proof (Set_spec (bs name) rec k1) as Hset. destruct (keyring_Set _ _ _) as [k2 r]. simpl.
    destruct Hset as (_ & _ & Hset). rewrite Hset by (by rewrite Hs). by apply Hd.
  - destruct (put_chunks_parts (Z.to_nat (chunk_count (chunkSize k1) rec)) name 0 rec k1) as [[Hs2 _] Hp].
    assert (outside k1 name i) as Ho1 by (intros j; rewrite Hs; apply Ho).
    destruct (put_chunks _ _ _ _ _) as [k2 [u|e]]; simpl in *; [|by rewrite Hp, Hd].
    match goal with |- context [keyring_Set ?u ?v k2] => pose proof (Set_spec u v k2) as Hset; destruct (keyring_Set u v k2) as [k3 r] end.
    simpl. destruct Hset as (_ & _ & Hset). rewrite Hset by (by rewrite Hs2, Hs). by rewrite Hp, Hd.
Qed.

Lemma keychain_put_config name value meta k : same_config k (keychain_Put name value meta k).1.
Proof.
  unfold keychain_Put. destruct (ValidateName name); [|done]. destruct (encodeRecord _ _) as [rec|]; [|done].
  destruct (deleteChunks_parts name k) as [Hs _]. set (k1 := (deleteChunks name k).1) in *. cbn zeta.
  destruct (zlen rec <=? chunkSize k1).
  - pose proof (Set_spec (bs name) rec k1) as Hset. destruct (keyring_Set _ _ _) as [k2 r]. simpl.
    destruct Hset as (? & _). by etrans.
  - destruct (put_chunks_parts (Z.to_nat (chunk_count (chunkSize k1) rec)) name 0 rec k1) as [Hs2 _].
    destruct (put_chunks _ _ _ _ _) as [k2 [u|e]]; simpl in *; [|by etrans].
    match goal with |- context [keyring_Set ?u ?v k2] => pose proof (Set_spec u v k2) as Hset; destruct (keyring_Set u v k2) as [k3 r] end.
    simpl. destruct Hset as (? & _). etrans; [exact Hs|]. by etrans.
Qed.

Lemma record_no_header rec : head rec = Some x7b → HasPrefix rec chunkHeader = false.
Proof. by destruct rec as [|b rec]; [|intros [= ->]]. Qed.

Lemma header_count_Itoa n : 0 < n <= max_chunks → header_count (chunkHeader ++ Itoa n) = Some n.
Proof.
  intros Hn. unfold header_count. unfold max_chunks in *. rewrite TrimPrefix_self, Atoi_Itoa by lia. simpl.
  destruct (Z.leb_spec n 0), (Z.ltb_spec 1000 n); (done || lia).
Qed.

(** A record that was put is read. *)
Lemma keychain_put_reads name value meta k :
  is_ok (ValidateName name) = true → keychain_accepts name value meta k → (keychain_Put name value meta k).2 = Ok tt →
  read_entry (stored_entries (keychain_Put name value meta k).1) (kService k) name =
    Some (value, stamp keychain_Name name value meta).
Proof.
  intros Hn (Hm & Hsz & Hc). pose proof (λ j, chunkUser_plain name name j Hn) as Hplain. unfold keychain_Put. destruct (ValidateName name); [|done].
  destruct (encodeRecord _ _) as [rec|] eqn:Er; [|done]. specialize (Hc rec eq_refl).
  assert (read_record rec = Some (value, stamp keychain_Name name value meta)) as Hread.
  { pose proof (record_reads (stamp keychain_Name name value meta) value (proj1 Hm)) as Hr. rewrite Er in Hr.
    unfold read_record. by rewrite Hr. }
  pose proof (record_no_header _ (encodeRecord_head _ _ _ Er)) as Hh.
  destruct (deleteChunks_parts name k) as [[Hs Hs'] _]. set (k1 := (deleteChunks name k).1) in *. cbn zeta.
  destruct (Z.leb_spec (zlen rec) (chunkSize k1)) as [Hle|Hgt].
  - pose proof (Set_spec (bs name) rec k1) as Hset. destruct (keyring_Set _ _ _) as [k2 [[]|e]]; [|by destruct e]. intros _. simpl.
    destruct Hset as (_ & Hset & _). unfold read_entry. rewrite Hset, Hs, lookup_insert_eq by done. simpl. by rewrite Hh.
  - rewrite Hs' in *. set (n := chunk_count (chunkSize k) rec) in *.
    assert (0 < n) as Hpos by (unfold n, chunk_count; apply Z.div_str_pos; lia).
    destruct (put_chunks _ _ _ _ _) as [k2 [[]|e]] eqn:Ep; [|by destruct e].
    pose proof (put_chunks_parts (Z.to_nat n) name 0 rec k1) as [[Hs2 _] _]. rewrite Ep in Hs2. simpl in Hs2.
    apply put_chunks_ok in Ep as [Hall _]; [|lia|unfold max_chunks in *; lia]. rewrite Hs, Hs' in Hall.
    pose proof (Set_spec (bs name) (chunkHeader ++ Itoa n) k2) as Hset.
    destruct (keyring_Set _ _ k2) as [k3 [[]|e]]; [|by destruct e]. intros _. simpl.
    destruct Hset as (_ & Hset & _). unfold read_entry. rewrite Hset, Hs2, Hs, lookup_insert_eq by done. cbn [mbind option_bind].
    rewrite HasPrefix_self, header_count_Itoa by lia. cbn [mbind option_bind].
    rewrite (read_chunks_join _ _ (chunkSize k) rec); [by rewrite drop_0|done|lia|fold n; lia|].
    intros j Hj. rewrite lookup_insert_ne; [by apply Hall|]. intros [= E]. by apply (Hplain j).
Qed.

Lemma put_name_ok name value meta k : (keychain_Put name value meta k).2 = Ok tt → is_ok (ValidateName name) = true.
Proof. unfold keychain_Put. by destruct (ValidateName name). Qed.

Lemma keychain_put_view name value meta k :
  keychain_accepts name value meta k → (keychain_Put name value meta k).2 = Ok tt →
  keychain_view (keychain_Put name value meta k).1 =
    <[name := (value, stamp keychain_Name name value meta)]> (keychain_view k).
Proof.
  intros Ha Hok. pose proof (put_name_ok _ _ _ _ Hok) as Hn. apply map_eq. intros n.
  destruct (decide (n = name)) as [->|Hne].
  - rewrite keychain_view_lookup, Hn, lookup_insert_eq.
    rewrite (proj1 (keychain_put_config name value meta k)). by apply keychain_put_reads.
  - rewrite lookup_insert_ne by done. eapply view_other; [apply keychain_put_config|exact Hn| |done].
    intros i. apply keychain_put_touches.
Qed.

(** ** Deleting *)

Lemma keychain_delete_spec name k :
  is_ok (ValidateName name) = true →
  let '(k', r) := keychain_Delete name k in
  same_config k k' ∧
  (∀ i, i ≠ (kService k, bs name) → outside k name i → stored_entries k' !! i = stored_entries k !! i) ∧
  (r = Ok tt → stored_entries k' !! (kService k, bs name) = None) ∧
  (r = Err ErrNotFound → stored_entries k !! (kService k, bs name) = None ∧ stored_entries k' = stored_entries k).
Proof.
  intros Hn. pose proof (λ j, chunkUser_plain name name j Hn) as Hplain.
  unfold keychain_Delete. destruct (ValidateName name) as [u|]; [|done].
  pose proof (Get_spec (bs name) k) as Hg. destruct (keyring_Get _ k) as [k1 [s|e]]; destruct Hg as (Hc & He & Hg).
  2:{ split; [done|]. split; [intros; by rewrite He|]. split; [by destruct e|]. destruct e; [|discriminate..]. auto. }
  set (k2 := if HasPrefix s chunkHeader then (deleteChunks name k1).1 else k1).
  assert (parts_differ name k1 k2) as [Hc2 Hp2] by (unfold k2; case_match; [apply deleteChunks_parts|done]).
  pose proof (Delete_spec (bs name) k2) as Hd. destruct (keyring_Delete _ k2) as [k3 r].
  destruct Hd as (Hc3 & Hok & Hmiss & Ho). rewrite (proj1 Hc2), (proj1 Hc) in *.
  assert (stored_entries k2 !! (kService k, bs name) = Some s) as Hs.
  { rewrite Hp2, He; [done|]. intros j. rewrite (proj1 Hc). intros [= E]. by apply (Hplain j). }
  split_and!.
  - etrans; [exact Hc|]. by etrans.
  - intros i Hi Hout. rewrite Ho by done. rewrite Hp2; [by rewrite He|]. intros j. rewrite (proj1 Hc). apply Hout.
  - intros Hr. destruct r as [[]|[]]; try done. destruct (Hok eq_refl) as [_ ->]. apply lookup_delete_eq.
  - intros Hr. destruct r as [|[]]; try done. destruct (Hmiss eq_refl) as [Hnone _]. by rewrite Hnone in Hs.
Qed.

Lemma keychain_delete_name name k : is_ok (ValidateName name) = false →
  keychain_Delete name k = (k, Err ErrInvalidName) ∧ keychain_Get name k = (k, Err ErrInvalidName).
Proof.
  unfold keychain_Delete, keychain_Get. destruct (ValidateName name) eqn:E; [done|]. by apply ValidateName_error in E as ->.
Qed.

#[export] Program Instance keychain_backend_ok : BackendOk (Keychain K) := {
  healthy _ := True; accepts := keychain_accepts; view := keychain_view }.
Solve Obligations with done.
Next Obligation. intros. by apply keychain_put_view. Qed.
Next Obligation.
  intros n v m k i _ _ Hi. simpl. destruct (is_ok (ValidateName n)) eqn:Hn.
  - eapply view_other; [apply keychain_put_config|exact Hn| |done]. intros j. apply keychain_put_touches.
  - unfold keychain_Put. by destruct (ValidateName n).
Qed.
Next Obligation.
  intros n k _. simpl. destruct (is_ok (ValidateName n)) eqn:Hn; [|by rewrite (proj2 (keychain_delete_name n k Hn))].
  pose proof (keychain_get_spec n k Hn) as Hg. destruct (keychain_Get n k) as [k' r]. destruct Hg as ((Hs & _) & He & _).
  simpl. apply map_eq. intros i. by rewrite !keychain_view_lookup, Hs, He.
Qed.
Next Obligation.
  intros n k x _. simpl. destruct (is_ok (ValidateName n)) eqn:Hn; [|by rewrite (proj2 (keychain_delete_name n k Hn))].
  pose proof (keychain_get_spec n k Hn) as Hg. destruct (keychain_Get n k) as [k' r]. destruct Hg as (_ & _ & Hg).
  simpl. intros ->. by rewrite keychain_view_lookup, Hn.
Qed.
Next Obligation.
  intros n k _. simpl. destruct (is_ok (ValidateName n)) eqn:Hn; [|by rewrite (proj2 (keychain_delete_name n k Hn))].
  pose proof (keychain_get_spec n k Hn) as Hg. destruct (keychain_Get n k) as [k' r]. destruct Hg as (_ & _ & Hg).
  simpl. intros ->. rewrite keychain_view_lookup, Hn. auto.
Qed.
Next Obligation.
  intros n k _. simpl. destruct (is_ok (ValidateName n)) eqn:Hn; [|by rewrite (proj1 (keychain_delete_name n k Hn))].
  pose proof (keychain_delete_spec n k Hn) as Hd. destruct (keychain_Delete n k) as [k' r]. destruct Hd as (Hc & Ho & Hok & _).
  simpl. intros Hr. apply map_eq. intros i. destruct (decide (i = n)) as [->|Hne].
  - rewrite lookup_delete_eq, keychain_view_lookup, Hn, (proj1 Hc). unfold read_entry. by rewrite Hok.
  - rewrite lookup_delete_ne by done. by eapply view_other.
Qed.
Next Obligation.
  intros n k _. simpl. destruct (is_ok (ValidateName n)) eqn:Hn; [|by rewrite (proj1 (keychain_delete_name n k Hn))].
  pose proof (keychain_delete_spec n k Hn) as Hd. destruct (keychain_Delete n k) as [k' r]. destruct Hd as (Hc & _ & _ & Hm).
  simpl. intros Hr. destruct (Hm Hr) as [Hnone He]. split.
  - rewrite keychain_view_lookup, Hn. unfold read_entry. by rewrite Hnone.
  - apply map_eq. intros i. by rewrite !keychain_view_lookup, (proj1 Hc), He.
Qed.
Next Obligation.
  intros n k i _ Hi. simpl. destruct (is_ok (ValidateName n)) eqn:Hn; [|by rewrite (proj1 (keychain_delete_name n k Hn))].
  pose proof (keychain_delete_spec n k Hn) as Hd. destruct (keychain_Delete n k) as [k' r]. destruct Hd as (Hc & Ho & _).
  by eapply view_other.
Qed.

(** C32. The credential store returns what was put into it. The value is one
    the backend accepts ([keychain_accepts]): its metadata is text, and its
    record makes no more than the 1000 parts of the store's size that are read
    back. Then after a [Put] that succeeded, [Get] returns the value with the
    metadata it was stamped with, or else a lookup in the credential store of
    the entry or of one of its parts fails, and [Get] returns that failure: if
    no lookup fails, the value comes back. And no other name is affected, even
    by a [Put] that fails. *)
Theorem keychain_put_then_get name value meta k k' r :
  keychain_accepts name value meta k → keychain_Put name value meta k = (k', r) →
  (r = Ok tt →
     (keychain_Get name k').2 = Ok (value, stamp keychain_Name name value meta) ∨
     ∃ user e, (user = bs name ∨ ∃ j, user = chunkUser name j) ∧ lookup_fails k' user e ∧
       (keychain_Get name k').2 = wrapKeyring (Err e)) ∧
  ∀ n, n ≠ name → keychain_view k' !! n = keychain_view k !! n.
Proof.
  intros Ha Hput. pose proof (keychain_put_reads name value meta k) as Hreads. pose proof (put_other name value meta k) as Ho.
  pose proof (put_name_ok name value meta k) as Hn. pose proof (keychain_put_config name value meta k) as [Hs _].
  simpl in Ho. rewrite Hput in *. simpl in *. split; [|intros n Hne; by apply Ho].
  intros ->. apply keychain_get_answer; [by apply Hn|]. rewrite Hs. by apply Hreads; auto.
Qed.
End keychain.

(** * A store *)

(** Entries in a map; the calls for which [ks_fails] holds fail. *)
Record KeyStore := mkKeyStore { ks_map : gmap (bytes * bytes) bytes; ks_fails : nat → bool; ks_calls : nat }.

Definition ks_call {A} (f : gmap (bytes * bytes) bytes → gmap (bytes * bytes) bytes * result keyring_error A)
    (k : KeyStore) : KeyStore * result keyring_error A :=
  if ks_fails k (ks_calls k) then (mkKeyStore (ks_map k) (ks_fails k) (S (ks_calls k)), Err KOther)
  else let '(m, r) := f (ks_map k) in (mkKeyStore m (ks_fails k) (S (ks_calls k)), r).

#[export] Instance key_store : Keyring KeyStore := {
  kr_Set s u v := ks_call (λ m, (<[(s, u) := v]> m, Ok tt));
  kr_Get s u := ks_call (λ m, (m, match m !! (s, u) with Some v => Ok v | None => Err KNotFound end));
  kr_Delete s u := ks_call (λ m, match m !! (s, u) with Some _ => (delete (s, u) m, Ok tt) | None => (m, Err KNotFound) end) }.

#[export] Program Instance key_store_ok : KeyringOk KeyStore := { kr_view := ks_map }.
Next Obligation. intros s u v k. simpl. unfold ks_call. by destruct (ks_fails _ _). Qed.
Next Obligation. intros s u v k i Hi. simpl. unfold ks_call. destruct (ks_fails _ _); [done|]. simpl. by rewrite lookup_insert_ne. Qed.
Next Obligation. intros s u k. simpl. unfold ks_call. by destruct (ks_fails _ _). Qed.
Next Obligation. intros s u k v. simpl. unfold ks_call. destruct (ks_fails _ _); [done|]. simpl. destruct (ks_map k !! (s, u)) eqn:?; naive_solver. Qed.
Next Obligation. intros s u k. simpl. unfold ks_call. destruct (ks_fails _ _); [done|]. simpl. destruct (ks_map k !! (s, u)) eqn:?; naive_solver. Qed.
Next Obligation. intros s u k. simpl. unfold ks_call. destruct (ks_fails _ _); [done|]. simpl. destruct (ks_map k !! (s, u)) eqn:?; naive_solver. Qed.
Next Obligation. intros s u k. simpl. unfold ks_call. destruct (ks_fails _ _); [done|]. simpl. destruct (ks_map k !! (s, u)) eqn:?; naive_solver. Qed.
Next Obligation.
  intros s u k i Hi. simpl. unfold ks_call. destruct (ks_fails _ _); [done|]. destruct (ks_map k !! (s, u)); [|done]. simpl. by rewrite lookup_delete_ne.
Qed.

(** A store that holds parts of 100 bytes. *)
Definition small_keychain : Keychain KeyStore := mkKeychain DefaultKeychainService 100 (mkKeyStore ∅ (λ _, false) 0).

Definition small_meta : Metadata := mkMetadata "" [] B["until-revoked"] (unix_epoch + 5 * Second) zero_time [] B["drop"] false [] 0 [].

Abbreviation small_put := (keychain_Put "api-key" B["a secret"] small_meta small_keychain).

Example small_parts : size (ks_map (kStore small_put.1)) = 3%nat.
Proof. vm_compute. reflexivity. Qed.

(** No lookup of this store fails, so the value comes back. *)
Lemma keychain_put_then_get_witness :
  (keychain_Get "api-key" small_put.1).2 = Ok (B["a secret"], stamp keychain_Name "api-key" B["a secret"] small_meta) ∨
  ∃ user e, (user = bs "api-key" ∨ ∃ j, user = chunkUser "api-key" j) ∧ lookup_fails small_put.1 user e ∧
    (keychain_Get "api-key" small_put.1).2 = wrapKeyring (Err e).
Proof.
  refine (proj1 (keychain_put_then_get "api-key" B["a secret"] small_meta small_keychain small_put.1 small_put.2 _ _) _).
  - split; [|split; [done|]].
    + split; vm_compute; split_and!; try done; try (by eexists); by left.
    + intros rec Hr. vm_compute in Hr. injection Hr as <-. vm_compute. discriminate.
  - apply surjective_pairing.
  - vm_compute. reflexivity.
Defined.

Example small_get : (keychain_Get "api-key" small_put.1).2 = Ok (B["a secret"], stamp keychain_Name "api-key" B["a secret"] small_meta).
Proof. vm_compute. reflexivity. Qed.
