(* ===== verification/Dotenv.v ===== *)
(** The backend that keeps secrets in a .env file: internal/storage/dotenv.go.
    First the notation (environment keys, quoting and its inverse, which values
    are kept as text), then the file and the operations on it. *)
From S2P Require Import Prelude GoStrings GoTime Secrets GoSort GoText Json Base64 JsonDoc Records GoOs Manager.
From Stdlib Require Import Strings.Byte.

(** [unicode.ToUpper] beyond ASCII, as for lower case. *)
Class UnicodeUpper := { upper_rune : rune → rune }.

Section env.
Context `{UnicodeUpper}.

Definition ToUpper_rune (r : rune) : rune :=
  if r <? 128 then (if (97 <=? r) && (r <=? 122) then r - 32 else r) else upper_rune r.

(** One byte for each character of the name. *)
Definition EnvKey (name : bytes) : bytes :=
  (λ r, let u := ToUpper_rune r in
        if ((65 <=? u) && (u <=? 90)) || ((48 <=? u) && (u <=? 57)) then z2b u else x5f) <$> runes name.
End env.

Definition dq : byte := x22.
Definition bsl : byte := x5c.
Definition dollar : byte := x24.

Definition quote_byte (b : byte) : bytes :=
  if decide (b = dq) then [bsl; dq]
  else if decide (b = bsl) then [bsl; bsl]
  else if decide (b = x0a) then [bsl; x6e]
  else if decide (b = x0d) then [bsl; x72]
  else if decide (b = x09) then [bsl; x74]
  else if decide (b = dollar) then [bsl; dollar]
  else [b].

(** One character; what is not UTF-8 becomes the replacement character. *)
Definition quote_char (c : option rune * bytes) : bytes :=
  match c with
  | (None, _) => encode_rune RuneError
  | (Some _, [b]) => quote_byte b
  | (Some _, s) => s
  end.

Definition dotenvQuote (s : bytes) : bytes := dq :: mjoin (quote_char <$> chars s) ++ [dq].

Inductive unquote_error := NotQuoted | DanglingEscape | UnknownEscape.

Fixpoint unquote_body (body : bytes) : result unquote_error bytes :=
  match body with
  | [] => Ok []
  | c :: rest =>
      if decide (c = bsl) then
        match rest with
        | [] => Err DanglingEscape
        | e :: rest =>
            b ← (if decide (e = x6e) then Ok x0a
                 else if decide (e = x72) then Ok x0d
                 else if decide (e = x74) then Ok x09
                 else if decide (e = dq ∨ e = bsl ∨ e = dollar) then Ok e
                 else Err UnknownEscape);
            out ← unquote_body rest;
            Ok (b :: out)
        end
      else out ← unquote_body rest; Ok (c :: out)
  end.

Definition dotenvUnquote (raw : bytes) : result unquote_error bytes :=
  if (zlen raw <? 2) || negb (bool_decide (head raw = Some dq)) || negb (bool_decide (last raw = Some dq))
  then Err NotQuoted
  else unquote_body (take (length raw - 2) (drop 1 raw)).

(** Whether a value is stored as quoted text. *)
Definition textual (v : bytes) : bool :=
  ValidUtf8 v && forallb (λ r, negb ((r <? 32) && negb ((r =? 10) || (r =? 13) || (r =? 9)))) (runes v).

(** * Quoting and back *)

Lemma unquote_byte b t : unquote_body (quote_byte b ++ t) = (out ← unquote_body t; Ok (b :: out)).
Proof. destruct b; reflexivity. Qed.

Lemma unquote_plain s t :
  Forall (λ b, 128 <= b2z b) s → unquote_body (s ++ t) = (out ← unquote_body t; Ok (s ++ out)).
Proof.
  induction 1 as [|b s Hb _ IH]; cbn [app]; [by destruct (unquote_body t)|].
  cbn [unquote_body]. destruct (decide (b = bsl)) as [->|_]; [by vm_compute in Hb|].
  rewrite IH. by destruct (unquote_body t).
Qed.

Lemma unquote_char c t :
  char_ok c → is_Some c.1 → unquote_body (quote_char c ++ t) = (out ← unquote_body t; Ok (c.2 ++ out)).
Proof.
  destruct 1 as [a Ha|a b H2|a b c H3|a b c d H4|a Ha]; intros Hs; [..|by destruct Hs].
  - apply unquote_byte.
  - apply wf2_range in H2. apply (unquote_plain [a; b]). repeat constructor; lia.
  - apply wf3_range in H3. apply (unquote_plain [a; b; c]). repeat constructor; lia.
  - apply wf4_range in H4. apply (unquote_plain [a; b; c; d]). repeat constructor; lia.
Qed.

Lemma unquote_chars s : ValidUtf8 s = true → unquote_body (mjoin (quote_char <$> chars s)) = Ok s.
Proof.
  induction s as [|c s Hc Heq IH] using chars_ind; [done|].
  unfold ValidUtf8. rewrite Heq. csimpl. intros [Hs Hv]%andb_prop. apply bool_decide_eq_true in Hs.
  rewrite unquote_char by done. by rewrite IH.
Qed.

(** A text value that is written to a .env file is read back as it was. *)
Lemma unquote_quote s : ValidUtf8 s = true → dotenvUnquote (dotenvQuote s) = Ok s.
Proof.
  intros Hv. unfold dotenvUnquote, dotenvQuote. set (body := mjoin _).
  destruct (Z.ltb_spec (zlen (dq :: body ++ [dq])) 2) as [Hl|_].
  { rewrite zlen_cons, zlen_app in Hl. pose proof (zlen_nonneg body). unfold zlen in Hl at 2. simpl in Hl. lia. }
  assert (last (dq :: body ++ [dq]) = Some dq) as -> by (change (dq :: body ++ [dq]) with ((dq :: body) ++ [dq]); apply last_snoc).
  simpl.
  rewrite length_app. simpl.
  replace (length body + 1 - 1)%nat with (length body) by lia.
  rewrite drop_0, take_app_length. by apply unquote_chars.
Qed.

Lemma quote_byte_safe b : b2z b < 128 → Forall (λ x, x ≠ x0a ∧ x ≠ x0d) (quote_byte b).
Proof. intros Hb. destruct b; try (by vm_compute in Hb); repeat constructor; discriminate. Qed.

Lemma high_byte_safe b : 128 <= b2z b → b ≠ x0a ∧ b ≠ x0d.
Proof. by intros Hb; split; intros ->; vm_compute in Hb. Qed.

Lemma quote_char_safe c : char_ok c → Forall (λ x, x ≠ x0a ∧ x ≠ x0d) (quote_char c).
Proof.
  destruct 1 as [a Ha|a b H2|a b c H3|a b c d H4|a Ha].
  - by apply quote_byte_safe.
  - apply wf2_range in H2. repeat constructor; apply high_byte_safe; lia.
  - apply wf3_range in H3. repeat constructor; apply high_byte_safe; lia.
  - apply wf4_range in H4. repeat constructor; apply high_byte_safe; lia.
  - repeat constructor; discriminate.
Qed.

(** A quoted value stays on one line of the file, whatever it holds: no line
    feed and no carriage return is in it. *)
Lemma dotenv_one_line s : Forall (λ b, b ≠ x0a ∧ b ≠ x0d) (dotenvQuote s).
Proof.
  unfold dotenvQuote. constructor; [done|]. apply Forall_app. split; [|by repeat constructor].
  induction s as [|c s Hc Heq IH] using chars_ind; [constructor|].
  rewrite Heq. csimpl. apply Forall_app. split; [by apply quote_char_safe|done].
Qed.

Example unquote_quote_text :
  dotenvUnquote (dotenvQuote (B["p$ss\"] ++ [x0a; xc3; xa9])) = Ok (B["p$ss\"] ++ [x0a; xc3; xa9]).
Proof. apply unquote_quote. vm_compute. reflexivity. Qed.

Definition upper_ascii : UnicodeUpper := {| upper_rune r := r |}.

Example env_keys :
  @EnvKey upper_ascii <$> [B["openai-api.key"]; B["a_b"]; B["9x"]] = [B["OPENAI_API_KEY"]; B["A_B"]; B["9X"]].
Proof. vm_compute. reflexivity. Qed.

(** * The file and its operations

    The backend that keeps secrets in a .env file: internal/storage/dotenv.go
    (where the file may lie, reading and writing it, the backend).

    The file is its bytes, read line by line and written whole.  Which reads
    and writes fail, and what the machine says about git, is given for every
    operation. *)

(** * Where the file may lie *)

Inductive git_answer := GitAbsent | GitIgnored | GitNotIgnored | GitFailed.

Record Place := mkPlace {
  mkdir_fails : bool;
  abs_dir : option dirpath; (* [filepath.Abs] of the directory of the file *)
  has_git : dirpath → bool; (* whether there is a .git in a directory *)
  check_ignore : git_answer; (* what git says of the file *)
  gitignore : option bytes; (* the .gitignore at the top of the repository *)
  base_name : bytes;
}.

Definition gitRoot (p : Place) : option dirpath := dir ← abs_dir p; search_up (has_git p) dir.

(** One line of .gitignore. *)
Definition rule_covers (base line : bytes) : bool :=
  let line := TrimSpace line in
  if is_empty line || HasPrefix line B["#"] || HasPrefix line B["!"] then false
  else
    let line := TrimPrefix line B["/"] in
    beq line base || beq line B[".env*"] || (beq line B["*.env"] && HasSuffix base B[".env"]) ||
    (beq line B[".env.*"] && HasPrefix base B[".env."]) || Match line base.

Definition gitIgnored (p : Place) : bool :=
  match check_ignore p with
  | GitIgnored => true
  | GitNotIgnored => false
  | GitAbsent | GitFailed =>
      match gitignore p with
      | None => false
      | Some b => existsb (rule_covers (base_name p)) (Split b x0a)
      end
  end.

Definition safe (p : Place) : result storage_error unit :=
  if mkdir_fails p then Err ErrPermission
  else match gitRoot p with
       | None => Ok tt
       | Some _ => guard_err (gitIgnored p) ErrPermission
       end.

(** * The document *)

Record dotenvEntry := mkEntry { eName : string; eMeta : Metadata; eEncoding : bytes }.

Definition zero_entry : dotenvEntry := mkEntry "" zero_metadata [].

Definition entry_fields : list (field dotenvEntry) :=
  [mkField name_codec B["name"] never eName (λ x r, mkEntry x (eMeta r) (eEncoding r));
   mkField metadata_codec B["meta"] never eMeta (λ x r, mkEntry (eName r) x (eEncoding r));
   mkField string_codec B["encoding"] is_empty eEncoding (λ x r, mkEntry (eName r) (eMeta r) x)].

Definition entry_codec : codec dotenvEntry := struct_codec entry_fields zero_entry.

Definition dotenvMarker : bytes := B["# burndrop: "].

Record dotenvRecord := mkDotenvRecord { rEntry : dotenvEntry; rVal : bytes }.

Record dotenvFile := mkDotenvFile { fEntries : gmap string dotenvRecord; fOthers : list bytes }.

Definition empty_file : dotenvFile := mkDotenvFile ∅ [].

Definition add_entry (e : dotenvEntry) (v : bytes) (f : dotenvFile) : dotenvFile :=
  mkDotenvFile (<[eName e := mkDotenvRecord e v]> (fEntries f)) (fOthers f).
Definition add_other (line : bytes) (f : dotenvFile) : dotenvFile :=
  mkDotenvFile (fEntries f) (fOthers f ++ [line]).

(** [mustJSON]: an entry that cannot be written is written as nothing. *)
Definition mustJSON (e : dotenvEntry) : bytes := default [] (Marshal entry_codec e).

Definition marker_line (e : dotenvEntry) : bytes := dotenvMarker ++ mustJSON e.

(** ** Lines *)

(** [bufio.Scanner] with a buffer of [4 * MaxValueBytes]: a line and its line
    feed must fit. *)
Definition max_line : Z := 4 * MaxValueBytes - 1.

Definition raw_lines (b : bytes) : list bytes :=
  let ls := Split b x0a in
  if decide (last ls = Some []) then take (length ls - 1) ls else ls.

Definition drop_cr (line : bytes) : bytes :=
  if decide (last line = Some x0d) then take (length line - 1) line else line.

Definition scanned_lines (b : bytes) : option (list bytes) :=
  if existsb (λ l, max_line <? zlen l) (raw_lines b) then None else Some (drop_cr <$> raw_lines b).

(** ** Reading *)

(** A marker that announces an entry. *)
Definition read_marker (line : bytes) : option dotenvEntry :=
  if HasPrefix line dotenvMarker then
    e ← Unmarshal entry_codec (TrimPrefix line dotenvMarker) zero_entry;
    if is_ok (ValidateName (eName e)) then Some e else None
  else None.

Section file.
Context `{UnicodeUpper}.

Definition entry_key (e : dotenvEntry) : bytes := EnvKey (bs (eName e)) ++ B["="].

(** The value on the line after a marker. *)
Definition entry_value (e : dotenvEntry) (line : bytes) : option bytes :=
  if HasPrefix line (entry_key e) then
    match dotenvUnquote (TrimPrefix line (entry_key e)) with
    | Ok v => if beq (eEncoding e) B["base64"] then StdDecode v else Some v
    | Err _ => None
    end
  else None.

(** The loop of [load]: [pending] is the marker on the line before. *)
Fixpoint scan_lines (pending : option dotenvEntry) (lines : list bytes) (f : dotenvFile) : dotenvFile :=
  match lines with
  | [] => f
  | line :: lines =>
      match read_marker line with
      | Some e => scan_lines (Some e) lines f
      | None =>
          match pending with
          | None => scan_lines None lines (add_other line f)
          | Some e =>
              match entry_value e line with
              | Some v => scan_lines None lines (add_entry e v f)
              | None => scan_lines None lines (add_other line (add_other (marker_line e) f))
              end
          end
      end
  end.

Definition parse_file (b : bytes) : result storage_error dotenvFile :=
  match scanned_lines b with
  | Some lines => Ok (scan_lines None lines empty_file)
  | None => Err ErrOther
  end.

(** ** Writing *)

Definition value_line (e : dotenvEntry) (v : bytes) : bytes :=
  entry_key e ++ dotenvQuote (if beq (eEncoding e) B["base64"] then StdEncode v else v).

(** Entries are written under the name they are filed under. *)
Definition record_lines (n : string) (r : dotenvRecord) : list bytes :=
  [marker_line (rEntry r);
   EnvKey (bs n) ++ B["="] ++ dotenvQuote (if beq (eEncoding (rEntry r)) B["base64"] then StdEncode (rVal r) else rVal r)].

Definition file_lines (f : dotenvFile) : list bytes :=
  fOthers f ++ mjoin ((λ x, record_lines x.1 x.2) <$> sort_stable key_less (map_to_list (fEntries f))).

Definition render (f : dotenvFile) : bytes := mjoin ((λ l, l ++ [x0a]) <$> file_lines f).

(** * The backend *)

Record Dotenv := mkDotenv {
  dContent : option bytes; (* [None]: there is no file *)
  dPlace : nat → Place;
  dIO : nat → IO;
  dOps : nat;
}.

Definition set_content (b : bytes) (d : Dotenv) : Dotenv := mkDotenv (Some b) (dPlace d) (dIO d) (dOps d).
Definition next_op (d : Dotenv) : Dotenv := mkDotenv (dContent d) (dPlace d) (dIO d) (S (dOps d)).

Definition dotenv_load (d : Dotenv) : result storage_error dotenvFile :=
  if read_fails (dIO d (dOps d)) then Err ErrOther
  else match dContent d with None => Ok empty_file | Some b => parse_file b end.

Definition dotenv_save (f : dotenvFile) (d : Dotenv) : Dotenv * result storage_error unit :=
  if write_fails (dIO d (dOps d)) then (d, Err ErrOther) else (set_content (render f) d, Ok tt).

(** One operation under the lock. *)
Definition dotenv_op {A} (op : Dotenv → Dotenv * A) (d : Dotenv) : Dotenv * A :=
  let '(d, a) := op d in (next_op d, a).

Definition dotenv_Name : bytes := B["dotenv"].

Definition dotenv_safe (d : Dotenv) : result storage_error unit := safe (dPlace d (dOps d)).

Definition dotenv_Probe (d : Dotenv) : Probe :=
  match dotenv_safe d with
  | Err _ => mkProbe false [] 0
  | Ok _ => mkProbe true B["plain file (weakest option; readable by any process running as you)"] 1
  end.

Definition new_entry (name : string) (value : bytes) (meta : Metadata) : dotenvEntry :=
  mkEntry name (stamp dotenv_Name name value meta) (if textual value then [] else B["base64"]).

(** Another name with the same key. *)
Definition collides (name : string) (f : dotenvFile) : bool :=
  existsb (λ x, bool_decide (x.1 ≠ name) && beq (EnvKey (bs x.1)) (EnvKey (bs name))) (map_to_list (fEntries f)).

Definition dotenv_Put (name : string) (value : bytes) (meta : Metadata) : Dotenv → Dotenv * result storage_error unit :=
  dotenv_op (λ d,
    match ValidateName name with
    | Err e => (d, Err e)
    | Ok _ =>
        if MaxValueBytes <? zlen value then (d, Err ErrTooLarge)
        else match dotenv_safe d with
        | Err e => (d, Err e)
        | Ok _ =>
            match dotenv_load d with
            | Err e => (d, Err e)
            | Ok f =>
                if collides name f then (d, Err ErrInvalidName)
                else dotenv_save (add_entry (new_entry name value meta) value f) d
            end
        end
    end).

Definition dotenv_Get (name : string) : Dotenv → Dotenv * result storage_error (bytes * Metadata) :=
  dotenv_op (λ d,
    (d, match ValidateName name with
        | Err e => Err e
        | Ok _ =>
            match dotenv_load d with
            | Err e => Err e
            | Ok f => match fEntries f !! name with
                      | Some r => Ok (rVal r, eMeta (rEntry r))
                      | None => Err ErrNotFound
                      end
            end
        end)).

Definition dotenv_Delete (name : string) : Dotenv → Dotenv * result storage_error unit :=
  dotenv_op (λ d,
    match ValidateName name with
    | Err e => (d, Err e)
    | Ok _ =>
        match dotenv_load d with
        | Err e => (d, Err e)
        | Ok f => match fEntries f !! name with
                  | None => (d, Err ErrNotFound)
                  | Some _ => dotenv_save (mkDotenvFile (delete name (fEntries f)) (fOthers f)) d
                  end
        end
    end).

Definition dotenv_List : Dotenv → Dotenv * result storage_error (list Metadata) :=
  dotenv_op (λ d,
    (d, match dotenv_load d with
        | Err e => Err e
        | Ok f => Ok (sort_by_name ((λ x, eMeta (rEntry x.2)) <$> map_to_list (fEntries f)))
        end)).

#[export] Instance dotenv_backend : Backend Dotenv := {
  b_Name := dotenv_Name; b_Probe := dotenv_Probe; b_Put := dotenv_Put; b_Get := dotenv_Get;
  b_Delete := dotenv_Delete; b_List := dotenv_List }.
End file.
