(* ===== verification/AgeVault.v ===== *)
(** The vault in one encrypted file: internal/storage/agevault.go.

    filippo.io/age is a parameter, with its documented laws in [AgeOk].  The
    lock file is here as an outcome per operation; [VaultLock] models how
    processes compete for it. *)
From S2P Require Import Prelude GoSort GoStrings GoTime GoText Json JsonDoc Secrets Records Keychain.
From Stdlib Require Import Strings.Byte.

(** * age *)

Inductive age_result := AgePlain (plain : bytes) | AgeNoMatch | AgeFailed.

Class Age := {
  identity : Type;
  recipient : Type;
  GenerateX25519 : nat → option identity; (* from random bytes *)
  identity_String : identity → bytes;
  ParseX25519 : bytes → option identity;
  Recipient : identity → recipient;
  recipient_String : recipient → bytes;
  NewScryptIdentity : bytes → option identity;
  NewScryptRecipient : bytes → option recipient;
  age_Encrypt : nat → recipient → bytes → option bytes;
  age_Decrypt : identity → bytes → age_result;
}.

Definition identity_prefix : bytes := B["AGE-SECRET-KEY-"].

(** Text of one word. *)
Definition word (s : bytes) : Prop := Forall (λ b, 32 < b2z b < 127) s.

Class AgeOk `{Age} := {
  matches : identity → recipient → Prop;
  generated_matches s i : GenerateX25519 s = Some i → matches i (Recipient i);
  generated_parses s i : GenerateX25519 s = Some i →
    ParseX25519 (identity_String i) = Some i ∧ HasPrefix (identity_String i) identity_prefix = true ∧
    word (identity_String i) ∧ word (recipient_String (Recipient i));
  scrypt_matches p i r : NewScryptIdentity p = Some i → NewScryptRecipient p = Some r → matches i r;
  parsed_matches s i : ParseX25519 s = Some i → matches i (Recipient i);
  decrypt_encrypt s i r p c : matches i r → age_Encrypt s r p = Some c → age_Decrypt i c = AgePlain p;
}.

(** * The document *)

Record vaultRecord := mkVaultRecord { vMeta : Metadata; vValue : option bytes }.

Definition zero_vault_record : vaultRecord := mkVaultRecord zero_metadata None.

Definition vault_record_fields : list (field vaultRecord) :=
  [mkField metadata_codec B["meta"] never vMeta (λ x r, mkVaultRecord x (vValue r));
   mkField bytes_codec B["value"] never vValue (λ x r, mkVaultRecord (vMeta r) x)].

Definition vault_record_codec : codec vaultRecord := struct_codec vault_record_fields zero_vault_record.

Record vaultFile := mkVaultFile { vV : Z; vEntries : gmap string vaultRecord }.

(** What [load] decodes onto: version 1 and no entries. *)
Definition new_vault : vaultFile := mkVaultFile 1 ∅.

Definition vault_fields : list (field vaultFile) :=
  [mkField int_codec B["v"] never vV (λ x r, mkVaultFile x (vEntries r));
   mkField (map_codec vault_record_codec) B["entries"] never vEntries (λ x r, mkVaultFile (vV r) x)].

Definition vault_codec : codec vaultFile := struct_codec vault_fields (mkVaultFile 0 ∅).

Section vault.
Context `{Age}.

(** What the machine does to one operation. *)
Record VaultWorld := mkVaultWorld {
  vw_mkdir_fails : bool;
  vw_locked : bool; (* the lock file could not be taken *)
  vw_io : bool * bool; (* reading, writing fails *)
  vw_seed : nat;
}.

Record AgeVault := mkAgeVault {
  avIdentity : identity;
  avRecipient : recipient;
  avContent : option bytes;
  avWorld : nat → VaultWorld;
  avOps : nat;
}.

Definition av_world (v : AgeVault) : VaultWorld := avWorld v (avOps v).
Definition av_set_content (c : bytes) (v : AgeVault) : AgeVault :=
  mkAgeVault (avIdentity v) (avRecipient v) (Some c) (avWorld v) (avOps v).
Definition av_next (v : AgeVault) : AgeVault :=
  mkAgeVault (avIdentity v) (avRecipient v) (avContent v) (avWorld v) (S (avOps v)).

(** [io.LimitReader(r, 64<<20)] *)
Definition read_limit : Z := 64 * 2 ^ 20.
Definition limit_read (p : bytes) : bytes := if zlen p <=? read_limit then p else take (Z.to_nat read_limit) p.

Definition decode_vault (plain : bytes) : result storage_error vaultFile :=
  match Unmarshal vault_codec (limit_read plain) new_vault with
  | Some f => if vV f =? 1 then Ok f else Err ErrOther
  | None => Err ErrOther
  end.

(** What the file holds. *)
Definition open_content (v : AgeVault) : result storage_error vaultFile :=
  match avContent v with
  | None => Ok new_vault
  | Some c =>
      match age_Decrypt (avIdentity v) c with
      | AgePlain p => decode_vault p
      | AgeNoMatch => Err ErrPermission
      | AgeFailed => Err ErrOther
      end
  end.

Definition av_load (v : AgeVault) : result storage_error vaultFile :=
  if (vw_io (av_world v)).1 then Err ErrOther else open_content v.

Definition av_save (f : vaultFile) (v : AgeVault) : AgeVault * result storage_error unit :=
  match Marshal vault_codec f with
  | None => (v, Err ErrOther)
  | Some plain =>
      match age_Encrypt (vw_seed (av_world v)) (avRecipient v) plain with
      | None => (v, Err ErrOther)
      | Some c => if (vw_io (av_world v)).2 then (v, Err ErrOther) else (av_set_content c v, Ok tt)
      end
  end.

Definition withLock (fn : AgeVault → AgeVault * result storage_error unit) (v : AgeVault)
    : AgeVault * result storage_error unit :=
  if vw_locked (av_world v) then (v, Err ErrOther) else fn v.

Definition av_op {A} (op : AgeVault → AgeVault * A) (v : AgeVault) : AgeVault * A :=
  let '(v, a) := op v in (av_next v, a).

Definition agevault_Name : bytes := B["agevault"].

Definition agevault_Probe (v : AgeVault) : Probe :=
  if vw_mkdir_fails (av_world v) then mkProbe false B["cannot create the directory"] 0
  else match av_load v with
       | Err _ => mkProbe false [] 0
       | Ok _ => mkProbe true B["age vault"] 80
       end.

Definition put_record (name : string) (value : bytes) (meta : Metadata) (f : vaultFile) : vaultFile :=
  mkVaultFile (vV f) (<[name := mkVaultRecord (stamp agevault_Name name value meta) (Some value)]> (vEntries f)).

Definition agevault_Put (name : string) (value : bytes) (meta : Metadata) : AgeVault → AgeVault * result storage_error unit :=
  av_op (λ v,
    match ValidateName name with
    | Err e => (v, Err e)
    | Ok _ =>
        if MaxValueBytes <? zlen value then (v, Err ErrTooLarge)
        else if vw_mkdir_fails (av_world v) then (v, Err ErrPermission)
        else withLock (λ v, match av_load v with
                            | Err e => (v, Err e)
                            | Ok f => av_save (put_record name value meta f) v
                            end) v
    end).

Definition agevault_Get (name : string) : AgeVault → AgeVault * result storage_error (bytes * Metadata) :=
  av_op (λ v,
    (v, match ValidateName name with
        | Err e => Err e
        | Ok _ =>
            match av_load v with
            | Err e => Err e
            | Ok f => match vEntries f !! name with
                      | Some r => Ok (default [] (vValue r), vMeta r)
                      | None => Err ErrNotFound
                      end
            end
        end)).

Definition agevault_Delete (name : string) : AgeVault → AgeVault * result storage_error unit :=
  av_op (λ v,
    match ValidateName name with
    | Err e => (v, Err e)
    | Ok _ =>
        withLock (λ v, match av_load v with
                       | Err e => (v, Err e)
                       | Ok f => match vEntries f !! name with
                                 | None => (v, Err ErrNotFound)
                                 | Some _ => av_save (mkVaultFile (vV f) (delete name (vEntries f))) v
                                 end
                       end) v
    end).

Definition agevault_List : AgeVault → AgeVault * result storage_error (list Metadata) :=
  av_op (λ v,
    (v, match av_load v with
        | Err e => Err e
        | Ok f => Ok (sort_by_name ((λ x, vMeta x.2) <$> map_to_list (vEntries f)))
        end)).

#[export] Instance agevault_backend : Backend AgeVault := {
  b_Name := agevault_Name; b_Probe := agevault_Probe; b_Put := agevault_Put; b_Get := agevault_Get;
  b_Delete := agevault_Delete; b_List := agevault_List }.

(** * Opening *)

(** The identity file, the faults around it, the clock and the random source. *)
Record OpenWorld := mkOpenWorld {
  ow_read_fails : bool;
  ow_mkdir_fails : bool;
  ow_write_fails : bool;
  ow_now : Time;
  ow_seed : nat;
}.

Definition identity_file (w : OpenWorld) (id : identity) : bytes :=
  B["# burndrop vault identity, created "] ++ Format_RFC3339 (ow_now w) ++ [x0a] ++
  B["# public key: "] ++ recipient_String (Recipient id) ++ [x0a] ++ identity_String id ++ [x0a].

(** The first line that is a key. *)
Fixpoint find_identity (lines : list bytes) : option identity :=
  match lines with
  | [] => None
  | line :: lines =>
      let line := TrimSpace line in
      if HasPrefix line identity_prefix then ParseX25519 line else find_identity lines
  end.

Definition loadOrCreateIdentityFile (w : OpenWorld) (file : option bytes) : option bytes * option identity :=
  if ow_read_fails w then (file, None)
  else match file with
       | Some b => (file, find_identity (Split b x0a))
       | None =>
           match GenerateX25519 (ow_seed w) with
           | None => (file, None)
           | Some id =>
               if ow_mkdir_fails w || ow_write_fails w then (file, None)
               else (Some (identity_file w id), Some id)
           end
       end.

Section open.
Context {K : Type} `{Keyring K}.

Record AgeVaultOptions := mkAgeVaultOptions { oIdentityFile : bytes; oPassphrase : bytes; oKeychain : option (Keychain K) }.

(** The key of the vault in the keychain, created on first use. *)
Definition keychain_identity (w : OpenWorld) (k : Keychain K) : Keychain K * option identity :=
  match GetRaw KeychainVaultKeyEntry k with
  | (k, Ok s) => (k, ParseX25519 (TrimSpace s))
  | (k, Err ErrNotFound) =>
      match GenerateX25519 (ow_seed w) with
      | None => (k, None)
      | Some gen =>
          match SetRaw KeychainVaultKeyEntry (identity_String gen) k with
          | (k, Err _) => (k, None)
          | (k, Ok _) => (k, ParseX25519 (TrimSpace (identity_String gen)))
          end
      end
  | (k, Err _) => (k, None)
  end.

(** The identity file afterwards, the keychain afterwards, and the keys. *)
Definition OpenAgeVault (w : OpenWorld) (file : option bytes) (opts : AgeVaultOptions)
    : option bytes * option (Keychain K) * option (identity * recipient) :=
  if negb (is_empty (oIdentityFile opts)) then
    let '(file, id) := loadOrCreateIdentityFile w file in
    (file, oKeychain opts, (λ id, (id, Recipient id)) <$> id)
  else if negb (is_empty (oPassphrase opts)) then
    (file, oKeychain opts,
     id ← NewScryptIdentity (oPassphrase opts); r ← NewScryptRecipient (oPassphrase opts); Some (id, r))
  else match oKeychain opts with
       | Some k => let '(k, id) := keychain_identity w k in (file, Some k, (λ id, (id, Recipient id)) <$> id)
       | None => (file, None, None)
       end.
End open.
End vault.

Arguments AgeVaultOptions K : clear implicits.
