(* ===== verification/VaultLock.v ===== *)
(** How processes share the vault: the lock file of [withLock] in
    internal/storage/agevault.go, with every interleaving of processes that
    take it, give up, or take over a lock that looks abandoned.

    One call of the file system is one step.  The clock moves between steps;
    the sleep of a waiting process is such a move. *)
From stdpp Require Import functions.
From S2P Require Import Prelude GoTime AgeVault.
From Stdlib Require Import Strings.Byte.

Definition lock_patience : Duration := 5 * Second.
Definition lock_stale : Duration := 60 * Second.

(** An update under the lock: what [fn] does to the document. *)
Abbreviation update := (vaultFile → vaultFile).

(** Where a process is. *)
Inductive pc :=
  | Idle
  | Trying (u : update) (deadline : Time) (* about to create the lock file *)
  | Busy (u : update) (deadline : Time) (* it exists; about to look at it *)
  | SawOld (u : update) (deadline : Time) (* it looked abandoned; about to remove it *)
  | Holding (u : update) (* about to read the vault *)
  | Loaded (u : update) (f : vaultFile) (* about to write what it makes of [f] *)
  | Done (* about to remove the lock file *)
  | Crashed.

Record LockState := mkLockState {
  lock : option Time; (* the lock file with its modification time *)
  document : vaultFile;
  procs : nat → pc;
  clock : Time;
  applied : list update; (* the updates written so far, the last one first *)
}.

Definition set_pc (p : nat) (x : pc) (s : LockState) : LockState :=
  mkLockState (lock s) (document s) (<[p := x]> (procs s)) (clock s) (applied s).
Definition set_lock (l : option Time) (s : LockState) : LockState :=
  mkLockState l (document s) (procs s) (clock s) (applied s).
Definition write_document (u : update) (f : vaultFile) (s : LockState) : LockState :=
  mkLockState (lock s) (u f) (procs s) (clock s) (u :: applied s).
Definition set_clock (t : Time) (s : LockState) : LockState :=
  mkLockState (lock s) (document s) (procs s) t (applied s).

(** One step of process [p]. *)
Inductive lock_step (p : nat) (s : LockState) : LockState → Prop :=
  | step_begin u : procs s p = Idle → lock_step p s (set_pc p (Trying u (clock s + lock_patience)) s)
  | step_acquire u d : procs s p = Trying u d → lock s = None →
      lock_step p s (set_pc p (Holding u) (set_lock (Some (clock s)) s))
  | step_exists u d t : procs s p = Trying u d → lock s = Some t → lock_step p s (set_pc p (Busy u d) s)
  | step_old u d t : procs s p = Busy u d → lock s = Some t → lock_stale < clock s - t →
      lock_step p s (set_pc p (SawOld u d) s)
  | step_remove u d : procs s p = SawOld u d → lock_step p s (set_pc p (Trying u d) (set_lock None s))
  | step_wait u d : procs s p = Busy u d → (∀ t, lock s = Some t → clock s - t <= lock_stale) → clock s <= d →
      lock_step p s (set_pc p (Trying u d) s)
  | step_give_up u d : procs s p = Busy u d → (∀ t, lock s = Some t → clock s - t <= lock_stale) → d < clock s →
      lock_step p s (set_pc p Idle s)
  | step_load u : procs s p = Holding u → lock_step p s (set_pc p (Loaded u (document s)) s)
  | step_load_fails u : procs s p = Holding u → lock_step p s (set_pc p Done s)
  | step_save u f : procs s p = Loaded u f → lock_step p s (set_pc p Done (write_document u f s))
  | step_save_fails u f : procs s p = Loaded u f → lock_step p s (set_pc p Done s)
  | step_unlock : procs s p = Done → lock_step p s (set_pc p Idle (set_lock None s))
  | step_crash : lock_step p s (set_pc p Crashed s).

Inductive world_step (s : LockState) : LockState → Prop :=
  | world_process p s' : lock_step p s s' → world_step s s'
  | world_clock t : clock s <= t → world_step s (set_clock t s).

(** A process inside [fn]. *)
Definition critical (x : pc) : Prop :=
  match x with Holding _ | Loaded _ _ | Done => True | _ => False end.

#[export] Instance critical_dec x : Decision (critical x).
Proof. destruct x; apply _. Defined.

(** A step in which no process dies inside [fn], or spends more than a minute
    there. *)
Definition timely_step (s s' : LockState) : Prop :=
  world_step s s' ∧
  (∀ p, critical (procs s p) → procs s' p ≠ Crashed) ∧
  (∀ p t, critical (procs s' p) → lock s' = Some t → clock s' - t <= lock_stale).

Definition start (f : vaultFile) (t : Time) : LockState := mkLockState None f (λ _, Idle) t [].

(** * Mutual exclusion *)

Record lock_inv (f0 : vaultFile) (s : LockState) : Prop := {
  li_free p : lock s = None → ¬ critical (procs s p);
  li_held t : lock s = Some t → ∃ p, critical (procs s p) ∧ clock s - t <= lock_stale;
  li_one p q : critical (procs s p) → critical (procs s q) → p = q;
  li_old p u d : procs s p ≠ SawOld u d;
  li_loaded p u f : procs s p = Loaded u f → f = document s;
  li_document : document s = foldr (λ u f, u f) f0 (applied s);
}.

Ltac at_pc p :=
  repeat match goal with
  | H : context [<[p := _]> _ ?q] |- _ =>
      destruct (decide (q = p)) as [->|]; [rewrite fn_lookup_insert in H|rewrite fn_lookup_insert_ne in H by done]
  | |- context [<[p := _]> _ ?q] =>
      destruct (decide (q = p)) as [->|]; [rewrite fn_lookup_insert|rewrite fn_lookup_insert_ne by done]
  end.

(** A step between places outside [fn] that leaves the lock alone. *)
Lemma inv_outside f0 s p x :
  lock_inv f0 s → ¬ critical (procs s p) → ¬ critical x → (∀ u d, x ≠ SawOld u d) → lock_inv f0 (set_pc p x s).
Proof.
  intros [Hf Hh Ho Hs Hl Hd] Hp Hx Hold. split; simpl.
  - intros q Hq. at_pc p; [done|by apply Hf].
  - intros t Ht. destruct (Hh t Ht) as (q & Hq & Hage). exists q. split; [|done]. at_pc p; [done|exact Hq].
  - intros q r Hq Hr. at_pc p; try done. by apply Ho.
  - intros q u d Hq. at_pc p; [by eapply Hold|by eapply Hs].
  - intros q u f Hq. at_pc p; [by rewrite Hq in Hx|by eapply Hl].
  - done.
Qed.

(** A step inside [fn] that leaves the document alone. *)
Lemma inv_inside f0 s p x :
  lock_inv f0 s → critical (procs s p) → critical x → (∀ u f, x = Loaded u f → f = document s) → lock_inv f0 (set_pc p x s).
Proof.
  intros [Hf Hh Ho Hs Hl Hd] Hp Hx Hload. split; simpl.
  - intros q Hq. by destruct (Hf p Hq).
  - intros t Ht. destruct (Hh t Ht) as (q & Hq & Hage). exists q. split; [|done]. at_pc p; [exact Hx|exact Hq].
  - intros q r Hq Hr. at_pc p; try done; by apply Ho.
  - intros q u d Hq. at_pc p; [by rewrite Hq in Hx|by eapply Hs].
  - intros q u f Hq. at_pc p; [by eapply Hload|by eapply Hl].
  - done.
Qed.

Lemma inv_acquire f0 s p u :
  lock_inv f0 s → lock s = None → lock_inv f0 (set_pc p (Holding u) (set_lock (Some (clock s)) s)).
Proof.
  intros [Hf Hh Ho Hs Hl Hd] Hn. split; simpl; try done.
  - intros t [= <-]. exists p. rewrite fn_lookup_insert. split; [done|]. unfold lock_stale, Second. lia.
  - intros q r Hq Hr. at_pc p; try done; exfalso; by eapply Hf.
  - intros q v d Hq. at_pc p; [done|by eapply Hs].
  - intros q v f Hq. at_pc p; [done|by eapply Hl].
Qed.

Lemma inv_save f0 s p u f :
  lock_inv f0 s → procs s p = Loaded u f → lock_inv f0 (set_pc p Done (write_document u f s)).
Proof.
  intros [Hf Hh Ho Hs Hl Hd] Hp. assert (critical (procs s p)) as Hc by by rewrite Hp.
  split; simpl.
  - intros q Hq. by destruct (Hf p Hq).
  - intros t Ht. destruct (Hh t Ht) as (q & Hq & Hage). exists q. split; [|done]. at_pc p; [done|exact Hq].
  - intros q r Hq Hr. at_pc p; try done; by apply Ho.
  - intros q v d Hq. at_pc p; [done|by eapply Hs].
  - intros q v g Hq. at_pc p; [done|]. exfalso. assert (q = p); [|done]. apply Ho; [by rewrite Hq|done].
  - rewrite (Hl p u f Hp), Hd. done.
Qed.

Lemma inv_unlock f0 s p :
  lock_inv f0 s → procs s p = Done → lock_inv f0 (set_pc p Idle (set_lock None s)).
Proof.
  intros [Hf Hh Ho Hs Hl Hd] Hp. assert (critical (procs s p)) as Hc by by rewrite Hp. split; simpl; try done.
  - intros q _ Hq. at_pc p; [done|]. assert (q = p) by by apply Ho. done.
  - intros q r Hq Hr. at_pc p; try done. by apply Ho.
  - intros q v d Hq. at_pc p; [done|by eapply Hs].
  - intros q v g Hq. at_pc p; [done|by eapply Hl].
Qed.

Lemma lock_inv_step f0 s s' : lock_inv f0 s → timely_step s s' → lock_inv f0 s'.
Proof.
  intros Hi (Hstep & Hcrash & Htime). pose proof Hi as [Hf Hh Ho Hs Hl Hd]. destruct Hstep as [p s' Hstep|t Ht].
  - destruct Hstep as [u Hp|u d Hp Hn|u d t Hp Ht|u d t Hp Ht Hage|u d Hp|u d Hp _ _|u d Hp _ _|u Hp|u Hp|u f Hp|u f Hp|Hp|].
    + apply inv_outside; [done| |by intros []|done]. rewrite Hp. by intros [].
    + by apply inv_acquire.
    + apply inv_outside; [done| |by intros []|done]. rewrite Hp. by intros [].
    + destruct (Hh t Ht) as (q & _ & ?). lia.
    + by destruct (Hs p u d).
    + apply inv_outside; [done| |by intros []|done]. rewrite Hp. by intros [].
    + apply inv_outside; [done| |by intros []|done]. rewrite Hp. by intros [].
    + apply inv_inside; [done| |done|by intros ?? [= _ <-]]. by rewrite Hp.
    + apply inv_inside; [done| |done|done]. by rewrite Hp.
    + by apply inv_save.
    + apply inv_inside; [done| |done|done]. by rewrite Hp.
    + by apply inv_unlock.
    + apply inv_outside; [done| |by intros []|done]. intros Hc. apply (Hcrash p Hc). simpl. apply fn_lookup_insert.
  - split; simpl; try done. intros t' Ht'. destruct (Hh t' Ht') as (q & Hq & _). exists q. split; [done|].
    by apply (Htime q).
Qed.

Lemma lock_inv_start f t : lock_inv f (start f t).
Proof. split; simpl; try done. by intros p _ []. Qed.

(** C34. Under the lock no update is lost: in every interleaving of processes that
    read, change and write the vault, as long as none dies or stays longer
    than a minute between taking the lock and releasing it, at most one is
    there at a time, and the vault holds the updates that were written, each
    made of the one before. *)
Theorem vault_updates_serialize f t s :
  rtc timely_step (start f t) s →
  (∀ p q, critical (procs s p) → critical (procs s q) → p = q) ∧
  document s = foldr (λ u g, u g) f (applied s).
Proof.
  intros Hr. assert (lock_inv f s) as [_ _ Ho _ _ Hd]; [|done].
  remember (start f t) as s0 eqn:E. assert (lock_inv f s0) as Hi by (subst; apply lock_inv_start). clear E.
  induction Hr as [|s1 s2 s3 Hstep _ IH]; [done|]. apply IH. by eapply lock_inv_step.
Qed.

(** * A lock that was left behind *)

Definition add_secret (name : string) : update := put_record name [x01] Records.zero_metadata.

(** Process 0 died with the lock, a hundred seconds ago. *)
Definition abandoned : LockState :=
  mkLockState (Some 0) new_vault (<[0%nat := Crashed]> (λ _, Idle)) (100 * Second) [].

(** Such a state comes about. *)
Lemma abandoned_reached : ∃ s, rtc world_step (start new_vault 0) s ∧
  lock s = lock abandoned ∧ document s = document abandoned ∧ clock s = clock abandoned ∧ applied s = [] ∧
  ∀ p, procs s p = procs abandoned p.
Proof.
  eexists. split.
  - eapply rtc_l; [apply (world_process _ 0%nat), (step_begin _ _ (add_secret "lost")); reflexivity|].
    eapply rtc_l; [apply (world_process _ 0%nat); eapply step_acquire; [apply fn_lookup_insert|reflexivity]|].
    eapply rtc_l; [apply (world_process _ 0%nat), step_crash|].
    eapply rtc_l; [apply (world_clock _ (100 * Second)); vm_compute; discriminate|]. apply rtc_refl.
  - split_and!; try reflexivity. intros p. simpl. destruct (decide (p = 0%nat)) as [->|]; [by rewrite !fn_lookup_insert|].
    by rewrite !fn_lookup_insert_ne.
Qed.

(** The process at which a state's places are asked for is a number. *)
Ltac where_is := repeat (rewrite fn_lookup_insert || rewrite fn_lookup_insert_ne by discriminate); reflexivity.

(** The takeover of an abandoned lock can lose an update: two processes see that
    the lock is old, the second removes the lock the first has just taken, both
    read the same vault, both report success, and only the second secret is in
    the vault. *)
Theorem stale_takeover_loses_update :
  ∃ s, rtc world_step abandoned s ∧ procs s 1%nat = Idle ∧ procs s 2%nat = Idle ∧
    applied s = [add_secret "second"; add_secret "first"] ∧
    vEntries (document s) !! "first" = None ∧ is_Some (vEntries (document s) !! "second").
Proof.
  eexists. split; [|split; [|split; [|split; [|split]]]].
  - do 2 (eapply rtc_l; [apply (world_process _ 1%nat); first [by eapply (step_begin _ _ (add_secret "first"))|eapply step_exists; [where_is|reflexivity]]|]).
    do 2 (eapply rtc_l; [apply (world_process _ 2%nat); first [eapply (step_begin _ _ (add_secret "second")); where_is|eapply step_exists; [where_is|reflexivity]]|]).
    eapply rtc_l; [apply (world_process _ 1%nat); eapply step_old; [where_is|reflexivity|by vm_compute]|].
    eapply rtc_l; [apply (world_process _ 2%nat); eapply step_old; [where_is|reflexivity|by vm_compute]|].
    eapply rtc_l; [apply (world_process _ 1%nat); eapply step_remove; where_is|].
    eapply rtc_l; [apply (world_process _ 1%nat); eapply step_acquire; [where_is|reflexivity]|].
    eapply rtc_l; [apply (world_process _ 1%nat); eapply step_load; where_is|].
    eapply rtc_l; [apply (world_process _ 2%nat); eapply step_remove; where_is|].
    eapply rtc_l; [apply (world_process _ 2%nat); eapply step_acquire; [where_is|reflexivity]|].
    eapply rtc_l; [apply (world_process _ 2%nat); eapply step_load; where_is|].
    eapply rtc_l; [apply (world_process _ 1%nat); eapply step_save; where_is|].
    eapply rtc_l; [apply (world_process _ 1%nat); eapply step_unlock; where_is|].
    eapply rtc_l; [apply (world_process _ 2%nat); eapply step_save; where_is|].
    eapply rtc_l; [apply (world_process _ 2%nat); eapply step_unlock; where_is|]. apply rtc_refl.
  - where_is.
  - where_is.
  - reflexivity.
  - vm_compute. reflexivity.
  - vm_compute. by eexists.
Qed.

(** One update, from taking the lock to releasing it. *)
Lemma timely_process p s s' :
  lock_step p s s' → procs s' p ≠ Crashed → (∀ q, q ≠ p → ¬ critical (procs s q)) →
  (∀ q, q ≠ p → procs s' q = procs s q) → (∀ t, lock s' = Some t → clock s' - t <= lock_stale) → timely_step s s'.
Proof.
  intros Hs Hc Hother Hsame Ht. split; [by eapply world_process|]. split; [|by intros q t _ Hl; apply Ht].
  intros q Hq. destruct (decide (q = p)) as [->|Hne]; [done|]. by destruct (Hother q Hne).
Qed.

(** One step of process 0 while all others are idle. *)
Ltac alone step :=
  eapply rtc_l; [eapply (timely_process 0);
    [step
    |done
    |intros q Hq; simpl; rewrite ?fn_lookup_insert_ne by done; by intros []
    |intros q Hq; simpl; by rewrite ?fn_lookup_insert_ne by done
    |try done; by intros t [= <-]]|].

Lemma one_update_run :
  ∃ s, rtc timely_step (start new_vault 0) s ∧ applied s = [add_secret "first"].
Proof.
  eexists. split.
  - alone ltac:(apply (step_begin _ _ (add_secret "first")); reflexivity).
    alone ltac:(eapply step_acquire; [where_is|reflexivity]).
    alone ltac:(eapply step_load; where_is).
    alone ltac:(eapply step_save; where_is).
    alone ltac:(eapply step_unlock; where_is).
    apply rtc_refl.
  - reflexivity.
Qed.

Lemma vault_updates_serialize_witness :
  ∃ s, rtc timely_step (start new_vault 0) s ∧ document s = add_secret "first" new_vault.
Proof.
  destruct one_update_run as (s & Hr & Ha). exists s. split; [exact Hr|].
  destruct (vault_updates_serialize new_vault 0 s Hr) as [_ ->]. by rewrite Ha.
Defined.
