(* ===== verification/Cli.v ===== *)
(** Command line tools: internal/storage/cli.go.

    The backends that drive a vendor's tool are programs over a few effects:
    running a command, looking for one, and handling temporary files.  A
    [prog] is the tree of what such a program does next for every answer it
    may get; [run] plays it against a world of a class [Runner], the Runner
    interface with the file system. *)
From S2P Require Import Prelude GoStrings GoText GoTime GoFloat GoOs Secrets Json JsonDoc JsonDocProps Base64 Records.
From Stdlib Require Import Strings.Byte.

(** * Running a command *)

(** The arguments of [Runner.Run]; no input is the nil slice. *)
Record invocation := mkInvocation {
  i_name : bytes;
  i_args : list bytes;
  i_stdin : option bytes;
  i_extraEnv : list bytes;
}.

(** [ExitError], or another error with its text. *)
Inductive cli_error :=
  | ExitError (Command : bytes) (Code : Z) (Stderr : bytes)
  | CliFailed (text : bytes).

Definition cli_text (e : cli_error) : bytes :=
  match e with
  | ExitError command code stderr =>
      command ++ B[" exited with code "] ++ Itoa code ++ (if is_empty stderr then [] else B[": "] ++ stderr)
  | CliFailed text => text
  end.

(** [shortErr], on the text of an error. *)
Definition shortErr (s : bytes) : bytes := if 120 <? zlen s then take 120 s ++ B["..."] else s.

(** The text that a failed command wrote to standard error. *)
Definition exit_stderr (e : cli_error) : option bytes :=
  match e with ExitError _ _ stderr => Some stderr | CliFailed _ => None end.

(** ** ExecRunner *)

Definition default_runner_timeout : Duration := 60 * Second.
Definition maxStderr : Z := 2000.

Definition runner_command (inherited : list bytes) (timeout : Duration) (i : invocation) : command :=
  mkCommand (i_name i :: i_args i) (inherited ++ i_extraEnv i) [] (default [] (i_stdin i)) timeout.

(** The error text of a command, trimmed and cut. *)
Definition runner_stderr (stderr : bytes) : bytes :=
  let msg := TrimSpace stderr in if maxStderr <? zlen msg then take (Z.to_nat maxStderr) msg ++ B["..."] else msg.

(** The output of a command that failed is returned too, and never read. *)
Definition runner_result (name : bytes) (timeout : Duration) (r : run_result) : result cli_error bytes :=
  match res_error r with
  | None => Ok (mjoin (res_stdout r))
  | Some (RunExit code) => Err (ExitError name code (runner_stderr (mjoin (res_stderr r))))
  | Some (RunOther text) =>
      Err (CliFailed (name ++ (if res_deadline r then B[" timed out after "] ++ Duration_String timeout
                               else B[": "] ++ text)))
  end.

Definition ExecRunner_Run {N} `{Programs N} (timeout : Duration) (i : invocation) (n : N) : N * result cli_error bytes :=
  let timeout := if timeout =? 0 then default_runner_timeout else timeout in
  let '(n', r) := run_program (runner_command (Environ n) timeout i) n in
  (n', runner_result (i_name i) timeout r).

(** ** Classifying failures *)

Section classify.
Context `{Unicode}.

Definition has_hint (low : bytes) (hints : list bytes) : bool := existsb (Contains low) hints.

Definition permission_hints : list bytes :=
  [B["not signed in"]; B["unauthorized"]; B["unauthenticated"]; B["access denied"]; B["accessdenied"];
   B["permission denied"]; B["forbidden"]; B["vault is locked"]; B["not logged in"]].

Definition classifyExit (e : cli_error) (notFoundHints : list bytes) : storage_error :=
  match exit_stderr e with
  | None => ErrOther
  | Some stderr =>
      let low := ToLower stderr in
      if existsb (λ h, negb (is_empty h) && Contains low (ToLower h)) notFoundHints then ErrNotFound
      else if has_hint low permission_hints then ErrPermission
      else ErrOther
  end.

(** The lower-cased text of a failed command, empty for any other error. *)
Definition cli_stderr (e : cli_error) : bytes := match exit_stderr e with Some s => ToLower s | None => [] end.

(** A tool's own phrases for a missing login first, then [classifyExit]. *)
Definition classify_with (denied notFound : list bytes) (e : cli_error) : storage_error :=
  if has_hint (cli_stderr e) denied then ErrPermission else classifyExit e notFound.
End classify.

(** * Programs *)

Inductive prog (A : Type) : Type :=
  | Done (r : result storage_error A)
  | Exec (i : invocation) (k : result cli_error bytes → prog A)
  | LookPath (name : bytes) (k : bool → prog A)
  | CreateTemp (content : bytes) (k : option bytes → prog A) (* the path of a new file *)
  | Remove (path : bytes) (k : prog A)
  | Pause (d : Duration) (k : bool → prog A) (* whether the context has ended meanwhile *).
Arguments Done {A} _.
Arguments Exec {A} _ _.
Arguments LookPath {A} _ _.
Arguments CreateTemp {A} _ _.
Arguments Remove {A} _ _.
Arguments Pause {A} _ _.

#[export] Instance prog_ret : MRet prog := λ A a, Done (Ok a).

#[export] Instance prog_bind : MBind prog := λ A B f,
  fix bind (p : prog A) : prog B :=
    match p with
    | Done (Ok a) => f a
    | Done (Err e) => Done (Err e)
    | Exec i k => Exec i (λ o, bind (k o))
    | LookPath n k => LookPath n (λ o, bind (k o))
    | CreateTemp c k => CreateTemp c (λ o, bind (k o))
    | Remove path k => Remove path (bind k)
    | Pause d k => Pause d (λ o, bind (k o))
    end.

Definition throw {A} (e : storage_error) : prog A := Done (Err e).
Definition lift {A} (r : result storage_error A) : prog A := Done r.
Definition exec (i : invocation) : prog (result cli_error bytes) := Exec i mret.
Definition look_path (name : bytes) : prog bool := LookPath name mret.

(** The error of a part as a value. *)
Fixpoint attempt {A} (p : prog A) : prog (result storage_error A) :=
  match p with
  | Done r => Done (Ok r)
  | Exec i k => Exec i (λ o, attempt (k o))
  | LookPath n k => LookPath n (λ o, attempt (k o))
  | CreateTemp c k => CreateTemp c (λ o, attempt (k o))
  | Remove path k => Remove path (attempt k)
  | Pause d k => Pause d (λ o, attempt (k o))
  end.

(** [defer os.Remove(path)] *)
Definition removing {A} (path : bytes) (p : prog A) : prog A :=
  r ← attempt p; Remove path (lift r).

(** A temporary file with a content, for as long as [p] runs: [awsTempFile],
    [azureTempFile] and [infisicalTempFile] with the deferred removal.  When
    the content cannot be written the file is removed at once; that is a
    [CreateTemp] without a path. *)
Definition with_temp {A} (content : bytes) (p : bytes → prog A) : prog A :=
  CreateTemp content (λ path, match path with Some path => removing path (p path) | None => throw ErrOther end).

(** The result of a command, its error classified. *)
Definition classified {A} (classify : cli_error → storage_error) (r : result cli_error A) : result storage_error A :=
  match r with Ok a => Ok a | Err e => Err (classify e) end.

(** Only whether it worked. *)
Definition checked (classify : cli_error → storage_error) (r : result cli_error bytes) : prog unit :=
  lift (match r with Ok _ => Ok tt | Err e => Err (classify e) end).

(** * What the backends share *)

(** The options of a backend with the world its tool runs in. *)
Record Tool (O W : Type) := mkTool { t_opts : O; t_world : W }.
Arguments mkTool {O W} _ _.
Arguments t_opts {O W} _.
Arguments t_world {O W} _.

(** What follows the last slash *)
Definition last_segment (s : bytes) : bytes := match LastIndexByte s x2f with Some i => drop (S i) s | None => s end.

Definition or_default (s d : bytes) : bytes := if is_empty s then d else s.

(** A flag with its value, when there is one. *)
Definition flag (name value : bytes) : list bytes := if is_empty value then [] else [name; value].

Definition refused (reason : bytes) : Probe := mkProbe false reason 0.

(** Text around a newline: the first line. *)
Definition first_line (s : bytes) : bytes := (Cut s x0a).1.1.

(** * Worlds *)

Class Runner (W : Type) := {
  r_Run : invocation → W → W * result cli_error bytes;
  r_LookPath : bytes → W → W * bool;
  os_CreateTemp : bytes → W → W * option bytes;
  os_Remove : bytes → W → W;
  ctx_After : Duration → W → W * bool;
}.

Fixpoint run {W} `{Runner W} {A} (p : prog A) (w : W) : W * result storage_error A :=
  match p with
  | Done r => (w, r)
  | Exec i k => let '(w, o) := r_Run i w in run (k o) w
  | LookPath n k => let '(w, o) := r_LookPath n w in run (k o) w
  | CreateTemp c k => let '(w, o) := os_CreateTemp c w in run (k o) w
  | Remove path k => run k (os_Remove path w)
  | Pause d k => let '(w, o) := ctx_After d w in run (k o) w
  end.

(** An operation of a backend, on its world. *)
Definition on_world {O W} `{Runner W} {A} (f : O → prog A) (t : Tool O W) : Tool O W * result storage_error A :=
  let '(w, r) := run (f (t_opts t)) (t_world t) in (mkTool (t_opts t) w, r).

(** A probe; it has no error to return. *)
Definition probe_of {O W} `{Runner W} (f : O → prog Probe) (t : Tool O W) : Probe :=
  match (on_world f t).2 with Ok p => p | Err _ => refused [] end.

(** ** The real runner *)

(** The rest of what the operating system does. *)
Class OS (N : Type) `{Programs N} := {
  os_look : bytes → N → N * bool;
  os_create : bytes → N → N * option bytes;
  os_delete : bytes → N → N;
  os_after : Duration → N → N * bool;
}.

(** [ExecRunner{}] *)
#[export] Instance ExecRunner {N} `{OS N} : Runner N := {
  r_Run := ExecRunner_Run 0; r_LookPath := os_look;
  os_CreateTemp := os_create; os_Remove := os_delete; ctx_After := os_after }.

(** * Reasoning about programs

    Reasoning about programs that drive command line tools: when two of them
    issue the same commands, when one leaves no temporary file behind, and how
    [run] takes a program apart. *)

(** The next step after a result. *)
Ltac bind_step := cbn [lift mbind prog_bind].

(** The answer of the last command, and what the program ends in. *)
Ltac run_step := cbn [run checked classified lift throw mret prog_ret fst snd is_ok] in *.

(** * The same command lines *)

(** Two programs that on the same answers run the same commands with the same
    arguments and environment, and end in the same result.  What they write to
    the commands' input and into temporary files may differ: neither can be seen
    by other users of the machine. *)
Inductive same_commands {A} : prog A → prog A → Prop :=
  | same_done r : same_commands (Done r) (Done r)
  | same_exec name args env stdin stdin' k k' :
      (∀ o, same_commands (k o) (k' o)) →
      same_commands (Exec (mkInvocation name args stdin env) k) (Exec (mkInvocation name args stdin' env) k')
  | same_look name k k' : (∀ o, same_commands (k o) (k' o)) → same_commands (LookPath name k) (LookPath name k')
  | same_temp content content' k k' :
      (∀ path, same_commands (k path) (k' path)) → same_commands (CreateTemp content k) (CreateTemp content' k')
  | same_remove path k k' : same_commands k k' → same_commands (Remove path k) (Remove path k')
  | same_pause d k k' : (∀ o, same_commands (k o) (k' o)) → same_commands (Pause d k) (Pause d k').

Lemma same_refl {A} (p : prog A) : same_commands p p.
Proof. induction p as [| [name args stdin env] | | | |]; by constructor. Qed.

#[export] Hint Resolve same_refl : cli.

Lemma same_bind {A B} (p q : prog A) (f g : A → prog B) :
  same_commands p q → (∀ a, same_commands (f a) (g a)) → same_commands (p ≫= f) (q ≫= g).
Proof.
  intros Hpq Hfg. induction Hpq as [[a|e]| | | | |]; simpl; try (by constructor); apply Hfg.
Qed.

Lemma same_attempt {A} (p q : prog A) : same_commands p q → same_commands (attempt p) (attempt q).
Proof. by induction 1; constructor. Qed.

Lemma same_exec_one name args env stdin stdin' :
  same_commands (exec (mkInvocation name args stdin env)) (exec (mkInvocation name args stdin' env)).
Proof. constructor. intros. apply same_refl. Qed.

Lemma same_with_temp {A} content content' (p q : bytes → prog A) :
  (∀ path, same_commands (p path) (q path)) → same_commands (with_temp content p) (with_temp content' q).
Proof.
  intros Hpq. constructor. intros [path|]; [|apply same_refl].
  apply same_bind; [by apply same_attempt|]. intros. apply same_refl.
Qed.

(** * Records of values of one length *)

Lemma record_enc meta value :
  c_enc record_codec (mkRecord 1 meta (Some value)) =
  (λ j, JObj [(B["v"], JNum (Itoa 1)); (B["meta"], j); (B["value"], JStr (StdEncode value))]) <$> c_enc metadata_codec meta.
Proof.
  unfold record_codec, struct_codec, enc_fields, record_fields, enc_field. cbn -[metadata_codec StdEncode].
  change (f_codec _) with metadata_codec. by destruct (c_enc metadata_codec meta).
Qed.

Lemma write_object3 (m1 m2 : bytes * json) k x :
  write_json (JObj [m1; m2; (k, JStr x)]) =
  (x7b :: (MarshalString m1.1 ++ x3a :: write_json m1.2) ++ x2c :: (MarshalString m2.1 ++ x3a :: write_json m2.2) ++
   x2c :: MarshalString k ++ [x3a; quote]) ++ x ++ [quote; x7d].
Proof.
  change (write_json (JObj [m1; m2; (k, JStr x)])) with
    (x7b :: ((MarshalString m1.1 ++ x3a :: write_json m1.2) ++ x2c :: (MarshalString m2.1 ++ x3a :: write_json m2.2) ++
      x2c :: MarshalString k ++ x3a :: quote :: x ++ [quote]) ++ [x7d]).
  generalize (MarshalString m1.1), (write_json m1.2), (MarshalString m2.1), (write_json m2.2), (MarshalString k).
  intros. simplify_list_eq. done.
Qed.

(** Around the value, the record of a value has a fixed text. *)
Lemma encodeRecord_form meta :
  (∀ value, zlen value <= MaxValueBytes → encodeRecord meta value = Err ErrOther) ∨
  ∃ pre post, ∀ value, zlen value <= MaxValueBytes → encodeRecord meta value = Ok (pre ++ StdEncode value ++ post).
Proof.
  unfold encodeRecord, Marshal. destruct (c_enc metadata_codec meta) as [j|] eqn:E; [right|left].
  - eexists _, [quote; x7d]. intros value Hv. destruct (Z.ltb_spec MaxValueBytes (zlen value)); [lia|].
    rewrite record_enc, E. cbn -[write_json StdEncode MarshalString Itoa]. by rewrite write_object3.
  - intros value Hv. destruct (Z.ltb_spec MaxValueBytes (zlen value)); [lia|]. by rewrite record_enc, E.
Qed.

(** The records of two values of one length are of one length. *)
Lemma encodeRecord_same backend name meta v w :
  zlen v = zlen w →
  match encodeRecord (stamp backend name v meta) v, encodeRecord (stamp backend name w meta) w with
  | Ok r, Ok s => zlen r = zlen s
  | Err e, Err e' => e = e'
  | _, _ => False
  end.
Proof.
  intros Hl. assert (stamp backend name w meta = stamp backend name v meta) as -> by (unfold stamp; by rewrite Hl).
  destruct (Z.ltb_spec MaxValueBytes (zlen v)).
  { unfold encodeRecord. rewrite <- Hl. by destruct (Z.ltb_spec MaxValueBytes (zlen v)); [|lia]. }
  destruct (encodeRecord_form (stamp backend name v meta)) as [He|(pre & post & Ho)].
  - by rewrite !He by lia.
  - rewrite !Ho by lia. rewrite !zlen_app, !StdEncode_length. lia.
Qed.

(** * Temporary files *)

(** Run with the files [open] of its own in place, the program ends with none
    of them left, whatever it is answered. *)
Inductive tidy {A} : gset bytes → prog A → Prop :=
  | tidy_done r : tidy ∅ (Done r)
  | tidy_exec opened i k : (∀ o, tidy opened (k o)) → tidy opened (Exec i k)
  | tidy_look opened name k : (∀ o, tidy opened (k o)) → tidy opened (LookPath name k)
  | tidy_temp opened content k :
      tidy opened (k None) → (∀ path, tidy ({[path]} ∪ opened) (k (Some path))) → tidy opened (CreateTemp content k)
  | tidy_remove opened path k : path ∈ opened → tidy (opened ∖ {[path]}) k → tidy opened (Remove path k)
  | tidy_pause opened d k : (∀ o, tidy opened (k o)) → tidy opened (Pause d k).

(** No files at all. *)
Inductive fileless {A} : prog A → Prop :=
  | fileless_done r : fileless (Done r)
  | fileless_exec i k : (∀ o, fileless (k o)) → fileless (Exec i k)
  | fileless_look name k : (∀ o, fileless (k o)) → fileless (LookPath name k)
  | fileless_pause d k : (∀ o, fileless (k o)) → fileless (Pause d k).

Lemma fileless_bind {A B} (p : prog A) (f : A → prog B) : fileless p → (∀ a, fileless (f a)) → fileless (p ≫= f).
Proof. intros Hp Hf. induction Hp as [[a|e]| | |]; simpl; try (by constructor); apply Hf. Qed.

Lemma fileless_exec_one i : fileless (exec i).
Proof. repeat constructor. Qed.

Lemma fileless_tidy {A} (p : prog A) : fileless p → tidy ∅ p.
Proof. by induction 1; constructor. Qed.

Lemma tidy_bind {A B} (p : prog A) (f : A → prog B) : fileless p → (∀ a, tidy ∅ (f a)) → tidy ∅ (p ≫= f).
Proof. intros Hp Hf. induction Hp as [[a|e]| | |]; simpl; try (by constructor); apply Hf. Qed.

Lemma tidy_removing {A} path (p : prog A) : fileless p → tidy {[path]} (removing path p).
Proof.
  unfold removing. induction 1; simpl; constructor; try done; [set_solver|].
  replace ({[path]} ∖ {[path]}) with (∅ : gset bytes) by set_solver. constructor.
Qed.

Lemma tidy_with_temp {A} content (p : bytes → prog A) : (∀ path, fileless (p path)) → tidy ∅ (with_temp content p).
Proof.
  intros Hp. constructor; [constructor|]. intros path.
  replace ({[path]} ∪ ∅) with ({[path]} : gset bytes) by set_solver. by apply tidy_removing.
Qed.

#[export] Hint Constructors fileless : cli.
#[export] Hint Resolve fileless_exec_one fileless_tidy : cli.

(** The temporary files of a world, by path.  Tools leave them alone, a new
    file has a new path. *)
Class TempDir (W : Type) `{Runner W} := {
  files : W → gmap bytes bytes;
  run_files i w : files (r_Run i w).1 = files w;
  look_files name w : files (r_LookPath name w).1 = files w;
  after_files d w : files (ctx_After d w).1 = files w;
  create_files content w :
    match (os_CreateTemp content w).2 with
    | Some path => files w !! path = None ∧ files (os_CreateTemp content w).1 = <[path := content]> (files w)
    | None => files (os_CreateTemp content w).1 = files w
    end;
  remove_files path w : files (os_Remove path w) = delete path (files w);
}.

(** The files of a world without some of them. *)
Definition without (opened : gset bytes) (m : gmap bytes bytes) : gmap bytes bytes := filter (λ x, x.1 ∉ opened) m.

Lemma without_none m : without ∅ m = m.
Proof. apply map_eq. intros i. unfold without. rewrite map_lookup_filter. destruct (m !! i); simpl; [|done]. case_guard; set_solver. Qed.

Lemma without_created path content opened m :
  m !! path = None → without ({[path]} ∪ opened) (<[path := content]> m) = without opened m.
Proof.
  intros Hm. apply map_eq. intros i. unfold without. rewrite !map_lookup_filter.
  destruct (decide (i = path)) as [->|Hi].
  - rewrite Hm, lookup_insert_eq. simpl. case_guard; set_solver.
  - rewrite lookup_insert_ne by done. destruct (m !! i); simpl; [|done]. repeat case_guard; set_solver.
Qed.

Lemma without_removed path opened m : path ∈ opened → without (opened ∖ {[path]}) (delete path m) = without opened m.
Proof.
  intros Hp. apply map_eq. intros i. unfold without. rewrite !map_lookup_filter. destruct (decide (i = path)) as [->|Hi].
  - rewrite lookup_delete_eq. destruct (m !! path); simpl; [|done]. by case_guard.
  - rewrite lookup_delete_ne by done. destruct (m !! i); simpl; [|done]. repeat case_guard; set_solver.
Qed.

Lemma tidy_run {W} `{TempDir W} {A} opened (p : prog A) w :
  tidy opened p → (∀ path, path ∈ opened → is_Some (files w !! path)) →
  files (run p w).1 = without opened (files w).
Proof.
  intros Hp. revert w. induction Hp as [r|opened i k _ IH|opened name k _ IH|opened content k _ IH1 _ IH2|opened path k Hin _ IH|opened d k _ IH];
    intros w Ho; simpl.
  - by rewrite without_none.
  - pose proof (run_files i w) as Hf. destruct (r_Run i w) as [w' o]. simpl in Hf. rewrite IH, Hf; [done|]. by rewrite Hf.
  - pose proof (look_files name w) as Hf. destruct (r_LookPath name w) as [w' o]. simpl in Hf. rewrite IH, Hf; [done|]. by rewrite Hf.
  - pose proof (create_files content w) as Hf. destruct (os_CreateTemp content w) as [w' [path|]]; simpl in Hf.
    + destruct Hf as [Hn Hf]. rewrite IH2, Hf; [by apply without_created|]. intros i [->%elem_of_singleton|Hi]%elem_of_union; rewrite Hf.
      * by rewrite lookup_insert_eq.
      * rewrite lookup_insert_ne; [by apply Ho|]. intros ->. destruct (Ho i Hi). congruence.
    + rewrite IH1, Hf; [done|]. by rewrite Hf.
  - rewrite IH, remove_files.
    + by apply without_removed.
    + intros i Hi. rewrite remove_files, lookup_delete_ne by set_solver. apply Ho. set_solver.
  - pose proof (after_files d w) as Hf. destruct (ctx_After d w) as [w' o]. simpl in Hf. rewrite IH, Hf; [done|]. by rewrite Hf.
Qed.

(** * Running *)

Section running.
Context {W : Type} `{Runner W}.

Lemma run_bind {A B} (p : prog A) (f : A → prog B) w :
  run (p ≫= f) w = match run p w with (w', Ok a) => run (f a) w' | (w', Err e) => (w', Err e) end.
Proof.
  revert w. induction p as [[a|e]|i k IH|name k IH|c k IH|path k IH|d k IH]; intros w; simpl; try done.
  - destruct (r_Run i w) as [w' o]. apply (IH o).
  - destruct (r_LookPath name w) as [w' o]. apply (IH o).
  - destruct (os_CreateTemp c w) as [w' o]. apply (IH o).
  - destruct (ctx_After d w) as [w' o]. apply (IH o).
Qed.

Lemma run_attempt {A} (p : prog A) w : run (attempt p) w = ((run p w).1, Ok (run p w).2).
Proof.
  revert w. induction p as [r|i k IH|name k IH|c k IH|path k IH|d k IH]; intros w; simpl; try done.
  - destruct (r_Run i w) as [w' o]. apply (IH o).
  - destruct (r_LookPath name w) as [w' o]. apply (IH o).
  - destruct (os_CreateTemp c w) as [w' o]. apply (IH o).
  - destruct (ctx_After d w) as [w' o]. apply (IH o).
Qed.

Lemma run_exec i w : run (exec i) w = ((r_Run i w).1, Ok (r_Run i w).2).
Proof. unfold exec. simpl. by destruct (r_Run i w). Qed.

Lemma on_world_run {O A} (f : O → prog A) (t : Tool O W) :
  on_world f t = (mkTool (t_opts t) (run (f (t_opts t)) (t_world t)).1, (run (f (t_opts t)) (t_world t)).2).
Proof. unfold on_world. by destruct (run _ _). Qed.
End running.
