(* ===== verification/BackendSpec.v ===== *)
(** What backends promise: those that keep all their secrets in one document,
    and those that keep one record per key of some store.

    What a backend promises that keeps all its secrets in one document
    (storage/dotenv.go, storage/agevault.go, storage/memory.go), and what
    follows for every run of it.

    Such a backend is a map from names to values with their metadata, as long
    as its document can be read back: [v_healthy] says which states those are,
    [v_accepts] which values may be stored without leaving them. *)
From S2P Require Import Prelude GoSort GoStrings GoTime Secrets Records Cli.
From Stdlib Require Import Sorting.Sorted.

Abbreviation vault := (gmap string (bytes * Metadata)).

(** All the metadata, by name. *)
Definition lists (m : vault) (l : list Metadata) : Prop :=
  l ≡ₚ (λ x, x.2.2) <$> map_to_list m ∧ StronglySorted (in_order name_less) l.

Lemma lists_sorted (m : vault) l : l ≡ₚ (λ x, x.2.2) <$> map_to_list m → lists m (sort_by_name l).
Proof. intros Hl. split; [unfold sort_by_name; by rewrite sort_stable_perm|apply sort_by_name_sorted]. Qed.

Class VaultOk (T : Type) `{Backend T} := {
  v_healthy : T → Prop;
  v_accepts : string → bytes → Metadata → T → Prop;
  v_view : T → vault;
  v_put_ok n v m t : v_healthy t → v_accepts n v m t →
    v_healthy (b_Put n v m t).1 ∧
    v_view (b_Put n v m t).1 =
      (if is_ok (b_Put n v m t).2 then <[n := (v, stamp b_Name n v m)]> (v_view t) else v_view t);
  v_get_ok n t : v_healthy t →
    v_healthy (b_Get n t).1 ∧ v_view (b_Get n t).1 = v_view t ∧
    match (b_Get n t).2 with
    | Ok x => v_view t !! n = Some x
    | Err e => e = ErrNotFound → v_view t !! n = None
    end;
  v_delete_ok n t : v_healthy t →
    v_healthy (b_Delete n t).1 ∧
    match (b_Delete n t).2 with
    | Ok _ => is_Some (v_view t !! n) ∧ v_view (b_Delete n t).1 = delete n (v_view t)
    | Err e => v_view (b_Delete n t).1 = v_view t ∧ (e = ErrNotFound → v_view t !! n = None)
    end;
  v_list_ok t : v_healthy t →
    v_healthy (b_List t).1 ∧ v_view (b_List t).1 = v_view t ∧
    ∀ l, (b_List t).2 = Ok l → lists (v_view t) l;
}.

(** * Runs *)

Inductive vault_op :=
  | OpPut (name : string) (value : bytes) (meta : Metadata)
  | OpGet (name : string)
  | OpDelete (name : string)
  | OpList.

Inductive vault_answer :=
  | APut (r : result storage_error unit)
  | AGet (r : result storage_error (bytes * Metadata))
  | ADelete (r : result storage_error unit)
  | AList (r : result storage_error (list Metadata)).

(** The map itself, under a name it stamps.  An operation may fail, with an
    error other than [ErrNotFound], and then does nothing. *)
Definition spec_step (backend : bytes) (o : vault_op) (m : vault) (a : vault_answer) (m' : vault) : Prop :=
  match o, a with
  | OpPut n v mt, APut (Ok _) => m' = <[n := (v, stamp backend n v mt)]> m
  | OpPut n v mt, APut (Err e) => m' = m
  | OpGet n, AGet (Ok x) => m' = m ∧ m !! n = Some x
  | OpGet n, AGet (Err e) => m' = m ∧ (e = ErrNotFound → m !! n = None)
  | OpDelete n, ADelete (Ok _) => is_Some (m !! n) ∧ m' = delete n m
  | OpDelete n, ADelete (Err e) => m' = m ∧ (e = ErrNotFound → m !! n = None)
  | OpList, AList (Ok l) => m' = m ∧ lists m l
  | OpList, AList (Err _) => m' = m
  | _, _ => False
  end.

Inductive spec_run (backend : bytes) : list vault_op → vault → list vault_answer → vault → Prop :=
  | run_nil m : spec_run backend [] m [] m
  | run_cons o os m a m1 as_ m2 :
      spec_step backend o m a m1 → spec_run backend os m1 as_ m2 → spec_run backend (o :: os) m (a :: as_) m2.

Section runs.
Context {T : Type} `{VaultOk T}.

Definition vault_step (o : vault_op) (t : T) : T * vault_answer :=
  match o with
  | OpPut n v m => let '(t, r) := b_Put n v m t in (t, APut r)
  | OpGet n => let '(t, r) := b_Get n t in (t, AGet r)
  | OpDelete n => let '(t, r) := b_Delete n t in (t, ADelete r)
  | OpList => let '(t, r) := b_List t in (t, AList r)
  end.

Fixpoint vault_run (os : list vault_op) (t : T) : T * list vault_answer :=
  match os with
  | [] => (t, [])
  | o :: os => let '(t, a) := vault_step o t in let '(t, as_) := vault_run os t in (t, a :: as_)
  end.

Definition op_accepted (o : vault_op) (t : T) : Prop :=
  match o with OpPut n v m => v_accepts n v m t | _ => True end.

(** Whatever is put along the run may be. *)
Fixpoint run_accepted (os : list vault_op) (t : T) : Prop :=
  match os with
  | [] => True
  | o :: os => op_accepted o t ∧ run_accepted os (vault_step o t).1
  end.

Lemma vault_step_refines o t : v_healthy t → op_accepted o t →
  v_healthy (vault_step o t).1 ∧ spec_step b_Name o (v_view t) (vault_step o t).2 (v_view (vault_step o t).1).
Proof.
  intros Ht Ho. destruct o as [n v m|n|n|]; simpl in Ho |- *.
  - destruct (v_put_ok n v m t Ht Ho) as [? Hv]. destruct (b_Put n v m t) as [t' [u|e]]; simpl in *; naive_solver.
  - destruct (v_get_ok n t Ht) as (? & ? & Hv). destruct (b_Get n t) as [t' [x|e]]; simpl in *; naive_solver.
  - destruct (v_delete_ok n t Ht) as [? Hv]. destruct (b_Delete n t) as [t' [u|e]]; simpl in *; naive_solver.
  - destruct (v_list_ok t Ht) as (? & ? & Hv). destruct (b_List t) as [t' [l|e]]; simpl in *; naive_solver.
Qed.

(** Every run answers as the map does. *)
Lemma vault_run_refines os t : v_healthy t → run_accepted os t →
  v_healthy (vault_run os t).1 ∧ spec_run b_Name os (v_view t) (vault_run os t).2 (v_view (vault_run os t).1).
Proof.
  revert t. induction os as [|o os IH]; intros t Ht Hos; simpl; [split; [done|constructor]|]. destruct Hos as [Ho Hos].
  destruct (vault_step_refines o t Ht Ho) as [Ht' Hstep]. destruct (vault_step o t) as [t1 a].
  destruct (IH t1 Ht' Hos) as [Hr Hrun]. destruct (vault_run os t1) as [t2 as_]. split; [done|]. by econstructor.
Qed.
End runs.

(** Such a backend keeps the contract the manager relies on. *)
#[export] Program Instance vault_backend_ok {T} `{VaultOk T} : BackendOk T | 100 := {
  healthy := v_healthy; accepts := v_accepts; view := v_view }.
Next Obligation. intros T ?? n v m t Ht Ha. by apply v_put_ok. Qed.
Next Obligation. intros T ?? n v m t Ht Ha Hp. destruct (v_put_ok n v m t Ht Ha) as [_ ->]. by rewrite Hp. Qed.
Next Obligation.
  intros T ?? n v m t i Ht Ha Hi. destruct (v_put_ok n v m t Ht Ha) as [_ ->]. case_match; [|done]. by rewrite lookup_insert_ne.
Qed.
Next Obligation. intros T ?? n t Ht. by apply v_get_ok. Qed.
Next Obligation. intros T ?? n t Ht. by apply v_get_ok. Qed.
Next Obligation. intros T ?? n t x Ht Hg. destruct (v_get_ok n t Ht) as (_ & _ & Hv). by rewrite Hg in Hv. Qed.
Next Obligation. intros T ?? n t Ht Hg. destruct (v_get_ok n t Ht) as (_ & _ & Hv). rewrite Hg in Hv. auto. Qed.
Next Obligation. intros T ?? n t Ht. by apply v_delete_ok. Qed.
Next Obligation. intros T ?? n t Ht Hg. destruct (v_delete_ok n t Ht) as (_ & Hv). rewrite Hg in Hv. by destruct Hv. Qed.
Next Obligation. intros T ?? n t Ht Hg. destruct (v_delete_ok n t Ht) as (_ & Hv). rewrite Hg in Hv. naive_solver. Qed.
Next Obligation.
  intros T ?? n t i Ht Hi. destruct (v_delete_ok n t Ht) as (_ & Hv).
  destruct (b_Delete n t).2; destruct Hv as [? Hv]; [rewrite Hv; by rewrite lookup_delete_ne|congruence].
Qed.

(** * The memory backend *)

#[export] Program Instance memory_vault : VaultOk Memory := {
  v_healthy _ := True; v_accepts _ _ _ _ := True; v_view := entries }.
Next Obligation. intros n v m t _ _. simpl. unfold mem_Put. by repeat case_match. Qed.
Next Obligation.
  intros n t _. simpl. unfold mem_Get. unfold ValidateName, guard_err. repeat case_match; simplify_eq/=; naive_solver.
Qed.
Next Obligation.
  intros n t _. simpl. unfold mem_Delete. unfold ValidateName, guard_err. repeat case_match; simplify_eq/=; naive_solver.
Qed.
Next Obligation. intros t _. simpl. split_and!; [done..|]. intros l [= <-]. by apply lists_sorted. Qed.

(** * Stores of one record per key

    What it takes for a backend that keeps one record per key of some remote
    store to keep the contract of backends ([BackendOk]): how names map to
    keys, which names the records belong to, and what each operation does to
    the one key it works on. *)

#[export] Instance result_eq_dec {E A} `{EqDecision E, EqDecision A} : EqDecision (result E A).
Proof. solve_decision. Defined.

Section keyed.
Context (key : string → result storage_error bytes).

(** The entry a record stands for: a record counts under the name it carries,
    where that name maps to the record's own key. *)
Definition entry (x : bytes * bytes) : option (string * (bytes * Metadata)) :=
  match decodeRecord x.2 with
  | Ok (v, m) => if decide (key (Name m) = Ok x.1) then Some (Name m, (v, m)) else None
  | Err _ => None
  end.

Definition keyed_view (kv : gmap bytes bytes) : vault := list_to_map (omap entry (map_to_list kv)).

(** A name is stored: its key holds its record. *)
Definition holds (kv : gmap bytes bytes) (n : string) (x : bytes * Metadata) : Prop :=
  ∃ k raw, key n = Ok k ∧ kv !! k = Some raw ∧ decodeRecord raw = Ok x ∧ Name x.2 = n.

Lemma entry_spec k raw n x :
  entry (k, raw) = Some (n, x) ↔ decodeRecord raw = Ok x ∧ Name x.2 = n ∧ key n = Ok k.
Proof.
  unfold entry. simpl. destruct (decodeRecord raw) as [[v m]|e]; [|naive_solver]. case_decide as Hd; [|naive_solver].
  split; [naive_solver|]. intros ([= <-] & <- & _). done.
Qed.

Lemma entries_nodup kv : NoDup (omap entry (map_to_list kv)).*1.
Proof.
  pose proof (NoDup_fst_map_to_list kv) as Hn. induction (map_to_list kv) as [|[k raw] l IH]; simpl; [constructor|].
  apply NoDup_cons in Hn as [Hk Hn]. destruct (entry (k, raw)) as [[n x]|] eqn:E; [|by apply IH].
  simpl. constructor; [|by apply IH]. apply entry_spec in E as (_ & _ & Hkey). intros Hin.
  apply list_elem_of_fmap in Hin as ([n' x'] & Hn' & Hin). simpl in Hn'. subst n'.
  apply list_elem_of_omap in Hin as ([k' raw'] & Hin & E). apply entry_spec in E as (_ & _ & Hkey').
  apply Hk. apply list_elem_of_fmap. exists (k', raw'). split; [|done]. simpl. congruence.
Qed.

Lemma keyed_view_lookup kv n x : keyed_view kv !! n = Some x ↔ holds kv n x.
Proof.
  unfold keyed_view. rewrite <- elem_of_list_to_map by apply entries_nodup. rewrite list_elem_of_omap. split.
  - intros ([k raw] & Hin & (Hd & Hn & Hk)%entry_spec). apply elem_of_map_to_list in Hin. by exists k, raw.
  - intros (k & raw & Hk & Hkv & Hd & Hn). exists (k, raw). split; [by apply elem_of_map_to_list|]. by apply entry_spec.
Qed.

Lemma keyed_view_none kv n : keyed_view kv !! n = None ↔ ∀ x, ¬ holds kv n x.
Proof.
  rewrite eq_None_not_Some. split.
  - intros Hn x Hx. apply Hn. exists x. by apply keyed_view_lookup.
  - intros Hn [x Hx]. by apply (Hn x), keyed_view_lookup.
Qed.

(** The view follows the keys of the names. *)
Lemma keyed_view_other kv kv' i :
  (∀ k, key i = Ok k → kv' !! k = kv !! k) → keyed_view kv' !! i = keyed_view kv !! i.
Proof.
  intros Hk. apply option_eq. intros x. rewrite !keyed_view_lookup. unfold holds.
  split; intros (k & raw & Hi & Hr & Hd); exists k, raw; [rewrite <- Hk|rewrite Hk]; done.
Qed.

(** ** Effects *)

(** No other name is stored under the key. *)
Definition unshared (kv : gmap bytes bytes) (n : string) (k : bytes) : Prop :=
  ∀ i x, i ≠ n → holds kv i x → key i ≠ Ok k.

(** Storing [x] under [n]: nothing has happened and the result is an error, or
    the record of [x] is under the key of [n], which no other name uses. *)
Definition put_effect (n : string) (x : bytes * Metadata) (ok : bool) (kv kv' : gmap bytes bytes) : Prop :=
  (kv' = kv ∧ ok = false) ∨
  ∃ k rec, key n = Ok k ∧ decodeRecord rec = Ok x ∧ Name x.2 = n ∧ unshared kv n k ∧ kv' = <[k := rec]> kv.

Lemma holds_insert kv n k rec x i y :
  key n = Ok k → decodeRecord rec = Ok x → Name x.2 = n → i ≠ n → unshared kv n k →
  holds (<[k := rec]> kv) i y ↔ holds kv i y.
Proof.
  intros Hk Hd Hn Hi Hu. split.
  - intros (k' & raw & Hk' & Hr & Hd' & Hn'). destruct (decide (k' = k)) as [->|Hne].
    + rewrite lookup_insert_eq in Hr. simplify_eq. congruence.
    + rewrite lookup_insert_ne in Hr by done. by exists k', raw.
  - intros Hh. pose proof (Hu i y Hi Hh) as Hne. destruct Hh as (k' & raw & Hk' & Hr & Hd').
    exists k', raw. split; [done|]. rewrite lookup_insert_ne; [done|]. congruence.
Qed.

Lemma put_effect_ok n x kv kv' : put_effect n x true kv kv' → keyed_view kv' = <[n := x]> (keyed_view kv).
Proof.
  intros [[_ ?]|(k & rec & Hk & Hd & Hn & Hu & ->)]; [done|]. apply map_eq. intros i. destruct (decide (i = n)) as [->|Hi].
  - rewrite lookup_insert_eq. apply keyed_view_lookup. exists k, rec. by rewrite lookup_insert_eq.
  - rewrite lookup_insert_ne by done. apply option_eq. intros y. rewrite !keyed_view_lookup. by eapply holds_insert.
Qed.

Lemma put_effect_other n x ok kv kv' i :
  put_effect n x ok kv kv' → i ≠ n → keyed_view kv' !! i = keyed_view kv !! i.
Proof.
  intros [[-> _]|(k & rec & Hk & Hd & Hn & Hu & ->)] Hi; [done|].
  apply option_eq. intros y. rewrite !keyed_view_lookup. by eapply holds_insert.
Qed.

(** Deleting [n]: the key is gone, or nothing has happened and the result is an
    error, which is [ErrNotFound] only if the name is not stored. *)
Definition delete_effect (n : string) (r : result storage_error unit) (kv kv' : gmap bytes bytes) : Prop :=
  (kv' = kv ∧ is_ok r = false ∧ (r = Err ErrNotFound → ∀ x, ¬ holds kv n x)) ∨
  ∃ k, key n = Ok k ∧ unshared kv n k ∧ kv' = delete k kv ∧ r ≠ Err ErrNotFound.

Lemma holds_delete kv n k i y : key n = Ok k → i ≠ n → unshared kv n k → holds (delete k kv) i y ↔ holds kv i y.
Proof.
  intros Hk Hi Hu. split.
  - intros (k' & raw & Hk' & (Hne & Hr)%lookup_delete_Some & Hd'). by exists k', raw.
  - intros Hh. pose proof (Hu i y Hi Hh) as Hne. destruct Hh as (k' & raw & Hk' & Hr & Hd').
    exists k', raw. split; [done|]. rewrite lookup_delete_ne; [done|]. congruence.
Qed.

Lemma delete_effect_ok n kv kv' : delete_effect n (Ok tt) kv kv' → keyed_view kv' = delete n (keyed_view kv).
Proof.
  intros [(_ & ? & _)|(k & Hk & Hu & -> & _)]; [done|]. apply map_eq. intros i. destruct (decide (i = n)) as [->|Hi].
  - rewrite lookup_delete_eq. apply keyed_view_none. intros x (k' & raw & Hk' & (Hne & _)%lookup_delete_Some & _). congruence.
  - rewrite lookup_delete_ne by done. apply option_eq. intros y. rewrite !keyed_view_lookup. by eapply holds_delete.
Qed.

Lemma delete_effect_other n r kv kv' i :
  delete_effect n r kv kv' → i ≠ n → keyed_view kv' !! i = keyed_view kv !! i.
Proof.
  intros [(-> & _ & _)|(k & Hk & Hu & -> & _)] Hi; [done|].
  apply option_eq. intros y. rewrite !keyed_view_lookup. by eapply holds_delete.
Qed.

Lemma delete_effect_missing n kv kv' :
  delete_effect n (Err ErrNotFound) kv kv' → keyed_view kv !! n = None ∧ keyed_view kv' = keyed_view kv.
Proof. intros [(-> & _ & Hn)|(k & _ & _ & _ & ?)]; [|done]. split; [|done]. apply keyed_view_none. auto. Qed.

(** Reading [n]. *)
Definition get_effect (n : string) (r : result storage_error (bytes * Metadata)) (kv kv' : gmap bytes bytes) : Prop :=
  kv' = kv ∧ match r with
             | Ok x => holds kv n x
             | Err e => e = ErrNotFound → ∀ x, ¬ holds kv n x
             end.
End keyed.

Lemma decodeRecord_error b e : decodeRecord b = Err e → e = ErrOther.
Proof. unfold decodeRecord. repeat case_match; naive_solver. Qed.

(** What a backend stores can be read again. *)
Lemma record_stored backend n v m rec :
  ValidUtf8 backend = true → is_ok (ValidateName n) = true → meta_text_ok m →
  encodeRecord (stamp backend n v m) v = Ok rec → decodeRecord rec = Ok (v, stamp backend n v m).
Proof.
  intros Hb Hn (_ & _ & H3 & H4 & H5 & H6 & H7 & _) He.
  pose proof (record_reads (stamp backend n v m) v) as Hr. rewrite He in Hr. apply Hr.
  repeat split; cbn [stamp Name BackendName Retention Purpose Source mFingerprint SizeBytes mKind]; try done.
  - apply ValidUtf8_ascii. by apply ValidateName_ascii.
  - pose proof (zlen_nonneg v). lia.
  - unfold encodeRecord in He. destruct (Z.ltb_spec MaxValueBytes (zlen v)); [done|].
    unfold MaxValueBytes in *. lia.
Qed.

(** * The contract *)

Section backend.
Context {O W : Type} `{!Backend (Tool O W)}.

(** How names map to keys under the options, the records by key, and the
    names that share their key with no other. *)
Context (key : O → string → result storage_error bytes) (kv : O → W → gmap bytes bytes) (own : O → string → Prop).

Definition keys_of (t : Tool O W) : gmap bytes bytes := kv (t_opts t) (t_world t).

(** Only names with a key of their own are stored. *)
Definition keyed_healthy (t : Tool O W) : Prop := ∀ i x, holds (key (t_opts t)) (keys_of t) i x → own (t_opts t) i.

Record keyed_laws : Prop := {
  put_law n v m t : keyed_healthy t → meta_text_ok m → own (t_opts t) n →
    t_opts (b_Put n v m t).1 = t_opts t ∧
    put_effect (key (t_opts t)) n (v, stamp b_Name n v m) (is_ok (b_Put n v m t).2) (keys_of t) (keys_of (b_Put n v m t).1);
  get_law n t : t_opts (b_Get n t).1 = t_opts t ∧
    get_effect (key (t_opts t)) n (b_Get n t).2 (keys_of t) (keys_of (b_Get n t).1);
  delete_law n t : keyed_healthy t →
    t_opts (b_Delete n t).1 = t_opts t ∧
    delete_effect (key (t_opts t)) n (b_Delete n t).2 (keys_of t) (keys_of (b_Delete n t).1);
}.

Context (Hl : keyed_laws).

Definition view_of (t : Tool O W) : vault := keyed_view (key (t_opts t)) (keys_of t).

Lemma put_view n v m t : keyed_healthy t → meta_text_ok m → own (t_opts t) n →
  keyed_healthy (b_Put n v m t).1 ∧
  ((b_Put n v m t).2 = Ok tt → view_of (b_Put n v m t).1 = <[n := (v, stamp b_Name n v m)]> (view_of t)) ∧
  ∀ i, i ≠ n → view_of (b_Put n v m t).1 !! i = view_of t !! i.
Proof.
  intros Hh Hm Hn. destruct (put_law Hl n v m t Hh Hm Hn) as [Ho He]. unfold view_of. rewrite Ho. split; [|split].
  - intros i x. rewrite Ho, <- keyed_view_lookup. destruct (decide (i = n)) as [->|Hi]; [done|].
    rewrite (put_effect_other _ _ _ _ _ _ _ He Hi), keyed_view_lookup. apply Hh.
  - intros Hr. rewrite Hr in He. by eapply put_effect_ok.
  - intros i Hi. by eapply put_effect_other.
Qed.

Lemma get_view' n t :
  keyed_healthy t →
  keyed_healthy (b_Get n t).1 ∧ view_of (b_Get n t).1 = view_of t ∧
  (∀ x, (b_Get n t).2 = Ok x → view_of t !! n = Some x) ∧
  ((b_Get n t).2 = Err ErrNotFound → view_of t !! n = None).
Proof.
  intros Hh. destruct (get_law Hl n t) as (Ho & Hk & He). unfold view_of, keyed_healthy. rewrite Ho, Hk.
  split; [done|]. split; [done|]. split.
  - intros x Hr. rewrite Hr in He. by apply keyed_view_lookup.
  - intros Hr. rewrite Hr in He. apply keyed_view_none. by apply He.
Qed.

Lemma delete_view n t :
  keyed_healthy t →
  keyed_healthy (b_Delete n t).1 ∧
  ((b_Delete n t).2 = Ok tt → view_of (b_Delete n t).1 = delete n (view_of t)) ∧
  ((b_Delete n t).2 = Err ErrNotFound → view_of t !! n = None ∧ view_of (b_Delete n t).1 = view_of t) ∧
  ∀ i, i ≠ n → view_of (b_Delete n t).1 !! i = view_of t !! i.
Proof.
  intros Hh. destruct (delete_law Hl n t Hh) as [Ho He]. unfold view_of. rewrite Ho. split; [|split; [|split]].
  - intros i x. rewrite Ho, <- keyed_view_lookup. destruct (decide (i = n)) as [->|Hi].
    + rewrite keyed_view_lookup. intros Hx. destruct He as [(Hk & _)|(k & Hk & _ & Hkv & _)]; [rewrite Hk in Hx; by eapply Hh|].
      rewrite Hkv in Hx. destruct Hx as (k' & raw & Hk' & (Hne & _)%lookup_delete_Some & _). congruence.
    + rewrite (delete_effect_other _ _ _ _ _ _ He Hi), keyed_view_lookup. apply Hh.
  - intros Hr. rewrite Hr in He. by apply delete_effect_ok.
  - intros Hr. rewrite Hr in He. by apply delete_effect_missing.
  - intros i Hi. by eapply delete_effect_other.
Qed.

(** Such a backend keeps the contract, for the names with a key of their own
    and metadata of text. *)
Program Definition keyed_backend_ok : BackendOk (Tool O W) := {|
  healthy := keyed_healthy; accepts n v m t := meta_text_ok m ∧ own (t_opts t) n; view := view_of |}.
Next Obligation. intros n v m t Hh [Hm Hn]. by apply put_view. Qed.
Next Obligation. intros n v m t Hh [Hm Hn]. by apply put_view. Qed.
Next Obligation. intros n v m t i Hh [Hm Hn]. by apply put_view. Qed.
Next Obligation. intros n t Hh. by apply get_view'. Qed.
Next Obligation. intros n t Hh. by apply get_view'. Qed.
Next Obligation. intros n t x Hh. by apply get_view'. Qed.
Next Obligation. intros n t Hh. by apply get_view'. Qed.
Next Obligation. intros n t Hh. by apply delete_view. Qed.
Next Obligation. intros n t Hh. by apply delete_view. Qed.
Next Obligation. intros n t Hh. by apply delete_view. Qed.
Next Obligation. intros n t i Hh. by apply delete_view. Qed.
End backend.
