(* ===== verification/DotenvProps.v ===== *)
(** A .env file that burndrop writes is read back as it was, and the backend on
    it is a map as long as its lines fit. *)
From S2P Require Import Prelude GoSort GoStrings GoTime GoText Json Base64 JsonDoc JsonDocProps Secrets Records Dotenv.
From S2P Require Import Manager ManagerProps BackendSpec.
From Stdlib Require Import Strings.Byte Sorting.Sorted.

(** * Text on one line *)

Definition printing (b : byte) : Prop := 32 <= b2z b.

#[export] Instance printing_dec b : Decision (printing b) := decide (32 <= b2z b).

Lemma simple_escape_printing c : is_Some (simple_escape c) → printing c.
Proof. destruct c; intros H; (vm_compute in H; by destruct H) || (vm_compute; discriminate). Qed.

Lemma hex_printing c : is_hex c = true → printing c.
Proof. destruct c; intros H; (vm_compute in H; discriminate) || (vm_compute; discriminate). Qed.

Lemma scan_string_printing s raw t : scan_string s = Ok (raw, t) → Forall printing raw.
Proof.
  remember (length s) as n eqn:Hn. assert (length s <= n)%nat as Hl by lia. clear Hn.
  revert s raw Hl. induction n as [|n IH]; intros [|b s1] raw Hl Hs; simpl in Hs, Hl; try done; [lia|].
  destruct (decide (b = quote)); [by simplify_eq|]. destruct (decide (b = backslash)) as [->|].
  - destruct s1 as [|c s2]; [done|]. destruct (simple_escape c) eqn:Ec.
    + apply result_bind_ok in Hs as ([r u] & Hr & [= <- <-]). simpl in Hl.
      constructor; [by vm_compute|]. constructor; [apply simple_escape_printing; eauto|]. by eapply IH; [|exact Hr]; lia.
    + destruct (decide (c = x75)) as [->|]; [|done].
      destruct s2 as [|h1 [|h2 [|h3 [|h4 s3]]]]; try done.
      destruct (is_hex h1 && is_hex h2 && is_hex h3 && is_hex h4) eqn:Eh; [|done]. rewrite !andb_true_iff in Eh.
      destruct Eh as [[[H1 H2] H3] H4].
      apply result_bind_ok in Hs as ([r u] & Hr & [= <- <-]). simpl in Hl.
      do 2 (constructor; [by vm_compute|]). do 4 (constructor; [by apply hex_printing|]). by eapply IH; [|exact Hr]; lia.
  - destruct (Z.ltb_spec (b2z b) 32); [done|]. apply result_bind_ok in Hs as ([r u] & Hr & [= <- <-]).
    constructor; [done|]. by eapply IH; [|exact Hr]; lia.
Qed.

Lemma int_lexeme_printing lex : int_lexeme lex → Forall printing lex.
Proof.
  assert (∀ c, is_digit c = true → printing c) as Hd.
  { intros c Hc. apply in_range_iff in Hc. unfold printing. lia. }
  intros (sg & b & ds & -> & Hsg & Hb). apply Forall_app. split.
  - destruct Hsg as [->| ->]; repeat constructor. by vm_compute.
  - destruct Hb as [[-> ->]|[_ Hb]]; [repeat constructor; by vm_compute|]. by eapply Forall_impl; [exact Hb|].
Qed.

Lemma JoinByte_Forall (P : byte → Prop) ps c : P c → Forall (Forall P) ps → Forall P (JoinByte ps c).
Proof.
  intros Hc. induction 1 as [|p ps Hp Hps IH]; [constructor|]. destruct ps as [|q ps]; [done|].
  change (JoinByte (p :: q :: ps) c) with (p ++ c :: JoinByte (q :: ps) c). apply Forall_app. split; [done|]. by constructor.
Qed.

Lemma marshal_printing s : Forall printing (marshal_text s).
Proof. eapply scan_string_printing, (scan_marshal s []). Qed.

Lemma writable_printing d v : writable d v → Forall printing (write_json v).
Proof.
  revert d. induction v as [|b|lex|raw|l _|ms IH] using json_ind'; intros d Hw; inversion Hw; subst.
  - decided.
  - destruct b; decided.
  - by apply int_lexeme_printing.
  - cbn [write_json]. constructor; [by vm_compute|]. apply Forall_app. split; [|repeat constructor; by vm_compute].
    match goal with H : ∀ t, scan_string _ = _ |- _ => exact (scan_string_printing _ _ _ (H [])) end.
  - cbn [write_json]. constructor; [by vm_compute|]. apply Forall_app. split; [|repeat constructor; by vm_compute].
    apply JoinByte_Forall; [by vm_compute|]. match goal with H : Forall _ ms |- _ => revert IH H; clear; intros IH Hms end.
    induction Hms as [|[k v] ms [_ Hv] _ IHms]; [constructor|]. apply Forall_cons in IH as [IHv IH]. cbn [List.map fst snd] in *.
    constructor; [|auto]. apply Forall_app. split.
    + rewrite <- (app_nil_r (MarshalString k)), MarshalString_app. constructor; [by vm_compute|].
      apply Forall_app. split; [apply marshal_printing|repeat constructor; by vm_compute].
    + constructor; [by vm_compute|]. by eapply IHv.
Qed.

(** * Lines *)

(** A line of the file: it is read as it stands. *)
Definition line_ok (l : bytes) : Prop := x0a ∉ l ∧ last l ≠ Some x0d ∧ zlen l <= max_line.

Lemma printing_line l : Forall printing l → x0a ∉ l ∧ last l ≠ Some x0d.
Proof.
  intros Hl. rewrite Forall_forall in Hl. split.
  - intros Hin%Hl. by vm_compute in Hin.
  - intros Hx%last_Some_elem_of%Hl. by vm_compute in Hx.
Qed.

Lemma Split_lines ls : Forall line_ok ls → Split (mjoin ((λ l, l ++ [x0a]) <$> ls)) x0a = ls ++ [[]].
Proof.
  induction 1 as [|l ls [Hl _] _ IH]; [done|]. csimpl. rewrite <- app_assoc. cbn [app]. by rewrite Split_app, IH.
Qed.

Lemma scanned_render ls : Forall line_ok ls → scanned_lines (mjoin ((λ l, l ++ [x0a]) <$> ls)) = Some ls.
Proof.
  intros Hls. unfold scanned_lines.
  assert (raw_lines (mjoin ((λ l, l ++ [x0a]) <$> ls)) = ls) as ->.
  { unfold raw_lines. rewrite Split_lines, last_snoc by done. rewrite decide_True by done.
    rewrite length_app. simpl. by rewrite Nat.add_sub, take_app_length. }
  assert (existsb (λ l, max_line <? zlen l) ls = false) as ->.
  { apply not_true_iff_false. rewrite existsb_exists. intros (l & Hin & Hlt). apply list_elem_of_In in Hin.
    rewrite Forall_forall in Hls. destruct (Hls l Hin) as (_ & _ & ?). lia. }
  f_equal. rewrite <- (list_fmap_id ls) at 2. apply list_fmap_ext. intros i l Hi.
  rewrite Forall_lookup in Hls. destruct (Hls i l Hi) as (_ & Hcr & _). unfold drop_cr. by rewrite decide_False.
Qed.

(** * Entries *)

Definition entry_ok (e : dotenvEntry) : Prop :=
  ValidUtf8 (bs (eName e)) = true ∧ meta_ok (eMeta e) ∧ ValidUtf8 (eEncoding e) = true.

Lemma entry_law : law entry_codec 2 entry_ok.
Proof.
  apply struct_law; [vm_compute; reflexivity|vm_compute; reflexivity|].
  intros [n m e] (Hn & Hm & He). cbn [eName eMeta eEncoding] in *. unfold entry_fields, zero_entry. walk_path; done.
Qed.

Lemma marshal_entry e : entry_ok e →
  Forall printing (mustJSON e) ∧ Unmarshal entry_codec (mustJSON e) zero_entry = Some e.
Proof.
  intros He. destruct (entry_law e He) as (j & Hj & Hw & _).
  destruct (Unmarshal_Marshal _ _ _ e entry_law) as (b & Hb & Hu); [done|done|].
  unfold mustJSON. rewrite Hb. split; [|done]. unfold Marshal in Hb. rewrite Hj in Hb. injection Hb as <-.
  by eapply writable_printing.
Qed.

Lemma read_marker_line e :
  entry_ok e → is_ok (ValidateName (eName e)) = true → read_marker (marker_line e) = Some e.
Proof.
  intros He Hn. unfold read_marker, marker_line. rewrite HasPrefix_self, TrimPrefix_self, (proj2 (marshal_entry e He)).
  simpl. by rewrite Hn.
Qed.

Lemma marker_printing e : entry_ok e → Forall printing (marker_line e).
Proof. intros He. apply Forall_app. split; [decided|by apply marshal_entry]. Qed.

Section file.
Context `{UnicodeUpper}.

Lemma chars_length s : zlen (chars s) <= zlen s.
Proof.
  induction s as [|c s Hc Heq IH] using chars_ind; [done|]. rewrite Heq, zlen_cons, zlen_app.
  apply char_ok_nonempty in Hc. destruct (c.2) as [|b t]; [done|]. rewrite zlen_cons. pose proof (zlen_nonneg t). lia.
Qed.

(** A key is upper case letters, digits and underscores. *)
Lemma EnvKey_bytes s : Forall (λ b, 48 <= b2z b <= 95) (EnvKey s).
Proof.
  unfold EnvKey. apply Forall_fmap, Forall_true. intros r. cbn.
  destruct (_ || _) eqn:E; [|decided].
  apply orb_true_iff in E as [[? ?]%andb_true_iff|[? ?]%andb_true_iff]; rewrite z2b_small by lia; lia.
Qed.

Lemma EnvKey_length s : zlen (EnvKey s) <= zlen s.
Proof. unfold EnvKey, runes, zlen. rewrite !length_fmap. apply chars_length. Qed.

Lemma EnvKey_nonempty s : s ≠ [] → ∃ b t, EnvKey s = b :: t.
Proof.
  intros Hs. destruct (EnvKey s) as [|b t] eqn:E; [|eauto]. exfalso. unfold EnvKey, runes in E.
  apply fmap_nil_inv in E. apply fmap_nil_inv in E. apply Hs. by rewrite <- (chars_join s), E.
Qed.

(** ** The line of a value *)

Definition value_text (r : dotenvRecord) : bytes := if beq (eEncoding (rEntry r)) B["base64"] then StdEncode (rVal r) else rVal r.

(** A record as the backend makes it. *)
Definition record_ok (n : string) (r : dotenvRecord) : Prop :=
  eName (rEntry r) = n ∧ is_ok (ValidateName n) = true ∧ meta_ok (eMeta (rEntry r)) ∧
  (eEncoding (rEntry r) = [] ∧ ValidUtf8 (rVal r) = true ∨ eEncoding (rEntry r) = B["base64"]) ∧
  zlen (rVal r) <= MaxValueBytes ∧ zlen (marker_line (rEntry r)) <= max_line.

Lemma record_entry_ok n r : record_ok n r → entry_ok (rEntry r).
Proof.
  intros (Hn & Hv & Hm & He & _). split; [|split; [done|by destruct He as [[-> _]| ->]]].
  rewrite Hn. by apply ValidUtf8_ascii, ValidateName_ascii.
Qed.

Lemma StdEncode_utf8 v : ValidUtf8 (StdEncode v) = true.
Proof. apply ValidUtf8_ascii. eapply Forall_impl; [apply plain_StdEncode|]. intros b [[] _]. lia. Qed.

Lemma value_text_utf8 n r : record_ok n r → ValidUtf8 (value_text r) = true.
Proof.
  unfold value_text. intros (_ & _ & _ & [[-> Hu]| ->] & _); [done|]. apply StdEncode_utf8.
Qed.

Lemma quote_length s : ValidUtf8 s = true → zlen (dotenvQuote s) <= 2 * zlen s + 2.
Proof.
  intros Hv. unfold dotenvQuote. rewrite zlen_cons, zlen_app. change (zlen [dq]) with 1.
  enough (zlen (mjoin (quote_char <$> chars s)) <= 2 * zlen s) by lia.
  induction s as [|c s Hc Heq IH] using chars_ind; [done|]. unfold ValidUtf8 in Hv. rewrite Heq in *. simpl in Hv.
  apply andb_true_iff in Hv as [Hs Hv]. apply bool_decide_eq_true in Hs. specialize (IH Hv).
  csimpl. rewrite !zlen_app. enough (zlen (quote_char c) <= 2 * zlen (c.2)) by lia.
  destruct Hc as [a Ha|a b _|a b d _|a b d e _|a Ha]; [|done..|by destruct Hs]. simpl. unfold quote_byte.
  change (zlen [a]) with 1. repeat case_decide; done.
Qed.

Lemma value_line_ok n r : record_ok n r → line_ok (EnvKey (bs n) ++ B["="] ++ dotenvQuote (value_text r)).
Proof.
  intros Hr. assert (Hr' := Hr). destruct Hr as (_ & Hn & _ & He & Hv & _).
  assert (Forall (λ b, b ≠ x0a ∧ b ≠ x0d) (EnvKey (bs n) ++ B["="] ++ dotenvQuote (value_text r))) as Hall.
  { rewrite !Forall_app. split_and!; [|decided|apply dotenv_one_line].
    eapply Forall_impl; [apply EnvKey_bytes|]. intros b Hb. split; intros ->; vm_compute in Hb; naive_solver. }
  rewrite Forall_forall in Hall. split_and!.
  - by intros [? _]%Hall.
  - by intros [_ ?]%last_Some_elem_of%Hall.
  - rewrite !zlen_app. pose proof (EnvKey_length (bs n)). pose proof (name_length n Hn).
    pose proof (quote_length (value_text r) (value_text_utf8 n r Hr')).
    assert (3 * zlen (value_text r) <= 4 * zlen (rVal r) + 11) as Ht.
    { unfold value_text. pose proof (zlen_nonneg (rVal r)). case_match; [rewrite StdEncode_length|]; lia. }
    change (zlen B["="]) with 1. unfold max_line. unfold MaxValueBytes in *. lia.
Qed.
Lemma read_value_line n r : record_ok n r →
  read_marker (EnvKey (bs n) ++ B["="] ++ dotenvQuote (value_text r)) = None ∧
  entry_value (rEntry r) (EnvKey (bs n) ++ B["="] ++ dotenvQuote (value_text r)) = Some (rVal r).
Proof.
  intros Hr. pose proof (value_text_utf8 n r Hr) as Hu. destruct Hr as (Hname & Hn & _ & He & _). split.
  - unfold read_marker. destruct (EnvKey_nonempty (bs n)) as (b & t & Hk); [by apply name_nonempty|].
    pose proof (EnvKey_bytes (bs n)) as Hb. rewrite Hk in Hb |- *. apply Forall_cons in Hb as [Hb _].
    destruct (HasPrefix _ _) eqn:E; [|done]. simpl in E. apply andb_true_iff in E as [E%bool_decide_eq_true _].
    subst b. vm_compute in Hb. naive_solver.
  - unfold entry_value, entry_key. rewrite Hname, app_assoc, HasPrefix_self, TrimPrefix_self, unquote_quote by done.
    unfold value_text. destruct He as [[-> _]| ->]; simpl; [done|]. apply StdDecode_StdEncode.
Qed.

(** ** The lines that are not entries *)

(** Lines that are read as they are: no marker, or a marker that the next line
    does not follow up. *)
Inductive kept_lines : list bytes → Prop :=
  | kept_nil : kept_lines []
  | kept_line l ls : line_ok l → read_marker l = None → kept_lines ls → kept_lines (l :: ls)
  | kept_stray e l ls :
      entry_ok e → is_ok (ValidateName (eName e)) = true → zlen (marker_line e) <= max_line →
      line_ok l → read_marker l = None → entry_value e l = None →
      kept_lines ls → kept_lines (marker_line e :: l :: ls).

Lemma kept_lines_ok ls : kept_lines ls → Forall line_ok ls.
Proof.
  induction 1 as [|l ls Hl _ _ IH|e l ls He _ Hlen Hl _ _ _ IH]; [constructor|by constructor|].
  constructor; [|by constructor]. by destruct (printing_line _ (marker_printing _ He)).
Qed.

Lemma scan_kept ls rest f :
  kept_lines ls → scan_lines None (ls ++ rest) f = scan_lines None rest (mkDotenvFile (fEntries f) (fOthers f ++ ls)).
Proof.
  intros Hk. revert f. induction Hk as [|l ls _ Hm _ IH|e l ls He Hn _ _ Hm Hv _ IH]; intros f; cbn [app scan_lines].
  - rewrite app_nil_r. by destruct f.
  - rewrite Hm, IH. cbn [fEntries fOthers add_other]. by rewrite <- app_assoc.
  - rewrite read_marker_line, Hm, Hv by done. rewrite IH. cbn [fEntries fOthers add_other]. by rewrite <- !app_assoc.
Qed.

(** ** The whole file *)

Definition file_ok (f : dotenvFile) : Prop :=
  kept_lines (fOthers f) ∧ map_Forall record_ok (fEntries f).

Lemma scan_record n r rest f :
  record_ok n r →
  scan_lines None (record_lines n r ++ rest) f =
  scan_lines None rest (mkDotenvFile (<[n := r]> (fEntries f)) (fOthers f)).
Proof.
  intros Hr. destruct (read_value_line n r Hr) as [Hm Hv]. unfold value_text in Hm, Hv.
  unfold record_lines. cbn [app scan_lines].
  rewrite read_marker_line; [|by eapply record_entry_ok|by destruct Hr as (-> & ? & _)].
  rewrite Hm, Hv. destruct Hr as (Hn & _). unfold add_entry. rewrite Hn. by destruct r.
Qed.

Lemma scan_records (l : list (string * dotenvRecord)) f :
  Forall (λ x, record_ok x.1 x.2) l →
  scan_lines None (mjoin ((λ x, record_lines x.1 x.2) <$> l)) f =
  mkDotenvFile (foldl (λ m x, <[x.1 := x.2]> m) (fEntries f) l) (fOthers f).
Proof.
  intros Hl. revert f. induction Hl as [|[n r] l Hr _ IH]; intros f; [by destruct f|].
  rewrite fmap_cons. cbn [fst snd foldl] in *. etrans; [apply scan_record, Hr|]. by rewrite IH.
Qed.

Lemma record_lines_ok n r : record_ok n r → Forall line_ok (record_lines n r).
Proof.
  intros Hr. unfold record_lines. apply Forall_cons. split; [|apply Forall_singleton].
  - pose proof (record_entry_ok n r Hr) as He. destruct (printing_line _ (marker_printing _ He)) as [? ?].
    by destruct Hr as (_ & _ & _ & _ & _ & ?).
  - by apply value_line_ok.
Qed.

(** What is written is read back, entries and other lines. *)
Lemma parse_render f : file_ok f → parse_file (render f) = Ok f.
Proof.
  intros [Ho He]. unfold parse_file, render. set (l := sort_stable key_less (map_to_list (fEntries f))).
  assert (l ≡ₚ map_to_list (fEntries f)) as Hp by apply sort_stable_perm.
  assert (Forall (λ x, record_ok x.1 x.2) l) as Hl.
  { rewrite Hp. apply Forall_forall. intros [n r] Hin%elem_of_map_to_list. by apply He. }
  rewrite scanned_render.
  2:{ unfold file_lines. fold l. apply Forall_app. split; [by apply kept_lines_ok|].
      apply Forall_join, Forall_fmap. eapply Forall_impl; [exact Hl|]. intros [n r]. apply record_lines_ok. }
  f_equal. unfold file_lines. fold l. rewrite scan_kept, scan_records by done. cbn [empty_file fEntries fOthers app].
  assert (foldl (λ m x, <[x.1 := x.2]> m) ∅ l = fEntries f) as ->; [|by destruct f].
  apply map_eq. intros k. assert (NoDup l.*1) as Hnd by (rewrite Hp; apply NoDup_fst_map_to_list).
  rewrite foldl_insert_lookup, lookup_empty by done.
  assert ((list_to_map l : gmap string dotenvRecord) = fEntries f) as ->.
  { rewrite (list_to_map_proper l (map_to_list (fEntries f))) by done. apply list_to_map_to_list. }
  by destruct (fEntries f !! k).
Qed.
End file.

(** * The backend is a map *)

Section backend.
Context `{UnicodeUpper}.

(** What the file holds now. *)
Definition current (d : Dotenv) : result storage_error dotenvFile :=
  match dContent d with None => Ok empty_file | Some b => parse_file b end.

Definition secret_of (r : dotenvRecord) : bytes * Metadata := (rVal r, eMeta (rEntry r)).

Definition dotenv_view (d : Dotenv) : vault :=
  match current d with Ok f => secret_of <$> fEntries f | Err _ => ∅ end.

Definition dotenv_healthy (d : Dotenv) : Prop := ∃ f, current d = Ok f ∧ file_ok f.

(** Metadata that is text, with times of four-digit years, on a line that fits. *)
Definition dotenv_accepts (name : string) (value : bytes) (meta : Metadata) : Prop :=
  meta_ok (stamp dotenv_Name name value meta) ∧ zlen (marker_line (new_entry name value meta)) <= max_line.

Lemma empty_file_ok : file_ok empty_file.
Proof. split; [constructor|apply map_Forall_empty]. Qed.

Lemma load_current d f : dotenv_load d = Ok f → current d = Ok f.
Proof. unfold dotenv_load. by case_match. Qed.

Lemma view_current d f : current d = Ok f → dotenv_view d = secret_of <$> fEntries f.
Proof. unfold dotenv_view. by intros ->. Qed.

Lemma op_current {A} (op : Dotenv → Dotenv * A) d :
  current (dotenv_op op d).1 = current (op d).1 ∧ (dotenv_op op d).2 = (op d).2.
Proof. unfold dotenv_op. by destruct (op d). Qed.

Lemma save_current f d : file_ok f →
  current (dotenv_save f d).1 = if is_ok (dotenv_save f d).2 then Ok f else current d.
Proof.
  intros Hf. unfold dotenv_save. destruct (write_fails _); [done|]. cbn. unfold current. by apply parse_render.
Qed.

Lemma new_record_ok name value meta :
  is_ok (ValidateName name) = true → zlen value <= MaxValueBytes → dotenv_accepts name value meta →
  record_ok name (mkDotenvRecord (new_entry name value meta) value).
Proof.
  intros Hn Hv [Hm Hl]. split_and!; try done. simpl. unfold textual.
  destruct (ValidUtf8 value) eqn:Eu; [|by right]. simpl. case_match; auto.
Qed.

(** An operation that does not write, and answers from the file. *)
Lemma unchanged d d' : dotenv_healthy d → current d' = current d → dotenv_healthy d' ∧ dotenv_view d' = dotenv_view d.
Proof. unfold dotenv_healthy, dotenv_view. by intros ? ->. Qed.

(** One that saves what it read, changed. *)
Lemma saved d f : dotenv_healthy d → file_ok f →
  dotenv_healthy (dotenv_save f d).1 ∧
  dotenv_view (dotenv_save f d).1 = if is_ok (dotenv_save f d).2 then secret_of <$> fEntries f else dotenv_view d.
Proof.
  intros Hd Hf. pose proof (save_current f d Hf) as Hs. unfold dotenv_healthy, dotenv_view in *. rewrite Hs.
  destruct (is_ok _); eauto.
Qed.

Lemma dotenv_put_ok name value meta d :
  dotenv_healthy d → dotenv_accepts name value meta →
  dotenv_healthy (dotenv_Put name value meta d).1 ∧
  dotenv_view (dotenv_Put name value meta d).1 =
    (if is_ok (dotenv_Put name value meta d).2
     then <[name := (value, stamp dotenv_Name name value meta)]> (dotenv_view d) else dotenv_view d).
Proof.
  intros Hd Ha. unfold dotenv_Put. match goal with |- context [dotenv_op ?op d] => destruct (op_current op d) as [Hc ->]; set (o := op d) in * end.
  enough (dotenv_healthy o.1 ∧ dotenv_view o.1 =
    if is_ok o.2 then <[name := (value, stamp dotenv_Name name value meta)]> (dotenv_view d) else dotenv_view d) as He.
  { by destruct He as [Hh <-], (unchanged _ _ Hh Hc). }
  unfold o. clear o Hc. destruct (ValidateName name) eqn:Ev; [|done].
  destruct (Z.ltb_spec MaxValueBytes (zlen value)); [done|]. destruct (dotenv_safe d); [|done].
  destruct (dotenv_load d) as [f|] eqn:El; [|done]. apply load_current in El. destruct (collides name f); [done|].
  assert (file_ok (add_entry (new_entry name value meta) value f)) as Hf.
  { destruct Hd as (g & Hg & Ho & He). rewrite El in Hg. injection Hg as <-. split; [done|]. simpl.
    apply map_Forall_insert_2; [|done]. apply new_record_ok; [by rewrite Ev|lia|done]. }
  destruct (saved d _ Hd Hf) as [Hh Hv]. split; [done|]. rewrite Hv, (view_current d f El). case_match; [|done].
  cbn [add_entry fEntries]. by rewrite fmap_insert.
Qed.

Lemma dotenv_get_ok name d :
  current (dotenv_Get name d).1 = current d ∧
  match (dotenv_Get name d).2 with
  | Ok x => dotenv_view d !! name = Some x
  | Err e => e = ErrNotFound → dotenv_view d !! name = None
  end.
Proof.
  unfold dotenv_Get. match goal with |- context [dotenv_op ?op d] => destruct (op_current op d) as [-> ->] end.
  cbn [fst snd]. split; [done|]. destruct (ValidateName name) as [|e] eqn:Ev.
  - destruct (dotenv_load d) as [f|e] eqn:El.
    + apply load_current in El. rewrite (view_current d f El), lookup_fmap. by destruct (fEntries f !! name).
    + unfold dotenv_load in El. intros ->. destruct (read_fails _); [done|]. unfold dotenv_view, current.
      destruct (dContent d) as [b|]; [|done]. by rewrite El.
  - unfold ValidateName, guard_err in Ev. by repeat case_match; simplify_eq/=.
Qed.

Lemma dotenv_delete_ok name d :
  dotenv_healthy d →
  dotenv_healthy (dotenv_Delete name d).1 ∧
  match (dotenv_Delete name d).2 with
  | Ok _ => is_Some (dotenv_view d !! name) ∧ dotenv_view (dotenv_Delete name d).1 = delete name (dotenv_view d)
  | Err e => dotenv_view (dotenv_Delete name d).1 = dotenv_view d ∧ (e = ErrNotFound → dotenv_view d !! name = None)
  end.
Proof.
  intros Hd. unfold dotenv_Delete.
  match goal with |- context [dotenv_op ?op d] => destruct (op_current op d) as [Hc ->]; set (o := op d) in * end.
  enough (dotenv_healthy o.1 ∧ match o.2 with
    | Ok _ => is_Some (dotenv_view d !! name) ∧ dotenv_view o.1 = delete name (dotenv_view d)
    | Err e => dotenv_view o.1 = dotenv_view d ∧ (e = ErrNotFound → dotenv_view d !! name = None) end) as He.
  { destruct He as [Hh Hr], (unchanged _ _ Hh Hc) as [? ->]. by destruct o. }
  unfold o. clear o Hc. destruct (ValidateName name) as [|e] eqn:Ev.
  2:{ split; [done|]. split; [done|]. unfold ValidateName, guard_err in Ev. by repeat case_match; simplify_eq/=. }
  destruct Hd as (g & Hg & Ho & He). assert (dotenv_healthy d) as Hd by (by exists g).
  destruct (dotenv_load d) as [f|e] eqn:El.
  2:{ split; [done|]. split; [done|]. unfold dotenv_load in El. intros ->. destruct (read_fails _); [done|].
      unfold current in Hg. by rewrite El in Hg. }
  apply load_current in El. rewrite El in Hg. injection Hg as <-. pose proof (view_current d f El) as Hv.
  destruct (fEntries f !! name) as [r|] eqn:Er.
  2:{ split; [done|]. split; [done|]. intros _. by rewrite Hv, lookup_fmap, Er. }
  destruct (saved d (mkDotenvFile (delete name (fEntries f)) (fOthers f)) Hd) as [Hh Hs].
  { split; [done|]. by apply map_Forall_delete. }
  split; [done|]. rewrite Hs. unfold dotenv_save in *. destruct (write_fails _); simpl; [done|].
  rewrite Hv, lookup_fmap, Er. split; [by eexists|]. by rewrite fmap_delete.
Qed.

Lemma dotenv_list_ok d :
  current (dotenv_List d).1 = current d ∧ ∀ l, (dotenv_List d).2 = Ok l → lists (dotenv_view d) l.
Proof.
  unfold dotenv_List. match goal with |- context [dotenv_op ?op d] => destruct (op_current op d) as [-> ->] end.
  cbn [fst snd]. split; [done|]. intros l. destruct (dotenv_load d) as [f|] eqn:El; [|done]. intros [= <-].
  apply load_current in El. apply lists_sorted. rewrite (view_current d f El), map_to_list_fmap, <- list_fmap_compose.
  apply reflexive_eq. apply list_fmap_ext. by intros i [k r] _.
Qed.

#[export] Program Instance dotenv_vault : VaultOk Dotenv := {
  v_healthy := dotenv_healthy; v_accepts n v m _ := dotenv_accepts n v m; v_view := dotenv_view }.
Next Obligation. intros. by apply dotenv_put_ok. Qed.
Next Obligation.
  intros n d Hd. destruct (dotenv_get_ok n d) as [Hc Hr]. by destruct (unchanged d (dotenv_Get n d).1 Hd Hc).
Qed.
Next Obligation. intros. by apply dotenv_delete_ok. Qed.
Next Obligation.
  intros d Hd. destruct (dotenv_list_ok d) as [Hc Hl]. by destruct (unchanged d (dotenv_List d).1 Hd Hc).
Qed.
(** ** The lines of others *)

Definition others (d : Dotenv) : list bytes := match current d with Ok f => fOthers f | Err _ => [] end.

Lemma saved_others d f g : current d = Ok f → file_ok g → fOthers g = fOthers f → others (dotenv_save g d).1 = others d.
Proof. intros Hf Hg Hs. unfold others. rewrite save_current, Hf by done. by destruct (is_ok _). Qed.

Lemma healthy_file d f : dotenv_healthy d → current d = Ok f → file_ok f.
Proof. intros (g & Hg & Hok) Hf. rewrite Hf in Hg. by injection Hg as ->. Qed.

Lemma put_others name value meta d :
  dotenv_healthy d → dotenv_accepts name value meta → others (dotenv_Put name value meta d).1 = others d.
Proof.
  intros Hd Ha. unfold dotenv_Put, others at 1.
  match goal with |- context [dotenv_op ?op d] => destruct (op_current op d) as [-> _] end.
  fold (others d). destruct (ValidateName name) eqn:Ev; [|done].
  destruct (Z.ltb_spec MaxValueBytes (zlen value)); [done|]. destruct (dotenv_safe d); [|done].
  destruct (dotenv_load d) as [f|] eqn:El; [|done]. apply load_current in El. destruct (collides name f); [done|].
  apply (saved_others d f); [done| |done]. destruct (healthy_file d f Hd El). split; [done|]. simpl.
  apply map_Forall_insert_2; [|done]. apply new_record_ok; [by rewrite Ev|lia|done].
Qed.

Lemma delete_others name d : dotenv_healthy d → others (dotenv_Delete name d).1 = others d.
Proof.
  intros Hd. unfold dotenv_Delete, others at 1.
  match goal with |- context [dotenv_op ?op d] => destruct (op_current op d) as [-> _] end.
  fold (others d). destruct (ValidateName name); [|done]. destruct (dotenv_load d) as [f|] eqn:El; [|done].
  apply load_current in El. destruct (fEntries f !! name); [|done]. apply (saved_others d f); [done| |done].
  destruct (healthy_file d f Hd El). split; [done|]. by apply map_Forall_delete.
Qed.

Lemma step_others o d : dotenv_healthy d → op_accepted o d → others (vault_step o d).1 = others d.
Proof.
  intros Hd Ho. destruct o as [n v m|n|n|]; cbn [vault_step b_Put b_Get b_Delete b_List dotenv_backend].
  - pose proof (put_others n v m d Hd Ho). by destruct (dotenv_Put n v m d).
  - destruct (dotenv_get_ok n d) as [Hc _]. unfold others. rewrite <- Hc. by destruct (dotenv_Get n d).
  - pose proof (delete_others n d Hd). by destruct (dotenv_Delete n d).
  - destruct (dotenv_list_ok d) as [Hc _]. unfold others. rewrite <- Hc. by destruct (dotenv_List d).
Qed.

Lemma run_others os d : dotenv_healthy d → run_accepted os d → others (vault_run os d).1 = others d.
Proof.
  revert d. induction os as [|o os IH]; intros d Hd Hos; [done|]. destruct Hos as [Ho Hos]. cbn [vault_run].
  pose proof (vault_step_refines o d) as Hh. destruct (Hh Hd Ho) as [Hd1 _]. clear Hh.
  pose proof (step_others o d Hd Ho) as Hs.
  destruct (vault_step o d) as [d1 a]. simpl in *. specialize (IH d1 Hd1 Hos). destruct (vault_run os d1) as [d2 as_].
  simpl in *. congruence.
Qed.

(** C30. A .env file is a map from names to secrets, as long as what is put
    into it can be read again: every [Put] of the run has metadata that is
    UTF-8 text, with years of four digits, and a marker line of at most
    [max_line] bytes, the scanner's buffer ([run_accepted]; a [Put] outside
    these bounds is not refused, and leaves a file that no later operation can
    read). Over every such run of operations, from any file whose lines are
    read as they stand ([dotenv_healthy]), with every read and write that fails
    and whatever git says, each operation answers as the map does, an operation
    that fails changes nothing, and the lines of the file that are not
    burndrop's stay as they were. *)
Theorem dotenv_refines_map os d :
  dotenv_healthy d → run_accepted os d →
  spec_run dotenv_Name os (dotenv_view d) (vault_run os d).2 (dotenv_view (vault_run os d).1) ∧
  others (vault_run os d).1 = others d.
Proof. intros Hd Hos. pose proof (vault_run_refines os d) as Hr. split; [exact (proj2 (Hr Hd Hos))|by apply run_others]. Qed.
(** ** The manager over a .env file *)

(** A lookup fails only because the file cannot be read. *)
Lemma dotenv_get_error name d e :
  dotenv_healthy d → is_ok (ValidateName name) = true → (dotenv_Get name d).2 = Err e →
  e = ErrNotFound ∨ read_fails (dIO d (dOps d)) = true.
Proof.
  intros (f & Hf & _) Hn. unfold dotenv_Get.
  match goal with |- context [dotenv_op ?op d] => destruct (op_current op d) as [_ ->] end. cbn [snd].
  destruct (ValidateName name); [|done]. unfold dotenv_load. destruct (read_fails _); [by right|].
  unfold current in Hf. rewrite Hf. destruct (fEntries f !! name); [done|]. intros [= <-]. by left.
Qed.

(** C31. A secret kept until a date or until it is revoked outlives the
    process: what was put through a manager over a .env file that is read as it
    stands, with metadata that is UTF-8 text, years of four digits and a marker
    line that fits the scanner's buffer ([put_accepted]; a [Put] outside these
    bounds can succeed and make the file unreadable), is what a new manager
    over the same file returns, with the metadata that was reported, until its
    retention date. For such a [Put] the lookup fails only when the read of the
    file fails. *)
Theorem secret_survives_restart clock now name value meta (m m' : Manager Dotenv) meta' d ix :
  dotenv_healthy (persistent m) → put_accepted clock name value meta m → Retention meta ≠ RetentionSession →
  Manager_Put clock name value meta m = (m', Ok meta') → Expired meta' now = false →
  dContent d = dContent (persistent m') →
  (Manager_Get now name (NewManager d ix)).2 = Ok (value, meta') ∨
  read_fails (dIO d (dOps d)) = true ∧ is_ok (Manager_Get now name (NewManager d ix)).2 = false.
Proof.
  intros Hd0 Ha Hret Hput Hexp Hd. assert (healthy (persistent m)) as Hh by exact Hd0.
  pose proof (Manager_Put_healthy clock name value meta m Hh Ha) as Hh'.
  rewrite Hput in Hh'. destruct (Manager_Put_ok _ _ _ _ _ _ _ Hh Ha Hput) as (Hn & _ & expires & _ & Hm).
  rewrite (proj2 (bool_decide_eq_false _) Hret : beq _ _ = false) in Hm. destruct Hm as (_ & _ & Hv & _).
  assert (dotenv_healthy d ∧ dotenv_view d = dotenv_view (persistent m')) as [Hhd Hvd].
  { apply unchanged; [exact Hh'|]. unfold current. by rewrite Hd. }
  assert (dotenv_view d !! name = Some (value, meta')) as Hl.
  { rewrite Hvd. etrans; [exact (f_equal (lookup name) Hv)|]. apply lookup_insert_eq. }
  unfold Manager_Get. assert (Hn' := Hn). destruct (ValidateName name) as [u|] eqn:Ev; [|done].
  unfold on_session, mem_Get. cbn [NewManager session NewMemory entries]. rewrite Ev, lookup_empty.
  unfold on_persistent. cbn [set_session NewManager persistent b_Get dotenv_backend].
  destruct (dotenv_get_ok name d) as [_ Hr]. pose proof (λ e, dotenv_get_error name d e Hhd) as He. rewrite Ev in He.
  destruct (dotenv_Get name d) as [d1 [[v mt]|e]]; cbn [snd] in *.
  - rewrite Hl in Hr. injection Hr as <- <-. rewrite Hexp. by left.
  - right. destruct (He e Hn' eq_refl) as [->|Hf]; [rewrite Hr in Hl by done; discriminate|]. split; [done|]. by destruct (decide (e = ErrNotFound)).
Qed.
End backend.

(** * A run *)

Definition sample_place : Place := mkPlace false (Some [B["app"]; B["home"]]) (λ _, false) GitAbsent None B[".env"].

Definition sample_dotenv : Dotenv :=
  mkDotenv (Some (B["PATH=/bin"] ++ [x0a] ++ B["# a comment"])) (λ _, sample_place) (λ n, mkIO (Nat.eqb n 4) (Nat.eqb n 2)) 0.

Definition sample_secret_meta : Metadata :=
  mkMetadata "" [] B["until-revoked"] (unix_epoch + 5 * Second) zero_time [] B["drop"] false [] 0 [].

Definition sample_ops : list vault_op :=
  [OpPut "api-key" (B["p$ss"] ++ [x0a]) sample_secret_meta; OpPut "blob" [xff; x00] sample_secret_meta;
   OpDelete "blob"; OpGet "blob"; OpGet "api-key"; OpPut "api_key" B["x"] sample_secret_meta; OpDelete "api-key"; OpGet "api-key"].

#[local] Existing Instance upper_ascii.

Example sample_run :
  (λ a, match a with AGet (Ok x) => Some x.1 | APut (Ok _) => Some B["put"] | ADelete (Ok _) => Some B["deleted"] | _ => None end) <$>
    (vault_run sample_ops sample_dotenv).2 =
  [Some B["put"]; Some B["put"]; None; Some [xff; x00]; None; None; Some B["deleted"]; None].
Proof. vm_compute. reflexivity. Qed.

Lemma sample_healthy : dotenv_healthy sample_dotenv.
Proof.
  eexists (mkDotenvFile ∅ [B["PATH=/bin"]; B["# a comment"]]). split; [vm_compute; reflexivity|].
  split; [|apply map_Forall_empty].
  repeat (apply kept_line; [split_and!; [decided|vm_compute; discriminate|vm_compute; discriminate]|vm_compute; reflexivity|]).
  constructor.
Qed.

Lemma sample_accepted : run_accepted sample_ops sample_dotenv.
Proof.
  unfold sample_ops. cbn [run_accepted op_accepted].
  split_and!; try exact I; vm_compute; split_and!; try done; try (by eexists); try discriminate; by left.
Qed.

Lemma dotenv_refines_map_witness :
  others (vault_run sample_ops sample_dotenv).1 = [B["PATH=/bin"]; B["# a comment"]].
Proof.
  destruct (dotenv_refines_map sample_ops sample_dotenv sample_healthy sample_accepted) as [_ ->].
  vm_compute. reflexivity.
Defined.

(** The secret of one process, read by another. *)
Definition first_process : Manager Dotenv := NewManager sample_dotenv good_disk.

Abbreviation kept_secret := (Manager_Put sample_now "api-key" B["k1"] kept first_process).

Lemma first_accepted : put_accepted sample_now "api-key" B["k1"] kept first_process.
Proof.
  intros expires He _. vm_compute in He. injection He as <-.
  split; [|vm_compute; discriminate]. split; vm_compute; split_and!; try done; try (by eexists); by left.
Qed.

Definition second_process : Dotenv :=
  mkDotenv (dContent (persistent kept_secret.1)) (λ _, sample_place) (λ _, mkIO false false) 0.

Lemma secret_survives_restart_witness :
  ∃ meta', (Manager_Get after_date "api-key" (NewManager second_process good_disk)).2 = Ok (B["k1"], meta').
Proof.
  assert (is_ok kept_secret.2 = true) as Hok by (vm_compute; reflexivity).
  destruct kept_secret.2 as [meta'|] eqn:E; [|done]. exists meta'.
  destruct (secret_survives_restart sample_now after_date "api-key" B["k1"] kept first_process kept_secret.1 meta' second_process good_disk)
    as [Hr|[Hf _]]; [..|exact Hr|vm_compute in Hf; discriminate].
  - exact sample_healthy.
  - exact first_accepted.
  - vm_compute. discriminate.
  - rewrite <- E. apply surjective_pairing.
  - assert (Ok meta' = kept_secret.2) as Hm by done. vm_compute in Hm. injection Hm as ->. vm_compute. reflexivity.
  - reflexivity.
Defined.
