(* ===== verification/AgeVaultProps.v ===== *)
(** The encrypted vault is a map from names to secrets as long as it is small
    enough to be read back, and opens with the key it was made with. *)
From S2P Require Import Prelude GoSort GoStrings GoTime GoText Json JsonDoc JsonDocProps Secrets Records BackendSpec Keychain.
From S2P Require Import KeychainProps AgeVault.
From Stdlib Require Import Strings.Byte Sorting.Sorted.

(** * The document *)

Definition vault_record_ok (r : vaultRecord) : Prop := meta_ok (vMeta r) ∧ is_Some (vValue r).

Lemma vault_record_law : law vault_record_codec 2 (λ r, meta_ok (vMeta r)).
Proof.
  apply struct_law; [vm_compute; reflexivity|vm_compute; reflexivity|].
  intros [m v] Hm. cbn [vMeta vValue] in *. unfold vault_record_fields, zero_vault_record. walk_path; done.
Qed.

Definition entries_ok (m : gmap string vaultRecord) : Prop :=
  map_Forall (λ n r, is_ok (ValidateName n) = true ∧ vault_record_ok r) m.

Lemma entries_utf8 m : entries_ok m → map_Forall (λ n r, ValidUtf8 (bs n) = true ∧ meta_ok (vMeta r)) m.
Proof.
  intros Hm n r Hr. destruct (Hm n r Hr) as (Hn & ? & _). split; [|done]. by apply ValidUtf8_ascii, ValidateName_ascii.
Qed.

(** A vault is written, and read onto an empty one. *)
Lemma vault_reads m : entries_ok m →
  ∃ b, Marshal vault_codec (mkVaultFile 1 m) = Some b ∧ Unmarshal vault_codec b new_vault = Some (mkVaultFile 1 m).
Proof.
  intros Hm%entries_utf8. destruct (map_law _ _ _ vault_record_law m Hm) as (j & Hj & Hw & Hd).
  destruct (path_members vault_fields 3 vault_fields (mkVaultFile 1 m) new_vault) as (ms & He & Hms & Hdec).
  - decided.
  - unfold vault_fields. apply Forall_cons. split; [vm_compute; reflexivity|]. apply Forall_singleton. vm_compute. reflexivity.
  - done.
  - cbn [path_ok vault_fields f_omit f_get f_type f_codec f_set vV vEntries new_vault never]. split; [|split; [|done]].
    + exists (JNum (Itoa 1)). split; [done|]. split; [constructor; apply Itoa_lexeme|done].
    + exists j. split; [exact Hj|]. split; [exact Hw|exact Hd].
  - exists (write_json (JObj ms)). unfold Marshal. cbn [vault_codec struct_codec c_enc]. rewrite He. split; [done|].
    unfold Unmarshal. rewrite <- (app_nil_r (write_json (JObj ms))).
    rewrite (parse_write_json (JObj ms) 4); [exact Hdec|by constructor|vm_compute; discriminate|by left].
Qed.

(** ** Its length *)

Lemma escape_html_length c : char_ok c → zlen (escape_html c) <= 6 * zlen (c.2).
Proof.
  intros Hc. assert (zlen (escape_char c) <= 6 * zlen (c.2)) as He.
  { destruct Hc as [a Ha|a b _|a b d _|a b d e _|a Ha]; [|unfold escape_char; repeat case_match; done..].
    unfold escape_char. destruct (_ =? _); [done|]. destruct (_ =? _); [done|]. cbn [snd]. change (6 * zlen [a]) with 6.
    unfold escape_ascii. repeat (case_decide; [done|]). by case_match. }
  destruct (escape_html_cases c) as [->|(b & -> & _ & ->)]; done.
Qed.

Lemma marshal_text_length s : zlen (marshal_text s) <= 6 * zlen s.
Proof.
  unfold marshal_text. induction s as [|c s Hc Heq IH] using chars_ind; [done|]. rewrite Heq. csimpl.
  rewrite !zlen_app. pose proof (escape_html_length c Hc). lia.
Qed.

Section weight.
Context {A : Type} (c : codec A).

(** What an entry adds to the text, with its name and the punctuation. *)
Definition weight (r : A) : Z := 610 + zlen (default [] (Marshal c r)).

Lemma weight_pos r : 0 <= weight r.
Proof. unfold weight. pose proof (zlen_nonneg (default [] (Marshal c r))). lia. Qed.

Definition list_weight (l : list (string * A)) : Z := foldr (λ x acc, weight x.2 + acc) 0 l.

Lemma list_weight_perm l k : l ≡ₚ k → list_weight l = list_weight k.
Proof. induction 1; simpl; lia. Qed.

Lemma list_weight_map (m : gmap string A) : list_weight (map_to_list m) = map_sum weight m.
Proof.
  induction m as [|n r m Hn IH] using map_ind; [by rewrite map_sum_empty, map_to_list_empty|].
  rewrite map_sum_insert_new by done. rewrite (list_weight_perm _ _ (map_to_list_insert m n r Hn)). simpl. by rewrite IH.
Qed.

Lemma members_length l ms :
  Forall (λ x, is_ok (ValidateName x.1) = true) l →
  mapM (λ x, v ← c_enc c x.2; Some (bs x.1, v)) l = Some ms →
  zlen (members_text ms) <= list_weight l.
Proof.
  intros Hl. revert ms. induction Hl as [|[n r] l Hn _ IH]; intros ms; [by intros [= <-]|].
  simpl mapM. destruct (c_enc c r) as [j|] eqn:Ej; [|done]. simpl.
  destruct (mapM _ l) as [ms'|] eqn:Em; [|done]. intros [= <-]. specialize (IH ms' eq_refl).
  unfold members_text in *. cbn [List.map fst snd].
  etrans; [apply JoinByte_cons_length|]. rewrite zlen_app, zlen_cons.
  rewrite <- (app_nil_r (MarshalString _)), MarshalString_app, zlen_cons, zlen_app. change (zlen [quote]) with 1.
  pose proof (marshal_text_length (bs n)). pose proof (name_length n Hn). cbn [fst list_weight foldr snd] in *.
  unfold weight at 1, Marshal. rewrite Ej. cbn [fmap option_fmap option_map default]. fold (list_weight l). unfold id. lia.
Qed.
End weight.

Definition vault_size (m : gmap string vaultRecord) : Z := 40 + map_sum (weight vault_record_codec) m.

Lemma vault_length m b :
  entries_ok m → Marshal vault_codec (mkVaultFile 1 m) = Some b → zlen b <= vault_size m.
Proof.
  intros Hm. unfold Marshal. cbn [vault_codec struct_codec c_enc]. unfold vault_fields.
  rewrite !enc_fields_cons. unfold enc_field. cbn [f_omit f_get f_type f_codec f_name never vV vEntries].
  change (enc_fields (mkVaultFile 1 m) []) with (Some (@nil (bytes * json))).
  destruct (c_enc (map_codec vault_record_codec) m) as [j|] eqn:Ej; [|done]. cbn [mbind option_bind fmap option_fmap option_map c_enc int_codec app].
  intros [= <-]. cbn [map_codec c_enc] in Ej. apply fmap_Some in Ej as (ms & Hms & ->).
  set (l := sort_stable key_less (map_to_list m)) in *.
  assert (l ≡ₚ map_to_list m) as Hp by apply sort_stable_perm.
  apply members_length in Hms; [|rewrite Hp; apply Forall_forall; intros [n r] Hin%elem_of_map_to_list; by destruct (Hm n r Hin)].
  rewrite (list_weight_perm _ _ _ Hp), list_weight_map in Hms. unfold vault_size. unfold members_text in Hms.
  cbn [write_json List.map JoinByte fst snd]. fold (members_text ms) in *.
  rewrite ?zlen_cons, ?zlen_app, ?zlen_cons, ?zlen_app, ?zlen_cons, ?zlen_app.
  rewrite zlen_nil. lia.
Qed.

(** * The vault is a map *)

Section vault.
Context `{AgeOk}.

Definition secret_of_record (r : vaultRecord) : bytes * Metadata := (default [] (vValue r), vMeta r).

Definition av_view (v : AgeVault) : vault :=
  match open_content v with Ok f => secret_of_record <$> vEntries f | Err _ => ∅ end.

(** The document can be written, and is short enough to be read. *)
Definition vault_ok (f : vaultFile) : Prop :=
  vV f = 1 ∧ entries_ok (vEntries f) ∧ vault_size (vEntries f) <= read_limit.

Definition av_healthy (v : AgeVault) : Prop :=
  matches (avIdentity v) (avRecipient v) ∧ ∃ f, open_content v = Ok f ∧ vault_ok f.

(** Metadata that is text with times of four-digit years, and a vault that
    stays short enough. *)
Definition av_accepts (name : string) (value : bytes) (meta : Metadata) (v : AgeVault) : Prop :=
  meta_ok (stamp agevault_Name name value meta) ∧
  ∀ f, open_content v = Ok f → vault_size (vEntries (put_record name value meta f)) <= read_limit.

Lemma decode_written m : entries_ok m → vault_size m <= read_limit →
  ∃ b, Marshal vault_codec (mkVaultFile 1 m) = Some b ∧ decode_vault b = Ok (mkVaultFile 1 m).
Proof.
  intros Hm Hs. destruct (vault_reads m Hm) as (b & Hb & Hu). exists b. split; [done|].
  pose proof (vault_length m b Hm Hb). unfold decode_vault, limit_read.
  destruct (Z.leb_spec (zlen b) read_limit); [|lia]. by rewrite Hu.
Qed.

Lemma av_op_eq {A} (op : AgeVault → AgeVault * A) v : av_op op v = (av_next (op v).1, (op v).2).
Proof. unfold av_op. by destruct (op v). Qed.

Lemma av_load_ok v f : av_load v = Ok f → open_content v = Ok f.
Proof. unfold av_load. by case_match. Qed.

Lemma av_view_ok v f : open_content v = Ok f → av_view v = secret_of_record <$> vEntries f.
Proof. unfold av_view. by intros ->. Qed.

Lemma av_save_spec f v : av_healthy v → vault_ok f →
  av_healthy (av_save f v).1 ∧
  av_view (av_save f v).1 = if is_ok (av_save f v).2 then secret_of_record <$> vEntries f else av_view v.
Proof.
  intros Hv (H1 & Hm & Hs). destruct f as [V m]. simpl in *. subst V.
  destruct (decode_written m Hm Hs) as (b & Hb & Hd). unfold av_save. rewrite Hb.
  destruct (age_Encrypt _ _ _) as [c|] eqn:Ec; [|done]. destruct (vw_io (av_world v)).2; [done|]. cbn [fst snd is_ok].
  assert (open_content (av_set_content c v) = Ok (mkVaultFile 1 m)) as Ho.
  { unfold open_content. cbn [av_set_content avContent avIdentity].
    by rewrite (decrypt_encrypt _ _ _ _ _ (proj1 Hv) Ec). }
  split; [split; [apply Hv|eexists; split; [exact Ho|done]]|]. by rewrite (av_view_ok _ _ Ho).
Qed.

Lemma vault_ok_delete f name : vault_ok f → vault_ok (mkVaultFile (vV f) (delete name (vEntries f))).
Proof.
  intros (? & ? & Hs). split; [done|]. split; [by apply map_Forall_delete|]. unfold vault_size in *. simpl.
  destruct (vEntries f !! name) as [r|] eqn:E; [|by rewrite delete_id].
  rewrite (map_sum_delete _ _ _ _ E). pose proof (weight_pos vault_record_codec r). lia.
Qed.

Lemma av_put_ok name value meta v :
  av_healthy v → av_accepts name value meta v →
  av_healthy (agevault_Put name value meta v).1 ∧
  av_view (agevault_Put name value meta v).1 =
    (if is_ok (agevault_Put name value meta v).2
     then <[name := (value, stamp agevault_Name name value meta)]> (av_view v) else av_view v).
Proof.
  intros Hv [Hm Ha]. unfold agevault_Put. rewrite av_op_eq. cbn [fst snd].
  match goal with |- context [av_next ?o.1] => set (o' := o) end.
  change (av_healthy (av_next o'.1)) with (av_healthy o'.1). change (av_view (av_next o'.1)) with (av_view o'.1).
  unfold o'. clear o'. destruct (ValidateName name) as [u|] eqn:En; [|done].
  destruct (Z.ltb_spec MaxValueBytes (zlen value)); [done|]. destruct (vw_mkdir_fails _); [done|].
  unfold withLock. destruct (vw_locked _); [done|]. destruct (av_load v) as [f|] eqn:El; [|done]. apply av_load_ok in El.
  destruct (proj2 Hv) as (g & Hg & Hok). rewrite El in Hg. injection Hg as <-.
  assert (vault_ok (put_record name value meta f)) as Hf.
  { destruct Hok as (? & He & _). split; [done|]. split; [|by apply Ha]. simpl. apply map_Forall_insert_2; [|done].
    split; [by rewrite En|]. split; [done|]. by eexists. }
  destruct (av_save_spec _ v Hv Hf) as [Hh Hs]. split; [done|]. rewrite Hs, (av_view_ok v f El). destruct (is_ok _); [|done].
  cbn [put_record vEntries]. by rewrite fmap_insert.
Qed.

Lemma av_get_ok name v :
  av_healthy v →
  av_healthy (agevault_Get name v).1 ∧ av_view (agevault_Get name v).1 = av_view v ∧
  match (agevault_Get name v).2 with
  | Ok x => av_view v !! name = Some x
  | Err e => e = ErrNotFound → av_view v !! name = None
  end.
Proof.
  intros Hv. unfold agevault_Get. rewrite av_op_eq. cbn [fst snd]. split; [exact Hv|]. split; [done|].
  destruct (ValidateName name) as [u|e] eqn:En; [|by apply ValidateName_error in En as ->].
  destruct (av_load v) as [f|e] eqn:El.
  - apply av_load_ok in El. rewrite (av_view_ok v f El), lookup_fmap. by destruct (vEntries f !! name).
  - intros ->. unfold av_load in El. destruct (vw_io _).1; [done|]. destruct Hv as [_ (f & Hf & _)]. by rewrite Hf in El.
Qed.

Lemma av_delete_ok name v :
  av_healthy v →
  av_healthy (agevault_Delete name v).1 ∧
  match (agevault_Delete name v).2 with
  | Ok _ => is_Some (av_view v !! name) ∧ av_view (agevault_Delete name v).1 = delete name (av_view v)
  | Err e => av_view (agevault_Delete name v).1 = av_view v ∧ (e = ErrNotFound → av_view v !! name = None)
  end.
Proof.
  intros Hv. unfold agevault_Delete. rewrite av_op_eq. cbn [fst snd].
  match goal with |- context [av_next ?o.1] => set (o' := o) end.
  change (av_healthy (av_next o'.1)) with (av_healthy o'.1). change (av_view (av_next o'.1)) with (av_view o'.1).
  unfold o'. clear o'. destruct (ValidateName name) as [u|e] eqn:En.
  2:{ apply ValidateName_error in En as ->. split; [done|]. by split. }
  unfold withLock. destruct (vw_locked _); [split; [done|]; by split|]. destruct (av_load v) as [f|e] eqn:El.
  2:{ split; [done|]. split; [done|]. intros ->. unfold av_load in El. destruct (vw_io _).1; [done|].
      destruct Hv as [_ (f & Hf & _)]. by rewrite Hf in El. }
  apply av_load_ok in El. destruct (proj2 Hv) as (g & Hg & Hok). rewrite El in Hg. injection Hg as <-.
  pose proof (av_view_ok v f El) as Hview. destruct (vEntries f !! name) as [r|] eqn:Er.
  2:{ split; [done|]. split; [done|]. intros _. by rewrite Hview, lookup_fmap, Er. }
  destruct (av_save_spec _ v Hv (vault_ok_delete f name Hok)) as [Hh Hs]. split; [done|].
  destruct (av_save _ v) as [v' [u'|e]] eqn:Esave; cbn [fst snd is_ok] in *; rewrite Hs.
  - rewrite Hview, lookup_fmap, Er. split; [by eexists|]. cbn [vEntries]. by rewrite fmap_delete.
  - split; [done|]. intros ->. unfold av_save in Esave. by repeat case_match; simplify_eq.
Qed.

Lemma av_list_ok v :
  av_healthy v →
  av_healthy (agevault_List v).1 ∧ av_view (agevault_List v).1 = av_view v ∧
  ∀ l, (agevault_List v).2 = Ok l → lists (av_view v) l.
Proof.
  intros Hv. unfold agevault_List. rewrite av_op_eq. cbn [fst snd]. split; [exact Hv|]. split; [done|].
  intros l. destruct (av_load v) as [f|] eqn:El; [|done]. intros [= <-].
  apply av_load_ok in El. apply lists_sorted. rewrite (av_view_ok v f El), map_to_list_fmap, <- list_fmap_compose.
  apply reflexive_eq. apply list_fmap_ext. by intros i [k r] _.
Qed.

#[export] Instance agevault_vault : VaultOk AgeVault := {
  v_healthy := av_healthy; v_accepts := av_accepts; v_view := av_view;
  v_put_ok n v m t := av_put_ok n v m t; v_get_ok := av_get_ok; v_delete_ok := av_delete_ok; v_list_ok := av_list_ok }.

(** No operation changes the keys. *)
Lemma save_identity f v : avIdentity (av_save f v).1 = avIdentity v.
Proof. unfold av_save. by repeat case_match. Qed.

Lemma step_identity o v : avIdentity (vault_step o v).1 = avIdentity v.
Proof.
  assert (∀ fn, (∀ v, avIdentity (fn v).1 = avIdentity v) → avIdentity (withLock fn v).1 = avIdentity v) as Hlock.
  { intros fn Hfn. unfold withLock. by case_match. }
  destruct o as [n val m|n|n|]; cbn [vault_step b_Put b_Get b_Delete b_List agevault_backend].
  - transitivity (avIdentity (agevault_Put n val m v).1); [by destruct (agevault_Put _ _ _ _)|].
    unfold agevault_Put. rewrite av_op_eq. cbn [fst av_next avIdentity]. destruct (ValidateName n); [|done].
    destruct (_ <? _); [done|]. destruct (vw_mkdir_fails _); [done|]. apply Hlock. intros v0.
    destruct (av_load v0); [apply save_identity|done].
  - transitivity (avIdentity (agevault_Get n v).1); [by destruct (agevault_Get _ _)|]. unfold agevault_Get. by rewrite av_op_eq.
  - transitivity (avIdentity (agevault_Delete n v).1); [by destruct (agevault_Delete _ _)|].
    unfold agevault_Delete. rewrite av_op_eq. cbn [fst av_next avIdentity]. destruct (ValidateName n); [|done].
    apply Hlock. intros v0. destruct (av_load v0) as [f|]; [|done]. destruct (vEntries f !! n); [apply save_identity|done].
  - transitivity (avIdentity (agevault_List v).1); [by destruct (agevault_List _)|]. unfold agevault_List. by rewrite av_op_eq.
Qed.

Lemma run_identity os v : avIdentity (vault_run os v).1 = avIdentity v.
Proof.
  revert v. induction os as [|o os IH]; intros v; [done|]. cbn [vault_run]. pose proof (step_identity o v) as Hs.
  destruct (vault_step o v) as [v1 a]. specialize (IH v1). destruct (vault_run os v1). simpl in *. congruence.
Qed.
End vault.

(** * The same key again *)

Section open.
Context `{AgeOk} {K : Type} `{KeyringOk K}.

Lemma plain_no_newline s : Forall plain s → x0a ∉ s.
Proof. intros Hs Hin. rewrite Forall_forall in Hs. destruct (Hs _ Hin) as [Hb _]. vm_compute in Hb. naive_solver. Qed.

Lemma word_no_newline s : word s → x0a ∉ s.
Proof. intros Hs Hin. unfold word in Hs. rewrite Forall_forall in Hs. specialize (Hs _ Hin). vm_compute in Hs. naive_solver. Qed.

Lemma comment_no_key s : HasPrefix (TrimSpace (x23 :: s)) identity_prefix = false.
Proof. apply TrimSpace_head; [by vm_compute|done|done]. Qed.

(** The file that was created holds the identity. *)
Lemma created_file_reads w seed id : GenerateX25519 seed = Some id → find_identity (Split (identity_file w id) x0a) = Some id.
Proof.
  intros (Hp & Hpre & Hid & Hr)%generated_parses. unfold identity_file.
  assert (x0a ∉ B["# burndrop vault identity, created "] ++ Format_RFC3339 (ow_now w)) as Hl1.
  { rewrite not_elem_of_app. split; [decided|]. apply plain_no_newline, plain_format. constructor. }
  assert (x0a ∉ B["# public key: "] ++ recipient_String (Recipient id)) as Hl2.
  { rewrite not_elem_of_app. split; [decided|]. by apply word_no_newline. }
  set (l1 := _ ++ Format_RFC3339 _) in *. set (l2 := B["# public key: "] ++ _) in *.
  match goal with |- context [Split ?t _] =>
    replace t with (l1 ++ x0a :: l2 ++ x0a :: identity_String id ++ [x0a]) by (unfold l1, l2; by rewrite <- !app_assoc) end.
  rewrite !Split_app by (done || by apply word_no_newline). cbn [find_identity]. unfold l1, l2.
  change (B["# burndrop vault identity, created "] ++ ?x) with (x23 :: B[" burndrop vault identity, created "] ++ x).
  change (B["# public key: "] ++ ?x) with (x23 :: B[" public key: "] ++ x).
  rewrite !comment_no_key, TrimSpace_word by done. by rewrite Hpre.
Qed.

Lemma identity_file_again w1 w2 file file1 file2 id1 id2 :
  loadOrCreateIdentityFile w1 file = (file1, Some id1) → loadOrCreateIdentityFile w2 file1 = (file2, Some id2) →
  id2 = id1 ∧ matches id1 (Recipient id1).
Proof.
  unfold loadOrCreateIdentityFile at 1. destruct (ow_read_fails w1); [done|]. destruct file as [b|].
  - intros [= <- Hid]. unfold loadOrCreateIdentityFile. destruct (ow_read_fails w2); [done|]. intros [= _ Hid2].
    rewrite Hid in Hid2. injection Hid2 as <-. split; [done|].
    clear -Hid H0. induction (Split b x0a) as [|l ls IH]; [done|]. cbn [find_identity] in Hid.
    destruct (HasPrefix _ _); [by eapply parsed_matches|auto].
  - destruct (GenerateX25519 (ow_seed w1)) as [id|] eqn:Eg; [|done]. destruct (_ || _); [done|]. intros [= <- <-].
    unfold loadOrCreateIdentityFile. destruct (ow_read_fails w2); [done|]. rewrite (created_file_reads w1 _ _ Eg).
    intros [= _ <-]. split; [done|]. by eapply generated_matches.
Qed.

Lemma keychain_again w1 w2 (k k1 k2 : Keychain K) id1 id2 :
  keychain_identity w1 k = (k1, Some id1) → keychain_identity w2 k1 = (k2, Some id2) →
  id2 = id1 ∧ matches id1 (Recipient id1).
Proof.
  assert (∀ user k, let '(k', r) := GetRaw user k in kService k' = kService k ∧ stored_entries k' = stored_entries k ∧
    match r with Ok v => stored_entries k !! (kService k, user) = Some v
               | Err e => e = ErrNotFound → stored_entries k !! (kService k, user) = None end) as Hget.
  { intros user k0. unfold GetRaw. pose proof (Get_spec user k0) as Hg. destruct (keyring_Get user k0) as [k' [v|e]];
      destruct Hg as ([Hs _] & He & Hg); (split; [done|]; split; [done|]); [done|by destruct e; simpl; auto]. }
  unfold keychain_identity at 1. pose proof (Hget KeychainVaultKeyEntry k) as Hg.
  destruct (GetRaw KeychainVaultKeyEntry k) as [k0 [s|e]]; destruct Hg as (Hs & He & Hg).
  - intros [= <- Hid]. unfold keychain_identity. pose proof (Hget KeychainVaultKeyEntry k0) as Hg2.
    destruct (GetRaw KeychainVaultKeyEntry k0) as [k3 [s2|e]]; destruct Hg2 as (_ & _ & Hg2); rewrite Hs, He, Hg in Hg2.
    + injection Hg2 as <-. rewrite Hid. intros [= _ <-]. split; [done|]. by eapply parsed_matches.
    + destruct e; try done. by specialize (Hg2 eq_refl).
  - destruct e; try done. destruct (GenerateX25519 (ow_seed w1)) as [gen|] eqn:Eg; [|done].
    destruct (generated_parses _ _ Eg) as (Hp & _ & Hw & _).
    unfold SetRaw. pose proof (Set_spec KeychainVaultKeyEntry (identity_String gen) k0) as Hset.
    destruct (keyring_Set _ _ k0) as [k3 [[]|e]]; [|by destruct e]. cbn [wrapKeyring]. destruct Hset as ([Hs3 _] & Hset & _).
    specialize (Hset eq_refl). rewrite (TrimSpace_word _ Hw), Hp. intros [= <- <-].
    unfold keychain_identity. pose proof (Hget KeychainVaultKeyEntry k3) as Hg2.
    destruct (GetRaw KeychainVaultKeyEntry k3) as [k4 [s2|e]]; destruct Hg2 as (_ & _ & Hg2); rewrite Hset, Hs3, lookup_insert_eq in Hg2.
    + injection Hg2 as <-. rewrite (TrimSpace_word _ Hw), Hp. intros [= _ <-]. split; [done|]. by eapply generated_matches.
    + destruct e; try done. by specialize (Hg2 eq_refl).
Qed.

(** The vault opens again with the key it was opened with first, and that key
    decrypts what it encrypts. *)
Lemma open_again w1 w2 file file1 file2 opts kc1 kc2 i1 r1 keys :
  OpenAgeVault w1 file opts = (file1, kc1, Some (i1, r1)) →
  OpenAgeVault w2 file1 (mkAgeVaultOptions (oIdentityFile opts) (oPassphrase opts) kc1 : AgeVaultOptions K) = (file2, kc2, Some keys) →
  keys = (i1, r1) ∧ matches i1 r1.
Proof.
  unfold OpenAgeVault. cbn [oIdentityFile oPassphrase oKeychain]. destruct (is_empty (oIdentityFile opts)); cbn [negb].
  - destruct (is_empty (oPassphrase opts)); cbn [negb].
    + destruct (oKeychain opts) as [k|]; [|done]. destruct (keychain_identity w1 k) as [k1 [id|]] eqn:E1; [|done].
      intros [= <- <- <- <-]. destruct (keychain_identity w2 k1) as [k2 [id2|]] eqn:E2; [|done].
      intros [= _ _ <-]. by destruct (keychain_again _ _ _ _ _ _ _ E1 E2) as [-> ?].
    + destruct (NewScryptIdentity _) as [i|] eqn:Ei; [|done]. destruct (NewScryptRecipient _) as [r|] eqn:Er; [|done].
      simpl. intros [= <- <- <- <-] [= _ _ <-]. split; [done|]. by eapply scrypt_matches.
  - destruct (loadOrCreateIdentityFile w1 file) as [f1 [id|]] eqn:E1; [|done]. simpl. intros [= <- <- <- <-].
    destruct (loadOrCreateIdentityFile w2 f1) as [f2 [id2|]] eqn:E2; [|done]. simpl. intros [= _ _ <-].
    by destruct (identity_file_again _ _ _ _ _ _ _ E1 E2) as [-> ?].
Qed.

(** C33. The vault outlives the process, as long as it can be read again: every
    [Put] of the run has metadata that is UTF-8 text with years of four digits,
    and leaves a vault of at most the 64 MiB that are read, measured by
    [vault_size], which bounds the length of its text ([run_accepted]; a [Put]
    beyond that is not refused, and the vault it writes cannot be opened). With a key from a file, a passphrase or the
    keychain, created when there was none, every such run of operations on a
    new vault answers as a map of names to secrets does, and a process that
    opens it again finds exactly that map. *)
Theorem vault_reopens w1 w2 file file1 file2 opts kc1 kc2 i1 r1 i2 r2 world1 world2 os :
  OpenAgeVault w1 file opts = (file1, kc1, Some (i1, r1)) →
  OpenAgeVault w2 file1 (mkAgeVaultOptions (oIdentityFile opts) (oPassphrase opts) kc1 : AgeVaultOptions K) = (file2, kc2, Some (i2, r2)) →
  let v := mkAgeVault i1 r1 None world1 0 in
  run_accepted os v →
  let v' := (vault_run os v).1 in
  spec_run agevault_Name os ∅ (vault_run os v).2 (av_view v') ∧
  av_view (mkAgeVault i2 r2 (avContent v') world2 0) = av_view v'.
Proof.
  intros Ho1 Ho2 v Hos v'. destruct (open_again _ _ _ _ _ _ _ _ _ _ _ Ho1 Ho2) as [[= -> ->] Hm].
  assert (av_healthy v) as Hv.
  { split; [done|]. exists new_vault. split; [done|]. split; [done|]. split; [apply map_Forall_empty|].
    unfold vault_size. simpl. rewrite map_sum_empty. by vm_compute. }
  pose proof (vault_run_refines os v) as Hrun. destruct (Hrun Hv Hos) as [Hh Hspec]. split; [exact Hspec|].
  unfold av_view, open_content. cbn [avContent avIdentity].
  assert (avIdentity v' = i1) as ->; [|done]. apply (run_identity os v).
Qed.
End open.

(** * A transparent age *)

(** Keys are their text, and encryption marks the text with the key. *)
#[export] Instance clear_age : Age := {|
  identity := bytes;
  recipient := bytes;
  GenerateX25519 s := Some (identity_prefix ++ Itoa (Z.of_nat s));
  identity_String i := i;
  ParseX25519 s := if HasPrefix s identity_prefix then Some s else None;
  Recipient i := i;
  recipient_String r := r;
  NewScryptIdentity p := Some (B["scrypt:"] ++ p);
  NewScryptRecipient p := Some (B["scrypt:"] ++ p);
  age_Encrypt _ r p := Some (r ++ p);
  age_Decrypt i c := if HasPrefix c i then AgePlain (drop (length i) c) else AgeNoMatch;
|}.

#[export] Program Instance clear_age_ok : AgeOk := { matches i r := i = r }.
Next Obligation. done. Qed.
Next Obligation.
  intros s i Hg. assert (Some (identity_prefix ++ Itoa (Z.of_nat s)) = Some i) as Hi by exact Hg. apply (inj Some) in Hi as <-.
  assert (word (identity_prefix ++ Itoa (Z.of_nat s))) as Hw.
  { apply Forall_app. split; [decided|]. assert (∀ d, is_digit d = true → 32 < b2z d < 127) as Hd.
    { intros d Hd%in_range_iff. lia. }
    destruct (Itoa_lexeme (Z.of_nat s)) as (sg & b & ds & -> & Hsg & Hb). apply Forall_app. split.
    - destruct Hsg as [->| ->]; [constructor|]. by repeat constructor.
    - destruct Hb as [[-> ->]|[_ Hb]]; [by repeat constructor|]. by eapply Forall_impl. }
  cbn [ParseX25519 clear_age identity_String recipient_String Recipient]. by rewrite HasPrefix_self.
Qed.
Next Obligation. intros p i r. simpl. intros [= <-] [= <-]. done. Qed.
Next Obligation. done. Qed.
Next Obligation.
  intros s i r p c. simpl. intros <- [= <-]. by rewrite HasPrefix_self, drop_app_length.
Qed.

Definition good_open (seed : nat) : OpenWorld := mkOpenWorld false false false unix_epoch seed.
Definition good_world : nat → VaultWorld := λ _, mkVaultWorld false false (false, false) 0.

Definition keyed_options : AgeVaultOptions KeyStore := mkAgeVaultOptions [] [] (Some small_keychain).

(** The key is made in the keychain and found there. *)
Abbreviation first_open := (OpenAgeVault (good_open 7) None keyed_options).
Definition first_keychain : Keychain KeyStore := default small_keychain first_open.1.2.
Definition second_options : AgeVaultOptions KeyStore := mkAgeVaultOptions [] [] (Some first_keychain).

Definition vault_ops : list vault_op := [OpPut "api-key" B["v1"] small_meta; OpGet "api-key"; OpDelete "other"].

Definition new_age_vault : AgeVault := mkAgeVault (identity_prefix ++ B["7"]) (identity_prefix ++ B["7"]) None good_world 0.

Lemma vault_ops_accepted : run_accepted vault_ops new_age_vault.
Proof.
  unfold vault_ops. cbn [run_accepted op_accepted]. split_and!; try exact I. split.
  - split; vm_compute; split_and!; try done; try (by eexists); by left.
  - intros f [= <-]. vm_compute. discriminate.
Qed.

Lemma vault_reopens_witness :
  av_view (mkAgeVault (identity_prefix ++ B["7"]) (identity_prefix ++ B["7"])
    (avContent (vault_run vault_ops new_age_vault).1) good_world 0) !! "api-key" =
  Some (B["v1"], stamp agevault_Name "api-key" B["v1"] small_meta).
Proof.
  destruct (vault_reopens (H := clear_age) (good_open 7) (good_open 8) None None None keyed_options (Some first_keychain)
    (OpenAgeVault (good_open 8) None second_options).1.2
    (identity_prefix ++ B["7"]) (identity_prefix ++ B["7"]) (identity_prefix ++ B["7"]) (identity_prefix ++ B["7"])
    good_world good_world vault_ops) as [_ Hsame].
  - vm_compute. reflexivity.
  - vm_compute. reflexivity.
  - exact vault_ops_accepted.
  - etrans; [exact (f_equal (lookup "api-key") Hsame)|]. vm_compute. reflexivity.
Defined.
