(* ===== verification/Gcp.v ===== *)
(** The backend in Google Cloud Secret Manager: internal/storage/gcp.go. *)
From S2P Require Import Prelude Sha256 GoSort GoStrings GoText Json JsonDoc Secrets Records Cli.
From Stdlib Require Import Strings.Byte.

Record GCP := mkGCP { gcp_Project : bytes; gcp_Prefix : bytes }.

Definition DefaultGCPPrefix : bytes := B["burndrop-"].
Definition gcpMaxRecordBytes : Z := 64 * 1024.
Definition gcpMaxValueBytes : Z := (gcpMaxRecordBytes - 1024) / 4 * 3.

(** [^[A-Za-z0-9_-]{1,255}$] *)
Definition gcpIDRe (s : bytes) : bool :=
  forallb (λ b, is_alnum b || bool_decide (b = x5f) || bool_decide (b = x2d)) s && (1 <=? zlen s) && (zlen s <=? 255).

Definition NewGCP (opts : GCP) : GCP := mkGCP (gcp_Project opts) (or_default (gcp_Prefix opts) DefaultGCPPrefix).

Definition gcp_Name : bytes := B["gcp"].

Definition gcp_prefix (g : GCP) : bytes := or_default (gcp_Prefix g) DefaultGCPPrefix.

Definition gcpMapName (name : bytes) : bytes :=
  if negb (Contains name B["."]) then name
  else ReplaceAll name B["."] B["-"] ++ B["-"] ++ HexEncode (take 4 (sha256 name)).

Definition gcp_remote (g : GCP) (name : string) : result storage_error bytes :=
  _ ← ValidateName name;
  let id := gcp_prefix g ++ gcpMapName (bs name) in
  if gcpIDRe id then Ok id else Err ErrInvalidName.

Definition gcp_run (stdin : option bytes) (args : list bytes) : prog (result cli_error bytes) :=
  exec (mkInvocation B["gcloud"] args stdin []).

(** A [gcloud secrets] command with the project flag. *)
Definition gcp_secrets (g : GCP) (stdin : option bytes) (args : list bytes) : prog (result cli_error bytes) :=
  gcp_run stdin (B["secrets"] :: args ++ (if is_empty (gcp_Project g) then [] else [B["--project="] ++ gcp_Project g])).

(** The answers that are read. *)
Definition accounts_codec : codec (list (bytes * bytes)) :=
  list_codec (two_fields string_codec B["account"] string_codec B["status"]).
Definition gcp_items_codec : codec (list bytes) := list_codec (one_field string_codec B["name"]).

Section gcp.
Context `{Unicode}.

Definition gcpStderr : cli_error → bytes := cli_stderr.

Definition gcp_denied : list bytes :=
  [B["active account"]; B["permission_denied"]; B["reauthentication"]; B["invalid_grant"];
   B["could not find default credentials"]; B["gcloud auth login"]].

Definition gcpClassify : cli_error → storage_error := classify_with gcp_denied [B["NOT_FOUND"]].

(** The arguments of the commands. *)
Definition gcp_create_args (id : bytes) : list bytes :=
  [B["create"]; id; B["--data-file=-"]; B["--replication-policy=automatic"]; B["--labels=burndrop=1"]].
Definition gcp_add_args (id : bytes) : list bytes := [B["versions"]; B["add"]; id; B["--data-file=-"]].
Definition gcp_access_args (id : bytes) : list bytes := [B["versions"]; B["access"]; B["latest"]; B["--secret="] ++ id].
Definition gcp_describe_args (id : bytes) : list bytes := [B["describe"]; id; B["--format=json"]].
Definition gcp_delete_args (id : bytes) : list bytes := [B["delete"]; id; B["--quiet"]].
Definition gcp_list_args : list bytes := [B["list"]; B["--filter=labels.burndrop=1"]; B["--format=json"]].

(** Errors inside a reason are cut to what they wrap. *)
Definition gcp_Probe (g : GCP) : prog Probe :=
  found ← look_path B["gcloud"];
  if negb found then mret (refused B["gcloud not found in PATH; install the Google Cloud CLI (https://cloud.google.com/sdk/docs/install)"])
  else
    match gcp_remote g "probe" with
    | Err _ => mret (refused B["storage: invalid secret name"])
    | Ok _ =>
        out ← gcp_run None [B["auth"]; B["list"]; B["--filter=status:ACTIVE"]; B["--format=json"]];
        match out with
        | Err e => mret (refused (B["gcloud auth list failed: "] ++ shortErr (cli_text e)))
        | Ok out =>
            match read_json accounts_codec out with
            | None | Some [] => mret (refused B["gcloud found but no account is signed in; run gcloud auth login"])
            | Some ((account, _) :: _) =>
                if is_empty account then mret (refused B["gcloud found but no account is signed in; run gcloud auth login"])
                else
                  project ← (if negb (is_empty (gcp_Project g)) then mret (gcp_Project g)
                             else out ← gcp_run None [B["config"]; B["get-value"]; B["project"]];
                                  mret (match out with Ok out => TrimSpace out | Err _ => [] end));
                  if is_empty (gcp_Project g) && (is_empty project || beq project B["(unset)"]) then
                    mret (refused B["gcloud has no default project; set GCP.Project or run gcloud config set project PROJECT_ID"])
                  else
                    mret (mkProbe true (B["Google Secret Manager as "] ++ account ++ B[", project "] ++ project) 85)
            end
        end
    end.

Definition gcp_Put (g : GCP) (name : string) (value : bytes) (meta : Metadata) : prog unit :=
  id ← lift (gcp_remote g name);
  if gcpMaxValueBytes <? zlen value then throw ErrTooLarge
  else
    rec ← lift (encodeRecord (stamp gcp_Name name value meta) value);
    if gcpMaxRecordBytes <? zlen rec then throw ErrTooLarge
    else
      r ← gcp_secrets g (Some rec) (gcp_create_args id);
      match r with
      | Err e =>
          if Contains (gcpStderr e) B["already_exists"] then
            r ← gcp_secrets g (Some rec) (gcp_add_args id); checked gcpClassify r
          else throw (gcpClassify e)
      | Ok _ => mret tt
      end.

Definition gcp_fetch (g : GCP) (id : bytes) : prog bytes :=
  r ← gcp_secrets g None (gcp_access_args id); lift (classified gcpClassify r).

Definition gcp_Get (g : GCP) (name : string) : prog (bytes * Metadata) :=
  id ← lift (gcp_remote g name);
  rec ← gcp_fetch g id;
  '(value, m) ← lift (decodeRecord rec);
  if decide (Name m = name) then mret (value, m) else throw ErrNotFound.

Definition gcp_Delete (g : GCP) (name : string) : prog unit :=
  id ← lift (gcp_remote g name);
  r ← gcp_secrets g None (gcp_describe_args id);
  match r with
  | Err e => throw (gcpClassify e)
  | Ok _ => r ← gcp_secrets g None (gcp_delete_args id); checked gcpClassify r
  end.

(** The record behind one entry, when it is one and belongs there. *)
Definition gcp_listed (g : GCP) (id rec : bytes) : option Metadata :=
  match decodeRecord rec with
  | Ok (_, m) => match gcp_remote g (Name m) with Ok r => if beq r id then Some m else None | Err _ => None end
  | Err _ => None
  end.

Fixpoint gcp_entries (g : GCP) (items : list bytes) : prog (list Metadata) :=
  match items with
  | [] => mret []
  | item :: items =>
      let id := last_segment item in
      if negb (HasPrefix id (gcp_prefix g)) then gcp_entries g items
      else
        rec ← attempt (gcp_fetch g id);
        match rec with
        | Err ErrNotFound => gcp_entries g items
        | Err e => throw e
        | Ok rec => rest ← gcp_entries g items; mret (option_list (gcp_listed g id rec) ++ rest)
        end
  end.

Definition gcp_List (g : GCP) : prog (list Metadata) :=
  _ ← lift (gcp_remote g "probe");
  r ← gcp_secrets g None gcp_list_args;
  match r with
  | Err e => throw (gcpClassify e)
  | Ok out =>
      match read_json gcp_items_codec out with
      | None => throw ErrOther
      | Some items => l ← gcp_entries g items; mret (sort_by_name l)
      end
  end.

#[export] Instance gcp_backend {W} `{Runner W} : Backend (Tool GCP W) := {
  b_Name := gcp_Name; b_Probe := probe_of gcp_Probe;
  b_Put n v m := on_world (λ g, gcp_Put g n v m); b_Get n := on_world (λ g, gcp_Get g n);
  b_Delete n := on_world (λ g, gcp_Delete g n); b_List := on_world gcp_List }.
End gcp.
