(* ===== verification/Aws.v ===== *)
(** The backend in AWS Secrets Manager: internal/storage/aws.go. *)
From S2P Require Import Prelude GoSort GoStrings GoText Json JsonDoc Secrets Records Cli.
From Stdlib Require Import Strings.Byte.

Record AWS := mkAWS { aws_Prefix : bytes; aws_Region : bytes; aws_Profile : bytes }.

Definition DefaultAWSPrefix : bytes := B["burndrop/"].
Definition awsMaxRecordBytes : Z := 65536.
Definition awsMaxValueBytes : Z := (awsMaxRecordBytes - 1024) / 4 * 3.

(** [^[A-Za-z0-9/_+=.@-]{1,512}$] *)
Definition awsNameRe (s : bytes) : bool :=
  forallb (λ b, is_alnum b || bool_decide (b ∈ B["/_+=.@-"])) s && (1 <=? zlen s) && (zlen s <=? 512).

Definition NewAWS (opts : AWS) : AWS :=
  mkAWS (or_default (aws_Prefix opts) DefaultAWSPrefix) (aws_Region opts) (aws_Profile opts).

Definition aws_Name : bytes := B["aws"].

Definition aws_prefix (a : AWS) : bytes := or_default (aws_Prefix a) DefaultAWSPrefix.

Definition aws_remote (a : AWS) (name : string) : result storage_error bytes :=
  _ ← ValidateName name;
  let r := aws_prefix a ++ bs name in
  if awsNameRe r then Ok r else Err ErrInvalidName.

Definition aws_run (a : AWS) (args : list bytes) : prog (result cli_error bytes) :=
  exec (mkInvocation B["aws"]
    (args ++ [B["--output"]; B["json"]; B["--no-cli-pager"]] ++ flag B["--region"] (aws_Region a) ++ flag B["--profile"] (aws_Profile a))
    None [B["AWS_CLI_FILE_ENCODING=UTF-8"]]).

(** The answers that are read. *)
Definition identity_codec : codec (bytes * bytes) := two_fields string_codec B["Account"] string_codec B["Arn"].
Definition secret_string_codec : codec bytes := one_field string_codec B["SecretString"].
Definition secret_list_codec : codec (list (option json)) := one_field (list_codec raw_codec) B["SecretList"].
Definition aws_item_codec : codec bytes := one_field string_codec B["Name"].

(** An entry that has a DeletedDate other than null. *)
Definition awsScheduledForDeletion (item : option json) : bool :=
  match Unmarshal_raw (one_field raw_codec B["DeletedDate"]) item None with
  | Some (Some JNull) | Some None | None => false
  | Some (Some _) => true
  end.

Section aws.
Context `{Unicode}.

Definition awsStderr : cli_error → bytes := cli_stderr.

Definition aws_denied : list bytes :=
  [B["unable to locate credentials"]; B["expiredtoken"]; B["invalidclienttokenid"]; B["unrecognizedclient"];
   B["security token"]; B["not authorized"]; B["sso session"]; B["token has expired"]].

Definition awsClassify : cli_error → storage_error :=
  classify_with aws_denied [B["ResourceNotFoundException"]; B["marked for deletion"]].

Definition aws_create_args (remote arg : bytes) : list bytes :=
  [B["secretsmanager"]; B["create-secret"]; B["--name"]; remote; B["--description"]; B["burndrop record"]; B["--secret-string"]; arg].
Definition aws_put_args (remote arg : bytes) : list bytes :=
  [B["secretsmanager"]; B["put-secret-value"]; B["--secret-id"]; remote; B["--secret-string"]; arg].
Definition aws_get_args (remote : bytes) : list bytes := [B["secretsmanager"]; B["get-secret-value"]; B["--secret-id"]; remote].
Definition aws_describe_args (remote : bytes) : list bytes := [B["secretsmanager"]; B["describe-secret"]; B["--secret-id"]; remote].
Definition aws_delete_args (remote : bytes) : list bytes :=
  [B["secretsmanager"]; B["delete-secret"]; B["--secret-id"]; remote; B["--force-delete-without-recovery"]].
Definition aws_list_args (prefix : bytes) : list bytes :=
  [B["secretsmanager"]; B["list-secrets"]; B["--filters"]; B["Key=name,Values="] ++ prefix].

(** Errors inside a reason are cut to what they wrap. *)
Definition aws_Probe (a : AWS) : prog Probe :=
  found ← look_path B["aws"];
  if negb found then mret (refused B["aws CLI not found in PATH; install AWS CLI v2 (https://docs.aws.amazon.com/cli/latest/userguide/getting-started-install.html)"])
  else
    match aws_remote a "probe" with
    | Err _ => mret (refused B["storage: invalid secret name"])
    | Ok _ =>
        out ← aws_run a [B["sts"]; B["get-caller-identity"]];
        mret
          (match out with
           | Err e => refused (B["aws CLI found but no usable credentials (run aws configure or aws sso login): "] ++ shortErr (cli_text e))
           | Ok out =>
               match read_json identity_codec out with
               | None => refused B["aws sts get-caller-identity returned no identity"]
               | Some (account, arn) =>
                   if is_empty arn then refused B["aws sts get-caller-identity returned no identity"]
                   else mkProbe true (B["AWS Secrets Manager as "] ++ arn ++ B[" (account "] ++ account ++ B[")"] ++
                          (if is_empty (aws_Region a) then [] else B[" in "] ++ aws_Region a)) 85
               end
           end)
    end.

Definition aws_Put (a : AWS) (name : string) (value : bytes) (meta : Metadata) : prog unit :=
  remote ← lift (aws_remote a name);
  if awsMaxValueBytes <? zlen value then throw ErrTooLarge
  else
    rec ← lift (encodeRecord (stamp aws_Name name value meta) value);
    if awsMaxRecordBytes <? zlen rec then throw ErrTooLarge
    else
      with_temp rec (λ path,
        let arg := B["file://"] ++ path in
        r ← aws_run a (aws_create_args remote arg);
        match r with
        | Ok _ => mret tt
        | Err e =>
            if Contains (awsStderr e) B["resourceexistsexception"] then
              r ← aws_run a (aws_put_args remote arg); checked awsClassify r
            else if Contains (awsStderr e) B["scheduled for deletion"] then throw ErrOther
            else throw (awsClassify e)
        end).

Definition aws_fetch (a : AWS) (remote : bytes) : prog bytes :=
  r ← aws_run a (aws_get_args remote);
  match r with
  | Err e => throw (awsClassify e)
  | Ok out => match read_json secret_string_codec out with None => throw ErrOther | Some s => mret s end
  end.

Definition aws_Get (a : AWS) (name : string) : prog (bytes * Metadata) :=
  remote ← lift (aws_remote a name);
  rec ← aws_fetch a remote;
  '(value, m) ← lift (decodeRecord rec);
  if decide (Name m = name) then mret (value, m) else throw ErrNotFound.

Definition aws_Delete (a : AWS) (name : string) : prog unit :=
  remote ← lift (aws_remote a name);
  r ← aws_run a (aws_describe_args remote);
  match r with
  | Err e => throw (awsClassify e)
  | Ok out =>
      if awsScheduledForDeletion (parse_json out) then throw ErrNotFound
      else r ← aws_run a (aws_delete_args remote); checked awsClassify r
  end.

(** The name of an entry of the list, when it can be one of ours. *)
Definition aws_item_name (a : AWS) (item : option json) : option bytes :=
  match Unmarshal_raw aws_item_codec item [] with
  | Some n => if HasPrefix n (aws_prefix a) && negb (awsScheduledForDeletion item) then Some n else None
  | None => None
  end.

Fixpoint aws_entries (a : AWS) (items : list (option json)) : prog (list Metadata) :=
  match items with
  | [] => mret []
  | item :: items =>
      match aws_item_name a item with
      | None => aws_entries a items
      | Some s =>
          let name := sb (TrimPrefix s (aws_prefix a)) in
          if negb (is_ok (ValidateName name)) then aws_entries a items
          else
            rec ← attempt (aws_fetch a s);
            match rec with
            | Err ErrNotFound => aws_entries a items
            | Err e => throw e
            | Ok rec =>
                rest ← aws_entries a items;
                mret (match decodeRecord rec with
                      | Ok (_, m) => if decide (Name m = name) then m :: rest else rest
                      | Err _ => rest
                      end)
            end
      end
  end.

Definition aws_List (a : AWS) : prog (list Metadata) :=
  _ ← lift (aws_remote a "probe");
  r ← aws_run a (aws_list_args (aws_prefix a));
  match r with
  | Err e => throw (awsClassify e)
  | Ok out =>
      match read_json secret_list_codec out with
      | None => throw ErrOther
      | Some items => l ← aws_entries a items; mret (sort_by_name l)
      end
  end.

#[export] Instance aws_backend {W} `{Runner W} : Backend (Tool AWS W) := {
  b_Name := aws_Name; b_Probe := probe_of aws_Probe;
  b_Put n v m := on_world (λ a, aws_Put a n v m); b_Get n := on_world (λ a, aws_Get a n);
  b_Delete n := on_world (λ a, aws_Delete a n); b_List := on_world aws_List }.
End aws.
