(* ===== verification/Azure.v ===== *)
(** The backend in an Azure Key Vault: internal/storage/azure.go. *)
From S2P Require Import Prelude Sha256 GoSort GoStrings GoText GoTime Json JsonDoc Secrets Records Cli.
From Stdlib Require Import Strings.Byte.

Record Azure := mkAzure { az_VaultName : bytes; az_Prefix : bytes; az_Purge : bool }.

Definition DefaultAzurePrefix : bytes := B["burndrop-"].
Definition azureMaxRecordBytes : Z := 25 * 1024.
Definition azureMaxValueBytes : Z := (azureMaxRecordBytes - 1024) / 4 * 3.

(** [^[A-Za-z0-9-]{1,127}$] *)
Definition azureNameRe (s : bytes) : bool :=
  forallb (λ b, is_alnum b || bool_decide (b = x2d)) s && (1 <=? zlen s) && (zlen s <=? 127).

(** [^[a-z0-9-]+$] *)
Definition azurePlainRe (s : bytes) : bool :=
  forallb (λ b, is_lower b || is_digit b || bool_decide (b = x2d)) s && negb (is_empty s).

Definition NewAzure (opts : Azure) : Azure :=
  mkAzure (az_VaultName opts) (or_default (az_Prefix opts) DefaultAzurePrefix) (az_Purge opts).

Definition azure_Name : bytes := B["azure"].

Definition azure_prefix (z : Azure) : bytes := or_default (az_Prefix z) DefaultAzurePrefix.

Definition azure_ready (z : Azure) : result storage_error unit :=
  if is_empty (az_VaultName z) then Err ErrUnavailable
  else if negb (azureNameRe (azure_prefix z ++ B["x"])) then Err ErrInvalidName
  else Ok tt.

(** The function of [strings.Map]. *)
Definition azure_char (r : rune) : byte :=
  if ((97 <=? r) && (r <=? 122)) || ((48 <=? r) && (r <=? 57)) || (r =? 45) then z2b r
  else if (65 <=? r) && (r <=? 90) then z2b (r + 32)
  else x2d.

Definition azureMapName (name : bytes) : bytes :=
  if azurePlainRe name then name
  else (azure_char <$> runes name) ++ B["-"] ++ HexEncode (take 4 (sha256 name)).

Definition azure_remote (z : Azure) (name : string) : result storage_error bytes :=
  _ ← ValidateName name;
  _ ← azure_ready z;
  let r := azure_prefix z ++ azureMapName (bs name) in
  if azureNameRe r then Ok r else Err ErrInvalidName.

Definition azure_run (args : list bytes) : prog (result cli_error bytes) :=
  exec (mkInvocation B["az"] (args ++ [B["--output"]; B["json"]; B["--only-show-errors"]]) None []).

(** The answers that are read. *)
Definition account_show_codec : codec (bytes * (bytes * bytes)) :=
  struct_codec
    [mkField string_codec B["name"] never fst (λ x r, (x, r.2));
     mkField string_codec B["state"] never (fst ∘ snd) (λ x r, (r.1, (x, r.2.2)));
     mkField (one_field string_codec B["name"]) B["user"] never (snd ∘ snd) (λ x r, (r.1, (r.2.1, x)))]
    ([], ([], [])).

Definition azure_value_codec : codec bytes := one_field string_codec B["value"].

Record azure_item := mkAzureItem { ai_ID : bytes; ai_Name : bytes; ai_Tags : gmap string bytes }.

Definition azure_items_codec : codec (list azure_item) :=
  list_codec (struct_codec
    [mkField string_codec B["id"] never ai_ID (λ x r, mkAzureItem x (ai_Name r) (ai_Tags r));
     mkField string_codec B["name"] never ai_Name (λ x r, mkAzureItem (ai_ID r) x (ai_Tags r));
     mkField (map_codec string_codec) B["tags"] never ai_Tags (λ x r, mkAzureItem (ai_ID r) (ai_Name r) x)]
    (mkAzureItem [] [] ∅)).

Section azure.
Context `{Unicode}.

Definition azureStderr : cli_error → bytes := cli_stderr.

Definition azure_denied : list bytes :=
  [B["az login"]; B["authenticationfailed"]; B["aadsts"]; B["interactive authentication"]; B["invalidauthenticationtoken"]].

Definition azureClassify : cli_error → storage_error := classify_with azure_denied [B["SecretNotFound"]].

(** [az keyvault secret] with an action on one secret. *)
Definition azure_secret_args (z : Azure) (action remote : bytes) : list bytes :=
  [B["keyvault"]; B["secret"]; action; B["--vault-name"]; az_VaultName z; B["--name"]; remote].
Definition azure_set_args (z : Azure) (remote path : bytes) : list bytes :=
  azure_secret_args z B["set"] remote ++ [B["--file"]; path; B["--encoding"]; B["utf-8"]; B["--tags"]; B["burndrop=1"]].
Definition azure_list_args (z : Azure) : list bytes :=
  [B["keyvault"]; B["secret"]; B["list"]; B["--vault-name"]; az_VaultName z; B["--query"]; B["[?tags.burndrop=='1']"]].

(** Errors inside a reason are cut to what they wrap. *)
Definition azure_Probe (z : Azure) : prog Probe :=
  found ← look_path B["az"];
  if negb found then mret (refused B["az not found in PATH; install the Azure CLI (https://learn.microsoft.com/cli/azure/install-azure-cli)"])
  else if is_empty (az_VaultName z) then mret (refused B["Azure.VaultName is not set"])
  else
    match azure_ready z with
    | Err _ => mret (refused B["storage: invalid secret name"])
    | Ok _ =>
        out ← azure_run [B["account"]; B["show"]];
        mret
          (match out with
           | Err e => refused (B["az found but not signed in (run az login): "] ++ shortErr (cli_text e))
           | Ok out =>
               match read_json account_show_codec out with
               | None => refused B["az account show returned no subscription"]
               | Some (name, (state, user)) =>
                   if is_empty name then refused B["az account show returned no subscription"]
                   else mkProbe true (B["Azure Key Vault "] ++ az_VaultName z ++ B[" as "] ++ user ++ B[", subscription "] ++
                          name ++ B[" ("] ++ state ++ B[")"]) 85
               end
           end)
    end.

Definition azure_Put (z : Azure) (name : string) (value : bytes) (meta : Metadata) : prog unit :=
  remote ← lift (azure_remote z name);
  if azureMaxValueBytes <? zlen value then throw ErrTooLarge
  else
    rec ← lift (encodeRecord (stamp azure_Name name value meta) value);
    if azureMaxRecordBytes <? zlen rec then throw ErrTooLarge
    else
      with_temp rec (λ path,
        r ← azure_run (azure_set_args z remote path);
        match r with
        | Ok _ => mret tt
        | Err e => if Contains (azureStderr e) B["deleted but recoverable"] then throw ErrOther else throw (azureClassify e)
        end).

Definition azure_fetch (z : Azure) (remote : bytes) : prog bytes :=
  r ← azure_run (azure_secret_args z B["show"] remote);
  match r with
  | Err e => throw (azureClassify e)
  | Ok out => match read_json azure_value_codec out with None => throw ErrOther | Some s => mret s end
  end.

Definition azure_Get (z : Azure) (name : string) : prog (bytes * Metadata) :=
  remote ← lift (azure_remote z name);
  rec ← azure_fetch z remote;
  '(value, m) ← lift (decodeRecord rec);
  if decide (Name m = name) then mret (value, m) else throw ErrNotFound.

(** The rounds of [purge] from one on: [todo] more may follow. *)
Fixpoint azure_purge_from (z : Azure) (remote : bytes) (todo : nat) (attempt : Z) : prog unit :=
  cancelled ← (if 0 <? attempt then Pause (attempt * Second) mret else mret false);
  if cancelled : bool then throw ErrOther
  else
    r ← azure_run (azure_secret_args z B["purge"] remote);
    match r with
    | Ok _ => mret tt
    | Err e =>
        match todo with
        | S todo =>
            if Contains (azureStderr e) B["being deleted"] || Contains (azureStderr e) B["conflict"]
            then azure_purge_from z remote todo (attempt + 1) else throw (azureClassify e)
        | O => throw (azureClassify e)
        end
    end.

Definition azure_purge (z : Azure) (remote : bytes) : prog unit := azure_purge_from z remote 4 0.

Definition azure_Delete (z : Azure) (name : string) : prog unit :=
  remote ← lift (azure_remote z name);
  r ← azure_run (azure_secret_args z B["delete"] remote);
  match r with
  | Err e => throw (azureClassify e)
  | Ok _ => if az_Purge z then azure_purge z remote else mret tt
  end.

Definition azure_item_name (item : azure_item) : bytes :=
  if is_empty (ai_Name item) then last_segment (ai_ID item) else ai_Name item.

Definition azure_ours (z : Azure) (item : azure_item) : bool :=
  beq (default [] (ai_Tags item !! "burndrop"%string)) B["1"] &&
  HasPrefix (ToLower (azure_item_name item)) (ToLower (azure_prefix z)).

(** The record behind one entry, when it is one and belongs there. *)
Definition azure_listed (z : Azure) (name rec : bytes) : option Metadata :=
  match decodeRecord rec with
  | Ok (_, m) => match azure_remote z (Name m) with Ok r => if EqualFold r name then Some m else None | Err _ => None end
  | Err _ => None
  end.

Fixpoint azure_entries (z : Azure) (items : list azure_item) : prog (list Metadata) :=
  match items with
  | [] => mret []
  | item :: items =>
      if negb (azure_ours z item) then azure_entries z items
      else
        rec ← attempt (azure_fetch z (azure_item_name item));
        match rec with
        | Err ErrNotFound => azure_entries z items
        | Err e => throw e
        | Ok rec => rest ← azure_entries z items; mret (option_list (azure_listed z (azure_item_name item) rec) ++ rest)
        end
  end.

Definition azure_List (z : Azure) : prog (list Metadata) :=
  _ ← lift (azure_ready z);
  r ← azure_run (azure_list_args z);
  match r with
  | Err e => throw (azureClassify e)
  | Ok out =>
      match read_json azure_items_codec out with
      | None => throw ErrOther
      | Some items => l ← azure_entries z items; mret (sort_by_name l)
      end
  end.

#[export] Instance azure_backend {W} `{Runner W} : Backend (Tool Azure W) := {
  b_Name := azure_Name; b_Probe := probe_of azure_Probe;
  b_Put n v m := on_world (λ z, azure_Put z n v m); b_Get n := on_world (λ z, azure_Get z n);
  b_Delete n := on_world (λ z, azure_Delete z n); b_List := on_world azure_List }.
End azure.
