(* ===== verification/Doppler.v ===== *)
(** The backend in Doppler: internal/storage/doppler.go. *)
From S2P Require Import Prelude GoSort GoStrings GoText Json JsonDoc Secrets Records Dotenv Cli.
From Stdlib Require Import Strings.Byte.

Record DopplerOptions := mkDoppler { dop_Project : bytes; dop_Config : bytes }.

Definition DopplerMaxValueBytes : Z := 36 * 1024.
Definition dopplerKeyPrefix : bytes := B["BURNDROP_"].
Definition dopplerValueLimit : Z := 50 * 1024.
Definition doppler_Name : bytes := B["doppler"].

(** The flags of a command on secrets, then the one of every command. *)
Definition doppler_run (d : DopplerOptions) (stdin : option bytes) (scoped : bool) (args : list bytes)
    : prog (result cli_error bytes) :=
  exec (mkInvocation B["doppler"]
    (args ++ (if scoped then flag B["--project"] (dop_Project d) ++ flag B["--config"] (dop_Config d) else []) ++
     [B["--no-check-version"]]) stdin []).

(** The answers that are read. *)
Definition doppler_me_codec : codec (bytes * (bytes * bytes)) :=
  struct_codec
    [mkField string_codec B["name"] never fst (λ x r, (x, r.2));
     mkField string_codec B["type"] never (fst ∘ snd) (λ x r, (r.1, (x, r.2.2)));
     mkField (one_field string_codec B["name"]) B["workplace"] never (snd ∘ snd) (λ x r, (r.1, (r.2.1, x)))]
    ([], ([], [])).
Definition doppler_values_codec : codec (gmap string (option bytes)) :=
  map_codec (one_field (pointer_codec string_codec) B["raw"]).
Definition doppler_names_codec : codec (gmap string (option json)) := map_codec raw_codec.

Section doppler.
Context `{Unicode} `{UnicodeUpper}.

Definition dopplerKey (name : string) : bytes := dopplerKeyPrefix ++ EnvKey (bs name).

Definition doppler_denied : list bytes :=
  [B["invalid auth token"]; B["invalid token"]; B["you must provide a token"]; B["not authorized"]; B["unauthorized"];
   B["unauthenticated"]; B["unable to authenticate"]; B["invalid credentials"]].

Definition dopplerClassify : cli_error → storage_error :=
  classify_with doppler_denied [B["could not find requested secret"]].

Definition dopplerErrText (e : cli_error) : bytes :=
  match exit_stderr e with
  | None | Some [] => shortErr (cli_text e)
  | Some s => shortErr (first_line (TrimSpace (TrimPrefix s B["Doppler Error:"])))
  end.

Definition doppler_get_args (keys : list bytes) : list bytes := [B["secrets"]; B["get"]] ++ keys ++ [B["--json"]].
Definition doppler_set_args (key : bytes) : list bytes := [B["secrets"]; B["set"]; key; B["--no-interactive"]; B["--silent"]].
Definition doppler_delete_args (key : bytes) : list bytes := [B["secrets"]; B["delete"]; key; B["--yes"]; B["--silent"]].
Definition doppler_names_args : list bytes := [B["secrets"]; B["--only-names"]; B["--json"]].

(** An answer that cannot be read counts as an empty one; that fields of
    the right type next to one of the wrong type are still used is left out. *)
Definition doppler_Probe (d : DopplerOptions) : prog Probe :=
  found ← look_path B["doppler"];
  if negb found then mret (refused B["Doppler CLI (doppler) is not installed; install it from https://docs.doppler.com/docs/install-cli and run doppler login"])
  else
    out ← doppler_run d None false [B["me"]; B["--json"]];
    mret
      (match out with
       | Err e => refused (B["doppler is installed but not authenticated ("] ++ dopplerErrText e ++ B["); run doppler login or set DOPPLER_TOKEN"])
       | Ok out =>
           let '(name, (type, workplace)) := default ([], ([], [])) (read_json doppler_me_codec out) in
           let part (before value after : bytes) := if is_empty value then [] else before ++ value ++ after in
           mkProbe true (B["authenticated"] ++ part B[" as "] name [] ++ part B[" ("] type B[")"] ++ part B[" in workplace "] workplace [] ++
             part B[", project "] (dop_Project d) [] ++ part B[", config "] (dop_Config d) []) 86
       end).

(** The raw values of keys; one that does not exist fails the whole call. *)
Definition doppler_fetch (d : DopplerOptions) (keys : list bytes) : prog (gmap string bytes) :=
  r ← doppler_run d None true (doppler_get_args keys);
  match r with
  | Err e => throw (dopplerClassify e)
  | Ok out => match read_json doppler_values_codec out with None => throw ErrOther | Some parsed => mret (omap id parsed) end
  end.

Definition doppler_lookup (d : DopplerOptions) (key : bytes) : prog bytes :=
  values ← doppler_fetch d [key];
  lift (match values !! sb key with Some raw => Ok raw | None => Err ErrPermission end).

(** The record a key holds must be the one of [name]; [e] is the error for
    another name. *)
Definition doppler_owner (name : string) (e : storage_error) (raw : bytes) : result storage_error (bytes * Metadata) :=
  match decodeRecord raw with
  | Err _ => Err ErrOther
  | Ok (v, m) => if decide (Name m = name) then Ok (v, m) else Err e
  end.

(** Whether a name may be written, by what its key was found to hold. *)
Definition doppler_collision (name : string) (found : result storage_error bytes) : result storage_error unit :=
  match found with
  | Err ErrNotFound => Ok tt
  | Err e => Err e
  | Ok raw => _ ← doppler_owner name ErrInvalidName raw; Ok tt
  end.

Definition doppler_Put (d : DopplerOptions) (name : string) (value : bytes) (meta : Metadata) : prog unit :=
  _ ← lift (ValidateName name);
  if DopplerMaxValueBytes <? zlen value then throw ErrTooLarge
  else
    rec ← lift (encodeRecord (stamp doppler_Name name value meta) value);
    if dopplerValueLimit <? zlen rec then throw ErrTooLarge
    else
      let key := dopplerKey name in
      raw ← attempt (doppler_lookup d key);
      _ ← lift (doppler_collision name raw);
      r ← doppler_run d (Some rec) true (doppler_set_args key);
      checked dopplerClassify r.

Definition doppler_Get (d : DopplerOptions) (name : string) : prog (bytes * Metadata) :=
  _ ← lift (ValidateName name);
  raw ← doppler_lookup d (dopplerKey name);
  lift (doppler_owner name ErrNotFound raw).

Definition doppler_Delete (d : DopplerOptions) (name : string) : prog unit :=
  _ ← lift (ValidateName name);
  let key := dopplerKey name in
  raw ← doppler_lookup d key;
  _ ← lift (doppler_owner name ErrNotFound raw);
  r ← doppler_run d None true (doppler_delete_args key);
  checked dopplerClassify r.

(** The metadata of a key's record, when the record belongs there. *)
Definition doppler_listed (values : gmap string bytes) (key : string) : option Metadata :=
  raw ← values !! key;
  match decodeRecord raw with
  | Ok (_, m) => if beq (dopplerKey (Name m)) (bs key) then Some m else None
  | Err _ => None
  end.

Definition doppler_List (d : DopplerOptions) : prog (list Metadata) :=
  r ← doppler_run d None true doppler_names_args;
  match r with
  | Err e => throw (dopplerClassify e)
  | Ok out =>
      match read_json doppler_names_codec out with
      | None => throw ErrOther
      | Some names =>
          let keys := sort_stable String.ltb (filter (λ k, HasPrefix (bs k) dopplerKeyPrefix = true) (map_to_list names).*1) in
          match keys with
          | [] => mret []
          | _ =>
              values ← doppler_fetch d (bs <$> keys);
              mret (sort_by_name (omap (doppler_listed values) keys))
          end
      end
  end.

#[export] Instance doppler_backend {W} `{Runner W} : Backend (Tool DopplerOptions W) := {
  b_Name := doppler_Name; b_Probe := probe_of doppler_Probe;
  b_Put n v m := on_world (λ d, doppler_Put d n v m); b_Get n := on_world (λ d, doppler_Get d n);
  b_Delete n := on_world (λ d, doppler_Delete d n); b_List := on_world doppler_List }.
End doppler.
