(* ===== verification/Infisical.v ===== *)
(** The backend in Infisical: internal/storage/infisical.go. *)
From S2P Require Import Prelude GoSort GoStrings GoText Json JsonDoc Secrets Records Dotenv Cli.
From Stdlib Require Import Strings.Byte.

Record InfisicalOptions := mkInfisical { inf_ProjectID : bytes; inf_Environment : bytes; inf_Path : bytes }.

Definition infisicalKeyPrefix : bytes := B["BURNDROP_"].
Definition infisical_Name : bytes := B["infisical"].

Definition infisical_run (i : InfisicalOptions) (args : list bytes) : prog (result cli_error bytes) :=
  exec (mkInvocation B["infisical"]
    (args ++ flag B["--env"] (inf_Environment i) ++ flag B["--projectId"] (inf_ProjectID i) ++ flag B["--path"] (inf_Path i) ++
     [B["--silent"]]) None [B["INFISICAL_DISABLE_UPDATE_CHECK=true"]]).

Definition infisical_scope (i : InfisicalOptions) : bytes :=
  JoinStr B[", "]
    ([(if is_empty (inf_ProjectID i) then B["the project in .infisical.json"] else B["project "] ++ inf_ProjectID i);
      (if is_empty (inf_Environment i) then B["the default environment"] else B["environment "] ++ inf_Environment i)] ++
     (if is_empty (inf_Path i) then [] else [B["path "] ++ inf_Path i])).

(** [bytes.TrimRight(out, cutset)] with carriage return and newline. *)
Definition trim_newlines (s : bytes) : bytes := reverse (strip (length s) [[x0d]; [x0a]] (reverse s)).

Definition infisical_export_codec : codec (list (bytes * bytes)) :=
  list_codec (two_fields string_codec B["key"] string_codec B["value"]).

Section infisical.
Context `{Unicode} `{UnicodeUpper}.

Definition infisicalKey (name : string) : bytes := infisicalKeyPrefix ++ EnvKey (bs name).

Definition infisical_denied : list bytes :=
  [B["must be logged in"]; B["not logged in"]; B["unauthorized"]; B["unauthenticated"]; B["invalid token"];
   B["token expired"]; B["expired token"]; B["invalid access token"]; B["forbidden"]].

Definition infisicalClassify : cli_error → storage_error :=
  classify_with infisical_denied [B["secret not found"]; B["not found"]].

Definition infisicalErrText (e : cli_error) : bytes :=
  match exit_stderr e with
  | None | Some [] => shortErr (cli_text e)
  | Some s => shortErr (first_line (TrimPrefix s B["error: "]))
  end.

Definition infisical_get_args (key : bytes) : list bytes :=
  [B["secrets"]; B["get"]; key; B["--plain"]; B["--expand=false"]; B["--include-imports=false"]].
Definition infisical_set_args (key path : bytes) : list bytes := [B["secrets"]; B["set"]; key ++ B["=@"] ++ path].
Definition infisical_delete_args (key : bytes) : list bytes := [B["secrets"]; B["delete"]; key].
Definition infisical_export_args : list bytes :=
  [B["export"]; B["--format=json"]; B["--expand=false"]; B["--include-imports=false"]].

Definition infisical_Probe (i : InfisicalOptions) : prog Probe :=
  found ← look_path B["infisical"];
  if negb found then mret (refused B["Infisical CLI (infisical) is not installed; install it from https://infisical.com/docs/cli/overview and run infisical login"])
  else
    out ← infisical_run i [B["secrets"]; B["folders"]; B["get"]];
    mret
      (match out with
       | Err e => refused (B["infisical cannot read "] ++ infisical_scope i ++ B[" ("] ++ infisicalErrText e ++
                    B["); run infisical login or set INFISICAL_TOKEN, and run infisical init or pass a project ID"])
       | Ok _ => mkProbe true (B["authenticated for "] ++ infisical_scope i) 86
       end).

(** The raw value under a key; a missing one prints nothing. *)
Definition infisical_fetch (i : InfisicalOptions) (key : bytes) : prog (option bytes) :=
  r ← infisical_run i (infisical_get_args key);
  match r with
  | Err e => throw (infisicalClassify e)
  | Ok out => let out := trim_newlines out in mret (if is_empty out then None else Some out)
  end.

(** The record a key holds must be the one of [name]; [e] is the error for
    another name. *)
Definition infisical_owner (name : string) (e : storage_error) (raw : bytes) : result storage_error (bytes * Metadata) :=
  match decodeRecord raw with
  | Err _ => Err ErrOther
  | Ok (v, m) => if decide (Name m = name) then Ok (v, m) else Err e
  end.

Definition infisical_Put (i : InfisicalOptions) (name : string) (value : bytes) (meta : Metadata) : prog unit :=
  _ ← lift (ValidateName name);
  rec ← lift (encodeRecord (stamp infisical_Name name value meta) value);
  let key := infisicalKey name in
  raw ← infisical_fetch i key;
  _ ← match raw with
      | None => mret tt
      | Some raw => _ ← lift (infisical_owner name ErrInvalidName raw); mret tt
      end;
  with_temp rec (λ path, r ← infisical_run i (infisical_set_args key path); checked infisicalClassify r).

Definition infisical_Get (i : InfisicalOptions) (name : string) : prog (bytes * Metadata) :=
  _ ← lift (ValidateName name);
  raw ← infisical_fetch i (infisicalKey name);
  match raw with
  | None => throw ErrNotFound
  | Some raw => lift (infisical_owner name ErrNotFound raw)
  end.

Definition infisical_Delete (i : InfisicalOptions) (name : string) : prog unit :=
  _ ← lift (ValidateName name);
  let key := infisicalKey name in
  raw ← infisical_fetch i key;
  match raw with
  | None => throw ErrNotFound
  | Some raw =>
      _ ← lift (infisical_owner name ErrNotFound raw);
      r ← infisical_run i (infisical_delete_args key);
      checked infisicalClassify r
  end.

(** The metadata of an exported entry, when it is one of ours. *)
Definition infisical_listed (e : bytes * bytes) : option Metadata :=
  if negb (HasPrefix e.1 infisicalKeyPrefix) then None
  else
    match decodeRecord e.2 with
    | Ok (_, m) => if beq (infisicalKey (Name m)) e.1 then Some m else None
    | Err _ => None
    end.

Definition infisical_List (i : InfisicalOptions) : prog (list Metadata) :=
  r ← infisical_run i infisical_export_args;
  match r with
  | Err e => throw (infisicalClassify e)
  | Ok out =>
      let trimmed := TrimSpace out in
      match (if is_empty trimmed then Some [] else read_json infisical_export_codec trimmed) with
      | None => throw ErrOther
      | Some envs => mret (sort_by_name (omap infisical_listed envs))
      end
  end.

#[export] Instance infisical_backend {W} `{Runner W} : Backend (Tool InfisicalOptions W) := {
  b_Name := infisical_Name; b_Probe := probe_of infisical_Probe;
  b_Put n v m := on_world (λ i, infisical_Put i n v m); b_Get n := on_world (λ i, infisical_Get i n);
  b_Delete n := on_world (λ i, infisical_Delete i n); b_List := on_world infisical_List }.
End infisical.
