(* ===== verification/OnePassword.v ===== *)
(** The backend in 1Password: internal/storage/onepassword.go. *)
From S2P Require Import Prelude GoSort GoStrings GoText Json JsonDoc Secrets Records Cli.
From Stdlib Require Import Strings.Byte.

Record OnePasswordOptions := mkOnePassword { op_Vault : bytes; op_Account : bytes }.

Definition onePasswordTitlePrefix : bytes := B["burndrop/"].
Definition onePasswordTag : bytes := B["burndrop"].
Definition onePasswordFieldLabel : bytes := B["record"].
Definition onepassword_Name : bytes := B["onepassword"].

(** The item that the tool reads. *)
Record onePasswordField := mkOPField { opf_ID : bytes; opf_Type : bytes; opf_Label : bytes; opf_Value : bytes }.

Definition op_field_codec : codec onePasswordField :=
  struct_codec
    [mkField string_codec B["id"] never opf_ID (λ x r, mkOPField x (opf_Type r) (opf_Label r) (opf_Value r));
     mkField string_codec B["type"] never opf_Type (λ x r, mkOPField (opf_ID r) x (opf_Label r) (opf_Value r));
     mkField string_codec B["label"] never opf_Label (λ x r, mkOPField (opf_ID r) (opf_Type r) x (opf_Value r));
     mkField string_codec B["value"] never opf_Value (λ x r, mkOPField (opf_ID r) (opf_Type r) (opf_Label r) x)]
    (mkOPField [] [] [] []).

Record onePasswordTemplate := mkTemplate {
  opt_Title : bytes; opt_Category : bytes; opt_Tags : list bytes; opt_Fields : list onePasswordField }.

Definition op_template_codec : codec onePasswordTemplate :=
  struct_codec
    [mkField string_codec B["title"] never opt_Title (λ x r, mkTemplate x (opt_Category r) (opt_Tags r) (opt_Fields r));
     mkField string_codec B["category"] never opt_Category (λ x r, mkTemplate (opt_Title r) x (opt_Tags r) (opt_Fields r));
     mkField (list_codec string_codec) B["tags"] never opt_Tags (λ x r, mkTemplate (opt_Title r) (opt_Category r) x (opt_Fields r));
     mkField (list_codec op_field_codec) B["fields"] never opt_Fields (λ x r, mkTemplate (opt_Title r) (opt_Category r) (opt_Tags r) x)]
    (mkTemplate [] [] [] []).

(** The answers that are read: items as identifier and title, fields as label
    and value. *)
Definition op_items_codec : codec (list (bytes * bytes)) := list_codec (two_fields string_codec B["id"] string_codec B["title"]).
Definition op_value_codec : codec (bytes * bytes) := two_fields string_codec B["label"] string_codec B["value"].
Definition op_whoami_codec : codec (bytes * bytes) := two_fields string_codec B["url"] string_codec B["email"].

Definition onePasswordTitle (name : string) : bytes := onePasswordTitlePrefix ++ bs name.

Definition op_run (o : OnePasswordOptions) (stdin : option bytes) (args : list bytes) : prog (result cli_error bytes) :=
  exec (mkInvocation B["op"] (args ++ flag B["--account"] (op_Account o)) stdin []).

Definition vaultArgs (o : OnePasswordOptions) (args : list bytes) : list bytes := args ++ flag B["--vault"] (op_Vault o).

(** [item get --fields]: one field, or an array of them. *)
Definition onePasswordFieldValue (out : bytes) : result storage_error bytes :=
  let out := TrimSpace out in
  match out with
  | [] => Err ErrOther
  | c :: _ =>
      if decide (c = x5b) then
        match read_json (list_codec op_value_codec) out with
        | None => Err ErrOther
        | Some fields =>
            match list_find (λ f, f.1 = onePasswordFieldLabel) fields with
            | Some (_, f) => Ok f.2
            | None => Err ErrOther
            end
        end
      else match read_json op_value_codec out with None => Err ErrOther | Some f => Ok f.2 end
  end.

Section onepassword.
Context `{Unicode}.

Definition op_denied : list bytes :=
  [B["not currently signed in"]; B["no accounts configured"]; B["no account found"]; B["session expired"]].

Definition onePasswordClassify (e : cli_error) : storage_error :=
  if has_hint (cli_stderr e) op_denied then ErrPermission
  else if Contains (cli_stderr e) B["more than one item matches"] then ErrOther
  else classifyExit e [B["isn't an item"]].

(** Without the prefix of a log line. *)
Definition onePasswordErrText (e : cli_error) : bytes :=
  match exit_stderr e with
  | None | Some [] => shortErr (cli_text e)
  | Some s =>
      let s := if HasPrefix s B["[ERROR]"] then match SplitN 4 s x20 with [_; _; _; rest] => rest | _ => s end else s in
      shortErr (first_line s)
  end.

Definition op_list_args : list bytes := [B["item"]; B["list"]; B["--tags"]; onePasswordTag; B["--format"]; B["json"]].
Definition op_get_args (item : bytes) : list bytes :=
  [B["item"]; B["get"]; item; B["--fields"]; B["label="] ++ onePasswordFieldLabel; B["--format"]; B["json"]; B["--reveal"]].

(** An answer that cannot be read counts as an empty one; that fields of
    the right type next to one of the wrong type are still used is left out. *)
Definition op_Probe (o : OnePasswordOptions) : prog Probe :=
  found ← look_path B["op"];
  if negb found then mret (refused B["1Password CLI (op) is not installed; install it from https://developer.1password.com/docs/cli/get-started/ and run op signin"])
  else
    out ← op_run o None [B["whoami"]; B["--format"]; B["json"]];
    mret
      (match out with
       | Err e => refused (B["op is installed but not signed in ("] ++ onePasswordErrText e ++ B["); run op signin"])
       | Ok out =>
           let '(url, email) := default ([], []) (read_json op_whoami_codec out) in
           mkProbe true
             (B["signed in"] ++
              (if is_empty email then (if is_empty url then [] else B[" to "] ++ url)
               else B[" as "] ++ email ++ (if is_empty url then [] else B[" at "] ++ url)) ++
              (if is_empty (op_Vault o) then [] else B[", vault "] ++ op_Vault o)) 95
       end).

(** The items with the tag; no values. *)
Definition op_list (o : OnePasswordOptions) : prog (list (bytes * bytes)) :=
  r ← op_run o None (vaultArgs o op_list_args);
  match r with
  | Err e => throw (onePasswordClassify e)
  | Ok out =>
      if is_empty (TrimSpace out) then mret []
      else match read_json op_items_codec out with None => throw ErrOther | Some items => mret items end
  end.

(** The identifier of the item with the title of a name, empty for none. *)
Definition op_find (o : OnePasswordOptions) (name : string) : prog bytes :=
  items ← op_list o;
  mret (match list_find (λ it, it.2 = onePasswordTitle name) items with Some (_, it) => it.1 | None => [] end).

Definition op_template (name : string) (rec : bytes) : onePasswordTemplate :=
  mkTemplate (onePasswordTitle name) B["SECURE_NOTE"] [onePasswordTag]
    [mkOPField onePasswordFieldLabel B["CONCEALED"] onePasswordFieldLabel rec].

Definition op_Put (o : OnePasswordOptions) (name : string) (value : bytes) (meta : Metadata) : prog unit :=
  _ ← lift (ValidateName name);
  rec ← lift (encodeRecord (stamp onepassword_Name name value meta) value);
  match Marshal op_template_codec (op_template name rec) with
  | None => throw ErrOther
  | Some tmpl =>
      id ← op_find o name;
      r ← op_run o (Some tmpl)
            (if is_empty id then vaultArgs o [B["item"]; B["create"]] ++ [B["-"]] else vaultArgs o [B["item"]; B["edit"]; id]);
      checked onePasswordClassify r
  end.

Definition op_field (o : OnePasswordOptions) (item : bytes) : prog bytes :=
  r ← op_run o None (vaultArgs o (op_get_args item));
  match r with
  | Err e => throw (onePasswordClassify e)
  | Ok out => lift (onePasswordFieldValue out)
  end.

Definition op_Get (o : OnePasswordOptions) (name : string) : prog (bytes * Metadata) :=
  _ ← lift (ValidateName name);
  raw ← op_field o (onePasswordTitle name);
  '(value, m) ← lift (decodeRecord raw);
  if decide (Name m = name) then mret (value, m) else throw ErrNotFound.

Definition op_Delete (o : OnePasswordOptions) (name : string) : prog unit :=
  _ ← lift (ValidateName name);
  r ← op_run o None (vaultArgs o [B["item"]; B["delete"]; onePasswordTitle name]);
  checked onePasswordClassify r.

Fixpoint op_entries (o : OnePasswordOptions) (items : list (bytes * bytes)) : prog (list Metadata) :=
  match items with
  | [] => mret []
  | (id, title) :: items =>
      let name := sb (TrimPrefix title onePasswordTitlePrefix) in
      if negb (HasPrefix title onePasswordTitlePrefix && is_ok (ValidateName name)) then op_entries o items
      else
        raw ← attempt (op_field o id);
        match raw with
        | Err ErrNotFound => op_entries o items
        | Err e => throw e
        | Ok raw =>
            rest ← op_entries o items;
            mret (match decodeRecord raw with
                  | Ok (_, m) => if decide (Name m = name) then m :: rest else rest
                  | Err _ => rest
                  end)
        end
  end.

Definition op_List (o : OnePasswordOptions) : prog (list Metadata) :=
  items ← op_list o; l ← op_entries o items; mret (sort_by_name l).

#[export] Instance onepassword_backend {W} `{Runner W} : Backend (Tool OnePasswordOptions W) := {
  b_Name := onepassword_Name; b_Probe := probe_of op_Probe;
  b_Put n v m := on_world (λ o, op_Put o n v m); b_Get n := on_world (λ o, op_Get o n);
  b_Delete n := on_world (λ o, op_Delete o n); b_List := on_world op_List }.
End onepassword.
