(* ===== verification/Bitwarden.v ===== *)
(** The backend in Bitwarden: internal/storage/bitwarden.go. *)
From S2P Require Import Prelude GoSort GoStrings GoText Json JsonDoc Secrets Records Cli.
From Stdlib Require Import Strings.Byte.

Record BitwardenOptions := mkBitwarden { bw_Session : bytes }.

Definition BitwardenMaxValueBytes : Z := 4 * 1024.
Definition bitwardenTitlePrefix : bytes := B["burndrop/"].
Definition bitwardenNotesLimit : Z := 10000.
Definition bitwardenTypeNote : Z := 2.
Definition bitwarden_Name : bytes := B["bitwarden"].

Record bitwardenItem := mkItem {
  bw_ID : bytes;
  bw_OrganizationID : option bytes;
  bw_CollectionIDs : option (list bytes);
  bw_FolderID : option bytes;
  bw_Type : Z;
  bw_Name : bytes;
  bw_Notes : bytes;
  bw_Favorite : bool;
  bw_SecureNote : Z;
  bw_Reprompt : Z;
  bw_DeletedDate : option bytes;
}.

Definition zero_item : bitwardenItem := mkItem [] None None None 0 [] [] false 0 0 None.

Definition is_nil {A} (p : option A) : bool := match p with None => true | Some _ => false end.

(** The struct tags. *)
Definition bitwarden_codec : codec bitwardenItem :=
  struct_codec
    [mkField string_codec B["id"] is_empty bw_ID
       (λ x r, mkItem x (bw_OrganizationID r) (bw_CollectionIDs r) (bw_FolderID r) (bw_Type r) (bw_Name r) (bw_Notes r) (bw_Favorite r) (bw_SecureNote r) (bw_Reprompt r) (bw_DeletedDate r));
     mkField (pointer_codec string_codec) B["organizationId"] never bw_OrganizationID
       (λ x r, mkItem (bw_ID r) x (bw_CollectionIDs r) (bw_FolderID r) (bw_Type r) (bw_Name r) (bw_Notes r) (bw_Favorite r) (bw_SecureNote r) (bw_Reprompt r) (bw_DeletedDate r));
     mkField (slice_codec string_codec) B["collectionIds"] never bw_CollectionIDs
       (λ x r, mkItem (bw_ID r) (bw_OrganizationID r) x (bw_FolderID r) (bw_Type r) (bw_Name r) (bw_Notes r) (bw_Favorite r) (bw_SecureNote r) (bw_Reprompt r) (bw_DeletedDate r));
     mkField (pointer_codec string_codec) B["folderId"] never bw_FolderID
       (λ x r, mkItem (bw_ID r) (bw_OrganizationID r) (bw_CollectionIDs r) x (bw_Type r) (bw_Name r) (bw_Notes r) (bw_Favorite r) (bw_SecureNote r) (bw_Reprompt r) (bw_DeletedDate r));
     mkField int_codec B["type"] never bw_Type
       (λ x r, mkItem (bw_ID r) (bw_OrganizationID r) (bw_CollectionIDs r) (bw_FolderID r) x (bw_Name r) (bw_Notes r) (bw_Favorite r) (bw_SecureNote r) (bw_Reprompt r) (bw_DeletedDate r));
     mkField string_codec B["name"] never bw_Name
       (λ x r, mkItem (bw_ID r) (bw_OrganizationID r) (bw_CollectionIDs r) (bw_FolderID r) (bw_Type r) x (bw_Notes r) (bw_Favorite r) (bw_SecureNote r) (bw_Reprompt r) (bw_DeletedDate r));
     mkField string_codec B["notes"] never bw_Notes
       (λ x r, mkItem (bw_ID r) (bw_OrganizationID r) (bw_CollectionIDs r) (bw_FolderID r) (bw_Type r) (bw_Name r) x (bw_Favorite r) (bw_SecureNote r) (bw_Reprompt r) (bw_DeletedDate r));
     mkField bool_codec B["favorite"] never bw_Favorite
       (λ x r, mkItem (bw_ID r) (bw_OrganizationID r) (bw_CollectionIDs r) (bw_FolderID r) (bw_Type r) (bw_Name r) (bw_Notes r) x (bw_SecureNote r) (bw_Reprompt r) (bw_DeletedDate r));
     mkField (one_field int_codec B["type"]) B["secureNote"] never bw_SecureNote
       (λ x r, mkItem (bw_ID r) (bw_OrganizationID r) (bw_CollectionIDs r) (bw_FolderID r) (bw_Type r) (bw_Name r) (bw_Notes r) (bw_Favorite r) x (bw_Reprompt r) (bw_DeletedDate r));
     mkField int_codec B["reprompt"] never bw_Reprompt
       (λ x r, mkItem (bw_ID r) (bw_OrganizationID r) (bw_CollectionIDs r) (bw_FolderID r) (bw_Type r) (bw_Name r) (bw_Notes r) (bw_Favorite r) (bw_SecureNote r) x (bw_DeletedDate r));
     mkField (pointer_codec string_codec) B["deletedDate"] is_nil bw_DeletedDate
       (λ x r, mkItem (bw_ID r) (bw_OrganizationID r) (bw_CollectionIDs r) (bw_FolderID r) (bw_Type r) (bw_Name r) (bw_Notes r) (bw_Favorite r) (bw_SecureNote r) (bw_Reprompt r) x)]
    zero_item.

Definition bitwarden_status_codec : codec (bytes * (bytes * bytes)) :=
  struct_codec
    [mkField string_codec B["serverUrl"] never fst (λ x r, (x, r.2));
     mkField string_codec B["userEmail"] never (fst ∘ snd) (λ x r, (r.1, (x, r.2.2)));
     mkField string_codec B["status"] never (snd ∘ snd) (λ x r, (r.1, (r.2.1, x)))]
    ([], ([], [])).

Definition bitwardenTitle (name : string) : bytes := bitwardenTitlePrefix ++ bs name.

Definition bw_run (b : BitwardenOptions) (stdin : option bytes) (args : list bytes) : prog (result cli_error bytes) :=
  exec (mkInvocation B["bw"] (args ++ [B["--nointeraction"]]) stdin
    (if is_empty (bw_Session b) then [] else [B["BW_SESSION="] ++ bw_Session b])).

Definition bitwardenEncode (item : bitwardenItem) : result storage_error bytes :=
  match Marshal bitwarden_codec item with Some raw => Ok (StdEncode raw) | None => Err ErrOther end.

(** Lengths are far from the end of the machine's integers. *)
Definition bitwardenEncryptedLength (n : Z) : Z :=
  let padded := (n ÷ 16 + 1) * 16 in
  let ciphertext := (padded + 2) ÷ 3 * 4 in
  2 + 24 + 1 + ciphertext + 1 + 44.

Section bitwarden.
Context `{Unicode}.

Definition bitwardenClassify (e : cli_error) : storage_error :=
  if Contains (cli_stderr e) B["exceeds the maximum encrypted value length"] then ErrTooLarge
  else classifyExit e [B["not found."]].

Definition bw_Probe (b : BitwardenOptions) : prog Probe :=
  found ← look_path B["bw"];
  if negb found then mret (refused B["Bitwarden CLI (bw) is not installed; install it with npm install -g @bitwarden/cli (https://bitwarden.com/help/cli/) and run bw login"])
  else
    out ← bw_run b None [B["status"]];
    mret
      (match out with
       | Err e => refused (B["bw status failed: "] ++ shortErr (cli_text e))
       | Ok out =>
           match read_json bitwarden_status_codec (TrimSpace out) with
           | None => refused B["bw status returned unexpected output"]
           | Some (url, (email, status)) =>
               let who := if is_empty email then [] else B[" for "] ++ email in
               if beq status B["unlocked"] then
                 mkProbe true (B["vault unlocked"] ++ who ++ (if is_empty url then [] else B[" at "] ++ url)) 94
               else if beq status B["locked"] then refused (B["bw vault is locked"] ++ who ++ B["; run bw unlock and export BW_SESSION"])
               else refused B["bw is not logged in; run bw login, then bw unlock and export BW_SESSION"]
           end
       end).

Definition bw_search (b : BitwardenOptions) (term : bytes) : prog (list bitwardenItem) :=
  r ← bw_run b None [B["list"]; B["items"]; B["--search"]; term];
  match r with
  | Err e => throw (bitwardenClassify e)
  | Ok out => match read_json (list_codec bitwarden_codec) (TrimSpace out) with None => throw ErrOther | Some items => mret items end
  end.

(** The live items with exactly the title of a name. *)
Definition bw_find (b : BitwardenOptions) (name : string) : prog (list bitwardenItem) :=
  items ← bw_search b (bitwardenTitle name);
  mret (filter (λ it, bw_Name it = bitwardenTitle name ∧ bw_DeletedDate it = None) items).

Definition bw_note (name : string) (rec : bytes) : bitwardenItem :=
  mkItem [] None None None bitwardenTypeNote (bitwardenTitle name) rec false 0 0 None.

(** With what an existing item is filed under. *)
Definition bw_refile (item cur : bitwardenItem) : bitwardenItem :=
  mkItem (bw_ID item) (bw_OrganizationID cur) (bw_CollectionIDs cur) (bw_FolderID cur) (bw_Type item) (bw_Name item)
    (bw_Notes item) (bw_Favorite item) (bw_SecureNote item) (bw_Reprompt item) (bw_DeletedDate item).

Definition bw_Put (b : BitwardenOptions) (name : string) (value : bytes) (meta : Metadata) : prog unit :=
  _ ← lift (ValidateName name);
  if BitwardenMaxValueBytes <? zlen value then throw ErrTooLarge
  else
    rec ← lift (encodeRecord (stamp bitwarden_Name name value meta) value);
    if bitwardenNotesLimit <? bitwardenEncryptedLength (zlen rec) then throw ErrTooLarge
    else
      existing ← bw_find b name;
      let item := bw_note name rec in
      match existing with
      | cur :: _ =>
          encoded ← lift (bitwardenEncode (bw_refile item cur));
          r ← bw_run b (Some encoded) [B["edit"]; B["item"]; bw_ID cur];
          checked bitwardenClassify r
      | [] =>
          encoded ← lift (bitwardenEncode item);
          r ← bw_run b (Some encoded) [B["create"]; B["item"]];
          checked bitwardenClassify r
      end.

Definition bw_Get (b : BitwardenOptions) (name : string) : prog (bytes * Metadata) :=
  _ ← lift (ValidateName name);
  items ← bw_find b name;
  match items with
  | [] => throw ErrNotFound
  | it :: _ =>
      '(value, m) ← lift (decodeRecord (bw_Notes it));
      if decide (Name m = name) then mret (value, m) else throw ErrNotFound
  end.

Fixpoint bw_delete_all (b : BitwardenOptions) (items : list bitwardenItem) : prog unit :=
  match items with
  | [] => mret tt
  | it :: items =>
      r ← bw_run b None [B["delete"]; B["item"]; bw_ID it; B["--permanent"]];
      match r with Ok _ => bw_delete_all b items | Err e => throw (bitwardenClassify e) end
  end.

Definition bw_Delete (b : BitwardenOptions) (name : string) : prog unit :=
  _ ← lift (ValidateName name);
  items ← bw_find b name;
  match items with [] => throw ErrNotFound | _ => bw_delete_all b items end.

(** The metadata of an item, when it is a live one of ours. *)
Definition bw_listed (it : bitwardenItem) : option Metadata :=
  let name := sb (TrimPrefix (bw_Name it) bitwardenTitlePrefix) in
  if negb (HasPrefix (bw_Name it) bitwardenTitlePrefix && is_nil (bw_DeletedDate it) && is_ok (ValidateName name)) then None
  else
    match decodeRecord (bw_Notes it) with
    | Ok (_, m) => if decide (Name m = name) then Some m else None
    | Err _ => None
    end.

(** The first item of each name. *)
Fixpoint bw_entries (seen : gset string) (items : list bitwardenItem) : list Metadata :=
  match items with
  | [] => []
  | it :: items =>
      match bw_listed it with
      | Some m => if decide (Name m ∈ seen) then bw_entries seen items else m :: bw_entries ({[Name m]} ∪ seen) items
      | None => bw_entries seen items
      end
  end.

Definition bw_List (b : BitwardenOptions) : prog (list Metadata) :=
  items ← bw_search b bitwardenTitlePrefix; mret (sort_by_name (bw_entries ∅ items)).

#[export] Instance bitwarden_backend {W} `{Runner W} : Backend (Tool BitwardenOptions W) := {
  b_Name := bitwarden_Name; b_Probe := probe_of bw_Probe;
  b_Put n v m := on_world (λ b, bw_Put b n v m); b_Get n := on_world (λ b, bw_Get b n);
  b_Delete n := on_world (λ b, bw_Delete b n); b_List := on_world bw_List }.
End bitwarden.
