(* ===== verification/HcVault.v ===== *)
(** The backend in a HashiCorp Vault, over HTTP: internal/storage/vault.go. *)
From S2P Require Import Prelude GoSort GoStrings GoText GoOs GoNet Json JsonDoc Secrets Records Cli BackendSpec.
From S2P Require Client.
From Stdlib Require Import Strings.Byte.

Import Client (HttpRequest, mkHttp).

Definition DefaultVaultMount : bytes := B["secret"].
Definition DefaultVaultPath : bytes := B["burndrop"].
Definition vaultMaxBody : Z := 4 * 2 ^ 20.

Record Vault := mkVault { va_Address : bytes; va_Token : bytes; va_Namespace : bytes; va_Mount : bytes; va_Path : bytes }.

(** The environment, the file of the token helper, and the network: no
    response, or a status with a body, which may break off. *)
Class VaultHost (N : Type) := {
  Getenv : bytes → N → bytes;
  token_file : N → option bytes;
  vault_do : HttpRequest → N → N * option (Z * option bytes);
}.

(** An error of the backend, or [errVaultNoRecord]. *)
Inductive vault_error := VError (e : storage_error) | VNoRecord.

Definition as_storage (e : vault_error) : storage_error := match e with VError e => e | VNoRecord => ErrOther end.

(** [io.LimitReader]: the first [max] bytes. *)
Definition limited (max : Z) (s : bytes) : bytes := if zlen s <=? max then s else take (Z.to_nat max) s.

(** [strings.Trim] of slashes *)
Definition trim_slashes (s : bytes) : bytes := reverse (strip_slashes (reverse (strip_slashes s))).

Definition va_mount (v : Vault) : bytes := or_default (trim_slashes (va_Mount v)) DefaultVaultMount.
Definition va_path (v : Vault) : bytes := or_default (trim_slashes (va_Path v)) DefaultVaultPath.

Definition dataPath (v : Vault) (name : bytes) : bytes := va_mount v ++ B["/data/"] ++ va_path v ++ B["/"] ++ name.
Definition metaPath (v : Vault) (name : bytes) : bytes :=
  va_mount v ++ B["/metadata/"] ++ va_path v ++ (if is_empty name then [] else B["/"] ++ name).

Definition vault_Name : bytes := B["vault"].

(** [%q] of a text: what is not ASCII is taken as printable. *)
Definition quote_rune (c : option rune * bytes) : bytes :=
  match c with
  | (None, s) => mjoin ((λ b, B["\x"] ++ [hex_lower (b2z b / 16); hex_lower (b2z b mod 16)]) <$> s)
  | (Some r, s) =>
      if r =? 34 then B["\"] ++ [quote] else if r =? 92 then B["\\"]
      else if r =? 7 then B["\a"] else if r =? 8 then B["\b"] else if r =? 12 then B["\f"] else if r =? 10 then B["\n"]
      else if r =? 13 then B["\r"] else if r =? 9 then B["\t"] else if r =? 11 then B["\v"]
      else if (r <? 32) || (r =? 127) then B["\x"] ++ [hex_lower (r / 16); hex_lower (r mod 16)]
      else s
  end.

Definition Quote (s : bytes) : bytes := quote :: mjoin (quote_rune <$> chars s) ++ [quote].

(** The answers that are read. *)
Definition vault_errors_codec : codec (list bytes) := one_field (list_codec string_codec) B["errors"].
Definition vault_lookup_codec : codec (bytes * list bytes) :=
  one_field (two_fields string_codec B["display_name"] (list_codec string_codec) B["policies"]) B["data"].
Definition vault_read_codec : codec bytes := one_field (one_field (one_field string_codec B["record"]) B["data"]) B["data"].
Definition vault_keys_codec : codec (list bytes) := one_field (one_field (list_codec string_codec) B["keys"]) B["data"].

Definition vaultMessages (body : bytes) : bytes :=
  match read_json vault_errors_codec body with
  | Some (e :: errors) => JoinStr B["; "] (e :: errors)
  | _ => B["no error detail"]
  end.

Definition vaultError (status : Z) : storage_error :=
  if status =? 404 then ErrNotFound
  else if status =? 403 then ErrPermission
  else if status =? 503 then ErrUnavailable
  else ErrOther.

(** [map[string]any{"data": map[string]string{"record": ...}}] *)
Definition record_body (rec : bytes) : bytes :=
  write_json (JObj [(B["data"], JObj [(B["record"], JStr (marshal_text rec))])]).

Section vault.
Context `{Unicode} {N : Type} `{VaultHost N}.

Definition NewVault (opts : Vault) (n : N) : Vault :=
  mkVault (or_default (va_Address opts) (Getenv B["VAULT_ADDR"] n)) (va_Token opts)
    (or_default (va_Namespace opts) (Getenv B["VAULT_NAMESPACE"] n))
    (or_default (va_Mount opts) DefaultVaultMount) (or_default (va_Path opts) DefaultVaultPath).

Definition vaultLocalHost (host : bytes) : bool :=
  let h := ToLower host in beq h B["localhost"] || beq h B["127.0.0.1"] || beq h B["::1"].

(** The address without slashes at its end; the error's text is the reason of
    a probe. *)
Definition baseURL (v : Vault) : bytes + bytes :=
  let addr := reverse (strip_slashes (reverse (va_Address v))) in
  if is_empty addr then inr B["vault address is not set (VAULT_ADDR)"]
  else
    match url_Parse addr with
    | None => inr (B["vault address "] ++ Quote addr ++ B[" is not a URL"])
    | Some u =>
        if is_empty (Host u) then inr (B["vault address "] ++ Quote addr ++ B[" is not a URL"])
        else if beq (Scheme u) B["https"] || (beq (Scheme u) B["http"] && vaultLocalHost (Hostname u)) then inl addr
        else inr (B["vault address "] ++ Quote addr ++ B[" must use https (plain http is allowed for localhost only)"])
    end.

Definition va_token (v : Vault) (n : N) : option bytes :=
  if negb (is_empty (va_Token v)) then Some (va_Token v)
  else if negb (is_empty (Getenv B["VAULT_TOKEN"] n)) then Some (Getenv B["VAULT_TOKEN"] n)
  else match token_file n with
       | Some b => if is_empty (TrimSpace b) then None else Some (TrimSpace b)
       | None => None
       end.

Definition no_token : bytes := B["no vault token: set VAULT_TOKEN or run vault login"].

Definition vcall (A : Type) : Type := N → N * result vault_error A.

#[local] Instance vcall_ret : MRet vcall := λ A a n, (n, Ok a).
#[local] Instance vcall_bind : MBind vcall := λ A B f m n,
  match m n with (n, Ok a) => f a n | (n, Err e) => (n, Err e) end.

Definition vfail {A} (e : storage_error) : vcall A := λ n, (n, Err (VError e)).
Definition vlift {A} (r : result storage_error A) : vcall A :=
  λ n, (n, match r with Ok a => Ok a | Err e => Err (VError e) end).

Definition vault_request (v : Vault) (token base method p : bytes) (body : option bytes) : HttpRequest :=
  mkHttp method (base ++ B["/v1/"] ++ p)
    ((B["X-Vault-Token"], token) ::
     (if is_empty (va_Namespace v) then [] else [(B["X-Vault-Namespace"], va_Namespace v)]) ++
     (match body with Some _ => [(B["Content-Type"], B["application/json"])] | None => [] end))
    (default [] body).

(** One request. *)
Definition vault_call (v : Vault) (method p : bytes) (body : option bytes) : vcall (Z * bytes) := λ n,
  match baseURL v with
  | inr _ => (n, Err (VError ErrUnavailable))
  | inl base =>
      match va_token v n with
      | None => (n, Err (VError ErrPermission))
      | Some token =>
          match url_Parse (base ++ B["/v1/"] ++ p) with
          | None => (n, Err (VError ErrOther))
          | Some _ =>
              match vault_do (vault_request v token base method p body) n with
              | (n, Some (status, Some data)) => (n, Ok (status, limited vaultMaxBody data))
              | (n, _) => (n, Err (VError ErrUnavailable))
              end
          end
      end
  end.

(** Reasons name what went wrong without the text of the transport. *)
Definition vault_Probe (v : Vault) (n : N) : N * Probe :=
  match baseURL v with
  | inr reason => (n, refused reason)
  | inl base =>
      match va_token v n with
      | None => (n, refused no_token)
      | Some _ =>
          match vault_call v B["GET"] B["auth/token/lookup-self"] None n with
          | (n, Err _) => (n, refused (B["Vault at "] ++ base ++ B[" is unreachable: "]))
          | (n, Ok (status, body)) =>
              (n,
               if negb (status =? 200) then
                 refused (B["Vault at "] ++ base ++ B[" rejected the token: HTTP "] ++ Itoa status ++ B[": "] ++ vaultMessages body)
               else
                 match read_json vault_lookup_codec body with
                 | None => refused (B["Vault at "] ++ base ++ B[" returned an unreadable token lookup"])
                 | Some (display, policies) =>
                     mkProbe true
                       (B["Vault KV v2 at "] ++ base ++ B[" ("] ++ va_mount v ++ B["/"] ++ va_path v ++ B[") as token "] ++ Quote display ++
                        (match policies with [] => [] | _ => B[" with policies "] ++ JoinStr B[", "] policies end) ++
                        (if is_empty (va_Namespace v) then [] else B[" in namespace "] ++ va_Namespace v)) 85
                 end)
          end
      end
  end.

Definition vault_Put (v : Vault) (name : string) (value : bytes) (meta : Metadata) : vcall unit :=
  _ ← vlift (ValidateName name);
  rec ← vlift (encodeRecord (stamp vault_Name name value meta) value);
  r ← vault_call v B["POST"] (dataPath v (bs name)) (Some (record_body rec));
  if negb (r.1 ÷ 100 =? 2) then vfail (vaultError r.1) else mret tt.

(** The record stored at a name. *)
Definition vault_fetch (v : Vault) (name : bytes) : vcall bytes :=
  r ← vault_call v B["GET"] (dataPath v name) None;
  if negb (r.1 =? 200) then vfail (vaultError r.1)
  else
    match read_json vault_read_codec r.2 with
    | None => vfail ErrOther
    | Some rec => if is_empty rec then λ n, (n, Err VNoRecord) else mret rec
    end.

Definition vault_Get (v : Vault) (name : string) : vcall (bytes * Metadata) :=
  _ ← vlift (ValidateName name);
  rec ← vault_fetch v (bs name);
  x ← vlift (decodeRecord rec);
  if decide (Name x.2 = name) then mret x else vfail ErrNotFound.

Definition vault_Delete (v : Vault) (name : string) : vcall unit :=
  _ ← vlift (ValidateName name);
  r ← vault_call v B["GET"] (metaPath v (bs name)) None;
  if negb (r.1 =? 200) then vfail (vaultError r.1)
  else
    r ← vault_call v B["DELETE"] (metaPath v (bs name)) None;
    if negb (r.1 ÷ 100 =? 2) then vfail (vaultError r.1) else mret tt.

(** The loop over the keys. *)
Fixpoint vault_entries (v : Vault) (keys : list bytes) : vcall (list Metadata) := λ n,
  match keys with
  | [] => (n, Ok [])
  | key :: keys =>
      if HasSuffix key B["/"] || negb (is_ok (ValidateName (sb key))) then vault_entries v keys n
      else
        match vault_fetch v key n with
        | (n, Err (VError ErrNotFound)) | (n, Err VNoRecord) => vault_entries v keys n
        | (n, Err e) => (n, Err e)
        | (n, Ok rec) =>
            match vault_entries v keys n with
            | (n, Err e) => (n, Err e)
            | (n, Ok rest) =>
                (n, Ok (match decodeRecord rec with
                        | Ok (_, m) => if decide (Name m = sb key) then m :: rest else rest
                        | Err _ => rest
                        end))
            end
        end
  end.

Definition vault_List (v : Vault) : vcall (list Metadata) :=
  r ← vault_call v B["LIST"] (metaPath v []) None;
  if r.1 =? 404 then mret []
  else if negb (r.1 =? 200) then vfail (vaultError r.1)
  else
    match read_json vault_keys_codec r.2 with
    | None => vfail ErrOther
    | Some keys => l ← vault_entries v keys; mret (sort_by_name l)
    end.

(** An operation as an operation of the interface. *)
Definition on_vault {A} (f : Vault → vcall A) (t : Tool Vault N) : Tool Vault N * result storage_error A :=
  let '(n, r) := f (t_opts t) (t_world t) in
  (mkTool (t_opts t) n, match r with Ok a => Ok a | Err e => Err (as_storage e) end).

#[export] Instance vault_backend : Backend (Tool Vault N) := {
  b_Name := vault_Name; b_Probe t := (vault_Probe (t_opts t) (t_world t)).2;
  b_Put n v m := on_vault (λ o, vault_Put o n v m); b_Get n := on_vault (λ o, vault_Get o n);
  b_Delete n := on_vault (λ o, vault_Delete o n); b_List := on_vault vault_List }.
End vault.

(** * The contract

    The backend in a HashiCorp Vault keeps the contract of backends, given
    that the server does what the manual of its KV engine says; and its token
    is only ever sent over https or to the machine itself. *)

(** The status of a complete response. *)
Definition answered (r : option (Z * option bytes)) : option (Z * bytes) :=
  match r with Some (status, Some data) => Some (status, limited vaultMaxBody data) | _ => None end.

Definition is_2xx (r : option (Z * option bytes)) : bool :=
  match answered r with Some (status, _) => status ÷ 100 =? 2 | None => false end.

Definition is_404 (r : option (Z * option bytes)) : Prop := ∃ data, answered r = Some (404, data).

(** What the KV engine documents: a POST to the data path stores the fields
    as the latest version, a GET returns them, a DELETE of the metadata path
    removes the entry, 404 means that there is none.  Names are those of secrets,
    records are text.  A request that is not
    answered with success may or may not have had its effect. *)
Class VaultKV (N : Type) `{VaultHost N} `{Unicode} := {
  kv_records : Vault → N → gmap bytes bytes;
  kv_post v token base name rec n :
    baseURL v = inl base → is_ok (ValidateName (sb name)) = true → ValidUtf8 rec = true →
    let '(n', r) := vault_do (vault_request v token base B["POST"] (dataPath v name) (Some (record_body rec))) n in
    kv_records v n' = <[name := rec]> (kv_records v n) ∨ (kv_records v n' = kv_records v n ∧ is_2xx r = false);
  kv_get v token base name n :
    baseURL v = inl base → is_ok (ValidateName (sb name)) = true →
    let '(n', r) := vault_do (vault_request v token base B["GET"] (dataPath v name) None) n in
    kv_records v n' = kv_records v n ∧
    (∀ data rec, answered r = Some (200, data) → read_json vault_read_codec data = Some rec → is_empty rec = false →
       kv_records v n !! name = Some rec) ∧
    (is_404 r → kv_records v n !! name = None);
  kv_look v token base name n :
    baseURL v = inl base → is_ok (ValidateName (sb name)) = true →
    let '(n', r) := vault_do (vault_request v token base B["GET"] (metaPath v name) None) n in
    kv_records v n' = kv_records v n ∧ (is_404 r → kv_records v n !! name = None);
  kv_delete v token base name n :
    baseURL v = inl base → is_ok (ValidateName (sb name)) = true →
    let '(n', r) := vault_do (vault_request v token base B["DELETE"] (metaPath v name) None) n in
    (is_2xx r = true → kv_records v n' = delete name (kv_records v n)) ∧
    (kv_records v n' = kv_records v n ∨ kv_records v n' = delete name (kv_records v n)) ∧
    (is_404 r → kv_records v n' = kv_records v n ∧ kv_records v n !! name = None);
}.

Section vault.
Context {N : Type} `{VaultKV N}.

Definition vault_key (v : Vault) (n : string) : result storage_error bytes := _ ← ValidateName n; Ok (bs n).

(** A call is refused before anything is sent, or it is one request with the
    token of the moment. *)
Lemma vault_call_spec v method p body n :
  (∃ e, vault_call v method p body n = (n, Err (VError e)) ∧ e ≠ ErrNotFound) ∨
  ∃ base token n' r, baseURL v = inl base ∧ va_token v n = Some token ∧
    vault_do (vault_request v token base method p body) n = (n', r) ∧
    vault_call v method p body n = (n', match answered r with Some a => Ok a | None => Err (VError ErrUnavailable) end).
Proof.
  unfold vault_call. destruct (baseURL v) as [base|]; [|left; by eexists].
  destruct (va_token v n) as [token|]; [|left; by eexists].
  destruct (url_Parse _); [|left; by eexists]. right.
  destruct (vault_do (vault_request v token base method p body) n) as [n' r] eqn:E.
  exists base, token, n', r. split_and!; try done. unfold answered. by destruct r as [[status [data|]]|].
Qed.

Lemma vault_key_unshared v n m : unshared (vault_key v) m n (bs n).
Proof.
  intros i x Hi _. unfold vault_key. destruct (ValidateName i); simpl; [|done]. intros [= Hb]. by apply Hi, bs_inj.
Qed.

Lemma vault_key_ok v n : is_ok (ValidateName n) = true → vault_key v n = Ok (bs n).
Proof. unfold vault_key. by destruct (ValidateName n). Qed.

Lemma vaultError_404 status : vaultError status = ErrNotFound → status = 404.
Proof. unfold vaultError. repeat case_match; try done. lia. Qed.

(** The result as the interface has it. *)
Definition outcome {A} (r : result vault_error A) : result storage_error A :=
  match r with Ok a => Ok a | Err e => Err (as_storage e) end.

Lemma vault_put_law v n value m w : meta_text_ok m →
  put_effect (vault_key v) n (value, stamp vault_Name n value m) (is_ok (outcome (vault_Put v n value m w).2))
    (kv_records v w) (kv_records v (vault_Put v n value m w).1).
Proof.
  intros Hm. unfold vault_Put, mbind, vcall_bind, vlift. destruct (ValidateName n) as [[]|e] eqn:Ev; [|by left].
  destruct (encodeRecord (stamp vault_Name n value m) value) as [rec|e] eqn:Ee; [|by left].
  assert (decodeRecord rec = Ok (value, stamp vault_Name n value m)) as Hd.
  { eapply record_stored; [reflexivity|by rewrite Ev|done|done]. }
  destruct (vault_call_spec v B["POST"] (dataPath v (bs n)) (Some (record_body rec)) w) as [(e & -> & _)|(base & token & n' & r & Hb & Ht & Hdo & ->)]; [by left|].
  pose proof (kv_post v token base (bs n) rec w Hb) as Hp. rewrite sb_bs, Ev in Hp.
  specialize (Hp eq_refl (record_utf8 _ _ _ Ee)). rewrite Hdo in Hp.
  assert (∀ ok, put_effect (vault_key v) n (value, stamp vault_Name n value m) ok (kv_records v w) (<[bs n := rec]> (kv_records v w))) as Hput.
  { intros ok. right. exists (bs n), rec. split_and!; try done; [by apply vault_key_ok; rewrite Ev|apply vault_key_unshared]. }
  unfold is_2xx in Hp. destruct (answered r) as [[status data]|]; simpl in *.
  - destruct (status ÷ 100 =? 2); simpl in *; (destruct Hp as [->|[-> ?]]; [apply Hput|]); [done|by left].
  - destruct Hp as [->|[-> _]]; [apply Hput|by left].
Qed.

Lemma vault_fetch_spec v n w :
  is_ok (ValidateName n) = true →
  let '(w', r) := vault_fetch v (bs n) w in
  kv_records v w' = kv_records v w ∧
  match r with
  | Ok rec => kv_records v w !! bs n = Some rec
  | Err e => as_storage e = ErrNotFound → kv_records v w !! bs n = None
  end.
Proof.
  intros Hv. unfold vault_fetch, mbind, vcall_bind.
  destruct (vault_call_spec v B["GET"] (dataPath v (bs n)) None w) as [(e & -> & He)|(base & token & n' & r & Hb & Ht & Hdo & ->)]; [done|].
  pose proof (kv_get v token base (bs n) w Hb) as Hg. rewrite sb_bs in Hg. specialize (Hg Hv). rewrite Hdo in Hg. destruct Hg as (Hs & Hok & Hmiss).
  destruct (answered r) as [[status data]|] eqn:Ea; simpl; [|done].
  destruct (Z.eqb_spec status 200) as [->|Hne]; simpl.
  - destruct (read_json vault_read_codec data) as [rec|] eqn:Er; simpl; [|done]. destruct (is_empty rec) eqn:Eemp; simpl; [done|].
    split; [done|]. by eapply Hok.
  - split; [done|]. intros ->%vaultError_404. apply Hmiss. by exists data.
Qed.

Lemma vault_get_law v n w :
  get_effect (vault_key v) n (outcome (vault_Get v n w).2) (kv_records v w) (kv_records v (vault_Get v n w).1).
Proof.
  unfold vault_Get, mbind, vcall_bind, vlift. destruct (ValidateName n) as [[]|e] eqn:Ev.
  2: { split; [done|]. simpl. intros ->. by apply ValidateName_error in Ev. }
  pose proof (vault_key_ok v n) as Hkey. rewrite Ev in Hkey. specialize (Hkey eq_refl).
  pose proof (vault_fetch_spec v n w) as Hf. rewrite Ev in Hf. specialize (Hf eq_refl). destruct (vault_fetch v (bs n) w) as [w' [rec|e]]; destruct Hf as [Hs Hf].
  - destruct (decodeRecord rec) as [x|e] eqn:Ed.
    + case_decide as Hn; simpl; (split; [done|]).
      * by exists (bs n), rec.
      * intros _ y (k & raw & Hk & Hr & Hd & Hy). assert (y = x) as -> by congruence. done.
    + split; [done|]. simpl. intros ->. by apply decodeRecord_error in Ed.
  - split; [done|]. simpl. intros He y (k & raw & Hk & Hr & _). specialize (Hf He). congruence.
Qed.

Lemma vault_delete_law v n w :
  delete_effect (vault_key v) n (outcome (vault_Delete v n w).2) (kv_records v w) (kv_records v (vault_Delete v n w).1).
Proof.
  unfold vault_Delete, mbind, vcall_bind, vlift. destruct (ValidateName n) as [[]|e] eqn:Ev.
  2: { left. split_and!; [done..|]. simpl. intros [= ->]. by apply ValidateName_error in Ev. }
  pose proof (vault_key_ok v n) as Hkey. rewrite Ev in Hkey. specialize (Hkey eq_refl).
  assert (kv_records v w !! bs n = None → ∀ x, ¬ holds (vault_key v) (kv_records v w) n x) as Hnone.
  { intros Hn x (k & raw & Hk & Hr & _). congruence. }
  destruct (vault_call_spec v B["GET"] (metaPath v (bs n)) None w) as [(e & -> & He)|(base & token & w1 & r & Hb & Ht & Hdo & ->)].
  { left. split_and!; [done..|]. simpl. congruence. }
  pose proof (kv_look v token base (bs n) w Hb) as Hg. rewrite sb_bs, Ev in Hg. specialize (Hg eq_refl). rewrite Hdo in Hg. destruct Hg as (Hs & Hmiss).
  destruct (answered r) as [[status data]|] eqn:Ea; simpl; [|by left].
  destruct (Z.eqb_spec status 200) as [->|Hne]; simpl.
  2: { left. split_and!; [done..|]. intros [= ->%vaultError_404]. apply Hnone, Hmiss. by exists data. }
  destruct (vault_call_spec v B["DELETE"] (metaPath v (bs n)) None w1) as [(e & -> & He)|(base' & token' & w2 & r' & Hb' & Ht' & Hdo' & ->)].
  { left. split_and!; [done..|]. simpl. congruence. }
  pose proof (kv_delete v token' base' (bs n) w1 Hb') as Hx. rewrite sb_bs, Ev in Hx. specialize (Hx eq_refl). rewrite Hdo', Hs in Hx. destruct Hx as (Hok & Hor & H404).
  assert (∀ r'', r'' ≠ Err ErrNotFound → kv_records v w2 = delete (bs n) (kv_records v w) →
    delete_effect (vault_key v) n r'' (kv_records v w) (kv_records v w2)) as Hdel.
  { intros r'' Hr'' ->. right. exists (bs n). split_and!; try done. apply vault_key_unshared. }
  unfold is_2xx in Hok. unfold is_404 in H404. destruct (answered r') as [[status' data']|] eqn:Ea'; simpl in *.
  - destruct (status' ÷ 100 =? 2) eqn:E2; simpl; [by apply Hdel; auto|].
    destruct (decide (vaultError status' = ErrNotFound)) as [E4|E4].
    + apply vaultError_404 in E4 as ->. destruct H404 as [-> Hn]; [by eexists|]. left. split_and!; [done..|]. auto.
    + destruct Hor as [->|Hor]; [left; split_and!; [done..|congruence]|]. apply Hdel; [congruence|done].
  - destruct Hor as [->|Hor]; [by left|by apply Hdel].
Qed.

Lemma on_vault_run {A} (f : Vault → vcall A) (t : Tool Vault N) :
  on_vault f t = (mkTool (t_opts t) (f (t_opts t) (t_world t)).1, outcome (f (t_opts t) (t_world t)).2).
Proof. unfold on_vault. by destruct (f _ _). Qed.

Lemma vault_laws : keyed_laws (O := Vault) (W := N) vault_key kv_records (λ _ _, True).
Proof.
  split; intros; cbn [b_Put b_Get b_Delete b_Name vault_backend] in *; rewrite on_vault_run; (split; [done|]);
    unfold keys_of; cbn [t_opts t_world fst snd].
  - by apply vault_put_law.
  - apply vault_get_law.
  - apply vault_delete_law.
Qed.

#[export] Instance vault_backend_ok : BackendOk (Tool Vault N) :=
  keyed_backend_ok vault_key kv_records (λ _ _, True) vault_laws.
End vault.

(** * The token *)

(** Whatever address is configured, a request that carries the token goes to
    it, and the address is an https URL or one of the machine itself. *)
Lemma vault_token_protected `{Unicode} v base :
  baseURL v = inl base →
  ∃ u, url_Parse base = Some u ∧ is_empty (Host u) = false ∧
    (Scheme u = B["https"] ∨ (Scheme u = B["http"] ∧ vaultLocalHost (Hostname u) = true)).
Proof.
  unfold baseURL. case_match; [done|]. destruct (url_Parse _) as [u|] eqn:Eu; [|done].
  destruct (is_empty (Host u)) eqn:Eh; [done|]. case_match eqn:Es; [|done]. intros [= <-]. exists u. split_and!; try done.
  apply orb_prop in Es as [Es|[Es El]%andb_prop]; unfold beq in *; breflect; auto.
Qed.
