(* ===== verification/AgentSetup.v ===== *)
(** Setting an agent up: internal/agent/paths.go, the file and the backends of
    internal/agent/config.go, and [load] of cmd/burndrop/app.go, on Unix and
    macOS.  The TOML library and the credential store are parameters. *)
From S2P Require Import Prelude GoStrings GoTime GoOs Secrets FileAtomic Keychain AgeVault.
From S2P Require Sha256 GoText Records KeychainProps AgeVaultProps Flags RelayMain Crypto Link Client Agent AgentConfig AuditLog Human OnePassword Bitwarden HcVault Infisical Doppler Aws Gcp Azure.
From Stdlib Require Import Strings.Byte.

Import AgentConfig (Config, Validate).

(** * [filepath.Clean] and [filepath.Join] *)

Definition dot : bytes := B["."].
Definition dotdot : bytes := B[".."].

(** The elements so far, the last one first; a rooted path has no parent. *)
Definition clean_element (rooted : bool) (out : list bytes) (e : bytes) : list bytes :=
  if is_empty e || beq e dot then out
  else if beq e dotdot then
    match out with
    | [] => if rooted then [] else [dotdot]
    | p :: out' => if beq p dotdot then dotdot :: out else out'
    end
  else e :: out.

Definition Clean (path : bytes) : bytes :=
  let rooted := HasPrefix path [Separator] in
  let out := foldl (clean_element rooted) [] (Split path Separator) in
  if rooted then Separator :: JoinByte (reverse out) Separator
  else if is_empty path || bool_decide (out = []) then dot else JoinByte (reverse out) Separator.

(** Empty elements at the front are ignored. *)
Fixpoint Join (elements : list bytes) : bytes :=
  match elements with
  | [] => []
  | e :: rest => if is_empty e then Join rest else Clean (JoinByte elements Separator)
  end.

Example cleaned :
  Clean <$> [B["a/./b//c"]; B["/../a"]; B["../../a/.."]; B["a/.."]; B["/"]; B[""]; B["a/b/../../../c"]; B["/a/b/"]] =
  [B["a/b/c"]; B["/a"]; B["../.."]; B["."]; B["/"]; B["."]; B["../c"]; B["/a/b"]].
Proof. vm_compute. reflexivity. Qed.

(** * Directories (paths.go) *)

Inductive goos := Unix | Darwin.

Record Paths := mkPaths { ConfigFile : bytes; StateDir : bytes }.

Section paths.
Context (os : goos) (user_home : option bytes) (getenv : bytes → bytes).

(** [None]: no home directory is known. *)
Definition home : option bytes := let h := getenv B["HOME"] in if is_empty h then user_home else Some h.

(** The directory that a variable names, or one under home. *)
Definition user_dir (variable : bytes) (default_elements : list bytes) : option bytes :=
  match os with
  | Darwin => (λ h, Join [h; B["Library"]; B["Application Support"]]) <$> home
  | Unix =>
      let v := getenv variable in
      if is_empty v then (λ h, Join (h :: default_elements)) <$> home else Some v
  end.

Definition userConfigDir : option bytes := user_dir B["XDG_CONFIG_HOME"] [B[".config"]].
Definition userStateDir : option bytes := user_dir B["XDG_STATE_HOME"] [B[".local"]; B["state"]].

Definition override (variable : bytes) (other : option bytes) : option bytes :=
  let v := getenv variable in if is_empty v then other else Some v.

Definition DefaultPaths : option Paths :=
  match override B["BURNDROP_CONFIG"] ((λ d, Join [d; AgentConfig.AppName; B["config.toml"]]) <$> userConfigDir) with
  | None => None
  | Some config =>
      match override B["BURNDROP_STATE_DIR"] ((λ d, Join [d; AgentConfig.AppName]) <$> userStateDir) with
      | None => None
      | Some state => Some (mkPaths config state)
      end
  end.
End paths.

Definition IndexFile (p : Paths) : bytes := Join [StateDir p; B["index.json"]].
Definition VaultFile (p : Paths) : bytes := Join [StateDir p; B["vault.age"]].
Definition AuditFile (p : Paths) : bytes := Join [StateDir p; B["audit.log"]].
Definition DotenvFile (p : Paths) : bytes := Join [StateDir p; B[".env"]].

(** An element that stands for itself. *)
Definition plain_element (e : bytes) : Prop := e ≠ [] ∧ e ≠ dot ∧ e ≠ dotdot ∧ Separator ∉ e.

Lemma Split_both p s c : Split (p ++ c :: s) c = Split p c ++ Split s c.
Proof.
  induction p as [|b p IH]; simpl; [by rewrite decide_True|]. rewrite IH.
  destruct (decide (b = c)); [done|]. by destruct (Split p c) as [|x l] eqn:E; [destruct p; simpl in E; repeat case_match|].
Qed.

Lemma JoinByte_snoc l e : JoinByte (l ++ [e]) Separator = (match l with [] => [] | _ => JoinByte l Separator ++ [Separator] end) ++ e.
Proof.
  induction l as [|x l IH]; [done|]. destruct l as [|y l]; [simpl; by rewrite <- app_assoc|].
  change ((x :: y :: l) ++ [e]) with (x :: (y :: l) ++ [e]).
  change (JoinByte (x :: (y :: l) ++ [e]) Separator) with (x ++ Separator :: JoinByte ((y :: l) ++ [e]) Separator).
  rewrite IH. change (JoinByte (x :: y :: l) Separator) with (x ++ Separator :: JoinByte (y :: l) Separator).
  by rewrite <- !app_assoc.
Qed.

(** The name of a file in a directory ends in the name of the file. *)
Lemma Join_file dir : ∃ front, ∀ e, plain_element e → Join [dir; e] = front ++ e.
Proof.
  assert (∀ e, plain_element e → ∀ rooted out, clean_element rooted out e = e :: out) as Hplain.
  { intros e (H1 & H2 & H3 & _) rooted out. unfold clean_element, is_empty, beq. by rewrite !bool_decide_eq_false_2. }
  unfold Join, is_empty. case_bool_decide as Hd.
  - exists []. intros e He. pose proof He as (Hne & _ & _ & Hs). rewrite bool_decide_eq_false_2 by done.
    unfold Clean. change (JoinByte [e] Separator) with e. rewrite (Split_none _ _ Hs). cbn [foldl]. rewrite Hplain by done.
    assert (HasPrefix e [Separator] = false) as ->.
    { apply not_true_is_false. intros Hp. destruct e as [|c e]; [done|]. simpl in Hp. apply Hs. case_bool_decide; [subst; by left|done]. }
    unfold is_empty. by rewrite !bool_decide_eq_false_2.
  - set (rooted := HasPrefix dir [Separator]). set (out := foldl (clean_element rooted) [] (Split dir Separator)).
    exists ((if rooted then [Separator] else []) ++ match reverse out with [] => [] | _ => JoinByte (reverse out) Separator ++ [Separator] end).
    intros e He. pose proof He as (Hne & _ & _ & Hs). unfold Clean. change (JoinByte [dir; e] Separator) with (dir ++ Separator :: e).
    rewrite Split_both, (Split_none _ _ Hs), foldl_app. cbn [foldl].
    assert (HasPrefix (dir ++ Separator :: e) [Separator] = rooted) as -> by (subst rooted; destruct dir as [|c [|d dir]]; done).
    fold out. rewrite Hplain, reverse_cons, JoinByte_snoc by done. destruct rooted; [done|].
    unfold is_empty. rewrite !bool_decide_eq_false_2; [done|done|]. by destruct dir.
Qed.

Definition state_files (p : Paths) : list bytes := [IndexFile p; VaultFile p; AuditFile p; DotenvFile p].

(** The files that the agent keeps its state in are different files, whatever
    the directory is. *)
Lemma state_files_distinct p : NoDup (state_files p).
Proof.
  destruct (Join_file (StateDir p)) as [front Hf].
  assert (state_files p = (front ++.) <$> [B["index.json"]; B["vault.age"]; B["audit.log"]; B[".env"]]) as ->.
  { unfold state_files, IndexFile, VaultFile, AuditFile, DotenvFile. rewrite !Hf; [done|..];
      (split; [discriminate|split; [discriminate|split; [discriminate|set_solver]]]). }
  apply NoDup_fmap_2; [intros x y; apply app_inv_head|]. decided.
Qed.

(** * The configuration file (config.go)

    The library for TOML: a document decodes into a configuration and the keys
    that are no field of it. *)
Class Toml := {
  toml_Decode : bytes → option (Config * list bytes);
  toml_Encode : Config → option bytes;
}.

Definition config_header : bytes :=
  B["# burndrop agent configuration. Values in this file are never secrets;"] ++ [x0a] ++
  B["# the agent key lives in the keychain or an environment variable."] ++ [x0a; x0a].

(** A document that was encoded decodes to the same, comments before it or
    not; every text of a document is UTF-8. *)
Definition config_texts (c : Config) : list bytes :=
  let b := AgentConfig.Backends c in
  [AgentConfig.Relay c; AgentConfig.PageOrigin c; AgentConfig.AgentKey c; AgentConfig.Storage c; AgentConfig.cfg_DefaultTTL c;
   AgentConfig.cfg_DefaultRetention c; AgentConfig.RevealPassword c; AgentConfig.Audit_Path c] ++
  AgentConfig.AllowedCommands (AgentConfig.RunWithSecret c) ++
  [AgentConfig.kc_Service (AgentConfig.c_Keychain b);
   AgentConfig.ac_Path (AgentConfig.c_AgeVault b); AgentConfig.ac_IdentityFile (AgentConfig.c_AgeVault b);
   AgentConfig.ac_PassphraseEnv (AgentConfig.c_AgeVault b); AgentConfig.dc_Path (AgentConfig.c_Dotenv b);
   AgentConfig.oc_Vault (AgentConfig.c_OnePassword b); AgentConfig.oc_Account (AgentConfig.c_OnePassword b);
   AgentConfig.bc_SessionEnv (AgentConfig.c_Bitwarden b);
   AgentConfig.vc_Address (AgentConfig.c_Vault b); AgentConfig.vc_Mount (AgentConfig.c_Vault b); AgentConfig.vc_Path (AgentConfig.c_Vault b);
   AgentConfig.vc_Namespace (AgentConfig.c_Vault b); AgentConfig.vc_TokenEnv (AgentConfig.c_Vault b);
   AgentConfig.ic_ProjectID (AgentConfig.c_Infisical b); AgentConfig.ic_Environment (AgentConfig.c_Infisical b);
   AgentConfig.ic_Path (AgentConfig.c_Infisical b); AgentConfig.pc_Project (AgentConfig.c_Doppler b);
   AgentConfig.pc_Config (AgentConfig.c_Doppler b); AgentConfig.wc_Region (AgentConfig.c_AWS b);
   AgentConfig.wc_Profile (AgentConfig.c_AWS b); AgentConfig.wc_Prefix (AgentConfig.c_AWS b);
   AgentConfig.gc_Project (AgentConfig.c_GCP b); AgentConfig.gc_Prefix (AgentConfig.c_GCP b);
   AgentConfig.zc_VaultName (AgentConfig.c_Azure b); AgentConfig.zc_Prefix (AgentConfig.c_Azure b)].

Definition config_utf8 (c : Config) : Prop := Forall (λ s, ValidUtf8 s = true) (config_texts c).

Class TomlOk `{Toml} := {
  toml_encoded c b : config_utf8 c → toml_Encode c = Some b → toml_Decode (config_header ++ b) = Some (c, []);
  toml_utf8 b c keys : toml_Decode b = Some (c, keys) → config_utf8 c;
}.

Inductive setup_error :=
  | NoPaths | ErrNoConfig | ReadConfig | ParseConfig | UnknownKeys (keys : list bytes) | Invalid (e : AgentConfig.config_error)
  | MakeDir | EncodeConfig | WriteConfig
  | NoKey (e : AgentConfig.config_error) | NoRelay
  | EmptySecret (variable : bytes) | VaultNotOpened | NotAvailable (name : bytes)
  | NoIndex | NoAudit (e : AuditLog.audit_error)
  | SetupUsage | SetupInput (e : Human.human_error) | TooShort | PasswordsDiffer | NotStored (e : storage_error)
  | NoPage (e : Client.client_error) | NoInfo (e : Client.client_error) | PageMismatch
  | NoStorage | DotenvNotAllowed | Declined | UnknownStorage (name : bytes) | NoAgentKey | BadKeySource.

(** [writeFile0600]: as [writeFileAtomic], in another order and without a
    sync. *)
Definition writeFile0600 (w : Faults) (path tmp : string) (data : bytes) (d : Disk) : list Disk * bool :=
  if f_create w then ([d], false)
  else
    let created := d_create tmp d in
    match f_write w with
    | Some n =>
        let torn := d_write tmp (take n data) created in
        ([d; created; torn; cleanup w tmp torn], false)
    | None =>
        let written := d_write tmp data created in
        if f_close w || (f_chmod w && negb (f_chmod_permission w)) || f_rename w then ([d; created; written; cleanup w tmp written], false)
        else ([d; created; written; d_rename tmp path written], true)
    end.

(** What the machine does to one call. *)
Record config_world := mkConfigWorld {
  cw_now : Time;
  cw_read_fails : bool;
  cw_mkdir_fails : bool;
  cw_faults : Faults;
  cw_tmp : string; (* the name of the temporary file *)
}.

Section config_file.
Context `{Unicode} `{Toml}.

Definition LoadConfig (w : config_world) (path : string) (fs : FS) : result setup_error Config :=
  match fs !! path with
  | None => Err ErrNoConfig
  | Some b =>
      if cw_read_fails w then Err ReadConfig
      else match toml_Decode b with
           | None => Err ParseConfig
           | Some (cfg, undecoded) =>
               if negb (bool_decide (undecoded = [])) then Err (UnknownKeys undecoded)
               else match Validate (cw_now w) cfg with
                    | Err e => Err (Invalid e)
                    | Ok _ => Ok cfg
                    end
           end
  end.

(** The files as they are seen at every moment. *)
Definition SaveConfig (w : config_world) (path : string) (cfg : Config) (fs : FS) : list FS * result setup_error unit :=
  match Validate (cw_now w) cfg with
  | Err e => ([fs], Err (Invalid e))
  | Ok _ =>
      if cw_mkdir_fails w then ([fs], Err MakeDir)
      else match toml_Encode cfg with
           | None => ([fs], Err EncodeConfig)
           | Some b =>
               let '(states, ok) := writeFile0600 (cw_faults w) path (cw_tmp w) (config_header ++ b) (settled fs) in
               (seen <$> states, if ok : bool then Ok tt else Err WriteConfig)
           end
  end.

Definition saved (w : config_world) (path : string) (cfg : Config) (fs : FS) : FS * result setup_error unit :=
  let '(states, r) := SaveConfig w path cfg fs in (default fs (last states), r).
End config_file.

Section config_file_props.
Context `{Unicode} `{TomlOk}.

Lemma replaced w path tmp data fs states ok :
  tmp ≠ path → fs !! tmp = None → writeFile0600 w path tmp data (settled fs) = (states, ok) →
  Forall (old_or_new path tmp data fs) (seen <$> states) ∧
  ∃ final, last states = Some final ∧ if ok then seen final = <[path := data]> fs else seen final !! path = fs !! path.
Proof.
  intros Hne Htmp Hw. pose proof (λ d, on_the_way_seen path tmp data fs d Hne) as Hsee.
  pose proof (Hsee _ (way_start path tmp data fs)) as Hs0. pose proof (create_way tmp fs) as Hs1.
  pose proof (λ b d Hd, Hsee _ (temporary_way path tmp data fs b d Hd)) as Hway.
  pose proof (λ w b d Hd, cleanup_way path tmp data fs Htmp w b d Hd) as Hend.
  unfold writeFile0600 in Hw. destruct (f_create w); [injection Hw as <- <-; split; [by apply Forall_singleton|by eexists]|].
  destruct (f_write w) as [n|].
  { pose proof (write_way tmp fs _ (take n data) _ Hs1) as Hs2. destruct (Hend w _ _ Hs2) as (He & Hp & Hr).
    injection Hw as <- <-. split; [|by eexists; split_and!; auto]. rewrite !fmap_cons, fmap_nil. states. }
  pose proof (write_way tmp fs _ data _ Hs1) as Hs2. destruct (_ || _); injection Hw as <- <-.
  - destruct (Hend w _ _ Hs2) as (He & Hp & Hr). split; [|by eexists; split_and!; auto]. rewrite !fmap_cons, fmap_nil. states.
  - assert (seen (d_rename tmp path (d_write tmp data (d_create tmp (settled fs)))) = <[path := data]> fs) as Hren.
    { destruct Hs2 as [Hs _]. unfold d_rename. by rewrite Hs, lookup_insert_eq, delete_insert_id. }
    split; [|by eexists]. rewrite !fmap_cons, fmap_nil. states. rewrite Hren. apply inserted_seen.
Qed.

(** Nothing forces the new contents to the disk: after a machine that stops,
    the configuration may hold anything, its old contents being gone. *)
Lemma saved_config_may_tear path tmp data (fs : FS) torn :
  tmp ≠ path → fs !! tmp = None →
  (writeFile0600 no_faults path tmp data (settled fs)).2 = true ∧
  crashed_within (writeFile0600 no_faults path tmp data (settled fs)).1 (<[path := torn]> fs).
Proof.
  intros Hne Htmp. split; [done|]. apply Exists_exists. eexists. split; [do 3 right; left|].
  unfold d_rename, crashed. intros name. simpl. rewrite insert_insert_eq, lookup_insert_eq, delete_insert_id by done. simpl.
  case_decide as Hd.
  - right. destruct (decide (name = path)) as [->|Hn]; [by rewrite !lookup_insert_eq|].
    exfalso. revert Hd. rewrite decide_True by set_solver. set_solver.
  - assert (name ≠ path) by (intros ->; apply Hd; rewrite decide_True by set_solver; set_solver). by rewrite !lookup_insert_ne.
Qed.

(** What was valid once is valid later, but for a retention that ends at a
    date. *)
Lemma Validate_later now now' c u :
  Validate now c = Ok u → Validate now' c = Ok u ∨ Validate now' c = Err AgentConfig.BadRetention.
Proof.
  unfold Validate. intros Hv.
  do 9 (apply result_bind_ok in Hv as (? & E & Hv); rewrite E; clear E; unfold mbind at 1; cbn [result_bind]).
  apply result_bind_ok in Hv as (? & _ & Hv). unfold guard_err at 1 3. destruct (_ || _); [left; exact Hv|right; done].
Qed.

Lemma SaveConfig_spec w path cfg fs states r :
  cw_tmp w ≠ path → fs !! cw_tmp w = None → SaveConfig w path cfg fs = (states, r) →
  (∃ data, Forall (old_or_new path (cw_tmp w) data fs) states) ∧
  ∃ final, last states = Some final ∧
    match r with
    | Ok _ => Validate (cw_now w) cfg = Ok tt ∧ ∃ b, toml_Encode cfg = Some b ∧ final = <[path := config_header ++ b]> fs
    | Err _ => final !! path = fs !! path
    end.
Proof.
  intros Hne Htmp. unfold SaveConfig.
  assert ((∃ data, Forall (old_or_new path (cw_tmp w) data fs) [fs]) ∧ ∃ final, last [fs] = Some final ∧ final !! path = fs !! path) as Hsame.
  { split; [exists []; repeat constructor; auto|by exists fs]. }
  destruct (Validate _ _) as [[]|e] eqn:Ev; [|by intros [= <- <-]]. destruct (cw_mkdir_fails w); [by intros [= <- <-]|].
  destruct (toml_Encode cfg) as [b|] eqn:Eb; [|by intros [= <- <-]]. destruct (writeFile0600 _ _ _ _ _) as [states' ok] eqn:Ew.
  intros [= <- <-]. destruct (replaced _ _ _ _ _ _ _ Hne Htmp Ew) as (Hall & final & Hlast & Hfinal).
  split; [by eexists|]. exists (seen final). split; [by rewrite fmap_last, Hlast|]. destruct ok; [|done]. eauto.
Qed.

(** A configuration that was saved is the one that is read. *)
Lemma LoadConfig_saved w w' path cfg b fs :
  config_utf8 cfg → toml_Encode cfg = Some b → cw_read_fails w' = false → Validate (cw_now w) cfg = Ok tt →
  let r := LoadConfig w' path (<[path := config_header ++ b]> fs) in r = Ok cfg ∨ r = Err (Invalid AgentConfig.BadRetention).
Proof.
  intros Hutf Hb Hr Hv. unfold LoadConfig. rewrite lookup_insert_eq, Hr, (toml_encoded _ _ Hutf Hb). simpl.
  destruct (Validate_later _ (cw_now w') _ _ Hv) as [-> | ->]; auto.
Qed.

Lemma LoadConfig_ok w path fs cfg :
  LoadConfig w path fs = Ok cfg → config_utf8 cfg ∧ Validate (cw_now w) cfg = Ok tt.
Proof.
  unfold LoadConfig. destruct (fs !! path) as [b|]; [|done]. destruct (cw_read_fails w); [done|].
  destruct (toml_Decode b) as [[c keys]|] eqn:Ed; [|done]. destruct (negb _); [done|].
  destruct (Validate _ c) as [[]|] eqn:Ev; [|done]. intros [= <-]. split; [by eapply toml_utf8|done].
Qed.
End config_file_props.

(** * Opening the backend (config.go) *)

Section open_backend.
Context {K : Type} `{Keyring K} `{Age} {N : Type} `{HcVault.VaultHost N}.

(** What is opened; the key of the age vault is already read. *)
Inductive opened :=
  | OpenedOnePassword (b : OnePassword.OnePasswordOptions)
  | OpenedBitwarden (b : Bitwarden.BitwardenOptions)
  | OpenedVault (b : HcVault.Vault)
  | OpenedInfisical (b : Infisical.InfisicalOptions)
  | OpenedDoppler (b : Doppler.DopplerOptions)
  | OpenedAWS (b : Aws.AWS)
  | OpenedGCP (b : Gcp.GCP)
  | OpenedAzure (b : Azure.Azure)
  | OpenedMemory (b : Secrets.Memory)
  | OpenedKeychain (b : Keychain K)
  | OpenedDotenv (path : bytes)
  | OpenedAgeVault (path : bytes) (key : identity * recipient)
  | OpenedExternal (name : bytes).

(** [Name()] *)
Definition backend_name (b : opened) : bytes :=
  match b with
  | OpenedOnePassword _ => OnePassword.onepassword_Name
  | OpenedBitwarden _ => Bitwarden.bitwarden_Name
  | OpenedVault _ => HcVault.vault_Name
  | OpenedInfisical _ => Infisical.infisical_Name
  | OpenedDoppler _ => Doppler.doppler_Name
  | OpenedAWS _ => Aws.aws_Name
  | OpenedGCP _ => Gcp.gcp_Name
  | OpenedAzure _ => Azure.azure_Name
  | OpenedMemory _ => mem_Name
  | OpenedKeychain _ => keychain_Name
  | OpenedDotenv _ => Dotenv.dotenv_Name
  | OpenedAgeVault _ _ => agevault_Name
  | OpenedExternal name => name
  end.

(** What opening a backend reads: the machine, the identity file that is
    configured, the credential store. *)
Record open_world := mkOpen {
  op_env : N;
  op_world : OpenWorld;
  op_file : option bytes;
  op_keys : K;
}.

Definition opening : Type := open_world * result setup_error opened.

(** [BackendOpener], and the table that [RegisterBackend] adds to. *)
Definition BackendOpener : Type := Config → Paths → (bytes → bytes) → open_world → opening.

Definition RegisterBackend (name : bytes) (open : BackendOpener) (external : gmap bytes BackendOpener) : gmap bytes BackendOpener :=
  <[name := open]> external.

(** The value of a variable that a setting names; no setting is no value. *)
Definition named_secret (getenv : bytes → bytes) (variable : bytes) : result setup_error bytes :=
  if is_empty variable then Ok []
  else let v := getenv variable in if is_empty v then Err (EmptySecret variable) else Ok v.

Definition or_path (path default : bytes) : bytes := if is_empty path then default else path.

Definition open_agevault (cfg : Config) (path passphrase : bytes) (w : open_world) : opening :=
  let b := AgentConfig.Backends cfg in
  let identity_file := AgentConfig.ac_IdentityFile (AgentConfig.c_AgeVault b) in
  let keychain :=
    if is_empty identity_file && is_empty passphrase then
      Some (NewKeychain false (AgentConfig.kc_Service (AgentConfig.c_Keychain b)) (op_keys w))
    else None in
  let '(file, k, key) := OpenAgeVault (op_world w) (op_file w) (mkAgeVaultOptions identity_file passphrase keychain) in
  (mkOpen (op_env w) (op_world w) file (match k with Some k => kStore k | None => op_keys w end),
   match key with Some key => Ok (OpenedAgeVault path key) | None => Err VaultNotOpened end).

(** The switch over the name. *)
Inductive storage_case :=
  | SOnePassword | SBitwarden | SVault | SInfisical | SDoppler | SAWS | SGCP | SAzure | SMemory | SKeychain | SDotenv | SAgeVault.

Definition storage_cases : list (bytes * storage_case) :=
  [(B["onepassword"], SOnePassword); (B["bitwarden"], SBitwarden); (B["vault"], SVault); (B["infisical"], SInfisical);
   (B["doppler"], SDoppler); (B["aws"], SAWS); (B["gcp"], SGCP); (B["azure"], SAzure); (B["memory"], SMemory);
   (B["keychain"], SKeychain); (B["dotenv"], SDotenv); (B["agevault"], SAgeVault)].

Definition storage_of (name : bytes) : option storage_case :=
  snd <$> head (filter (λ c : bytes * storage_case, c.1 = name) storage_cases).

Definition OpenBackend (external : gmap bytes BackendOpener) (cfg : Config) (paths : Paths) (getenv : bytes → bytes) (w : open_world) : opening :=
  let b := AgentConfig.Backends cfg in
  let done (r : result setup_error opened) : opening := (w, r) in
  match storage_of (AgentConfig.Storage cfg) with
  | Some SOnePassword =>
      let o := AgentConfig.c_OnePassword b in
      done (Ok (OpenedOnePassword (OnePassword.mkOnePassword (AgentConfig.oc_Vault o) (AgentConfig.oc_Account o))))
  | Some SBitwarden =>
      done (session ← named_secret getenv (AgentConfig.bc_SessionEnv (AgentConfig.c_Bitwarden b));
            Ok (OpenedBitwarden (Bitwarden.mkBitwarden session)))
  | Some SVault =>
      let v := AgentConfig.c_Vault b in
      done (token ← named_secret getenv (AgentConfig.vc_TokenEnv v);
            Ok (OpenedVault (HcVault.NewVault
              (HcVault.mkVault (AgentConfig.vc_Address v) token (AgentConfig.vc_Namespace v) (AgentConfig.vc_Mount v) (AgentConfig.vc_Path v))
              (op_env w))))
  | Some SInfisical =>
      let i := AgentConfig.c_Infisical b in
      done (Ok (OpenedInfisical (Infisical.mkInfisical (AgentConfig.ic_ProjectID i) (AgentConfig.ic_Environment i) (AgentConfig.ic_Path i))))
  | Some SDoppler =>
      let d := AgentConfig.c_Doppler b in
      done (Ok (OpenedDoppler (Doppler.mkDoppler (AgentConfig.pc_Project d) (AgentConfig.pc_Config d))))
  | Some SAWS =>
      let a := AgentConfig.c_AWS b in
      done (Ok (OpenedAWS (Aws.NewAWS (Aws.mkAWS (AgentConfig.wc_Prefix a) (AgentConfig.wc_Region a) (AgentConfig.wc_Profile a)))))
  | Some SGCP =>
      let g := AgentConfig.c_GCP b in
      done (Ok (OpenedGCP (Gcp.NewGCP (Gcp.mkGCP (AgentConfig.gc_Project g) (AgentConfig.gc_Prefix g)))))
  | Some SAzure =>
      let z := AgentConfig.c_Azure b in
      done (Ok (OpenedAzure (Azure.NewAzure (Azure.mkAzure (AgentConfig.zc_VaultName z) (AgentConfig.zc_Prefix z) (AgentConfig.zc_Purge z)))))
  | Some SMemory => done (Ok (OpenedMemory Secrets.NewMemory))
  | Some SKeychain => done (Ok (OpenedKeychain (NewKeychain false (AgentConfig.kc_Service (AgentConfig.c_Keychain b)) (op_keys w))))
  | Some SDotenv => done (Ok (OpenedDotenv (or_path (AgentConfig.dc_Path (AgentConfig.c_Dotenv b)) (DotenvFile paths))))
  | Some SAgeVault =>
      let path := or_path (AgentConfig.ac_Path (AgentConfig.c_AgeVault b)) (VaultFile paths) in
      match named_secret getenv (AgentConfig.ac_PassphraseEnv (AgentConfig.c_AgeVault b)) with
      | Err e => done (Err e)
      | Ok passphrase => open_agevault cfg path passphrase w
      end
  | None =>
      match external !! AgentConfig.Storage cfg with
      | Some open => open cfg paths getenv w
      | None => done (Err (NotAvailable (AgentConfig.Storage cfg)))
      end
  end.
End open_backend.

Section open_backend_props.
Context {K : Type} `{Keyring K} `{Age} {N : Type} `{HcVault.VaultHost N} `{Unicode}.

(** The names that validation knows are those of the switch. *)
Lemma storage_of_known name : name ∈ AgentConfig.KnownBackends → is_Some (storage_of name).
Proof.
  intros Hn. assert (Forall (λ n, is_Some (storage_of n)) AgentConfig.KnownBackends) as Hall by decided.
  rewrite Forall_forall in Hall. auto.
Qed.

Lemma storage_of_name name c : storage_of name = Some c → (name, c) ∈ storage_cases.
Proof.
  unfold storage_of. destruct (filter _ _) as [|[n c'] l] eqn:E; [done|]. intros [= <-].
  assert ((n, c') ∈ filter (λ c : bytes * storage_case, c.1 = name) storage_cases) as [Hname Hin]%list_elem_of_filter by (rewrite E; by left).
  simpl in Hname. by subst n.
Qed.

Lemma named_secret_cases getenv variable :
  match named_secret getenv variable with
  | Ok _ => True
  | Err e => e = EmptySecret variable ∧ variable ≠ [] ∧ getenv variable = []
  end.
Proof.
  unfold named_secret, is_empty. case_bool_decide as Hv; [done|]. case_bool_decide as He; [|done]. done.
Qed.

(** Every storage that validation accepts is opened, under the name the
    configuration gives: it is never reported as not available, whatever was
    registered besides, and the only failures are a variable that is named and
    empty, and a vault whose key cannot be read. *)
Lemma accepted_storage external now cfg u paths getenv (w : open_world (K := K) (N := N)) :
  Validate now cfg = Ok u →
  OpenBackend external cfg paths getenv w = OpenBackend ∅ cfg paths getenv w ∧
  match (OpenBackend external cfg paths getenv w).2 with
  | Ok b => backend_name b = AgentConfig.Storage cfg
  | Err e => (∃ variable, e = EmptySecret variable ∧ variable ≠ [] ∧ getenv variable = []) ∨
             (e = VaultNotOpened ∧ AgentConfig.Storage cfg = agevault_Name)
  end.
Proof.
  intros Hv. assert (AgentConfig.Storage cfg ∈ AgentConfig.KnownBackends) as Hknown by (by apply AgentConfig.Validate_known in Hv).
  destruct (storage_of_known _ Hknown) as [c Hc]. unfold OpenBackend. rewrite Hc. split; [by destruct c|].
  apply storage_of_name in Hc. unfold storage_cases in Hc.
  repeat (apply elem_of_cons in Hc as [[= Hs ->]|Hc]; [rewrite Hs; clear Hs|]); [..|by apply elem_of_nil in Hc]; cbn [snd]; try done.
  - pose proof (named_secret_cases getenv (AgentConfig.bc_SessionEnv (AgentConfig.c_Bitwarden (AgentConfig.Backends cfg)))) as Hn.
    destruct (named_secret _ _); [done|]. left. by eexists.
  - pose proof (named_secret_cases getenv (AgentConfig.vc_TokenEnv (AgentConfig.c_Vault (AgentConfig.Backends cfg)))) as Hn.
    destruct (named_secret _ _); [done|]. left. by eexists.
  - pose proof (named_secret_cases getenv (AgentConfig.ac_PassphraseEnv (AgentConfig.c_AgeVault (AgentConfig.Backends cfg)))) as Hn.
    destruct (named_secret _ _) as [p|e]; [|left; by eexists]. unfold open_agevault.
    destruct (OpenAgeVault _ _ _) as [[f k] [key|]]; [done|]. by right.
Qed.
End open_backend_props.

(** * [load] (app.go) *)

Section load.
Context {K : Type} `{Keyring K} `{Age} {N : Type} `{HcVault.VaultHost N} `{Unicode} `{Toml}.
Context (external : gmap bytes (BackendOpener (K := K) (N := N))) (version : bytes).

Record machine := mkMachine {
  mc_os : goos;
  mc_user_home : option bytes;
  mc_getenv : bytes → bytes;
  mc_config : config_world;
  mc_fs : FS; (* where the configuration is *)
  mc_open : open_world (K := K) (N := N);
  mc_state_dir_fails : bool;
  mc_index_dir_fails : bool;
  mc_audit_dir_ok : bool;
  mc_audit_open_ok : bool;
  mc_audit : AuditLog.files;
}.

Record loaded := mkLoaded {
  l_paths : Paths;
  l_cfg : Config;
  l_agent : Agent.Agent;
  l_backend : opened (K := K);
  l_audit : AuditLog.Audit;
  l_keySrc : bytes;
}.

(** [app.keychainGet]; a lookup leaves the credential store as it is. *)
Definition keychainGet (k : K) (service entry : bytes) : option bytes :=
  if beq service AgentConfig.AppName then
    match (GetRaw entry (NewKeychain false [] k)).2 with Ok v => Some v | Err _ => None end
  else None.

Definition load_paths (m : machine) : result setup_error Paths :=
  match DefaultPaths (mc_os m) (mc_user_home m) (mc_getenv m) with Some p => Ok p | None => Err NoPaths end.

(** The key; without one the relay is not asked as an agent. *)
Definition load_key (needKey : bool) (cfg : Config) (m : machine) : result setup_error (bytes * bytes) :=
  match AgentConfig.ResolveAgentKey (mc_getenv m) (Some (keychainGet (op_keys (mc_open m)))) cfg with
  | (Ok key, src) => Ok (key, src)
  | (Err e, src) => if needKey then Err (NoKey e) else Ok ([], src)
  end.

Definition load_client (cfg : Config) (key : bytes) : result setup_error Client.Client :=
  match Client.New (AgentConfig.Relay cfg) key (B["burndrop-cli/"] ++ version) with Some c => Ok c | None => Err NoRelay end.

(** What is decided before anything is changed. *)
Definition load_agent (needKey : bool) (m : machine) : result setup_error (Paths * Config * Agent.Agent * bytes) :=
  paths ← load_paths m;
  cfg ← LoadConfig (mc_config m) (sb (ConfigFile paths)) (mc_fs m);
  '(key, src) ← load_key needKey cfg m;
  rc ← load_client cfg key;
  _ ← guard_err (negb (mc_state_dir_fails m)) MakeDir;
  Ok (paths, cfg, Agent.New cfg rc (negb (is_empty (AgentConfig.RevealPassword cfg))), src).

Definition with_opened (w : open_world) (files : AuditLog.files) (m : machine) : machine :=
  mkMachine (mc_os m) (mc_user_home m) (mc_getenv m) (mc_config m) (mc_fs m) w (mc_state_dir_fails m) (mc_index_dir_fails m)
    (mc_audit_dir_ok m) (mc_audit_open_ok m) files.

Definition load (needKey : bool) (m : machine) : machine * result setup_error loaded :=
  match load_agent needKey m with
  | Err e => (m, Err e)
  | Ok (paths, cfg, ag, src) =>
      let '(w, r) := OpenBackend external cfg paths (mc_getenv m) (mc_open m) in
      let m := with_opened w (mc_audit m) m in
      match r with
      | Err e => (m, Err e)
      | Ok b =>
          if mc_index_dir_fails m then (m, Err NoIndex)
          else
            let path := or_path (AgentConfig.Audit_Path cfg) (AuditFile paths) in
            let '(files, au) := AuditLog.NewAudit path (mc_audit_dir_ok m) (mc_audit_open_ok m) (mc_audit m) in
            (with_opened w files m,
             match au with
             | Err e => Err (NoAudit e)
             | Ok au => Ok (mkLoaded paths cfg ag b au src)
             end)
      end
  end.
End load.

Section load_props.
Context {K : Type} `{Keyring K} `{Age} {N : Type} `{HcVault.VaultHost N} `{Unicode} `{TomlOk}.
Context (external : gmap bytes (BackendOpener (K := K) (N := N))) (version : bytes).

Lemma load_agent_ok needKey (m : machine (K := K) (N := N)) paths cfg ag src :
  load_agent version needKey m = Ok (paths, cfg, ag, src) →
  Validate (cw_now (mc_config m)) cfg = Ok tt ∧ ∃ key rc,
    load_key needKey cfg m = Ok (key, src) ∧ load_client version cfg key = Ok rc ∧
    ag = Agent.New cfg rc (negb (is_empty (AgentConfig.RevealPassword cfg))).
Proof.
  unfold load_agent. intros Ha. apply result_bind_ok in Ha as (p & _ & Ha). apply result_bind_ok in Ha as (c & Hc & Ha).
  apply result_bind_ok in Ha as ([key s] & Hk & Ha). apply result_bind_ok in Ha as (rc & Hrc & Ha).
  apply result_bind_ok in Ha as (? & _ & [= -> -> <- ->]). split; [by apply LoadConfig_ok in Hc as [_ Hc]|]. eauto.
Qed.

Lemma loaded_parts needKey m m' l :
  load external version needKey m = (m', Ok l) →
  ∃ paths src, load_agent version needKey m = Ok (paths, l_cfg l, l_agent l, src) ∧
    (OpenBackend external (l_cfg l) paths (mc_getenv m) (mc_open m)).2 = Ok (l_backend l).
Proof.
  unfold load. destruct (load_agent version needKey m) as [[[[paths cfg] ag] src]|e]; [|done].
  destruct (OpenBackend _ _ _ _ _) as [w [b|e]] eqn:Eb; [|done]. destruct (mc_index_dir_fails _); [done|].
  destruct (AuditLog.NewAudit _ _ _ _) as [files [au|e]]; [|done]. intros [= _ <-]. exists paths, src. cbn. by rewrite Eb.
Qed.

(** C13. What a command works with once its setup succeeds: a configuration that
    is valid at that moment, the backend it names, a client for the relay it
    names under the key that was found, and, where links must ask for a
    password, an agent that has a source for one. *)
Theorem loaded_is_consistent needKey m m' l :
  load external version needKey m = (m', Ok l) →
  let cfg := l_cfg l in
  let relay := Agent.a_Relay (l_agent l) in
  Validate (cw_now (mc_config m)) cfg = Ok tt ∧
  Agent.a_Config (l_agent l) = cfg ∧
  Link.NormalizeOrigin (AgentConfig.Relay cfg) = Ok (Client.Origin relay) ∧
  (needKey = true → (AgentConfig.ResolveAgentKey (mc_getenv m) (Some (keychainGet (op_keys (mc_open m)))) cfg).1 = Ok (Client.APIKey relay)) ∧
  (AgentConfig.RevealPasswordRequired cfg = true → Agent.a_HasPassword (l_agent l) = true) ∧
  backend_name (l_backend l) = AgentConfig.Storage cfg.
Proof.
  intros Hl cfg relay. destruct (loaded_parts _ _ _ _ Hl) as (paths & src & Ha & Hb).
  destruct (load_agent_ok _ _ _ _ _ _ Ha) as (Hv & key & rc & Hkey & Hrc & Hag). subst cfg relay. rewrite Hag in *. cbn [Agent.a_Relay Agent.a_Config Agent.a_HasPassword Agent.New].
  unfold load_client, Client.New in Hrc. destruct (Link.NormalizeOrigin _) as [origin|] eqn:Eo; [|done]. injection Hrc as <-.
  split; [done|]. split; [done|]. split; [done|]. split.
  { intros ->. unfold load_key in Hkey. destruct (AgentConfig.ResolveAgentKey _ _ _) as [[k|] s]; [|done]. by injection Hkey as -> _. }
  split.
  { intros Hr. apply negb_true_iff, bool_decide_eq_false. by eapply AgentConfig.Validate_required. }
  destruct (accepted_storage external _ _ _ paths (mc_getenv m) (mc_open m) Hv) as [_ Hname]. by rewrite Hb in Hname.
Qed.
End load_props.
