(* ===== verification/SetupCommands.v ===== *)
(** The commands that set an agent up and check it:
    cmd/burndrop/cmd_reveal_password.go, cmd/burndrop/cmd_init.go and
    [cmdVerifyPage] of cmd/burndrop/cmd_verify.go; and the entries of the
    credential store that the program shares with the keychain backend. *)
From S2P Require Import Prelude GoStrings GoTime GoOs Secrets FileAtomic Keychain AgeVault AgentSetup.
From S2P Require Sha256 GoText Records KeychainProps AgeVaultProps Flags RelayMain Crypto Link Client Agent AgentConfig AuditLog Human OnePassword Bitwarden HcVault Infisical Doppler Aws Gcp Azure.
From Stdlib Require Import Strings.Byte.

Import AgentConfig (Config, Validate).

(** * The reveal password (cmd_reveal_password.go) *)

Definition KeychainRevealPasswordRef : bytes := B["reveal-password"].

Definition with_password (ref : bytes) (required : bool) (c : Config) : Config :=
  AgentConfig.mkConfig (AgentConfig.Relay c) (AgentConfig.PageOrigin c) (AgentConfig.AgentKey c) (AgentConfig.Storage c)
    (AgentConfig.cfg_DefaultTTL c) (AgentConfig.cfg_DefaultRetention c) ref required (AgentConfig.RunWithSecret c)
    (AgentConfig.Audit_Path c) (AgentConfig.Backends c).

(** [printRevealPasswordStatus] *)
Definition password_status (c : Config) : bytes :=
  if AgentConfig.RevealPasswordRequired c then B["reveal password: on (every reveal link asks for it before showing the value)"]
  else if negb (is_empty (AgentConfig.RevealPassword c)) then B["reveal password: set but off (turn it on with: burndrop reveal-password on)"]
  else B["reveal password: not set (set one with: burndrop reveal-password set)"].

(** A step of a command on a state of its own. *)
Definition step (S A : Type) : Type := S → S * result setup_error A.

#[local] Instance step_ret S : MRet (step S) := λ A a s, (s, Ok a).
#[local] Instance step_bind S : MBind (step S) := λ A B f m s,
  match m s with (s', Ok a) => f a s' | (s', Err e) => (s', Err e) end.

Definition refuse {S A} (e : setup_error) : step S A := λ s, (s, Err e).
Definition checked {S A} (r : result setup_error A) : step S A := λ s, (s, r).

Lemma step_ok {S A B} (m : step S A) (f : A → step S B) s s' b :
  (m ≫= f) s = (s', Ok b) → ∃ s1 a, m s = (s1, Ok a) ∧ f a s1 = (s', Ok b).
Proof. unfold mbind, step_bind. destruct (m s) as [s1 [a|e]]; [eauto|done]. Qed.

Section reveal_password.
Context {K : Type} `{Keyring K} {W : Type} `{!Human.Terminal W} `{Unicode} `{Toml}.
Context (os : goos) (user_home : option bytes) (getenv : bytes → bytes) (w : config_world).

(** The terminal, the directory of the configuration, the credential store. *)
Record shell := mkShell { sh_term : W; sh_fs : FS; sh_keys : K }.

(** [app.readSecret] *)
Definition typed : step shell bytes := λ s,
  let '(t, r) := Human.readSecret (sh_term s) in
  (mkShell t (sh_fs s) (sh_keys s), match r with Ok b => Ok b | Err e => Err (SetupInput e) end).

(** The credential store, under the service of the program. *)
Definition on_keys {A} (f : Keychain K → Keychain K * result storage_error A) : step shell (result storage_error A) := λ s,
  let '(k, r) := f (NewKeychain false [] (sh_keys s)) in (mkShell (sh_term s) (sh_fs s) (kStore k), Ok r).

Definition save_config (path : string) (cfg : Config) : step shell unit := λ s,
  let '(fs, r) := saved w path cfg (sh_fs s) in (mkShell (sh_term s) fs (sh_keys s), r).

Definition set_password (cfg : Config) : step shell Config :=
  pw ← typed;
  if RuneCount pw <? Crypto.MinPasswordLen then refuse TooShort
  else
    again ← typed;
    if negb (beq pw again) then refuse PasswordsDiffer
    else
      r ← on_keys (SetRaw KeychainRevealPasswordRef pw);
      match r with
      | Err e => refuse (NotStored e)
      | Ok _ => mret (with_password AgentConfig.DefaultRevealPasswordRef true cfg)
      end.

Definition turn (required : bool) (cfg : Config) : step shell Config :=
  checked (match AgentConfig.SetRevealPasswordRequired required cfg with Ok cfg => Ok cfg | Err e => Err (Invalid e) end).

(** What could not be removed from the store is warned about. *)
Definition clear_password (cfg : Config) : step shell Config :=
  _ ← (if beq (AgentConfig.RevealPassword cfg) AgentConfig.DefaultRevealPasswordRef then
         on_keys (DeleteRaw KeychainRevealPasswordRef)
       else mret (Ok tt));
  mret (with_password [] false cfg).

Definition password_config (sub : bytes) (cfg : Config) : step shell Config :=
  if beq sub B["set"] then set_password cfg
  else if beq sub B["on"] then turn true cfg
  else if beq sub B["off"] then turn false cfg
  else if beq sub B["clear"] then clear_password cfg
  else refuse SetupUsage.

(** [cmdRevealPassword]; its result is the line it prints. *)
Definition cmdRevealPassword (args : list bytes) : step shell bytes :=
  '(_, rest) ← checked (match Flags.parseWith ∅ args false with Ok r => Ok r | Err _ => Err SetupUsage end);
  let sub := or_path (hd [] rest) B["status"] in
  paths ← checked (match DefaultPaths os user_home getenv with Some p => Ok p | None => Err NoPaths end);
  let path := sb (ConfigFile paths) in
  cfg ← (λ s, (s, LoadConfig w path (sh_fs s)) : shell * result setup_error Config);
  if beq sub B["status"] then mret (password_status cfg)
  else
    cfg ← password_config sub cfg;
    _ ← save_config path cfg;
    mret (password_status cfg).
End reveal_password.

Section reveal_password_props.
Context {K : Type} `{KeyringOk K} {W : Type} `{!Human.Terminal W} `{Unicode} `{TomlOk}.
Context (os : goos) (user_home : option bytes) (getenv : bytes → bytes) (w : config_world).

Lemma set_password_ok cfg cfg' (s s' : shell (K := K) (W := W)) :
  set_password cfg s = (s', Ok cfg') →
  cfg' = with_password AgentConfig.DefaultRevealPasswordRef true cfg ∧ sh_fs s' = sh_fs s ∧
  ∃ pw, Crypto.MinPasswordLen <= RuneCount pw ∧
    kr_view (sh_keys s') !! (AgentConfig.AppName, KeychainRevealPasswordRef) = Some pw ∧
    ∃ t1 t2, Human.readSecret (sh_term s) = (t1, Ok pw) ∧ Human.readSecret t1 = (t2, Ok pw).
Proof.
  unfold set_password. intros Hs. apply step_ok in Hs as (s1 & pw & Hpw & Hs).
  unfold typed in Hpw. destruct (Human.readSecret (sh_term s)) as [t1 [p|]] eqn:E1; [|done]. injection Hpw as <- ->.
  destruct (Z.ltb_spec (RuneCount pw) Crypto.MinPasswordLen) as [|Hlen]; [done|].
  apply step_ok in Hs as (s2 & again & Hagain & Hs). unfold typed in Hagain. cbn [sh_term] in Hagain.
  destruct (Human.readSecret t1) as [t2 [p|]] eqn:E2; [|done]. injection Hagain as <- ->.
  destruct (beq pw again) eqn:Eq; [|done]. apply bool_decide_eq_true in Eq as <-. cbn [negb] in Hs.
  apply step_ok in Hs as (s3 & r & Hset & Hs). unfold on_keys, SetRaw, keyring_Set, on_keyring in Hset. cbn [sh_keys sh_fs sh_term kStore NewKeychain] in Hset.
  change (kService _) with AgentConfig.AppName in Hset.
  pose proof (kr_set_ok AgentConfig.AppName KeychainRevealPasswordRef pw (sh_keys s)) as Hview.
  destruct (kr_Set _ _ _ _) as [k r'] eqn:Ek. injection Hset as <- <-. destruct r' as [[]|[]]; simpl in Hs; try done.
  injection Hs as <- <-. split; [done|]. split; [done|]. exists pw. split; [done|]. split; [|by eauto].
  cbn [sh_keys kStore]. cbn [fst snd] in Hview. rewrite (Hview eq_refl). apply lookup_insert_eq.
Qed.

Lemma save_config_ok path cfg (s s' : shell (K := K) (W := W)) :
  cw_tmp w ≠ path → sh_fs s !! cw_tmp w = None → save_config w path cfg s = (s', Ok tt) →
  Validate (cw_now w) cfg = Ok tt ∧ (∃ b, toml_Encode cfg = Some b ∧ sh_fs s' = <[path := config_header ++ b]> (sh_fs s)) ∧
  sh_keys s' = sh_keys s.
Proof.
  intros Hne Htmp. unfold save_config, saved. destruct (SaveConfig w path cfg (sh_fs s)) as [states r] eqn:Es.
  destruct (SaveConfig_spec _ _ _ _ _ _ Hne Htmp Es) as (_ & final & Hlast & Hfinal). intros [= <- ->]. rewrite Hlast. by destruct Hfinal.
Qed.

Lemma utf8_with_password ref required cfg : ValidUtf8 ref = true → config_utf8 cfg → config_utf8 (with_password ref required cfg).
Proof.
  unfold config_utf8, config_texts. intros Hr Hc. cbn [app] in Hc |- *. rewrite !Forall_cons, Forall_app in Hc |- *.
  decompose [and] Hc. repeat split; assumption.
Qed.

Lemma keychainGet_view (k : K) entry v :
  keychainGet k AgentConfig.AppName entry = Some v → kr_view k !! (AgentConfig.AppName, entry) = Some v.
Proof.
  unfold keychainGet. change (beq AgentConfig.AppName AgentConfig.AppName) with true. cbv iota.
  unfold GetRaw, keyring_Get, on_keyring. change (kService _) with AgentConfig.AppName. cbn [kStore NewKeychain].
  pose proof (kr_get_ok AgentConfig.AppName entry k) as Hget. destruct (kr_Get _ _ _) as [k' [x|[]]]; try done. intros [= <-]. by apply Hget.
Qed.

(** The reference that [set] writes leads to what is in the credential store. *)
Lemma default_reference cfg required (k : K) v :
  AgentConfig.ResolveRevealPassword getenv (Some (keychainGet k)) (with_password AgentConfig.DefaultRevealPasswordRef required cfg) = Ok (Some v) →
  kr_view k !! (AgentConfig.AppName, KeychainRevealPasswordRef) = Some v.
Proof.
  assert (AgentConfig.keychain_lookup (Some (keychainGet k)) AgentConfig.DefaultRevealPasswordRef =
          match keychainGet k AgentConfig.AppName KeychainRevealPasswordRef with Some v => Ok v | None => Err AgentConfig.NotInKeychain end) as Hlook
    by reflexivity.
  unfold AgentConfig.ResolveRevealPassword. cbn [with_password AgentConfig.RevealPassword].
  change (is_empty AgentConfig.DefaultRevealPasswordRef) with false.
  change (HasPrefix AgentConfig.DefaultRevealPasswordRef AgentConfig.env_prefix) with false.
  change (HasPrefix AgentConfig.DefaultRevealPasswordRef AgentConfig.keychain_prefix) with true. cbv iota. rewrite Hlook.
  pose proof (keychainGet_view k KeychainRevealPasswordRef) as Hget. destruct (keychainGet _ _ _); [|done]. intros [= <-]. by apply Hget.
Qed.

(** C11. Once [reveal-password set] has succeeded, whatever was configured
    before: the same text was typed twice and is not too short, the
    configuration file is again one that loads (or its retention has ended
    since), links must ask for the password, and what the configuration's
    reference leads to is that text and nothing else. *)
Theorem password_is_the_typed_one paths out (s s' : shell (K := K) (W := W)) :
  DefaultPaths os user_home getenv = Some paths →
  let path := sb (ConfigFile paths) in
  cw_tmp w ≠ path → sh_fs s !! cw_tmp w = None →
  cmdRevealPassword os user_home getenv w [B["set"]] s = (s', Ok out) →
  ∃ pw cfg t1 t2, Human.readSecret (sh_term s) = (t1, Ok pw) ∧ Human.readSecret t1 = (t2, Ok pw) ∧
    Crypto.MinPasswordLen <= RuneCount pw ∧ AgentConfig.RevealPasswordRequired cfg = true ∧
    (∀ v, AgentConfig.ResolveRevealPassword getenv (Some (keychainGet (sh_keys s'))) cfg = Ok (Some v) → v = pw) ∧
    ∀ w', cw_read_fails w' = false →
      LoadConfig w' path (sh_fs s') = Ok cfg ∨ LoadConfig w' path (sh_fs s') = Err (Invalid AgentConfig.BadRetention).
Proof.
  intros Hpaths path Hne Htmp Hc. unfold cmdRevealPassword in Hc.
  apply step_ok in Hc as (s1 & [fl rest] & Hflags & Hc).
  change (Flags.parseWith ∅ [B["set"]] false) with (@Ok Flags.flag_error _ (∅ : Flags.FlagSet, [B["set"]])) in Hflags. injection Hflags as <- _ <-.
  apply step_ok in Hc as (s1 & p & Hp & Hc). rewrite Hpaths in Hp. injection Hp as <- <-. fold path in Hc.
  apply step_ok in Hc as (s1 & cfg & Hl & Hc). injection Hl as <- Hl. apply LoadConfig_ok in Hl as [Hutf _].
  change (beq _ B["status"]) with false in Hc. cbv iota in Hc.
  apply step_ok in Hc as (s2 & cfg' & Hset & Hc). change (set_password cfg s = (s2, Ok cfg')) in Hset.
  apply set_password_ok in Hset as (-> & Hfs & pw & Hlen & Hview & t1 & t2 & H1' & H2').
  apply step_ok in Hc as (s3 & [] & Hsave & [= <- _]). rewrite <- Hfs in Htmp.
  destruct (save_config_ok _ _ _ _ Hne Htmp Hsave) as (Hv & (b & Hb & Hfs') & Hkeys).
  exists pw, (with_password AgentConfig.DefaultRevealPasswordRef true cfg), t1, t2. split; [done|]. split; [done|]. split; [done|]. split; [done|].
  split.
  - intros v Hr. apply default_reference in Hr. rewrite Hkeys, Hview in Hr. by injection Hr.
  - intros w' Hr. rewrite Hfs'. eapply LoadConfig_saved; [|exact Hb|exact Hr|exact Hv].
    by apply utf8_with_password.
Qed.
End reveal_password_props.

(** * Checking the hosted page (cmd_verify.go) *)

(** What [cmdVerifyPage] prints, and whether it fails. *)
Definition page_report (served : bytes) (info : Client.Info) (embedded : result RelayMain.web_error RelayMain.WebPage) (expect : bytes) : list bytes * bool :=
  let reported := negb (beq (Client.i_PageSHA256 info) served) in
  let unexpected := negb (is_empty expect) && negb (beq expect served) in
  ([B["served page:    "] ++ served;
    B["relay reports:  "] ++ Client.i_PageSHA256 info ++ B[" (page version "] ++ Client.i_PageVersion info ++ B[")"]] ++
   (if reported then [B["MISMATCH: the relay serves a page whose hash differs from what it reports"]] else []) ++
   (match embedded with
    | Ok p =>
        let m := RelayMain.page_Meta p in
        [B["this binary:    "] ++ RelayMain.meta_SHA256 m ++ B[" (page version "] ++ RelayMain.meta_Version m ++ B[")"]] ++
        (if beq (RelayMain.meta_SHA256 m) served then []
         else [B["note: the served page differs from the one embedded in this binary (different release or a modified relay)"]])
    | Err RelayMain.ErrNotBuilt => [B["this binary:    no page embedded"]]
    | Err _ => []
    end) ++
   (if is_empty expect then []
    else (B["expected:       "] ++ expect) ::
         (if beq expect served then [] else [B["MISMATCH: the served page is not the expected release page"]])),
   reported || unexpected).

Lemma report_ok served info embedded expect :
  (page_report served info embedded expect).2 = false → Client.i_PageSHA256 info = served ∧ (expect ≠ [] → expect = served).
Proof.
  unfold page_report. cbn [snd]. intros [Hrep Hexp]%orb_false_iff. apply negb_false_iff, bool_decide_eq_true in Hrep. split; [done|].
  intros Hne. apply andb_false_iff in Hexp as [Hexp|Hexp]; apply negb_false_iff, bool_decide_eq_true in Hexp; done.
Qed.

Definition verify_flags : Flags.FlagSet := {[ B["relay"] := Flags.VString []; B["expect"] := Flags.VString [] ]}.

Definition string_flag (fs : Flags.FlagSet) (name : bytes) : bytes := match fs !! name with Some (Flags.VString s) => s | _ => [] end.

Section verify_page.
Context {N : Type} `{Client.World N} `{Unicode} `{Toml}.
Context (os : goos) (user_home : option bytes) (getenv : bytes → bytes) (w : config_world) (fs : FS).
Context (version : bytes) (embedded : result RelayMain.web_error RelayMain.WebPage).

(** The relay named on the line, or the one of the configuration. *)
Definition verify_origin (relay : bytes) : result setup_error bytes :=
  if negb (is_empty relay) then Ok relay
  else match DefaultPaths os user_home getenv with
       | None => Err NoPaths
       | Some paths => cfg ← LoadConfig w (sb (ConfigFile paths)) fs; Ok (AgentConfig.Relay cfg)
       end.

Definition verify_client (args : list bytes) : result setup_error (Client.Client * bytes) :=
  match Flags.parseWith verify_flags args false with
  | Err _ => Err SetupUsage
  | Ok (fl, _) =>
      origin ← verify_origin (string_flag fl B["relay"]);
      match Client.New origin [] (B["burndrop-cli/"] ++ version) with
      | None => Err NoRelay
      | Some rc => Ok (rc, string_flag fl B["expect"])
      end
  end.

(** The lines it prints, and what it comes to. *)
Definition cmdVerifyPage (args : list bytes) (n : N) : N * (list bytes * result setup_error unit) :=
  match verify_client args with
  | Err e => (n, ([], Err e))
  | Ok (rc, expect) =>
      match Client.PageHash rc n with
      | (n, Err e) => (n, ([], Err (NoPage e)))
      | (n, Ok served) =>
          match Client.Client_Info rc n with
          | (n, Err e) => (n, ([], Err (NoInfo e)))
          | (n, Ok info) =>
              let '(lines, failed) := page_report served info embedded expect in
              (n, if failed : bool then (lines, Err PageMismatch) else (lines ++ [B["ok"]], Ok tt))
          end
      end
  end.

(** When [verify-page] says ok, the relay answered the request for the page
    with bytes of which the first eight megabytes, all that is looked at, have
    the hash that the relay reports for its page, which is also the expected
    one where one was given. *)
Theorem verified_page args (n n' : N) lines :
  cmdVerifyPage args n = (n', (lines, Ok tt)) →
  ∃ rc expect n1 html n2 info, verify_client args = Ok (rc, expect) ∧
    Client.http_do (Client.mkHttp B["GET"] (Client.Origin rc ++ B["/drop"]) [] []) n = (n1, inr (200, inl html)) ∧
    Client.Client_Info rc n1 = (n2, Ok info) ∧
    let hash := Sha256.hex_encode (Sha256.sha256 (take (Z.to_nat 8388608) html)) in
    Client.i_PageSHA256 info = hash ∧ (expect ≠ [] → expect = hash).
Proof.
  unfold cmdVerifyPage. destruct (verify_client args) as [[rc expect]|]; [|done]. unfold Client.PageHash.
  destruct (Client.http_do _ n) as [n1 [e|[status body]]] eqn:Eh; [done|]. destruct (Z.eqb_spec status 200) as [->|]; [|done].
  destruct body as [html|]; [|done]. cbn [negb]. destruct (Client.Client_Info rc n1) as [n2 [info|]] eqn:Ei; [|done].
  destruct (page_report _ _ _ _) as [ls failed] eqn:Er. destruct failed; [done|]. intros _.
  exists rc, expect, n1, html, n2, info. split; [done|]. split; [done|]. split; [done|].
  apply (f_equal snd) in Er. by apply report_ok in Er.
Qed.
End verify_page.

(** * First-time setup (cmd_init.go) *)

Definition KeychainAgentKeyRef : bytes := B["agent-key"].

Definition with_identity (file : bytes) (b : AgentConfig.BackendConfig) : AgentConfig.BackendConfig :=
  AgentConfig.mkBackendConfig (AgentConfig.c_Keychain b)
    (AgentConfig.mkAgeVaultConfig (AgentConfig.ac_Path (AgentConfig.c_AgeVault b)) file (AgentConfig.ac_PassphraseEnv (AgentConfig.c_AgeVault b)))
    (AgentConfig.c_Dotenv b) (AgentConfig.c_OnePassword b) (AgentConfig.c_Bitwarden b) (AgentConfig.c_Vault b) (AgentConfig.c_Infisical b)
    (AgentConfig.c_Doppler b) (AgentConfig.c_AWS b) (AgentConfig.c_GCP b) (AgentConfig.c_Azure b).

Definition with_dotenv (path : bytes) (b : AgentConfig.BackendConfig) : AgentConfig.BackendConfig :=
  AgentConfig.mkBackendConfig (AgentConfig.c_Keychain b) (AgentConfig.c_AgeVault b) (AgentConfig.mkDotenvConfig path)
    (AgentConfig.c_OnePassword b) (AgentConfig.c_Bitwarden b) (AgentConfig.c_Vault b) (AgentConfig.c_Infisical b)
    (AgentConfig.c_Doppler b) (AgentConfig.c_AWS b) (AgentConfig.c_GCP b) (AgentConfig.c_Azure b).

Definition init_flags : Flags.FlagSet :=
  {[ B["relay"] := Flags.VString []; B["storage"] := Flags.VString []; B["agent-key-from"] := Flags.VString [];
     B["page-origin"] := Flags.VString []; B["allow-dotenv"] := Flags.VBool false; B["yes"] := Flags.VBool false ]}.

Definition bool_flag (fs : Flags.FlagSet) (name : bytes) : bool := match fs !! name with Some (Flags.VBool b) => b | _ => false end.

Section init.
Context {K : Type} `{Keyring K} `{Age} {N : Type} `{HcVault.VaultHost N} {W : Type} `{!Human.Terminal W} `{Unicode} `{Toml}.
Context (external : gmap bytes (BackendOpener (K := K) (N := N))) (version : bytes).
Context (os : goos) (user_home : option bytes) (getenv : bytes → bytes) (w : config_world) (state_dir_fails : bool).

(** What the probes come to. *)
Context (probe : opened (K := K) → Probe).

(** The terminal with its network, the directory of the configuration, and
    what opening a backend reads and writes: [op_file] is the identity file
    beside the vault. *)
Record install := mkInstall { is_term : W; is_fs : FS; is_open : open_world (K := K) (N := N) }.

Definition on_terminal {A} (m : Human.cli A) : step install A := λ s,
  let '(t, r) := m (is_term s) in
  (mkInstall t (is_fs s) (is_open s), match r with Ok a => Ok a | Err e => Err (SetupInput e) end).

(** ** The candidates *)

Definition candidate_config (name identity_file : bytes) : Config :=
  AgentConfig.mkConfig B["https://relay.invalid"] [] [] name [] [] [] false (AgentConfig.mkRunConfig [] 0) []
    (with_identity identity_file AgentConfig.no_backends).

Definition fallback_file (paths : Paths) : bytes := VaultFile paths ++ B[".key"].

(** A backend of every name; an age vault that does not open is opened with an
    identity file beside it. *)
Fixpoint candidateBackends (paths : Paths) (names : list bytes) (o : open_world) : open_world * list opened * bytes :=
  match names with
  | [] => (o, [], [])
  | name :: names =>
      let '(o, r) := OpenBackend external (candidate_config name []) paths getenv o in
      let '(o, r, identity_file) :=
        if negb (is_ok r) && beq name agevault_Name then
          let '(o, r) := OpenBackend external (candidate_config name (fallback_file paths)) paths getenv o in (o, r, fallback_file paths)
        else (o, r, []) in
      let '(o, l, identity_file') := candidateBackends paths names o in
      (o, match r with Ok b => b :: l | Err _ => l end, if is_empty identity_file then identity_file' else identity_file)
  end.

(** ** The choice *)

Definition allowed_dotenv (allow : bool) (name : bytes) : step install unit :=
  if beq name Dotenv.dotenv_Name && negb allow then refuse DotenvNotAllowed else mret tt.

Definition choose (storageName : bytes) (allow yes : bool) (candidates : list (Registry.Candidate (B := opened (K := K)))) : step install bytes :=
  if is_empty storageName then
    match Registry.Recommend candidates with
    | None => refuse NoStorage
    | Some rec =>
        let name := backend_name (Registry.cBackend rec) in
        _ ← allowed_dotenv allow name;
        ok ← on_terminal (Human.confirm yes);
        if negb ok then refuse Declined else mret name
    end
  else if existsb (λ c, beq (backend_name (Registry.cBackend c)) storageName) candidates then
    _ ← allowed_dotenv allow storageName; mret storageName
  else refuse (UnknownStorage storageName).

(** ** The agent's key: what the configuration says of it *)

Definition store_key (key : bytes) : step install unit := λ s,
  let '(k, r) := SetRaw KeychainAgentKeyRef key (NewKeychain false [] (op_keys (is_open s))) in
  let o := is_open s in
  (mkInstall (is_term s) (is_fs s) (mkOpen (op_env o) (op_world o) (op_file o) (kStore k)),
   match r with Ok _ => Ok tt | Err e => Err (NotStored e) end).

Definition init_key (auth keyFrom : bytes) : step install bytes :=
  if beq auth B["off"] then mret AgentConfig.AgentKeyNone
  else if existsb (beq keyFrom) [[]; B["keychain"]; B["prompt"]] then
    typed ← on_terminal Human.readSecret;
    let key := TrimSpace typed in
    if is_empty key then refuse NoAgentKey
    else _ ← store_key key; mret AgentConfig.DefaultAgentKeyRef
  else if beq keyFrom B["env"] then mret (AgentConfig.env_prefix ++ AgentConfig.DefaultAgentKeyEnv)
  else refuse BadKeySource.

(** [os.Remove] of the file that was needed for the probe only. *)
Definition remove_identity : step install unit := λ s,
  let o := is_open s in
  (mkInstall (is_term s) (is_fs s)
     (mkOpen (op_env o) (op_world o) (if f_remove (cw_faults w) then op_file o else None) (op_keys o)), Ok tt).

Definition init_config (relay chosen pageOrigin key dotenv_path identity_file : bytes) : Config :=
  AgentConfig.mkConfig relay pageOrigin key chosen B["1h"] AgentConfig.DefaultRetention [] false (AgentConfig.mkRunConfig [] 0) []
    (with_identity identity_file (with_dotenv dotenv_path AgentConfig.no_backends)).

Definition write_config (path : string) (cfg : Config) : step install unit := λ s,
  let '(fs, r) := saved w path cfg (is_fs s) in (mkInstall (is_term s) fs (is_open s), r).

Definition probe_backends (paths : Paths) : step install (list (Registry.Candidate (B := opened (K := K))) * bytes) := λ s,
  let '(o, l, identity_file) := candidateBackends paths AgentConfig.KnownBackends (is_open s) in
  (mkInstall (is_term s) (is_fs s) o, Ok (Registry.Detect probe (λ _, false) (Some <$> l), identity_file)).

(** From the relay's description on. *)
Definition init_with (fl : Flags.FlagSet) (paths : Paths) (rc : Client.Client) (info : Client.Info) : step install Config :=
  existed ← (λ s, (s, Ok (bool_decide (is_Some (op_file (is_open s))))) : install * result setup_error bool);
  '(candidates, identity_file) ← probe_backends paths;
  chosen ← choose (string_flag fl B["storage"]) (bool_flag fl B["allow-dotenv"]) (bool_flag fl B["yes"]) candidates;
  key ← init_key (Client.i_AgentAuth info) (string_flag fl B["agent-key-from"]);
  let vault := beq chosen agevault_Name && negb (is_empty identity_file) in
  let cfg := init_config (Client.Origin rc) chosen (string_flag fl B["page-origin"]) key
               (if beq chosen Dotenv.dotenv_Name then DotenvFile paths else []) (if vault then identity_file else []) in
  _ ← (if negb vault && negb (is_empty identity_file) && negb existed then remove_identity else mret tt);
  _ ← write_config (sb (ConfigFile paths)) cfg;
  mret cfg.

Definition cmdInit (args : list bytes) : step install Config :=
  '(fl, _) ← checked (match Flags.parseWith init_flags args false with Ok r => Ok r | Err _ => Err SetupUsage end);
  paths ← checked (match DefaultPaths os user_home getenv with Some p => Ok p | None => Err NoPaths end);
  _ ← checked (guard_err (negb state_dir_fails) MakeDir);
  _ ← checked (guard_err (negb (is_empty (string_flag fl B["relay"]))) SetupUsage);
  rc ← checked (match Client.New (string_flag fl B["relay"]) [] (B["burndrop-cli/"] ++ version) with Some c => Ok c | None => Err NoRelay end);
  info ← (λ s, let '(t, r) := Client.Client_Info (H := Human.terminal_net) rc (is_term s) in
               (mkInstall t (is_fs s) (is_open s), match r with Ok i => Ok i | Err e => Err (NoInfo e) end) : install * result setup_error Client.Info);
  init_with fl paths rc info.
End init.

Section init_props.
Context {K : Type} `{KeyringOk K} `{Age} {N : Type} `{HcVault.VaultHost N} {W : Type} `{!Human.Terminal W} `{Unicode} `{TomlOk}.
Context (external : gmap bytes (BackendOpener (K := K) (N := N))) (version : bytes).
Context (os : goos) (user_home : option bytes) (getenv : bytes → bytes) (w : config_world) (state_dir_fails : bool).
Context (probe : opened (K := K) → Probe).

Abbreviation installed := (install (K := K) (N := N) (W := W)).

Lemma allowed_dotenv_ok allow name (s s' : installed) u :
  allowed_dotenv allow name s = (s', Ok u) → s' = s ∧ (name = Dotenv.dotenv_Name → allow = true).
Proof.
  unfold allowed_dotenv. destruct (beq name Dotenv.dotenv_Name && negb allow) eqn:E; intros [= <-]. split; [done|]. intros ->.
  destruct allow; [done|]. by unfold beq in E; rewrite bool_decide_eq_true_2 in E.
Qed.

Lemma choose_ok storageName allow yes candidates (s s' : installed) name :
  choose storageName allow yes candidates s = (s', Ok name) →
  (name = Dotenv.dotenv_Name → allow = true) ∧ is_fs s' = is_fs s.
Proof.
  unfold choose. destruct (is_empty storageName).
  - destruct (Registry.Recommend candidates) as [rec|]; [|done]. intros Hc.
    apply step_ok in Hc as (s1 & u & [-> Ha]%allowed_dotenv_ok & Hc). apply step_ok in Hc as (s2 & ok & Hok & Hc).
    unfold on_terminal in Hok. destruct (Human.confirm yes (is_term s)) as [t r]. injection Hok as <- _.
    destruct ok; [|done]. by injection Hc as <- <-.
  - destruct (existsb _ _); [|done]. intros Hc. apply step_ok in Hc as (s1 & u & [-> Ha]%allowed_dotenv_ok & Hc). by injection Hc as <- <-.
Qed.

(** The key that was typed is in the credential store. *)
Definition key_typed (k : K) : Prop :=
  ∃ (t t' : W) typed, Human.readSecret t = (t', Ok typed) ∧ TrimSpace typed ≠ [] ∧
    kr_view k !! (AgentConfig.AppName, KeychainAgentKeyRef) = Some (TrimSpace typed).

Lemma init_key_ok auth from (s s' : installed) key :
  init_key auth from s = (s', Ok key) →
  is_fs s' = is_fs s ∧ (key = AgentConfig.DefaultAgentKeyRef → key_typed (op_keys (is_open s'))).
Proof.
  unfold init_key. destruct (beq auth B["off"]); [by intros [= <- <-]|]. destruct (existsb _ _).
  2:{ destruct (beq from B["env"]); [|done]. by intros [= <- <-]. }
  intros Hk. apply step_ok in Hk as (s1 & typed & Ht & Hk). unfold on_terminal in Ht.
  destruct (Human.readSecret (is_term s)) as [t [b|]] eqn:Er; [|done]. injection Ht as <- ->.
  destruct (is_empty (TrimSpace typed)) eqn:Ee; [done|]. apply step_ok in Hk as (s2 & [] & Hs & Hk). injection Hk as <- <-.
  unfold store_key, SetRaw, keyring_Set, on_keyring in Hs. cbn [is_term is_fs is_open op_keys kStore NewKeychain] in Hs.
  change (kService _) with AgentConfig.AppName in Hs.
  pose proof (kr_set_ok AgentConfig.AppName KeychainAgentKeyRef (TrimSpace typed) (op_keys (is_open s))) as Hview.
  destruct (kr_Set _ _ _ _) as [k [[]|[]]]; try done. injection Hs as <-. split; [done|]. intros _.
  exists (is_term s), t, typed. split; [done|]. split; [by apply bool_decide_eq_false in Ee|].
  cbn [is_open op_keys kStore]. cbn [fst snd] in Hview. rewrite (Hview eq_refl). apply lookup_insert_eq.
Qed.

Lemma write_config_ok path cfg (s s' : installed) :
  cw_tmp w ≠ path → is_fs s !! cw_tmp w = None → write_config w path cfg s = (s', Ok tt) →
  Validate (cw_now w) cfg = Ok tt ∧ (∃ b, toml_Encode cfg = Some b ∧ is_fs s' = <[path := config_header ++ b]> (is_fs s)) ∧
  is_open s' = is_open s.
Proof.
  intros Hne Htmp. unfold write_config, saved. destruct (SaveConfig w path cfg (is_fs s)) as [states r] eqn:Es.
  destruct (SaveConfig_spec _ _ _ _ _ _ Hne Htmp Es) as (_ & final & Hlast & Hfinal). intros [= <- ->]. rewrite Hlast. by destruct Hfinal.
Qed.

(** Without a date in it, a configuration is valid at all times. *)
Lemma init_config_valid relay chosen page key dotenv_path identity_file now now' :
  let cfg := init_config relay chosen page key dotenv_path identity_file in Validate now cfg = Validate now' cfg.
Proof. intros cfg. unfold Validate. reflexivity. Qed.

Lemma init_with_ok fl paths rc info (s s' : installed) cfg :
  cw_tmp w ≠ sb (ConfigFile paths) → is_fs s !! cw_tmp w = None →
  init_with external getenv w probe fl paths rc info s = (s', Ok cfg) →
  (AgentConfig.Storage cfg = Dotenv.dotenv_Name → bool_flag fl B["allow-dotenv"] = true) ∧
  Validate (cw_now w) cfg = Ok tt ∧ (∀ now, Validate now cfg = Validate (cw_now w) cfg) ∧
  (∃ b, toml_Encode cfg = Some b ∧ ∃ fs, is_fs s' = <[sb (ConfigFile paths) := config_header ++ b]> fs) ∧
  (AgentConfig.AgentKey cfg = AgentConfig.DefaultAgentKeyRef → key_typed (op_keys (is_open s'))).
Proof.
  intros Hne Htmp Hi. unfold init_with in Hi. apply step_ok in Hi as (s1 & existed & [= <- _] & Hi).
  apply step_ok in Hi as (s1 & [candidates identity_file] & Hp & Hi). unfold probe_backends in Hp.
  destruct (candidateBackends _ _ _ _ _) as [[o l] f]. injection Hp as <- _ _.
  apply step_ok in Hi as (s2 & chosen & [Hdot Hfs2]%choose_ok & Hi).
  apply step_ok in Hi as (s3 & key & [Hfs3 Hkey]%init_key_ok & Hi).
  apply step_ok in Hi as (s4 & u & Hr & Hi). apply step_ok in Hi as (s5 & [] & Hw & Hi). injection Hi as <- <-.
  assert (is_fs s4 = is_fs s ∧ op_keys (is_open s4) = op_keys (is_open s3)) as [Hfs4 Hk4].
  { rewrite Hfs2 in Hfs3. simpl in Hfs3. destruct (_ && _); injection Hr as <- _; simpl; done. }
  rewrite <- Hfs4 in Htmp. destruct (write_config_ok _ _ _ _ Hne Htmp Hw) as (Hv & (b & Hb & Hfs) & Ho).
  split; [exact Hdot|]. split; [done|]. split; [intros now; apply init_config_valid|]. split; [by eauto|].
  intros E. rewrite Ho, Hk4. by apply Hkey.
Qed.

(** C12. A setup that succeeds leaves a configuration that is valid and that,
    when its texts are UTF-8, loads from then on; it names the plain file only when that was allowed on
    the command line, and where it refers to the credential store for the
    agent's key, the key that was typed is there. *)
Theorem init_leaves_a_setup args paths (s s' : installed) cfg :
  DefaultPaths os user_home getenv = Some paths →
  let path := sb (ConfigFile paths) in
  cw_tmp w ≠ path → is_fs s !! cw_tmp w = None →
  cmdInit external version os user_home getenv w state_dir_fails probe args s = (s', Ok cfg) →
  ∃ fl rest, Flags.parseWith init_flags args false = Ok (fl, rest) ∧
    (AgentConfig.Storage cfg = Dotenv.dotenv_Name → bool_flag fl B["allow-dotenv"] = true) ∧
    Validate (cw_now w) cfg = Ok tt ∧
    (config_utf8 cfg → ∀ w', cw_read_fails w' = false → LoadConfig w' path (is_fs s') = Ok cfg) ∧
    (AgentConfig.AgentKey cfg = AgentConfig.DefaultAgentKeyRef →
       ∃ (t t' : W) typed, Human.readSecret t = (t', Ok typed) ∧ TrimSpace typed ≠ [] ∧
         ∀ v, keychainGet (op_keys (is_open s')) AgentConfig.AppName KeychainAgentKeyRef = Some v → v = TrimSpace typed).
Proof.
  intros Hpaths path Hne Htmp Hc. unfold cmdInit in Hc. apply step_ok in Hc as (s1 & [fl rest] & Hflags & Hc).
  destruct (Flags.parseWith _ _ _) as [[fl' rest']|]; [|done]. injection Hflags as <- -> ->. exists fl, rest. split; [done|].
  apply step_ok in Hc as (s1 & p & Hp & Hc). rewrite Hpaths in Hp. injection Hp as <- <-.
  apply step_ok in Hc as (s1 & u1 & [= <- _] & Hc). apply step_ok in Hc as (s1 & u2 & [= <- _] & Hc).
  apply step_ok in Hc as (s1 & rc & Hrc & Hc). injection Hrc as <- _. apply step_ok in Hc as (s1 & info & Hinfo & Hc).
  destruct (Client.Client_Info _ _) as [t [i|]]; [|done]. injection Hinfo as <- ->.
  apply init_with_ok in Hc as (Hdot & Hv & Hall & (b & Hb & fs & Hfs) & Hkey); [|done..].
  split; [done|]. split; [done|]. split.
  - intros Hutf w' Hr. fold path in Hfs. rewrite Hfs. unfold LoadConfig.
    by rewrite lookup_insert_eq, Hr, (toml_encoded _ _ Hutf Hb), Hall, Hv.
  - intros E. destruct (Hkey E) as (t0 & t' & typed & Hread & Hne' & Hview). exists t0, t', typed. split; [done|]. split; [done|].
    intros v Hg%keychainGet_view. congruence.
Qed.
End init_props.

(** * Names that the program uses itself

    The keychain backend keeps a secret under its name, in the same service in
    which the agent's key and the reveal password are kept. *)
Definition program_entries : list string := ["agent-key"; "reveal-password"].

Section collisions.
Context {K : Type} `{KeyringOk K}.

(** What the backend writes under the name of a secret. *)
Definition secret_entry (name : string) (value : bytes) (meta : Metadata) (rec : bytes) : Prop :=
  Records.encodeRecord (stamp keychain_Name name value meta) value = Ok rec ∨ ∃ n, rec = chunkHeader ++ Itoa n.

Lemma put_entry name value meta k k' :
  keychain_Put name value meta k = (k', Ok tt) →
  ∃ rec, kr_view (kStore k') !! (kService k, bs name) = Some rec ∧ secret_entry name value meta rec.
Proof.
  unfold keychain_Put. destruct (Secrets.ValidateName name); [|done]. destruct (Records.encodeRecord _ _) as [rec|] eqn:Er; [|done].
  destruct (KeychainProps.deleteChunks_parts name k) as [[Hs1 _] _]. destruct (deleteChunks name k) as [k1 r1]. cbn [fst] in *. rewrite <- Hs1.
  destruct (_ <=? _).
  - pose proof (KeychainProps.Set_spec (bs name) rec k1) as Hset. destruct (keyring_Set _ _ _) as [k2 [[]|[]]]; intros [= <-].
    destruct Hset as (_ & Hset & _). exists rec. split; [|by left].
    change (KeychainProps.stored_entries k2 !! (kService k1, bs name) = Some rec). by rewrite Hset, lookup_insert_eq.
  - destruct (KeychainProps.put_chunks_parts (Z.to_nat (chunk_count (chunkSize k1) rec)) name 0 rec k1) as [[Hs2 _] _].
    destruct (put_chunks _ _ _ _ _) as [k2 [u|[]]]; try done. cbn [fst] in *. rewrite <- Hs2.
    pose proof (KeychainProps.Set_spec (bs name) (chunkHeader ++ Itoa (chunk_count (chunkSize k1) rec)) k2) as Hset.
    destruct (keyring_Set _ _ _) as [k3 [[]|[]]]; intros [= <-].
    destruct Hset as (_ & Hset & _). exists (chunkHeader ++ Itoa (chunk_count (chunkSize k1) rec)). split; [|right; by eexists].
    change (KeychainProps.stored_entries k3 !! (kService k2, bs name) = Some (chunkHeader ++ Itoa (chunk_count (chunkSize k1) rec))).
    by rewrite Hset, lookup_insert_eq.
Qed.

(** A secret may have these names, and storing it replaces what the program
    keeps there: the password that the human has set becomes a record of the
    secret, whose value whoever stored it chose. *)
Theorem secret_replaces_password name value meta (k : K) k' :
  name ∈ program_entries → keychain_Put name value meta (NewKeychain false [] k) = (k', Ok tt) →
  Secrets.ValidateName name = Ok tt ∧ Agent.isInternalName name = false ∧
  ∃ rec, secret_entry name value meta rec ∧
    ∀ v, keychainGet (kStore k') AgentConfig.AppName (bs name) = Some v → v = rec.
Proof.
  intros Hn Hp. assert (Secrets.ValidateName name = Ok tt ∧ Agent.isInternalName name = false) as [Hv Hi].
  { unfold program_entries in Hn. rewrite !elem_of_cons, elem_of_nil in Hn. destruct Hn as [->|[->|[]]]; by vm_compute. }
  split; [done|]. split; [done|]. destruct (put_entry _ _ _ _ _ Hp) as (rec & Hview & Hrec). exists rec. split; [done|].
  intros v Hg%keychainGet_view. change (kService _) with AgentConfig.AppName in Hview. congruence.
Qed.
End collisions.

(** * Concrete machines *)

#[local] Instance KeychainConfig_eq_dec : EqDecision AgentConfig.KeychainConfig.
Proof. solve_decision. Defined.
#[local] Instance AgeVaultConfig_eq_dec : EqDecision AgentConfig.AgeVaultConfig.
Proof. solve_decision. Defined.
#[local] Instance DotenvConfig_eq_dec : EqDecision AgentConfig.DotenvConfig.
Proof. solve_decision. Defined.
#[local] Instance OnePasswordConfig_eq_dec : EqDecision AgentConfig.OnePasswordConfig.
Proof. solve_decision. Defined.
#[local] Instance BitwardenConfig_eq_dec : EqDecision AgentConfig.BitwardenConfig.
Proof. solve_decision. Defined.
#[local] Instance VaultConfig_eq_dec : EqDecision AgentConfig.VaultConfig.
Proof. solve_decision. Defined.
#[local] Instance InfisicalConfig_eq_dec : EqDecision AgentConfig.InfisicalConfig.
Proof. solve_decision. Defined.
#[local] Instance DopplerConfig_eq_dec : EqDecision AgentConfig.DopplerConfig.
Proof. solve_decision. Defined.
#[local] Instance AWSConfig_eq_dec : EqDecision AgentConfig.AWSConfig.
Proof. solve_decision. Defined.
#[local] Instance GCPConfig_eq_dec : EqDecision AgentConfig.GCPConfig.
Proof. solve_decision. Defined.
#[local] Instance AzureConfig_eq_dec : EqDecision AgentConfig.AzureConfig.
Proof. solve_decision. Defined.
#[local] Instance RunConfig_eq_dec : EqDecision AgentConfig.RunConfig.
Proof. solve_decision. Defined.
#[local] Instance BackendConfig_eq_dec : EqDecision AgentConfig.BackendConfig.
Proof. solve_decision. Defined.
#[local] Instance Config_eq_dec : EqDecision AgentConfig.Config.
Proof. solve_decision. Defined.

#[local] Existing Instances KeychainProps.key_store KeychainProps.key_store_ok AgeVaultProps.clear_age.

(** A library that knows three documents. *)
Definition before_set : Config := with_password [] false AgentConfig.sample_agent_config.
Definition after_set : Config := with_password AgentConfig.DefaultRevealPasswordRef true AgentConfig.sample_agent_config.
Definition after_init : Config := init_config B["https://relay.example"] B["keychain"] [] AgentConfig.DefaultAgentKeyRef [] [].

Definition documents : list (Config * bytes) := [(before_set, B["before"]); (after_set, B["after"]); (after_init, B["init"])].

#[local] Instance known_documents : Toml := {
  toml_Encode c := snd <$> head (filter (λ d : Config * bytes, d.1 = c) documents);
  toml_Decode b := (λ d : Config * bytes, (d.1, [])) <$> head (filter (λ d : Config * bytes, config_header ++ d.2 = b) documents);
}.

Lemma document_decodes : Forall (λ d : Config * bytes, toml_Decode (config_header ++ d.2) = Some (d.1, []) ∧ config_utf8 d.1) documents.
Proof. repeat (constructor; [split; [vm_compute; reflexivity|decided]|]). constructor. Qed.

#[local] Program Instance known_documents_ok : TomlOk.
Next Obligation.
  intros c b _. unfold toml_Encode at 1, known_documents at 1. pose proof document_decodes as Hall. rewrite Forall_forall in Hall.
  destruct (filter _ documents) as [|[c' b'] l] eqn:E; [done|]. intros [= <-].
  assert ((c', b') ∈ filter (λ d : Config * bytes, d.1 = c) documents) as [Hc Hin]%list_elem_of_filter by (rewrite E; by left).
  simpl in Hc. subst c'. apply (Hall _ Hin).
Qed.
Next Obligation.
  intros b c keys. unfold toml_Decode, known_documents. pose proof document_decodes as Hall. rewrite Forall_forall in Hall.
  destruct (filter _ documents) as [|[c' b'] l] eqn:E; [done|]. intros [= <- _].
  assert ((c', b') ∈ filter (λ d : Config * bytes, config_header ++ d.2 = b) documents) as [_ Hin]%list_elem_of_filter by (rewrite E; by left).
  apply (Hall _ Hin).
Qed.

(** A terminal at which the same text is typed whenever it is asked for. *)
#[local] Instance no_net : Client.World unit := {|
  Client.http_do _ n := (n, inl (Client.mkTransport false)); Client.w_now n := (n, unix_epoch); Client.w_sleep _ n := n; Client.ctx_err _ := None
|}.

#[local] Instance typist : Human.Terminal unit := {|
  Human.terminal_net := no_net; Human.t_random n := (n, λ _, None); Human.t_interactive _ := true; Human.t_line n := (n, None);
  Human.t_rest _ n := (n, None); Human.t_hidden n := (n, Some B["open sesame"]); Human.t_file _ n := (n, None); Human.t_write _ n := (n, true)
|}.

Definition environment (name : bytes) : bytes :=
  if beq name B["HOME"] then B["/home/a"] else if beq name B["KEY"] then B[" key-1 "] else [].

Definition quiet_machine : config_world := mkConfigWorld unix_epoch false false no_faults "/home/a/.config/burndrop/.config.1.tmp".
Definition config_path : string := "/home/a/.config/burndrop/config.toml".
Definition no_keys : KeychainProps.KeyStore := KeychainProps.mkKeyStore ∅ (λ _, false) 0.

Definition fresh_shell : shell (K := KeychainProps.KeyStore) (W := unit) :=
  mkShell tt {[ config_path := config_header ++ B["before"] ]} no_keys.

#[local] Instance ascii : Unicode := {| lower_rune r := r |}.

Definition password_set : shell * result setup_error bytes :=
  cmdRevealPassword Unix None environment quiet_machine [B["set"]] fresh_shell.

Lemma password_is_the_typed_one_witness :
  ∃ pw cfg, Human.readSecret (sh_term fresh_shell) = (tt, Ok pw) ∧ Crypto.MinPasswordLen <= RuneCount pw ∧
    AgentConfig.RevealPasswordRequired cfg = true ∧
    LoadConfig quiet_machine config_path (sh_fs password_set.1) = Ok cfg.
Proof.
  assert (∃ out, password_set = (password_set.1, Ok out)) as [out Hout].
  { assert (is_ok password_set.2 = true) as Hok by (vm_compute; reflexivity).
    destruct password_set as [s [out|e]]; [by exists out|discriminate Hok]. }
  destruct (password_is_the_typed_one Unix None environment quiet_machine
    (mkPaths (bs config_path) B["/home/a/.local/state/burndrop"]) out fresh_shell password_set.1)
    as (pw & cfg & t1 & t2 & H1 & _ & Hlen & Hreq & _ & Hload).
  - vm_compute. reflexivity.
  - intros E. vm_compute in E. discriminate E.
  - vm_compute. reflexivity.
  - exact Hout.
  - exists pw, cfg. destruct t1. split; [exact H1|]. split; [exact Hlen|]. split; [exact Hreq|].
    destruct (Hload quiet_machine eq_refl) as [Hl|Hl]; [exact Hl|].
    exfalso. vm_compute in Hl. discriminate Hl.
Defined.

(** A machine without a configured audit log or keys, as [load] finds it. *)
#[local] Instance bare_environment : HcVault.VaultHost unit := {
  HcVault.Getenv _ _ := []; HcVault.token_file _ := None; HcVault.vault_do _ n := (n, None) }.

Definition sample_machine : machine (K := KeychainProps.KeyStore) (N := unit) :=
  mkMachine Unix None environment quiet_machine (sh_fs password_set.1)
    (mkOpen tt (mkOpenWorld false false false unix_epoch 7) None (sh_keys password_set.1)) false false true true ∅.

Definition sample_load : machine * result setup_error loaded := load ∅ B["dev"] true sample_machine.

Lemma loaded_is_consistent_witness :
  ∃ l, sample_load.2 = Ok l ∧ Client.APIKey (Agent.a_Relay (l_agent l)) = B["key-1"] ∧
    Agent.a_HasPassword (l_agent l) = true ∧ backend_name (l_backend l) = B["agevault"].
Proof.
  assert (∃ l, sample_load = (sample_load.1, Ok l)) as [l Hl].
  { assert (is_ok sample_load.2 = true) as Hok by (vm_compute; reflexivity). destruct sample_load as [m [l|e]]; [by exists l|discriminate Hok]. }
  destruct (loaded_is_consistent ∅ B["dev"] true sample_machine sample_load.1 l Hl) as (Hv & _ & _ & Hk & Hp & Hb).
  assert (sample_load.2 = Ok l) as Hl2 by (rewrite Hl; reflexivity).
  exists l. split; [exact Hl2|].
  assert (l_cfg l = after_set) as Hc.
  { assert ((λ r : result setup_error loaded, match r with Ok l => l_cfg l | Err _ => before_set end) sample_load.2 = after_set) as Hc
      by (vm_compute; reflexivity). rewrite Hl2 in Hc. exact Hc. }
  rewrite Hc in *. specialize (Hk eq_refl). split.
  - assert ((AgentConfig.ResolveAgentKey environment (Some (keychainGet (op_keys (mc_open sample_machine)))) after_set).1 = Ok B["key-1"]) as Hk'
      by (vm_compute; reflexivity). change (mc_getenv sample_machine) with environment in Hk. rewrite Hk' in Hk. injection Hk as Hk. symmetry. exact Hk.
  - split; [apply Hp; vm_compute; reflexivity|exact Hb].
Defined.

(** After [set], the password can be replaced by storing a secret. *)
Example a_secret_as_password :
  let k := (keychain_Put "reveal-password" B["chosen by the agent"] Records.zero_metadata (NewKeychain false [] (sh_keys password_set.1))).1 in
  ∃ rec, AgentConfig.ResolveRevealPassword environment (Some (keychainGet (kStore k))) after_set = Ok (Some rec) ∧ rec ≠ B["open sesame"] ∧
    secret_entry "reveal-password" B["chosen by the agent"] Records.zero_metadata rec.
Proof.
  intros k. assert (is_ok (Records.encodeRecord (stamp keychain_Name "reveal-password" B["chosen by the agent"] Records.zero_metadata) B["chosen by the agent"]) = true) as Hok
    by (vm_compute; reflexivity).
  destruct (Records.encodeRecord _ _) as [rec|] eqn:Er; [|done]. exists rec.
  assert (Some rec = match Records.encodeRecord (stamp keychain_Name "reveal-password" B["chosen by the agent"] Records.zero_metadata) B["chosen by the agent"] with Ok r => Some r | Err _ => None end) as Hrec
    by (by rewrite Er).
  split; [|split; [|left; exact Er]].
  - apply (f_equal (λ o, match o with Some r => Ok (Some r) | None => Err AgentConfig.NoKeychain end)) in Hrec.
    etrans; [|symmetry; exact Hrec]. subst k. vm_compute. reflexivity.
  - intros ->. vm_compute in Hrec. discriminate Hrec.
Qed.

(** A relay that serves a page and says so. *)
Definition served_html : bytes := B["<!doctype html>"].

Definition served_info : Client.Info :=
  Client.mkInfo B["v1"] B["v1"] 3600 86400 65536 30 B["required"] true B["1"] (Sha256.hex_encode (Sha256.sha256 served_html)).

#[local] Instance honest_relay : Client.World unit := {|
  Client.http_do req n :=
    (n, if HasSuffix (Client.h_URL req) B["/drop"] then inr (200, inl served_html)
        else match JsonDoc.Marshal Client.info_body served_info with
             | Some b => inr (200, inl b)
             | None => inl (Client.mkTransport false)
             end);
  Client.w_now n := (n, unix_epoch); Client.w_sleep _ n := n; Client.ctx_err _ := None
|}.

Definition verify_line : list bytes :=
  [B["-relay"]; B["https://relay.example"]; B["-expect"]; Sha256.hex_encode (Sha256.sha256 served_html)].

Definition sample_verify : unit * (list bytes * result setup_error unit) :=
  cmdVerifyPage Unix None environment quiet_machine ∅ B["dev"] (Err RelayMain.ErrNotBuilt) verify_line tt.

Lemma verified_page_witness :
  ∃ rc expect html, verify_client Unix None environment quiet_machine ∅ B["dev"] verify_line = Ok (rc, expect) ∧
    (Client.http_do (Client.mkHttp B["GET"] (Client.Origin rc ++ B["/drop"]) [] []) tt).2 = inr (200, inl html) ∧
    (expect ≠ [] → expect = Sha256.hex_encode (Sha256.sha256 (take (Z.to_nat 8388608) html))).
Proof.
  assert (∃ n lines, sample_verify = (n, (lines, Ok tt))) as (n & lines & Hok).
  { assert (is_ok sample_verify.2.2 = true) as Hok by (vm_compute; reflexivity).
    destruct sample_verify as [n [lines [[]|]]]; [by exists n, lines|discriminate Hok]. }
  destruct (verified_page Unix None environment quiet_machine ∅ B["dev"] (Err RelayMain.ErrNotBuilt) verify_line tt n lines Hok)
    as (rc & expect & n1 & html & n2 & info & Hc & Hh & _ & _ & He).
  exists rc, expect, html. split; [exact Hc|]. split; [rewrite Hh; reflexivity|exact He].
Defined.

(** Setting up against that relay, with a credential store. *)
Definition installer : Human.Terminal unit := {|
  Human.terminal_net := honest_relay; Human.t_random n := (n, λ _, None); Human.t_interactive _ := true; Human.t_line n := (n, Some B["y"]);
  Human.t_rest _ n := (n, None); Human.t_hidden n := (n, Some B[" agent-secret "]); Human.t_file _ n := (n, None); Human.t_write _ n := (n, true)
|}.

Definition keychain_only (b : opened (K := KeychainProps.KeyStore)) : Probe :=
  match b with OpenedKeychain _ => mkProbe true B["ready"] 3 | _ => mkProbe false B["not here"] 0 end.

Definition new_machine : install (K := KeychainProps.KeyStore) (N := unit) (W := unit) :=
  mkInstall tt ∅ (mkOpen tt (mkOpenWorld false false false unix_epoch 7) None no_keys).

Definition sample_init : install * result setup_error Config :=
  cmdInit (H2 := installer) ∅ B["dev"] Unix None environment quiet_machine false keychain_only [B["-relay"]; B["https://relay.example"]] new_machine.

Lemma init_leaves_a_setup_witness :
  sample_init.2 = Ok after_init ∧ LoadConfig quiet_machine config_path (is_fs sample_init.1) = Ok after_init ∧
  keychainGet (op_keys (is_open sample_init.1)) AgentConfig.AppName KeychainAgentKeyRef = Some B["agent-secret"].
Proof.
  assert (sample_init.2 = Ok after_init) as Hok.
  { assert (∀ r : result setup_error Config, match r with Ok c => bool_decide (c = after_init) | Err _ => false end = true → r = Ok after_init) as Hr.
    { intros [c|e] E; [|discriminate E]. apply bool_decide_eq_true in E. rewrite E. reflexivity. }
    apply Hr. vm_compute. reflexivity. }
  destruct (init_leaves_a_setup (H3 := installer) ∅ B["dev"] Unix None environment quiet_machine false keychain_only
    [B["-relay"]; B["https://relay.example"]] (mkPaths (bs config_path) B["/home/a/.local/state/burndrop"]) new_machine sample_init.1 after_init)
    as (fl & rest & _ & _ & _ & Hload & _).
  - vm_compute. reflexivity.
  - intros E. vm_compute in E. discriminate E.
  - vm_compute. reflexivity.
  - apply injective_projections; [reflexivity|exact Hok].
  - split; [exact Hok|]. split; [|vm_compute; reflexivity]. apply Hload; [|reflexivity].
    apply (bool_decide_unpack _). vm_compute. exact I.
Defined.

(** Without a credential store, a setup that is declined leaves the key file
    that was made for the probe. *)
Definition decliner : Human.Terminal unit := {|
  Human.terminal_net := honest_relay; Human.t_random n := (n, λ _, None); Human.t_interactive _ := true; Human.t_line n := (n, Some B["n"]);
  Human.t_rest _ n := (n, None); Human.t_hidden n := (n, None); Human.t_file _ n := (n, None); Human.t_write _ n := (n, true)
|}.

Example declined_setup_leaves_key :
  let s := mkInstall tt ∅ (mkOpen tt (mkOpenWorld false false false unix_epoch 7) None (KeychainProps.mkKeyStore ∅ (λ _, true) 0)) in
  let r := cmdInit (N := unit) (H2 := decliner) ∅ B["dev"] Unix None environment quiet_machine false
             (λ b, mkProbe (match b with OpenedMemory _ => true | _ => false end) [] 1) [B["-relay"]; B["https://relay.example"]] s in
  r.2 = Err Declined ∧ is_Some (op_file (is_open r.1)).
Proof. split; [vm_compute; reflexivity|]. vm_compute. by eexists. Qed.
