(* ===== verification/VendorProps.v ===== *)
(** What all the backends that drive a vendor's tool have in common: the
    values they store stay off the command lines, and the temporary files
    that carry them are gone when the operation is over. *)
From S2P Require Import Prelude GoStrings GoText Json JsonDoc Secrets Records Dotenv Cli Gcp Aws Azure.
From S2P Require Import Doppler Infisical OnePassword Bitwarden.
From Stdlib Require Import Strings.Byte.

(** Walks through two programs that differ in contents only. *)
Ltac same_walk :=
  repeat (simpl;
    first [ apply same_refl | apply same_exec; intros ?o | apply same_with_temp; intros ?path
          | apply same_bind; [|intros [?|?]] | apply same_bind; [|intros ?] | case_match ]).

(** Reduces two calls with values of one length to the part after the records
    are made. *)
Ltac same_records Hl :=
  match goal with
  | |- context [encodeRecord (stamp ?b ?n ?v ?m) ?v] =>
      match goal with
      | |- context [encodeRecord (stamp b n ?w m) ?w] =>
          assert_fails (constr_eq v w);
          pose proof (encodeRecord_same b n m v w Hl) as Hr;
          destruct (encodeRecord (stamp b n v m) v) as [rec|?e], (encodeRecord (stamp b n w m) w) as [rec'|?e'];
          try contradiction; bind_step; [rewrite ?Hr|subst; apply same_refl]
      end
  end.

Section commands.
Context `{Unicode} `{UnicodeUpper}.
Context (name : string) (v w : bytes) (meta : Metadata) (Hl : zlen v = zlen w).

Lemma gcp_same g : same_commands (gcp_Put g name v meta) (gcp_Put g name w meta).
Proof.
  unfold gcp_Put. destruct (gcp_remote g name); bind_step; [|apply same_refl]. rewrite Hl.
  case_match; [apply same_refl|]. same_records Hl. case_match; [apply same_refl|].
  unfold gcp_secrets, gcp_run. same_walk.
Qed.

Lemma aws_same a : same_commands (aws_Put a name v meta) (aws_Put a name w meta).
Proof.
  unfold aws_Put. destruct (aws_remote a name); bind_step; [|apply same_refl]. rewrite Hl.
  case_match; [apply same_refl|]. same_records Hl. case_match; [apply same_refl|]. same_walk.
Qed.

Lemma azure_same z : same_commands (azure_Put z name v meta) (azure_Put z name w meta).
Proof.
  unfold azure_Put. destruct (azure_remote z name); bind_step; [|apply same_refl]. rewrite Hl.
  case_match; [apply same_refl|]. same_records Hl. case_match; [apply same_refl|]. same_walk.
Qed.

Lemma doppler_same d : same_commands (doppler_Put d name v meta) (doppler_Put d name w meta).
Proof.
  unfold doppler_Put. destruct (ValidateName name); bind_step; [|apply same_refl]. rewrite Hl.
  case_match; [apply same_refl|]. same_records Hl. case_match; [apply same_refl|].
  apply same_bind; [apply same_refl|]. intros raw. destruct (doppler_collision name raw); bind_step; [|apply same_refl].
  unfold doppler_run. same_walk.
Qed.

Lemma infisical_same i : same_commands (infisical_Put i name v meta) (infisical_Put i name w meta).
Proof.
  unfold infisical_Put. destruct (ValidateName name); bind_step; [|apply same_refl]. same_records Hl.
  apply same_bind; [apply same_refl|]. intros raw. apply same_bind; [apply same_refl|]. intros ?. same_walk.
Qed.

(** Text can always be written. *)
Lemma op_template_enc rec : is_Some (Marshal op_template_codec (op_template name rec)).
Proof. unfold Marshal. eexists. reflexivity. Qed.

Lemma op_same o : same_commands (op_Put o name v meta) (op_Put o name w meta).
Proof.
  unfold op_Put. destruct (ValidateName name); bind_step; [|apply same_refl]. same_records Hl.
  destruct (op_template_enc rec) as [? ->], (op_template_enc rec') as [? ->].
  apply same_bind; [apply same_refl|]. intros id. unfold op_run. same_walk.
Qed.

Lemma strings_enc l : is_Some (mapM (c_enc string_codec) l).
Proof. apply mapM_is_Some. apply Forall_forall. intros. by eexists. Qed.

Lemma bw_encoded it : is_Some (Marshal bitwarden_codec it).
Proof.
  unfold Marshal, bitwarden_codec, struct_codec, enc_fields. cbn [c_enc].
  apply fmap_is_Some, fmap_is_Some, fmap_is_Some, mapM_is_Some.
  repeat (apply Forall_cons; split); try apply Forall_nil_2; unfold enc_field; cbn -[string_codec];
    repeat case_match; try (by eexists); simpl.
  match goal with |- context [mapM _ ?l] => destruct (strings_enc l) as [? He] end.
  cbn -[mapM] in He. rewrite He. by eexists.
Qed.

Lemma bw_same b : same_commands (bw_Put b name v meta) (bw_Put b name w meta).
Proof.
  unfold bw_Put. destruct (ValidateName name); bind_step; [|apply same_refl]. rewrite Hl.
  case_match; [apply same_refl|]. same_records Hl. case_match; [apply same_refl|].
  apply same_bind; [apply same_refl|]. intros [|cur items].
  - unfold bitwardenEncode. destruct (bw_encoded (bw_note name rec)) as [? ->], (bw_encoded (bw_note name rec')) as [? ->].
    bind_step. unfold bw_run. same_walk.
  - unfold bitwardenEncode.
    destruct (bw_encoded (bw_refile (bw_note name rec) cur)) as [? ->], (bw_encoded (bw_refile (bw_note name rec') cur)) as [? ->].
    bind_step. unfold bw_run. same_walk.
Qed.
End commands.

(** * Temporary files *)

Ltac fileless_walk :=
  repeat (simpl; first [ progress intros | constructor | apply fileless_bind; [|intros [?|?]] | apply fileless_bind; [|intros ?] | case_match ]).

Section tidy.
Context `{Unicode} `{UnicodeUpper}.
Context (name : string) (v : bytes) (meta : Metadata).

Lemma aws_tidy a : tidy ∅ (aws_Put a name v meta).
Proof.
  unfold aws_Put. destruct (aws_remote a name); bind_step; [|constructor].
  case_match; [constructor|]. destruct (encodeRecord _ v); bind_step; [|constructor]. case_match; [constructor|].
  apply tidy_with_temp. intros path. fileless_walk.
Qed.

Lemma azure_tidy z : tidy ∅ (azure_Put z name v meta).
Proof.
  unfold azure_Put. destruct (azure_remote z name); bind_step; [|constructor].
  case_match; [constructor|]. destruct (encodeRecord _ v); bind_step; [|constructor]. case_match; [constructor|].
  apply tidy_with_temp. intros path. fileless_walk.
Qed.

Lemma infisical_tidy i : tidy ∅ (infisical_Put i name v meta).
Proof.
  unfold infisical_Put. destruct (ValidateName name); bind_step; [|constructor].
  destruct (encodeRecord _ v); bind_step; [|constructor].
  apply tidy_bind; [unfold infisical_fetch; fileless_walk|]. intros raw.
  apply tidy_bind; [fileless_walk|]. intros ?. apply tidy_with_temp. intros path. fileless_walk.
Qed.
End tidy.

(** C38. Storing a value never puts it on a command line: whichever of
    the seven tools stores it, two values of one length make the same
    sequence of commands, with the same arguments and the same additional
    environment, as long as the tool answers alike, and end in the same result.
    The values differ in what is written to standard input and to temporary
    files only. *)
Theorem values_stay_off_command_lines `{Unicode} `{UnicodeUpper} (name : string) (v w : bytes) (meta : Metadata) :
  zlen v = zlen w →
  (∀ g, same_commands (gcp_Put g name v meta) (gcp_Put g name w meta)) ∧
  (∀ a, same_commands (aws_Put a name v meta) (aws_Put a name w meta)) ∧
  (∀ z, same_commands (azure_Put z name v meta) (azure_Put z name w meta)) ∧
  (∀ d, same_commands (doppler_Put d name v meta) (doppler_Put d name w meta)) ∧
  (∀ i, same_commands (infisical_Put i name v meta) (infisical_Put i name w meta)) ∧
  (∀ o, same_commands (op_Put o name v meta) (op_Put o name w meta)) ∧
  (∀ b, same_commands (bw_Put b name v meta) (bw_Put b name w meta)).
Proof.
  intros Hl. repeat split; intros.
  - by apply gcp_same.
  - by apply aws_same.
  - by apply azure_same.
  - by apply doppler_same.
  - by apply infisical_same.
  - by apply op_same.
  - by apply bw_same.
Qed.

(** However the operation goes, and whatever the tool answers, the
    temporary directory after storing a value is the one before: the file with
    the record is removed on every path, and no other file is. *)
Theorem temporary_files_are_removed {W} `{Unicode} `{UnicodeUpper} `{TempDir W} (name : string) (v : bytes) (meta : Metadata) (w : W) :
  (∀ a, files (run (aws_Put a name v meta) w).1 = files w) ∧
  (∀ z, files (run (azure_Put z name v meta) w).1 = files w) ∧
  (∀ i, files (run (infisical_Put i name v meta) w).1 = files w).
Proof.
  assert (∀ p : prog unit, tidy ∅ p → files (run p w).1 = files w) as Ht.
  { intros p Hp. rewrite (tidy_run ∅ p w Hp); [apply without_none|]. set_solver. }
  repeat split; intros; apply Ht; [apply aws_tidy|apply azure_tidy|apply infisical_tidy].
Qed.
