(* ===== verification/VendorStores.v ===== *)
(** Vendor backends keep the contract of backends, given that the tool does
    what its manual says: Google Cloud Secret Manager and Doppler; and what
    that means for the secrets of their clients. *)
From S2P Require Import Prelude Sha256 GoStrings GoText Json JsonDoc Secrets Records Dotenv Cli BackendSpec Gcp.
From S2P Require Import Doppler HcVault.
From Stdlib Require Import Strings.Byte.

(** * Google Cloud *)

(** The command [gcloud secrets] with its arguments. *)
Definition gcloud (g : GCP) (stdin : option bytes) (args : list bytes) : invocation :=
  mkInvocation B["gcloud"]
    (B["secrets"] :: args ++ (if is_empty (gcp_Project g) then [] else [B["--project="] ++ gcp_Project g])) stdin [].

(** What the gcloud CLI documents: [create] and [versions add] store what they
    read as the latest version, [versions access latest] prints it, [delete]
    removes the secret; NOT_FOUND means that there is none.  A command that
    fails may or may not have had its effect. *)
Class Gcloud (W : Type) `{Runner W} `{Unicode} := {
  payloads : GCP → W → gmap bytes bytes;
  gcloud_stores g id rec args w :
    args = gcp_create_args id ∨ args = gcp_add_args id →
    let '(w', r) := r_Run (gcloud g (Some rec) args) w in
    payloads g w' = <[id := rec]> (payloads g w) ∨ (payloads g w' = payloads g w ∧ is_ok r = false);
  gcloud_access g id w :
    let '(w', r) := r_Run (gcloud g None (gcp_access_args id)) w in
    payloads g w' = payloads g w ∧
    match r with
    | Ok out => payloads g w !! id = Some out
    | Err e => gcpClassify e = ErrNotFound → payloads g w !! id = None
    end;
  gcloud_describe g id w :
    let '(w', r) := r_Run (gcloud g None (gcp_describe_args id)) w in
    payloads g w' = payloads g w ∧
    match r with Ok _ => True | Err e => gcpClassify e = ErrNotFound → payloads g w !! id = None end;
  gcloud_delete g id w :
    let '(w', r) := r_Run (gcloud g None (gcp_delete_args id)) w in
    match r with
    | Ok _ => payloads g w' = delete id (payloads g w)
    | Err e => (payloads g w' = payloads g w ∨ payloads g w' = delete id (payloads g w)) ∧
               (gcpClassify e = ErrNotFound → payloads g w' = payloads g w ∧ payloads g w !! id = None)
    end;
}.

(** No other name has the identifier of the name. *)
Definition gcp_own (g : GCP) (n : string) : Prop := ∀ j id, gcp_remote g n = Ok id → gcp_remote g j = Ok id → j = n.

Lemma gcp_remote_name g n id : gcp_remote g n = Ok id → is_ok (ValidateName n) = true.
Proof. unfold gcp_remote. by destruct (ValidateName n). Qed.

Lemma gcp_remote_error g n e : gcp_remote g n = Err e → e = ErrInvalidName.
Proof.
  unfold gcp_remote. destruct (ValidateName n) as [[]|e'] eqn:E; simpl; [case_match; naive_solver|].
  intros [= <-]. by eapply ValidateName_error.
Qed.

Section gcp.
Context {W : Type} `{Gcloud W}.

Lemma gcp_own_unshared g n id w :
  (∀ i x, holds (gcp_remote g) (payloads g w) i x → gcp_own g i) ∨ gcp_own g n → gcp_remote g n = Ok id →
  unshared (gcp_remote g) (payloads g w) n id.
Proof. intros Ho Hn i x Hi Hh Hk. destruct Ho as [Ho|Ho]; [specialize (Ho i x Hh n id Hk Hn)|specialize (Ho i id Hn Hk)]; congruence. Qed.

Lemma gcp_put_law g n v m w : meta_text_ok m → gcp_own g n →
  put_effect (gcp_remote g) n (v, stamp gcp_Name n v m) (is_ok (run (gcp_Put g n v m) w).2)
    (payloads g w) (payloads g (run (gcp_Put g n v m) w).1).
Proof.
  intros Hm Ho. unfold gcp_Put. destruct (gcp_remote g n) as [id|e] eqn:Er; bind_step; [|by left].
  case_match; [by left|]. destruct (encodeRecord (stamp gcp_Name n v m) v) as [rec|e] eqn:Ee; bind_step; [|by left].
  case_match; [by left|].
  assert (decodeRecord rec = Ok (v, stamp gcp_Name n v m)) as Hd.
  { eapply record_stored; [reflexivity|by eapply gcp_remote_name|done|done]. }
  assert (∀ ok, put_effect (gcp_remote g) n (v, stamp gcp_Name n v m) ok (payloads g w) (<[id := rec]> (payloads g w))) as Hput.
  { intros ok. right. exists id, rec. split_and!; try done. apply gcp_own_unshared; auto. }
  change (gcp_secrets g (Some rec) (gcp_create_args id)) with (exec (gcloud g (Some rec) (gcp_create_args id))).
  change (gcp_secrets g (Some rec) (gcp_add_args id)) with (exec (gcloud g (Some rec) (gcp_add_args id))).
  rewrite run_bind, run_exec.
  pose proof (gcloud_stores g id rec _ w (or_introl eq_refl)) as HA. destruct (r_Run _ w) as [w1 [out|e]]; run_step.
  { destruct HA as [->|[_ ?]]; [|done]. by apply Hput. }
  case_match; run_step; [|by destruct HA as [->|[-> _]]; [apply Hput|left]].
  rewrite run_bind, run_exec.
  pose proof (gcloud_stores g id rec _ w1 (or_intror eq_refl)) as HB. destruct (r_Run _ w1) as [w2 r]; run_step.
  assert (payloads g w2 = <[id := rec]> (payloads g w) ∨ (payloads g w2 = payloads g w ∧ is_ok r = false)) as [->|[-> Hr]].
  { destruct HA as [HA|[HA _]], HB as [HB|[HB ?]]; rewrite HB, HA, ?insert_insert_eq; auto. }
  - apply Hput.
  - left. split; [done|]. by destruct r.
Qed.

Lemma gcp_get_law g n w :
  get_effect (gcp_remote g) n (run (gcp_Get g n) w).2 (payloads g w) (payloads g (run (gcp_Get g n) w).1).
Proof.
  unfold gcp_Get. destruct (gcp_remote g n) as [id|e] eqn:Er; bind_step.
  2: { split; [done|]. intros ->. by apply gcp_remote_error in Er. }
  unfold gcp_fetch. change (gcp_secrets g None (gcp_access_args id)) with (exec (gcloud g None (gcp_access_args id))).
  rewrite !run_bind, run_exec. pose proof (gcloud_access g id w) as Ha. destruct (r_Run _ w) as [w1 [rec|e]]; run_step.
  - destruct Ha as [Hp Ha]. destruct (decodeRecord rec) as [[v m]|e] eqn:Ed; bind_step; run_step.
    + case_decide as Hn; run_step; (split; [done|]).
      * by exists id, rec.
      * intros _ x (k & raw & Hk & Hr & Hd & Hx). assert (x = (v, m)) as -> by congruence. done.
    + split; [done|]. intros ->. by apply decodeRecord_error in Ed.
  - destruct Ha as [Hp Ha]. split; [done|]. intros He x (k & raw & Hk & Hr & _). specialize (Ha He). congruence.
Qed.

Lemma gcp_delete_law g n w :
  (∀ i x, holds (gcp_remote g) (payloads g w) i x → gcp_own g i) →
  delete_effect (gcp_remote g) n (run (gcp_Delete g n) w).2 (payloads g w) (payloads g (run (gcp_Delete g n) w).1).
Proof.
  intros Ho. unfold gcp_Delete. destruct (gcp_remote g n) as [id|e] eqn:Er; bind_step.
  2: { left. split_and!; [done..|]. intros [= ->]. by apply gcp_remote_error in Er. }
  assert (payloads g w !! id = None → ∀ x, ¬ holds (gcp_remote g) (payloads g w) n x) as Hnone.
  { intros Hn x (k & raw & Hk & Hr & _). congruence. }
  change (gcp_secrets g None (gcp_describe_args id)) with (exec (gcloud g None (gcp_describe_args id))).
  change (gcp_secrets g None (gcp_delete_args id)) with (exec (gcloud g None (gcp_delete_args id))).
  rewrite run_bind, run_exec. pose proof (gcloud_describe g id w) as Ha. destruct (r_Run _ w) as [w1 [out|e]]; run_step.
  2: { destruct Ha as [Hp Ha]. left. split_and!; [done..|]. intros [= He]. auto. }
  destruct Ha as [Hp _]. rewrite run_bind, run_exec. pose proof (gcloud_delete g id w1) as Hx.
  destruct (r_Run _ w1) as [w2 [out'|e]]; run_step; rewrite Hp in *.
  - right. exists id. split_and!; try done. apply gcp_own_unshared; auto.
  - destruct Hx as [[->| ->] Hx].
    + left. split_and!; [done..|]. intros [= He]. apply Hnone. by apply Hx.
    + destruct (decide (gcpClassify e = ErrNotFound)) as [He|He].
      * left. destruct (Hx He) as [-> Hn]. split_and!; [done..|]. auto.
      * right. exists id. split_and!; [done| |done|congruence]. apply gcp_own_unshared; auto.
Qed.

Lemma gcp_laws : keyed_laws (O := GCP) (W := W) gcp_remote payloads gcp_own.
Proof.
  split; intros; cbn [b_Put b_Get b_Delete b_Name gcp_backend] in *; rewrite on_world_run; (split; [done|]);
    unfold keys_of; cbn [t_opts t_world fst snd].
  - by apply gcp_put_law.
  - apply gcp_get_law.
  - by apply gcp_delete_law.
Qed.

#[export] Instance gcp_backend_ok : BackendOk (Tool GCP W) := keyed_backend_ok gcp_remote payloads gcp_own gcp_laws.
End gcp.

(** ** Names that share an identifier *)

(** The name that a name with a dot is mapped to, as a name of its own. *)
Definition gcp_twin (n : string) : string := sb (gcpMapName (bs n)).

Definition dashed (b : byte) : byte := if decide (b = x2e) then x2d else b.

Lemma SplitStr_ne sep k s : SplitStr sep k s ≠ [].
Proof.
  revert k. induction s as [|b s IH]; intros k; simpl; [done|]. destruct k; [|apply IH].
  case_match; [done|]. specialize (IH 0%nat). by destruct (SplitStr sep 0 s).
Qed.

Lemma JoinStr_first new b segs : segs ≠ [] → JoinStr new (cons_first b segs) = b :: JoinStr new segs.
Proof. destruct segs as [|seg [|seg' segs]]; done. Qed.

Lemma ReplaceAll_dots s : ReplaceAll s B["."] B["-"] = dashed <$> s.
Proof.
  unfold ReplaceAll. induction s as [|b s IH]; [done|]. cbn -[JoinStr dashed]. unfold dashed at 1.
  assert (HasPrefix s [] = true) as -> by (by destruct s). rewrite andb_true_r.
  pose proof (SplitStr_ne B["."] 0 s) as Hne. case_bool_decide as Hb.
  - subst b. rewrite decide_True by done. rewrite <- IH.
    change (SplitStr [x2e] 0 s) with (SplitStr B["."] 0 s). by destruct (SplitStr B["."] 0 s).
  - rewrite decide_False by done. rewrite JoinStr_first by done. by rewrite <- IH.
Qed.

Lemma hex_alnum l : Forall (λ b, is_alnum b = true) (HexEncode l).
Proof.
  induction l as [|b l IH]; [constructor|].
  change (HexEncode (b :: l)) with (hex_lower (b2z b / 16) :: hex_lower (b2z b mod 16) :: HexEncode l).
  repeat constructor; [| |done]; destruct b; vm_compute; reflexivity.
Qed.

Lemma hex_length l : zlen (HexEncode l) = 2 * zlen l.
Proof.
  induction l as [|b l IH]; [done|].
  change (HexEncode (b :: l)) with (hex_lower (b2z b / 16) :: hex_lower (b2z b mod 16) :: HexEncode l).
  rewrite !zlen_cons, IH. lia.
Qed.

Lemma mapped_length s : Contains s B["."] = true → zlen (gcpMapName s) = zlen s + 9.
Proof.
  intros Hc. unfold gcpMapName. rewrite Hc. cbn [negb]. rewrite ReplaceAll_dots, !zlen_app, hex_length.
  unfold zlen. rewrite length_fmap, length_take, sha256_length. simpl. lia.
Qed.

(** A mapped name is a name without dots. *)
Definition plain (b : byte) : bool := name_byte b && negb (bool_decide (b = x2e)).

Lemma mapped_plain s : Forall (λ b, name_byte b = true) s → Contains s B["."] = true →
  Forall (λ b, plain b = true) (gcpMapName s).
Proof.
  intros Hs Hc. unfold gcpMapName. rewrite Hc. cbn [negb]. rewrite ReplaceAll_dots. rewrite !Forall_app. split_and!.
  - apply Forall_fmap. eapply Forall_impl; [exact Hs|]. intros b Hb. cbn [compose]. unfold dashed, plain.
    case_decide; [reflexivity|]. rewrite Hb. by rewrite bool_decide_eq_false_2.
  - by repeat constructor.
  - eapply Forall_impl; [apply hex_alnum|]. intros b Hb. unfold plain, name_byte. rewrite Hb. simpl.
    rewrite bool_decide_eq_false_2; [done|]. by intros ->.
Qed.

Lemma plain_no_dot s : Forall (λ b, plain b = true) s → Contains s B["."] = false ∧ double_dot s = false.
Proof.
  intros Hs. split.
  - apply Contains_false. intros (x & y & ->). rewrite !Forall_app in Hs. destruct Hs as (_ & Hd & _). by inversion_clear Hd.
  - induction Hs as [|b s Hb Hs IH]; [done|]. simpl. destruct s as [|c s]; [done|]. rewrite IH.
    unfold plain in Hb. by destruct (bool_decide (b = x2e)); [rewrite andb_false_r in Hb|].
Qed.

(** Every name with a dot that leaves room for the suffix shares its
    identifier with another name, which has no dot. *)
Lemma gcp_dotted_twin g n id :
  Contains (bs n) B["."] = true → zlen (bs n) <= 91 → gcp_remote g n = Ok id →
  gcp_twin n ≠ n ∧ gcp_remote g (gcp_twin n) = Ok id.
Proof.
  intros Hc Hlen Hr. pose proof (gcp_remote_name _ _ _ Hr) as Hv. unfold gcp_twin.
  assert (Forall (λ b, name_byte b = true) (bs n) ∧ ∃ b s, bs n = b :: s ∧ is_alnum b = true) as [Hb (b & s & Hn & Ha)].
  { unfold ValidateName in Hv. destruct (nameRe (bs n)) eqn:E; [|done]. unfold nameRe in E. destruct (bs n) as [|b s]; [done|].
    breflect. split; [|eauto]. constructor; [unfold name_byte; match goal with H : is_alnum b = true |- _ => by rewrite H end|].
    apply Forall_forall. intros c Hin. match goal with H : forallb _ _ = true |- _ => rewrite forallb_forall in H; apply H end.
    by apply list_elem_of_In. }
  pose proof (mapped_plain _ Hb Hc) as Hp. destruct (plain_no_dot _ Hp) as [Hnd Hdd].
  split.
  - intros Heq. rewrite <- Heq, bs_sb in Hc. congruence.
  - unfold gcp_remote in *. destruct (ValidateName n); [|done]. simpl in Hr.
    assert (nameRe (gcpMapName (bs n)) = true) as Hre.
    { apply mapped_length in Hc as Hz. unfold nameRe.
      assert (∃ s', gcpMapName (bs n) = b :: s') as [s' Hs'].
      { unfold gcpMapName. rewrite Hc, Hn. cbn [negb]. rewrite ReplaceAll_dots. simpl. eexists. f_equal.
        unfold dashed. rewrite decide_False; [done|]. by intros ->. }
      rewrite Hs' in *. rewrite zlen_cons in Hz. rewrite Ha. simpl. apply andb_true_intro. split; [|lia].
      apply forallb_forall. intros c Hin%list_elem_of_In. apply Forall_cons in Hp as [_ Hp].
      eapply Forall_forall in Hp; [|exact Hin]. unfold plain in Hp. by apply andb_prop in Hp as [? _]. }
    assert (ValidateName (sb (gcpMapName (bs n))) = Ok tt) as ->.
    { unfold ValidateName. by rewrite bs_sb, Hdd, Hre. }
    cbn [mbind result_bind]. rewrite bs_sb.
    assert (gcpMapName (gcpMapName (bs n)) = gcpMapName (bs n)) as -> by (unfold gcpMapName at 1; by rewrite Hnd). exact Hr.
Qed.

(** * Doppler *)

Definition doppler_invocation (d : DopplerOptions) (stdin : option bytes) (args : list bytes) : invocation :=
  mkInvocation B["doppler"]
    (args ++ (flag B["--project"] (dop_Project d) ++ flag B["--config"] (dop_Config d)) ++ [B["--no-check-version"]]) stdin [].

(** What the Doppler CLI documents: [secrets set KEY] stores what it reads,
    [secrets get KEY --json] prints the raw value under the key, [secrets
    delete] removes the key.  A command that fails may or may not have had its
    effect. *)
Class DopplerCli (W : Type) `{Runner W} `{Unicode} := {
  doppler_secrets : DopplerOptions → W → gmap bytes bytes;
  doppler_sets d key rec w :
    ValidUtf8 rec = true →
    let '(w', r) := r_Run (doppler_invocation d (Some rec) (doppler_set_args key)) w in
    doppler_secrets d w' = <[key := rec]> (doppler_secrets d w) ∨
    (doppler_secrets d w' = doppler_secrets d w ∧ is_ok r = false);
  doppler_gets d key w :
    let '(w', r) := r_Run (doppler_invocation d None (doppler_get_args [key])) w in
    doppler_secrets d w' = doppler_secrets d w ∧
    match r with
    | Ok out => ∀ values raw, read_json doppler_values_codec out = Some values → values !! sb key = Some (Some raw) →
                  doppler_secrets d w !! key = Some raw
    | Err e => dopplerClassify e = ErrNotFound → doppler_secrets d w !! key = None
    end;
  doppler_deletes d key w :
    let '(w', r) := r_Run (doppler_invocation d None (doppler_delete_args key)) w in
    match r with
    | Ok _ => doppler_secrets d w' = delete key (doppler_secrets d w)
    | Err e => (doppler_secrets d w' = doppler_secrets d w ∨ doppler_secrets d w' = delete key (doppler_secrets d w)) ∧
               (dopplerClassify e = ErrNotFound →
                doppler_secrets d w' = doppler_secrets d w ∧ doppler_secrets d w !! key = None)
    end;
}.

Section doppler.
Context {W : Type} `{DopplerCli W} `{UnicodeUpper}.

Definition doppler_key (d : DopplerOptions) (n : string) : result storage_error bytes :=
  _ ← ValidateName n; Ok (dopplerKey n).

Lemma doppler_lookup_spec d key w :
  let '(w', r) := run (doppler_lookup d key) w in
  doppler_secrets d w' = doppler_secrets d w ∧
  match r with
  | Ok raw => doppler_secrets d w !! key = Some raw
  | Err e => e = ErrNotFound → doppler_secrets d w !! key = None
  end.
Proof.
  unfold doppler_lookup, doppler_fetch.
  change (doppler_run d None true (doppler_get_args [key])) with (exec (doppler_invocation d None (doppler_get_args [key]))).
  rewrite !run_bind, run_exec. pose proof (doppler_gets d key w) as Hg. destruct (r_Run _ w) as [w1 [out|e]]; run_step; [|done].
  destruct Hg as [Hs Hg]. destruct (read_json doppler_values_codec out) as [values|] eqn:Ev; run_step; [|by split].
  split; [done|]. rewrite lookup_omap. destruct (values !! sb key) as [[raw|]|] eqn:El; simpl; [|done|done].
  by eapply Hg.
Qed.

Lemma doppler_owner_spec n e raw :
  match doppler_owner n e raw with
  | Ok x => decodeRecord raw = Ok x ∧ Name x.2 = n
  | Err e' => e' = ErrOther ∨ (e' = e ∧ ∀ x, decodeRecord raw = Ok x → Name x.2 ≠ n)
  end.
Proof.
  unfold doppler_owner. destruct (decodeRecord raw) as [[v m]|e'] eqn:E; [|by left].
  case_decide as Hn; [done|]. right. split; [done|]. intros x Hx. naive_solver.
Qed.

(** A key that is free or holds the record of the name. *)
Lemma doppler_unshared d n w :
  (doppler_secrets d w !! dopplerKey n = None ∨
   ∃ raw x, doppler_secrets d w !! dopplerKey n = Some raw ∧ decodeRecord raw = Ok x ∧ Name x.2 = n) →
  unshared (doppler_key d) (doppler_secrets d w) n (dopplerKey n).
Proof.
  intros Hk i x Hi (k & raw & Hik & Hr & Hd & Hn) Hik'. assert (k = dopplerKey n) as -> by congruence.
  destruct Hk as [Hk|(raw' & x' & Hk & Hd' & Hn')]; congruence.
Qed.

Lemma doppler_collision_spec d n w found :
  match found with
  | Ok raw => doppler_secrets d w !! dopplerKey n = Some raw
  | Err e => e = ErrNotFound → doppler_secrets d w !! dopplerKey n = None
  end →
  doppler_collision n found = Ok tt → unshared (doppler_key d) (doppler_secrets d w) n (dopplerKey n).
Proof.
  intros Hf Hc. apply doppler_unshared. unfold doppler_collision in Hc. destruct found as [raw|e].
  - right. pose proof (doppler_owner_spec n ErrInvalidName raw) as Hw.
    destruct (doppler_owner n ErrInvalidName raw) as [x|e]; [|done]. by exists raw, x.
  - left. apply Hf. by destruct e.
Qed.

Lemma doppler_put_law d n v m w : meta_text_ok m →
  put_effect (doppler_key d) n (v, stamp doppler_Name n v m) (is_ok (run (doppler_Put d n v m) w).2)
    (doppler_secrets d w) (doppler_secrets d (run (doppler_Put d n v m) w).1).
Proof.
  intros Hm. unfold doppler_Put. destruct (ValidateName n) as [[]|e] eqn:Ev; bind_step; [|by left].
  case_match; [by left|]. destruct (encodeRecord (stamp doppler_Name n v m) v) as [rec|e] eqn:Ee; bind_step; [|by left].
  case_match; [by left|].
  assert (decodeRecord rec = Ok (v, stamp doppler_Name n v m)) as Hd.
  { eapply record_stored; [reflexivity|by rewrite Ev|done|done]. }
  rewrite run_bind, run_attempt. pose proof (doppler_lookup_spec d (dopplerKey n) w) as Hlook.
  destruct (run (doppler_lookup d (dopplerKey n)) w) as [w1 raw]. run_step. destruct Hlook as [Hs Hlook].
  pose proof (doppler_collision_spec d n w raw Hlook) as Hu.
  destruct (doppler_collision n raw) as [[]|e]; bind_step; [|left; run_step; by rewrite Hs].
  change (doppler_run d (Some rec) true (doppler_set_args (dopplerKey n)))
      with (exec (doppler_invocation d (Some rec) (doppler_set_args (dopplerKey n)))).
  rewrite run_bind, run_exec. pose proof (doppler_sets d (dopplerKey n) rec w1 (record_utf8 _ _ _ Ee)) as Hset.
  destruct (r_Run _ w1) as [w2 r]; run_step. rewrite Hs in Hset. destruct Hset as [->|[-> Hr]].
  - right. exists (dopplerKey n), rec. split_and!; try done; [|by apply Hu]. unfold doppler_key. by rewrite Ev.
  - left. split; [done|]. by destruct r.
Qed.

Lemma doppler_get_law d n w :
  get_effect (doppler_key d) n (run (doppler_Get d n) w).2 (doppler_secrets d w) (doppler_secrets d (run (doppler_Get d n) w).1).
Proof.
  unfold doppler_Get. destruct (ValidateName n) as [[]|e] eqn:Ev; bind_step.
  2: { split; [done|]. run_step. intros ->. by apply ValidateName_error in Ev. }
  assert (doppler_key d n = Ok (dopplerKey n)) as Hkey by (unfold doppler_key; by rewrite Ev).
  rewrite run_bind. pose proof (doppler_lookup_spec d (dopplerKey n) w) as Hlook.
  destruct (run (doppler_lookup d (dopplerKey n)) w) as [w1 [raw|e]]; run_step; destruct Hlook as [Hs Hlook]; (split; [done|]).
  - pose proof (doppler_owner_spec n ErrNotFound raw) as Hw. destruct (doppler_owner n ErrNotFound raw) as [x|e].
    + exists (dopplerKey n), raw. naive_solver.
    + intros -> x (k & raw' & Hk & Hr & Hd & Hn). destruct Hw as [?|[_ Hw]]; [done|]. apply (Hw x); congruence.
  - intros He x (k & raw' & Hk & Hr & _). specialize (Hlook He). congruence.
Qed.

Lemma doppler_delete_law d n w :
  delete_effect (doppler_key d) n (run (doppler_Delete d n) w).2 (doppler_secrets d w)
    (doppler_secrets d (run (doppler_Delete d n) w).1).
Proof.
  unfold doppler_Delete. destruct (ValidateName n) as [[]|e] eqn:Ev; bind_step.
  2: { left. split_and!; [done..|]. run_step. intros [= ->]. by apply ValidateName_error in Ev. }
  assert (doppler_key d n = Ok (dopplerKey n)) as Hkey by (unfold doppler_key; by rewrite Ev).
  rewrite run_bind. pose proof (doppler_lookup_spec d (dopplerKey n) w) as Hlook.
  destruct (run (doppler_lookup d (dopplerKey n)) w) as [w1 [raw|e]]; run_step; destruct Hlook as [Hs Hlook].
  2: { left. split_and!; [done..|]. intros [= He] x (k & raw' & Hk & Hr & _). specialize (Hlook He). congruence. }
  pose proof (doppler_owner_spec n ErrNotFound raw) as Hw. destruct (doppler_owner n ErrNotFound raw) as [x|e]; bind_step.
  2: { left. run_step. split_and!; [done..|]. intros [= ->] x (k & raw' & Hk & Hr & Hd & Hn).
       destruct Hw as [?|[_ Hw]]; [done|]. apply (Hw x); congruence. }
  change (doppler_run d None true (doppler_delete_args (dopplerKey n)))
    with (exec (doppler_invocation d None (doppler_delete_args (dopplerKey n)))).
  rewrite run_bind, run_exec. pose proof (doppler_deletes d (dopplerKey n) w1) as Hdel.
  assert (unshared (doppler_key d) (doppler_secrets d w) n (dopplerKey n)) as Hu.
  { apply doppler_unshared. right. exists raw, x. naive_solver. }
  destruct (r_Run _ w1) as [w2 [out|e]]; run_step; rewrite Hs in Hdel.
  - right. exists (dopplerKey n). by split_and!.
  - assert (dopplerClassify e ≠ ErrNotFound) as Hne by (intros He; apply Hdel in He as [_ He]; congruence).
    destruct Hdel as [[->| ->] _].
    + left. split_and!; [done..|]. congruence.
    + right. exists (dopplerKey n). split_and!; [done..|congruence].
Qed.

Lemma doppler_laws : keyed_laws (O := DopplerOptions) (W := W) doppler_key doppler_secrets (λ _ _, True).
Proof.
  split; intros; cbn [b_Put b_Get b_Delete b_Name doppler_backend] in *; rewrite on_world_run; (split; [done|]);
    unfold keys_of; cbn [t_opts t_world fst snd].
  - by apply doppler_put_law.
  - apply doppler_get_law.
  - apply doppler_delete_law.
Qed.

#[export] Instance doppler_backend_ok : BackendOk (Tool DopplerOptions W) :=
  keyed_backend_ok doppler_key doppler_secrets (λ _ _, True) doppler_laws.
End doppler.

(** * Secrets survive *)

(** Operations of a client on a backend. *)
Inductive client_op := CPut (n : string) (v : bytes) (m : Metadata) | CGet (n : string) | CDelete (n : string).

Definition op_name (o : client_op) : string := match o with CPut n _ _ | CGet n | CDelete n => n end.

Definition apply_op {T} `{Backend T} (t : T) (o : client_op) : T :=
  match o with CPut n v m => (b_Put n v m t).1 | CGet n => (b_Get n t).1 | CDelete n => (b_Delete n t).1 end.

Section survive.
Context {T : Type} `{BackendOk T}.

(** The operations on other names that a state allows. *)
Fixpoint allowed_ops (n : string) (ops : list client_op) (t : T) : Prop :=
  match ops with
  | [] => True
  | o :: ops =>
      op_name o ≠ n ∧ (∀ k v m, o = CPut k v m → accepts k v m t) ∧ allowed_ops n ops (apply_op t o)
  end.

Lemma op_other n o t :
  healthy t → op_name o ≠ n → (∀ k v m, o = CPut k v m → accepts k v m t) →
  healthy (apply_op t o) ∧ view (apply_op t o) !! n = view t !! n.
Proof.
  intros Hh Hn Ha. destruct o as [k v m|k|k]; simpl in *.
  - split; [by eapply put_healthy; [|apply Ha]|]. eapply put_other; [done|by apply Ha|done].
  - split; [by apply get_healthy|]. by rewrite get_view.
  - split; [by apply delete_healthy|]. by apply delete_other.
Qed.

(** Where only the metadata matters, operations are allowed or not as such. *)
Lemma allowed_all n ops t :
  (∀ k v m t, meta_text_ok m → accepts k v m t) →
  (∀ k v m, CPut k v m ∈ ops → meta_text_ok m) → (∀ o, o ∈ ops → op_name o ≠ n) → allowed_ops n ops t.
Proof.
  intros Hacc. revert t. induction ops as [|o ops IH]; intros t Hms Hn; [done|]. simpl. split_and!.
  - apply Hn. by left.
  - intros k v m ->. apply Hacc. eapply Hms. by left.
  - apply IH; intros; [eapply Hms|apply Hn]; by right.
Qed.

(** What was put is what a later lookup finds. *)
Lemma put_survives n v m t ops :
  healthy t → accepts n v m t → (b_Put n v m t).2 = Ok tt → allowed_ops n ops (b_Put n v m t).1 →
  match (b_Get n (foldl apply_op (b_Put n v m t).1 ops)).2 with
  | Ok x => x = (v, stamp b_Name n v m)
  | Err e => e ≠ ErrNotFound
  end.
Proof.
  intros Hh Ha Hr Hops.
  assert (∀ t', healthy t' → view t' !! n = Some (v, stamp b_Name n v m) → allowed_ops n ops t' →
    healthy (foldl apply_op t' ops) ∧ view (foldl apply_op t' ops) !! n = Some (v, stamp b_Name n v m)) as Hfold.
  { clear Hops. induction ops as [|o ops IH]; intros t' Hh' Hv Hops; [done|]. destruct Hops as (Hn & Hacc & Hops). simpl.
    destruct (op_other n o t' Hh' Hn Hacc) as [Hh2 Hv2]. apply IH; [done|congruence|done]. }
  destruct (Hfold (b_Put n v m t).1) as [Hh' Hv]; [by apply put_healthy| |done|].
  { rewrite put_ok by done. apply lookup_insert_eq. }
  destruct (b_Get n _).2 as [x|e] eqn:Eg; [apply get_ok in Eg; [congruence|done]|].
  intros ->. apply get_not_found in Eg; [congruence|done].
Qed.
End survive.

(** ** Secret Manager, by identifier *)

Section identifiers.
Context {W : Type} `{Gcloud W} (g : GCP).

(** An operation touches the secret of its own identifier only. *)
Lemma gcp_op_frame o w id :
  gcp_remote g (op_name o) ≠ Ok id →
  payloads g (t_world (apply_op (mkTool g w : Tool GCP W) o)) !! id = payloads g w !! id ∧
  t_opts (apply_op (mkTool g w : Tool GCP W) o) = g.
Proof.
  intros Hid. destruct o as [k v m|k|k]; cbn [apply_op op_name b_Put b_Get b_Delete gcp_backend] in *; rewrite on_world_run;
    (split; [|done]); cbn [t_opts t_world fst snd].
  - unfold gcp_Put. destruct (gcp_remote g k) as [i|e]; bind_step; [|done]. assert (i ≠ id) as Hi by congruence.
    case_match; [done|]. destruct (encodeRecord _ v) as [rec|e]; bind_step; [|done]. case_match; [done|].
    change (gcp_secrets g (Some rec) (gcp_create_args i)) with (exec (gcloud g (Some rec) (gcp_create_args i))).
    change (gcp_secrets g (Some rec) (gcp_add_args i)) with (exec (gcloud g (Some rec) (gcp_add_args i))).
    assert (∀ args w, args = gcp_create_args i ∨ args = gcp_add_args i →
      payloads g (r_Run (gcloud g (Some rec) args) w).1 !! id = payloads g w !! id) as Hs.
    { intros args w' Ha. pose proof (gcloud_stores g i rec args w' Ha) as Hst. destruct (r_Run _ w') as [w2 r].
      simpl. destruct Hst as [->|[-> _]]; [by rewrite lookup_insert_ne|done]. }
    rewrite run_bind, run_exec. pose proof (Hs _ w (or_introl eq_refl)) as HA.
    destruct (r_Run _ w) as [w1 [out|e]]; run_step; [done|]. case_match; run_step; [|done].
    rewrite run_bind, run_exec. pose proof (Hs _ w1 (or_intror eq_refl)) as HB.
    destruct (r_Run _ w1) as [w2 r]; run_step. simpl in *. congruence.
  - pose proof (gcp_get_law g k w) as [Hp _]. by rewrite Hp.
  - unfold gcp_Delete. destruct (gcp_remote g k) as [i|e]; bind_step; [|done]. assert (i ≠ id) as Hi by congruence.
    change (gcp_secrets g None (gcp_describe_args i)) with (exec (gcloud g None (gcp_describe_args i))).
    change (gcp_secrets g None (gcp_delete_args i)) with (exec (gcloud g None (gcp_delete_args i))).
    rewrite run_bind, run_exec. pose proof (gcloud_describe g i w) as Ha. destruct (r_Run _ w) as [w1 [out|e]]; run_step;
      destruct Ha as [Hp _]; [|by rewrite Hp].
    rewrite run_bind, run_exec. pose proof (gcloud_delete g i w1) as Hx.
    destruct (r_Run _ w1) as [w2 [out'|e]]; run_step; rewrite <- Hp.
    + by rewrite Hx, lookup_delete_ne.
    + destruct Hx as [[->| ->] _]; [done|by rewrite lookup_delete_ne].
Qed.

(** A [Put] that succeeds leaves the record under the identifier. *)
Lemma gcp_put_holds n v m w :
  meta_text_ok m → is_ok (run (gcp_Put g n v m) w).2 = true →
  holds (gcp_remote g) (payloads g (run (gcp_Put g n v m) w).1) n (v, stamp gcp_Name n v m).
Proof.
  intros Hm. unfold gcp_Put. destruct (gcp_remote g n) as [id|e] eqn:Er; bind_step; [|done].
  case_match; [done|]. destruct (encodeRecord (stamp gcp_Name n v m) v) as [rec|e] eqn:Ee; bind_step; [|done].
  case_match; [done|].
  assert (decodeRecord rec = Ok (v, stamp gcp_Name n v m)) as Hd.
  { eapply record_stored; [reflexivity|by eapply gcp_remote_name|done|done]. }
  change (gcp_secrets g (Some rec) (gcp_create_args id)) with (exec (gcloud g (Some rec) (gcp_create_args id))).
  change (gcp_secrets g (Some rec) (gcp_add_args id)) with (exec (gcloud g (Some rec) (gcp_add_args id))).
  assert (∀ args w, args = gcp_create_args id ∨ args = gcp_add_args id → is_ok (r_Run (gcloud g (Some rec) args) w).2 = true →
    holds (gcp_remote g) (payloads g (r_Run (gcloud g (Some rec) args) w).1) n (v, stamp gcp_Name n v m)) as Hs.
  { intros args w' Ha Hok. pose proof (gcloud_stores g id rec args w' Ha) as Hst. destruct (r_Run _ w') as [w2 r].
    simpl in *. exists id, rec. split; [done|]. destruct Hst as [->|[_ Hr]]; [|congruence]. by rewrite lookup_insert_eq. }
  rewrite run_bind, run_exec. pose proof (Hs _ w (or_introl eq_refl)) as HA.
  destruct (r_Run _ w) as [w1 [out|e]]; run_step; [intros _; by apply HA|]. case_match; run_step; [|done].
  rewrite run_bind, run_exec. pose proof (Hs _ w1 (or_intror eq_refl)) as HB.
  destruct (r_Run _ w1) as [w2 r]; run_step. destruct r; [intros _; by apply HB|done].
Qed.

Lemma gcp_put_survives n v m w ops :
  meta_text_ok m → (∀ o id, o ∈ ops → gcp_remote g n = Ok id → gcp_remote g (op_name o) ≠ Ok id) →
  let t := (mkTool g w : Tool GCP W) in
  (b_Put n v m t).2 = Ok tt →
  match (b_Get n (foldl apply_op (b_Put n v m t).1 ops)).2 with
  | Ok x => x = (v, stamp gcp_Name n v m)
  | Err e => e ≠ ErrNotFound
  end.
Proof.
  intros Hm Hops t. unfold t. cbn [b_Put gcp_backend]. rewrite !on_world_run. cbn [t_opts t_world fst snd]. intros Hr.
  pose proof (gcp_put_holds n v m w Hm ltac:(by rewrite Hr)) as (id & rec & Hid & Hrec & Hdec).
  generalize dependent (run (gcp_Put g n v m) w).1. clear Hr. intros w1. revert w1.
  induction ops as [|o ops IH]; intros w1 Hrec; cbn [foldl].
  - cbn [b_Get gcp_backend]. rewrite on_world_run. cbn [t_opts t_world fst snd].
    pose proof (gcp_get_law g n w1) as [_ Hg]. assert (holds (gcp_remote g) (payloads g w1) n (v, stamp gcp_Name n v m)) as Hh by by exists id, rec.
    destruct (run (gcp_Get g n) w1).2 as [x|e].
    + destruct Hg as (k & raw & Hk & Hr & Hd & _). destruct Hdec. congruence.
    + intros ->. by eapply Hg.
  - destruct (gcp_op_frame o w1 id) as [Hf Ho]; [apply Hops; [by left|done]|].
    destruct (apply_op (mkTool g w1) o) as [g' w2]. simpl in Hf, Ho. subst g'. apply IH; [intros; eapply Hops; [by right|done]|congruence].
Qed.
End identifiers.

(** C39. A secret stored in Doppler, in a HashiCorp Vault or in Secret Manager
    stays what it was, value and metadata, whatever is then done to other
    names: a lookup returns it or fails for another reason than that it is not
    there. The metadata put is UTF-8 text ([meta_text_ok]), in Doppler and in
    Vault that of the other names as well. In Doppler this holds for names
    that map to the same key, which are refused. In Secret Manager the other
    operations are on names with another identifier: a name with a dot shares
    its identifier with the name that it is mapped to ([gcp_dotted_twin]), and
    a [Put] of that name replaces the secret. *)
Theorem vendor_secrets_survive {W} `{Unicode} `{UnicodeUpper} `{!Runner W} `{!Gcloud W} `{!DopplerCli W}
    {N : Type} `{!VaultHost N} `{!VaultKV N}
    (n : string) (v : bytes) (m : Metadata) (w : W) (h : N) (ops : list client_op) :
  meta_text_ok m →
  (∀ k v m, CPut k v m ∈ ops → meta_text_ok m) →
  (∀ o, o ∈ ops → op_name o ≠ n) →
  (∀ d, let t := (mkTool d w : Tool DopplerOptions W) in
     (b_Put n v m t).2 = Ok tt →
     match (b_Get n (foldl apply_op (b_Put n v m t).1 ops)).2 with
     | Ok x => x = (v, stamp doppler_Name n v m)
     | Err e => e ≠ ErrNotFound
     end) ∧
  (∀ a, let t := (mkTool a h : Tool Vault N) in
     (b_Put n v m t).2 = Ok tt →
     match (b_Get n (foldl apply_op (b_Put n v m t).1 ops)).2 with
     | Ok x => x = (v, stamp vault_Name n v m)
     | Err e => e ≠ ErrNotFound
     end) ∧
  (∀ g, let t := (mkTool g w : Tool GCP W) in
     (∀ o id, o ∈ ops → gcp_remote g n = Ok id → gcp_remote g (op_name o) ≠ Ok id) →
     (b_Put n v m t).2 = Ok tt →
     match (b_Get n (foldl apply_op (b_Put n v m t).1 ops)).2 with
     | Ok x => x = (v, stamp gcp_Name n v m)
     | Err e => e ≠ ErrNotFound
     end).
Proof.
  intros Hm Hms Hn. split; [|split].
  - intros d t Hr. change doppler_Name with (b_Name (T := Tool DopplerOptions W)).
    apply (put_survives (T := Tool DopplerOptions W) n v m t ops); [done|done|done|]. by apply allowed_all.
  - intros a t Hr. change vault_Name with (b_Name (T := Tool Vault N)).
    apply (put_survives (T := Tool Vault N) n v m t ops); [done|done|done|]. by apply allowed_all.
  - intros g t Hops Hr. by apply gcp_put_survives.
Qed.
