(* ===== verification/VendorRuns.v ===== *)
(** Concrete runs of the vendor backends, against a machine whose tools keep
    their secrets in one table. *)
From S2P Require Import Prelude Sha256 GoStrings GoText GoTime Json JsonDoc Secrets Records Dotenv Cli BackendSpec.
From S2P Require Import Gcp Aws Azure Doppler Infisical OnePassword Bitwarden HcVault VendorProps VendorStores GoOs GoNet.
From S2P Require Import JsonDocProps.
From S2P Require Client.
From Stdlib Require Import Strings.Byte.

#[local] Instance lower_ascii : Unicode := {| lower_rune r := r |}.
#[local] Existing Instance upper_ascii.

(** * A machine *)

Record machine := mkMachine { mc_secrets : gmap bytes bytes; mc_files : gmap bytes bytes }.

Definition not_found (name text : bytes) : result cli_error bytes := Err (ExitError name 1 text).

(** What [doppler secrets get] prints for a key, if it can be read back. *)
Definition doppler_output (key raw : bytes) : result cli_error bytes :=
  match Marshal doppler_values_codec {[sb key := Some raw]} with
  | Some out =>
      if decide (read_json doppler_values_codec out = Some {[sb key := Some raw]}) then Ok out else Err (CliFailed [])
  | None => Err (CliFailed [])
  end.

(** The doppler tool. *)
Definition doppler_tool (args : list bytes) (stdin : bytes) (m : gmap bytes bytes) : gmap bytes bytes * result cli_error bytes :=
  let missing := not_found B["doppler"] B["Doppler Error: Could not find requested secret"] in
  match args with
  | _ :: action :: key :: _ =>
      if beq action B["set"] then (<[key := stdin]> m, Ok [])
      else
        match m !! key with
        | None => (m, missing)
        | Some raw => if beq action B["get"] then (m, doppler_output key raw) else (delete key m, Ok [])
        end
  | _ => (m, Err (CliFailed []))
  end.

(** The gcloud tool. *)
Definition gcloud_tool (args : list bytes) (stdin : bytes) (m : gmap bytes bytes) : gmap bytes bytes * result cli_error bytes :=
  let missing := not_found B["gcloud"] B["ERROR: NOT_FOUND: Secret not found"] in
  match args with
  | _ :: action :: id :: rest =>
      if beq action B["create"] then
        match m !! id with
        | None => (<[id := stdin]> m, Ok [])
        | Some _ => (m, not_found B["gcloud"] B["ERROR: ALREADY_EXISTS: Secret exists"])
        end
      else if beq action B["versions"] then
        if beq id B["add"] then
          match rest with
          | id :: _ => (<[id := stdin]> m, Ok [])
          | [] => (m, Err (CliFailed []))
          end
        else
          match rest with
          | _ :: secret :: _ =>
              (m, match m !! TrimPrefix secret B["--secret="] with Some raw => Ok raw | None => missing end)
          | _ => (m, Err (CliFailed []))
          end
      else
        match m !! id with
        | None => (m, missing)
        | Some raw => if beq action B["describe"] then (m, Ok []) else (delete id m, Ok [])
        end
  | _ => (m, Err (CliFailed []))
  end.

Definition machine_run (i : invocation) (w : machine) : machine * result cli_error bytes :=
  let tool := if beq (i_name i) B["doppler"] then doppler_tool else gcloud_tool in
  let '(m, r) := tool (i_args i) (default [] (i_stdin i)) (mc_secrets w) in
  (mkMachine m (mc_files w), r).

#[local] Instance byte_inhabited : Inhabited byte := populate x00.

#[local] Instance machine_runner : Runner machine := {
  r_Run := machine_run;
  r_LookPath _ w := (w, true);
  os_CreateTemp content w :=
    let path := fresh (map_to_list (mc_files w)).*1 in (mkMachine (mc_secrets w) (<[path := content]> (mc_files w)), Some path);
  os_Remove path w := mkMachine (mc_secrets w) (delete path (mc_files w));
  ctx_After _ w := (w, false);
}.

#[local] Program Instance machine_files : TempDir machine := { files := mc_files }.
Next Obligation. intros i w. simpl. unfold machine_run. by repeat case_match. Qed.
Next Obligation. done. Qed.
Next Obligation. done. Qed.
Next Obligation.
  intros content w. simpl. split; [|done]. apply eq_None_not_Some. intros [c Hc%elem_of_map_to_list].
  apply (infinite_is_fresh (map_to_list (mc_files w)).*1). apply list_elem_of_fmap. by exists (fresh (map_to_list (mc_files w)).*1, c).
Qed.
Next Obligation. done. Qed.

#[local] Program Instance machine_doppler : DopplerCli machine := { doppler_secrets _ := mc_secrets }.
Next Obligation. intros d key rec w _. by left. Qed.
Next Obligation.
  intros d key w. cbn [r_Run machine_runner]. unfold machine_run, doppler_invocation, doppler_get_args. simpl.
  destruct (mc_secrets w !! key) as [raw|] eqn:E; simpl; (split; [done|]); [|done].
  unfold doppler_output. repeat case_match; simplify_eq; try done.
  intros values raw' Hv Hr. assert (values = {[sb key := Some raw]}) as -> by congruence.
  rewrite lookup_singleton_eq in Hr. by simplify_eq.
Qed.
Next Obligation.
  intros d key w. cbn [r_Run machine_runner]. unfold machine_run, doppler_invocation, doppler_delete_args. simpl.
  destruct (mc_secrets w !! key) as [raw|] eqn:E; simpl; auto.
Qed.

#[local] Program Instance machine_gcloud : Gcloud machine := { payloads _ := mc_secrets }.
Next Obligation.
  intros g id rec args w [-> | ->]; cbn [r_Run machine_runner]; unfold machine_run, gcloud; simpl; [|by left].
  destruct (mc_secrets w !! id) eqn:E; simpl; auto.
Qed.
Next Obligation.
  intros g id w. cbn [r_Run machine_runner]. unfold machine_run, gcloud, gcp_access_args.
  remember (B["--secret="] ++ id) as secret eqn:Es. 
  assert (TrimPrefix secret B["--secret="] = id) as Ht by (rewrite Es; apply TrimPrefix_self).
  Opaque TrimPrefix. simpl. Transparent TrimPrefix.
  rewrite ?Ht. destruct (mc_secrets w !! id) eqn:E; done.
Qed.
Next Obligation.
  intros g id w. cbn [r_Run machine_runner]. unfold machine_run, gcloud, gcp_describe_args. simpl.
  destruct (mc_secrets w !! id) eqn:E; done.
Qed.
Next Obligation.
  intros g id w. cbn [r_Run machine_runner]. unfold machine_run, gcloud, gcp_delete_args. simpl.
  destruct (mc_secrets w !! id) eqn:E; simpl; auto.
Qed.

(** * A vault *)

(** What the body of a write holds, and what a read answers, if it can be
    read back. *)
Definition post_codec : codec bytes := one_field (one_field string_codec B["record"]) B["data"].

Definition read_body (rec : bytes) : bytes :=
  write_json (JObj [(B["data"], JObj [(B["data"], JObj [(B["record"], JStr (marshal_text rec))])])]).

Definition read_answer (rec : bytes) : Z * option bytes :=
  if decide (read_json vault_read_codec (limited vaultMaxBody (read_body rec)) = Some rec) then (200, Some (read_body rec))
  else (500, Some []).

(** The server: entries by the last segment of the path. *)
Definition vault_server (req : Client.HttpRequest) (m : gmap bytes bytes) : gmap bytes bytes * option (Z * option bytes) :=
  let name := last_segment (Client.h_URL req) in
  if beq (Client.h_Method req) B["POST"] then
    match read_json post_codec (Client.h_Body req) with
    | Some rec => (<[name := rec]> m, Some (204, Some []))
    | None => (m, Some (400, Some []))
    end
  else
    match m !! name with
    | None => (m, Some (404, Some []))
    | Some rec =>
        if beq (Client.h_Method req) B["GET"] then (m, Some (read_answer rec)) else (delete name m, Some (204, Some []))
    end.

Record server := mkServer { sv_entries : gmap bytes bytes }.

#[local] Instance server_host : VaultHost server := {
  Getenv k _ := if beq k B["VAULT_TOKEN"] then B["hvs.token"] else [];
  token_file _ := None;
  vault_do req w := let '(m, r) := vault_server req (sv_entries w) in (mkServer m, r) }.

Lemma last_segment_name x n : is_ok (ValidateName n) = true → last_segment (x ++ x2f :: bs n) = bs n.
Proof.
  intros Hn. assert (x2f ∉ bs n) as Hs.
  { unfold ValidateName in Hn. destruct (nameRe (bs n)) eqn:E; [|done]. unfold nameRe in E.
    destruct (bs n) as [|b s]; [done|]. breflect. intros [<-|Hin]%elem_of_cons; [done|].
    match goal with H : forallb _ _ = true |- _ => rewrite forallb_forall in H; specialize (H _ (proj1 (list_elem_of_In _ _) Hin)) end. done. }
  unfold last_segment, LastIndexByte. rewrite reverse_app, reverse_cons, <- app_assoc. simpl.
  rewrite IndexByte_app by (by rewrite elem_of_reverse). simpl.
  rewrite length_app, length_reverse. cbn [length].
  replace (length x + S (length (bs n)) - 1 - length (bs n))%nat with (length x) by lia.
  change (drop (S (length x)) (x ++ x2f :: bs n)) with (drop (S (length x)) (x ++ x2f :: bs n)). apply drop_app_cons.
Qed.

Lemma data_segment v token base method n body : is_ok (ValidateName (sb n)) = true →
  last_segment (Client.h_URL (vault_request v token base method (dataPath v n) body)) = n.
Proof.
  intros Hn. apply (last_segment_name (base ++ B["/v1/"] ++ va_mount v ++ B["/data/"] ++ va_path v)) in Hn. rewrite bs_sb in Hn.
  rewrite <- Hn at 2. cbn [vault_request Client.h_URL]. unfold dataPath. by rewrite <- !app_assoc.
Qed.

Lemma meta_segment v token base method n body : is_ok (ValidateName (sb n)) = true →
  last_segment (Client.h_URL (vault_request v token base method (metaPath v n) body)) = n.
Proof.
  intros Hn. assert (is_empty n = false) as He.
  { unfold is_empty. rewrite bool_decide_eq_false_2; [done|]. apply name_nonempty in Hn. by rewrite bs_sb in Hn. }
  apply (last_segment_name (base ++ B["/v1/"] ++ va_mount v ++ B["/metadata/"] ++ va_path v)) in Hn. rewrite bs_sb in Hn.
  rewrite <- Hn at 2. cbn [vault_request Client.h_URL]. unfold metaPath. rewrite He. by rewrite <- !app_assoc.
Qed.

(** The body of a write is read as the record. *)
Lemma post_reads rec : ValidUtf8 rec = true → read_json post_codec (record_body rec) = Some rec.
Proof.
  intros Hr. destruct (Unmarshal_Marshal post_codec 2 (λ s, ValidUtf8 s = true) rec) as (b & Hb & Hu); [|vm_compute; discriminate|exact Hr|].
  - apply one_field_law; [|done]. apply one_field_law; [|done]. apply string_law.
  - change (Marshal post_codec rec) with (Some (record_body rec)) in Hb. injection Hb as <-. exact Hu.
Qed.

Lemma read_answer_spec rec :
  ∀ data r, answered (Some (read_answer rec)) = Some (200, data) → read_json vault_read_codec data = Some r → r = rec.
Proof.
  intros data r. unfold read_answer. case_decide as Hd; [|done].
  cbn [answered]. intros Ha Hr. assert (data = limited vaultMaxBody (read_body rec)) as -> by congruence. congruence.
Qed.

Lemma read_answer_found rec data : answered (Some (read_answer rec)) ≠ Some (404, data).
Proof. unfold read_answer. case_decide; cbn [answered]; congruence. Qed.

#[local] Arguments read_answer : simpl never.
#[local] Arguments answered : simpl never.

#[local] Program Instance server_kv : VaultKV server := { kv_records _ := sv_entries }.
Next Obligation.
  intros v token base name rec n _ Hn Hr. cbn [vault_do server_host]. unfold vault_server. rewrite data_segment by done.
  change (Client.h_Body (vault_request v token base B["POST"] (dataPath v name) (Some (record_body rec)))) with (record_body rec).
  rewrite post_reads by done. by left.
Qed.
Next Obligation.
  intros v token base name n _ Hn. cbn [vault_do server_host]. unfold vault_server. rewrite data_segment by done.
  cbn [Client.h_Method vault_request]. destruct (sv_entries n !! name) as [rec|] eqn:E; simpl; (split; [done|]); split.
  - intros data r Ha Hr _. f_equal. symmetry. by eapply read_answer_spec.
  - intros [data Ha]. by apply read_answer_found in Ha.
  - done.
  - done.
Qed.
Next Obligation.
  intros v token base name n _ Hn. cbn [vault_do server_host]. unfold vault_server. rewrite meta_segment by done.
  cbn [Client.h_Method vault_request]. destruct (sv_entries n !! name) as [rec|] eqn:E; simpl; (split; [done|]).
  - intros [data Ha]. by apply read_answer_found in Ha.
  - done.
Qed.
Next Obligation.
  intros v token base name n _ Hn. cbn [vault_do server_host]. unfold vault_server. rewrite meta_segment by done.
  cbn [Client.h_Method vault_request]. destruct (sv_entries n !! name) as [rec|] eqn:E; simpl.
  - split_and!; [done|by right|]. by intros [data Ha].
  - split_and!; [done|by left|done].
Qed.

(** * Runs *)

Definition empty_machine : machine := mkMachine ∅ ∅.

Definition sample_meta : Metadata :=
  mkMetadata "" [] RetentionUntilRevoked zero_time zero_time B["for tests"] SourceDrop true [] 0 [].

Definition sample_vault : Vault := mkVault B["https://vault.example.com/"] [] [] [] [].

Definition sample_gcp : GCP := mkGCP B["my-project"] [].
Definition sample_doppler : DopplerOptions := mkDoppler B["app"] B["dev"].

(** Distinct names can have one identifier in Secret Manager and one name in a
    key vault, and what is stored under the first is then overwritten or deleted
    under the second. *)
Example gcp_names_collide :
  (gcp_twin "prod.db", gcp_remote sample_gcp "prod.db", gcp_remote sample_gcp (gcp_twin "prod.db")) =
  ("prod-db-e06829dc"%string, Ok B["burndrop-prod-db-e06829dc"], Ok B["burndrop-prod-db-e06829dc"]).
Proof. vm_compute. reflexivity. Qed.

Example azure_names_collide :
  let z := mkAzure B["vault"] [] false in
  let twin := sb (azureMapName B["prod.db"]) in
  (twin ≠ "prod.db"%string) ∧ azure_remote z twin = azure_remote z "prod.db".
Proof. split; vm_compute; [discriminate|reflexivity]. Qed.

(** Storing under one of the two names replaces what the other one held. *)
Example gcp_overwrites :
  let t := mkTool sample_gcp empty_machine in
  let t := (b_Put "prod.db" B["first"] sample_meta t).1 in
  let '(t, r) := b_Put (gcp_twin "prod.db") B["second"] sample_meta t in
  (r, (b_Get "prod.db" t).2) = (Ok tt, Err ErrNotFound).
Proof. vm_compute. reflexivity. Qed.

(** The commands of a run, as other users of the machine see them. *)
Example doppler_commands :
  let '(w, r) := run (doppler_Put sample_doppler "api-key" B["hunter2"] sample_meta) empty_machine in
  (r, (map_to_list (mc_secrets w)).*1, i_args (doppler_invocation sample_doppler None (doppler_set_args (dopplerKey "api-key")))) =
  (Ok tt, [B["BURNDROP_API_KEY"]],
   [B["secrets"]; B["set"]; B["BURNDROP_API_KEY"]; B["--no-interactive"]; B["--silent"];
    B["--project"]; B["app"]; B["--config"]; B["dev"]; B["--no-check-version"]]).
Proof. vm_compute. reflexivity. Qed.

Lemma values_stay_off_command_lines_witness :
  zlen B["hunter22"] = zlen B["swordfis"] ∧
  same_commands (gcp_Put sample_gcp "api-key" B["hunter22"] sample_meta) (gcp_Put sample_gcp "api-key" B["swordfis"] sample_meta).
Proof.
  split; [reflexivity|].
  destruct (values_stay_off_command_lines "api-key" B["hunter22"] B["swordfis"] sample_meta) as [Hg _]; [reflexivity|].
  exact (Hg sample_gcp).
Defined.

Lemma temporary_files_are_removed_witness :
  files (run (aws_Put (mkAWS [] [] []) "api-key" B["hunter22"] sample_meta) empty_machine).1 = ∅.
Proof.
  destruct (temporary_files_are_removed "api-key" B["hunter22"] sample_meta empty_machine) as [Ha _].
  exact (Ha (mkAWS [] [] [])).
Defined.

Definition other_ops : list client_op :=
  [CPut "api.key" B["other"] sample_meta; CGet "api-key"; CDelete "api_key"].

Lemma sample_meta_text : meta_text_ok sample_meta.
Proof. vm_compute. repeat split; discriminate. Qed.

Lemma other_ops_text k v m : CPut k v m ∈ other_ops → meta_text_ok m.
Proof.
  intros Hin. unfold other_ops in Hin. rewrite !elem_of_cons, elem_of_nil in Hin.
  destruct Hin as [[= -> -> ->]|[?|[?|[]]]]; [apply sample_meta_text|done|done].
Qed.

Lemma other_ops_names o : o ∈ other_ops → op_name o ≠ "API-key"%string.
Proof.
  intros Hin. unfold other_ops in Hin. rewrite !elem_of_cons, elem_of_nil in Hin.
  destruct Hin as [->|[->|[->|[]]]]; simpl; discriminate.
Qed.

(** The other names of the run map to the same key in Doppler. *)
Example other_ops_collide : Forall (λ o, dopplerKey (op_name o) = dopplerKey "API-key") other_ops.
Proof. by repeat constructor. Qed.

Example vault_stores :
  let t := mkTool sample_vault (mkServer ∅) in
  let '(t, r) := b_Put "API-key" B["hunter22"] sample_meta t in
  (r, (b_Get "API-key" t).2, (b_Delete "API-key" t).2, (b_Get "other" t).2) =
  (Ok tt, Ok (B["hunter22"], stamp vault_Name "API-key" B["hunter22"] sample_meta), Ok tt, Err ErrNotFound).
Proof. vm_compute. reflexivity. Qed.

Lemma vendor_secrets_survive_witness :
  let t := mkTool sample_doppler empty_machine in
  (b_Put "API-key" B["hunter22"] sample_meta t).2 = Ok tt ∧
  match (b_Get "API-key" (foldl apply_op (b_Put "API-key" B["hunter22"] sample_meta t).1 other_ops)).2 with
  | Ok x => x = (B["hunter22"], stamp doppler_Name "API-key" B["hunter22"] sample_meta)
  | Err e => e ≠ ErrNotFound
  end.
Proof.
  split; [vm_compute; reflexivity|].
  destruct (vendor_secrets_survive "API-key" B["hunter22"] sample_meta empty_machine (mkServer ∅) other_ops) as [Hd _].
  - apply sample_meta_text.
  - apply other_ops_text.
  - apply other_ops_names.
  - refine (Hd sample_doppler _). vm_compute. reflexivity.
Defined.
